(** * Prompt Tower: selection tree, token-count scheduler and context assembler

    A shallow embedding of [src/providers/PromptTowerProvider.ts].

    - JavaScript strings are [string]; the [Map<string, FileItem>] of the
      provider is a [gmap string ref] over an explicit object heap, so that
      aliasing between the tree widget's objects and the map's objects is
      visible. The model iterates the map in the order of its keys, where
      the code's [Map] iterates in insertion order: what is stated about
      an iteration is stated about the list it yields, whatever its order;
    - numbers that only ever hold counters (token totals, the calculation
      version) are unbounded naturals [N]: the additions are exact below
      2^53, far beyond any reachable value;
    - asynchronous code is cut at its [await]s: every synchronous segment is
      a function on the provider state, and an event trace says in which
      order segments run;
    - the file system, the tokenizer and the user's answers are inputs. *)

From Stdlib Require Import Ascii String NArith.
From stdpp Require Import base option list strings pretty gmap fin_maps.

(** ** JavaScript strings *)

Module Js.

(** The one-character string holding a double quote (U+0022). *)
Definition dquote : string := String (ascii_of_nat 34) EmptyString.

Definition startsWith (s p : string) : bool := String.prefix p s.

Fixpoint drop (n : nat) (s : string) : string :=
  match n, s with
  | O, _ => s
  | S _, EmptyString => EmptyString
  | S k, String _ s' => drop k s'
  end.

Fixpoint take (n : nat) (s : string) : string :=
  match n, s with
  | O, _ => EmptyString
  | S _, EmptyString => EmptyString
  | S k, String c s' => String c (take k s')
  end.

Definition endsWith (s p : string) : bool :=
  (String.length p <=? String.length s)%nat
  && String.eqb (drop (String.length s - String.length p) s) p.

(** [GetSubstitution] of ECMAScript for a pattern without capture groups:
    in a replacement string, [$$] is a dollar, [$&] the matched text,
    [$`] the text before the match and [$'] the text after it; a dollar
    followed by anything else stands for itself. *)
Fixpoint getSubstitution (matched before after repl : string) : string :=
  match repl with
  | EmptyString => EmptyString
  | String c r =>
      if Ascii.eqb c "$"%char then
        match r with
        | String d r' =>
            if Ascii.eqb d "$"%char then
              String "$"%char (getSubstitution matched before after r')
            else if Ascii.eqb d "&"%char then
              matched +:+ getSubstitution matched before after r'
            else if Ascii.eqb d "`"%char then
              before +:+ getSubstitution matched before after r'
            else if Ascii.eqb d "'"%char then
              after +:+ getSubstitution matched before after r'
            else String c (getSubstitution matched before after r)
        | EmptyString => String c EmptyString
        end
      else String c (getSubstitution matched before after r)
  end.

(** [s.replace(/pat/g, repl)] for a regular expression that is the literal
    text [pat] (not empty): matches are found left to right in the original
    string and do not overlap; [seen] is the text already passed, [skip]
    counts the characters of the current match still to be consumed. *)
Fixpoint replaceFrom (pat repl seen : string) (skip : nat) (s : string) : string :=
  match s with
  | EmptyString => EmptyString
  | String c s' =>
      match skip with
      | S k => replaceFrom pat repl (seen +:+ String c EmptyString) k s'
      | O =>
          if String.prefix pat s then
            getSubstitution pat seen (drop (String.length pat) s) repl
            +:+ replaceFrom pat repl (seen +:+ String c EmptyString)
                  (String.length pat - 1) s'
          else
            String c (replaceFrom pat repl (seen +:+ String c EmptyString) O s')
      end
  end.

Definition replaceAll (pat repl s : string) : string :=
  replaceFrom pat repl EmptyString O s.

(** [s.replace(/\\/g, "/")]. *)
Fixpoint backslashesToSlashes (s : string) : string :=
  match s with
  | EmptyString => EmptyString
  | String c s' =>
      String (if Ascii.eqb c (ascii_of_nat 92) then "/"%char else c)
             (backslashesToSlashes s')
  end.

(** [xs.join(sep)]. *)
Fixpoint join (sep : string) (xs : list string) : string :=
  match xs with
  | [] => EmptyString
  | [x] => x
  | x :: rest => x +:+ sep +:+ join sep rest
  end.

End Js.

(** ** Node's [path] module, POSIX flavour, on normalized paths *)

Module Path.

(** [path.join(dir, name)] for a directory path without trailing slash and
    an entry name as [readdir] returns it. *)
Definition join (dir name : string) : string := dir +:+ "/" +:+ name.

(** Components of a path: the text between slashes, empty pieces dropped. *)
Fixpoint splitFrom (cur : string) (s : string) : list string :=
  match s with
  | EmptyString => if String.eqb cur EmptyString then [] else [cur]
  | String c s' =>
      if Ascii.eqb c "/"%char then
        (if String.eqb cur EmptyString then [] else [cur]) ++ splitFrom EmptyString s'
      else splitFrom (cur +:+ String c EmptyString) s'
  end.

Definition components (p : string) : list string := splitFrom EmptyString p.

Definition basename (p : string) : string :=
  List.last (components p) EmptyString.

(** Index of the last dot of [s] when counting from position [i]. *)
Fixpoint lastDot (i : nat) (s : string) : option nat :=
  match s with
  | EmptyString => None
  | String c s' =>
      match lastDot (S i) s' with
      | Some j => Some j
      | None => if Ascii.eqb c "."%char then Some i else None
      end
  end.

(** [path.extname]: from the last dot of the base name to its end; empty
    when there is no dot or the only dot is the first character. *)
Definition extname (p : string) : string :=
  let b := basename p in
  match lastDot 0 b with
  | Some (S i) => if String.eqb b ".." then EmptyString else Js.drop (S i) b
  | _ => EmptyString
  end.

(** [path.basename(p, ext)]. *)
Definition basenameWithout (p ext : string) : string :=
  let b := basename p in
  if Js.endsWith b ext && negb (String.eqb b ext)
  then Js.take (String.length b - String.length ext) b
  else b.

Fixpoint stripCommon (a b : list string) : list string * list string :=
  match a, b with
  | x :: a', y :: b' => if String.eqb x y then stripCommon a' b' else (a, b)
  | _, _ => (a, b)
  end.

(** [path.relative(from, to)] on absolute paths. *)
Definition relative (from to : string) : string :=
  let '(up, down) := stripCommon (components from) (components to) in
  Js.join "/" (List.map (fun _ => "..") up ++ down).

End Path.

(** ** Data model *)

(** What a rejected promise or a thrown exception carries: Node's error
    [code] (ENOENT, EACCES, ...) when there is one, and the message. *)
Record JsError := mkError { code : option string; message : string }.

Inductive Result (A : Type) : Type :=
| Ok (a : A)
| Err (e : JsError).
Arguments Ok {A} a.
Arguments Err {A} e.

(** [Promise.all] over already settled promises: the values in order, or
    the first rejection. *)
Fixpoint promiseAll {A : Type} (ps : list (Result A)) : Result (list A) :=
  match ps with
  | [] => Ok []
  | Err e :: _ => Err e
  | Ok a :: rest =>
      match promiseAll rest with
      | Ok l => Ok (a :: l)
      | Err e => Err e
      end
  end.

(** [vscode.TreeItemCollapsibleState], the two values the provider uses. *)
Inductive CollapsibleState := CollapsedState | NoneState.

Global Instance CollapsibleState_eq_dec : EqDecision CollapsibleState.
Proof. solve_decision. Defined.

(** Modelled from the spec: the class [FileItem] of [models/FileItem.ts] is
    not among the sources. A node has a display name, a kind (file or
    directory, carried by the collapsible state it is built with), its path
    and its checked flag; [contextValue] is the string the provider tests
    against ["file"] and ["folder"], and [updateCheckState] stores the flag. *)
Record FileItem := mkFileItem {
  label : string;
  collapsibleState : CollapsibleState;
  filePath : string;
  isChecked : bool
}.

Definition contextValue (it : FileItem) : string :=
  match collapsibleState it with
  | NoneState => "file"
  | CollapsedState => "folder"
  end.

Definition updateCheckState (checked : bool) (it : FileItem) : FileItem :=
  {| label := label it; collapsibleState := collapsibleState it;
     filePath := filePath it; isChecked := checked |}.

(** Modelled from the spec: the payload type of [models/EventEmitter.ts]
    (not among the sources), as [notifyTokenUpdate] builds it. *)
Record TokenUpdatePayload := mkPayload { count : N; isCounting : bool }.

(** Who called [notifyTokenUpdate]: a recompute run (numbered in the order
    the runs start) or [toggleAllFiles]. A label of the model only. *)
Inductive Publisher := ByRun (id : nat) | ByToggleAll.

Global Instance Publisher_eq_dec : EqDecision Publisher.
Proof. solve_decision. Defined.

(** Objects live in a heap and are named by their index. *)
Abbreviation ref := nat.

(** The provider's fields that the operations below read or write, followed
    by what the host keeps for it: the timers still armed, the events fired
    on the token emitter (oldest first) and the [readFile] calls issued by
    recompute runs. *)
Record Provider := mkProvider {
  heap : list FileItem;
  items : gmap string ref;
  totalTokenCount : N;
  isCountingTokens : bool;
  currentTokenCalculationVersion : N;
  debounceTimeout : option nat;
  pendingTimers : list nat;
  nextTimer : nat;
  fired : list (Publisher * TokenUpdatePayload);
  reads : list string
}.

Definition set_heap (h : list FileItem) (st : Provider) : Provider :=
  mkProvider h (items st) (totalTokenCount st) (isCountingTokens st)
    (currentTokenCalculationVersion st) (debounceTimeout st)
    (pendingTimers st) (nextTimer st) (fired st) (reads st).

Definition set_items (m : gmap string ref) (st : Provider) : Provider :=
  mkProvider (heap st) m (totalTokenCount st) (isCountingTokens st)
    (currentTokenCalculationVersion st) (debounceTimeout st)
    (pendingTimers st) (nextTimer st) (fired st) (reads st).

Definition set_totalTokenCount (n : N) (st : Provider) : Provider :=
  mkProvider (heap st) (items st) n (isCountingTokens st)
    (currentTokenCalculationVersion st) (debounceTimeout st)
    (pendingTimers st) (nextTimer st) (fired st) (reads st).

Definition set_isCountingTokens (b : bool) (st : Provider) : Provider :=
  mkProvider (heap st) (items st) (totalTokenCount st) b
    (currentTokenCalculationVersion st) (debounceTimeout st)
    (pendingTimers st) (nextTimer st) (fired st) (reads st).

Definition set_version (v : N) (st : Provider) : Provider :=
  mkProvider (heap st) (items st) (totalTokenCount st) (isCountingTokens st)
    v (debounceTimeout st)
    (pendingTimers st) (nextTimer st) (fired st) (reads st).

Definition set_timers (h : option nat) (pending : list nat) (next : nat)
    (st : Provider) : Provider :=
  mkProvider (heap st) (items st) (totalTokenCount st) (isCountingTokens st)
    (currentTokenCalculationVersion st) h pending next (fired st) (reads st).

Definition set_fired (l : list (Publisher * TokenUpdatePayload))
    (st : Provider) : Provider :=
  mkProvider (heap st) (items st) (totalTokenCount st) (isCountingTokens st)
    (currentTokenCalculationVersion st) (debounceTimeout st)
    (pendingTimers st) (nextTimer st) l (reads st).

Definition set_reads (l : list string) (st : Provider) : Provider :=
  mkProvider (heap st) (items st) (totalTokenCount st) (isCountingTokens st)
    (currentTokenCalculationVersion st) (debounceTimeout st)
    (pendingTimers st) (nextTimer st) (fired st) l.

(** The settings [loadConfig] reads once at start-up. *)
Record Config := mkConfig {
  workspaceRoot : string;
  excludedPatterns : list string;
  maxFileSizeWarningKB : N;
  blockTemplate : string;
  blockSeparator : string;
  outputExtension : string;
  wrapperTemplate : option string
}.

(** The file system as one synchronous segment of code sees it. *)
Record FsView := mkFsView {
  existsSync : string -> bool;
  statSize : string -> option N;      (* [stat(p).size] in bytes, [None]: stat fails *)
  readFile : string -> Result string
}.

(** The checked flag stored for a path, if the path is known. *)
Definition checkedAt (st : Provider) (p : string) : option bool :=
  r ← items st !! p; isChecked <$> heap st !! r.

(** The objects of the map, in the map's iteration order. *)
Definition itemValues (st : Provider) : list FileItem :=
  omap (fun pr => heap st !! pr.2) (map_to_list (items st)).

(** The paths [getCheckedFiles] asks the file system about: [&&] only
    reaches [fs.existsSync] for the checked file nodes. *)
Definition existenceChecks (st : Provider) : list string :=
  List.map filePath
    (List.filter
       (fun it => isChecked it && String.eqb (contextValue it) "file")
       (itemValues st)).

Definition getCheckedFiles (view : FsView) (st : Provider) : list string :=
  List.map filePath
    (List.filter
       (fun it => isChecked it && String.eqb (contextValue it) "file"
                  && existsSync view (filePath it))
       (itemValues st)).

(** ** The context assembler: [generateFile] *)

Section Assembler.
Variable cfg : Config.

(** The body of the callback mapped over the checked files. *)
Definition renderBlock (view : FsView) (fullFilePath : string) : Result string :=
  let relativePath := Path.relative (workspaceRoot cfg) fullFilePath in
  let fileNameWithExtension := Path.basename fullFilePath in
  let fileExtension := Path.extname fullFilePath in
  let fileName := Path.basenameWithout fullFilePath fileExtension in
  match readFile view fullFilePath with
  | Err e => Err e
  | Ok fileContent =>
      let formattedBlock := blockTemplate cfg in
      let sourcePath := "/" +:+ Js.backslashesToSlashes relativePath in
      let formattedBlock :=
        Js.replaceAll "{fileNameWithExtension}" fileNameWithExtension formattedBlock in
      let formattedBlock := Js.replaceAll "{rawFilePath}" sourcePath formattedBlock in
      let formattedBlock := Js.replaceAll "{fileName}" fileName formattedBlock in
      let formattedBlock := Js.replaceAll "{fileExtension}" fileExtension formattedBlock in
      let formattedBlock := Js.replaceAll "{fullPath}" fullFilePath formattedBlock in
      let formattedBlock := Js.replaceAll "{fileContent}" fileContent formattedBlock in
      Ok formattedBlock
  end.

(** What the user and the host answer during one [generateFile]. *)
Record GenerateEnv := mkGenerateEnv {
  inputBox : option string;          (* [None]: the box was dismissed *)
  timestamp : string;                (* [new Date().toISOString()] *)
  writeFileError : option JsError;   (* [Some]: [writeFile] rejects *)
  openError : option JsError         (* [Some]: opening the document fails *)
}.

(** What [generateFile] did: the message boxes it showed and the file it
    wrote. *)
Record GenerateOutcome := mkGenerateOutcome {
  warningShown : option string;
  errorShown : option string;
  written : option (string * string)   (* path and content *)
}.

Definition generateFile (view : FsView) (env : GenerateEnv) (st : Provider)
    : GenerateOutcome :=
  let checkedFiles := getCheckedFiles view st in
  match checkedFiles with
  | [] => mkGenerateOutcome (Some "No files selected!") None None
  | _ =>
      let fileCount := length checkedFiles in
      let fileNameRaw :=
        match inputBox env with
        | Some s => if String.eqb s "" then "context" else s
        | None => "context"
        end in
      let outputFileNameWithExtension := fileNameRaw +:+ "." +:+ outputExtension cfg in
      let outputPath := Path.join (workspaceRoot cfg) outputFileNameWithExtension in
      match promiseAll (List.map (renderBlock view) checkedFiles) with
      | Err e =>
          mkGenerateOutcome None (Some ("Error generating file: " +:+ message e)) None
      | Ok contents =>
          let joinedBlocks := Js.join (blockSeparator cfg) contents in
          let finalOutput :=
            match wrapperTemplate cfg with
            | Some w =>
                if String.eqb w "" then joinedBlocks
                else
                  let finalOutput := Js.replaceAll "{blocks}" joinedBlocks w in
                  let finalOutput := Js.replaceAll "{timestamp}" (timestamp env) finalOutput in
                  let finalOutput :=
                    Js.replaceAll "{fileCount}" (pretty fileCount) finalOutput in
                  let finalOutput :=
                    Js.replaceAll "{workspaceRoot}" (workspaceRoot cfg) finalOutput in
                  Js.replaceAll "{outputFileName}" outputFileNameWithExtension finalOutput
            | None => joinedBlocks
            end in
          match writeFileError env with
          | Some e =>
              mkGenerateOutcome None (Some ("Error generating file: " +:+ message e)) None
          | None =>
              match openError env with
              | Some e =>
                  mkGenerateOutcome None
                    (Some ("Error generating file: " +:+ message e))
                    (Some (outputPath, finalOutput))
              | None => mkGenerateOutcome None None (Some (outputPath, finalOutput))
              end
          end
      end
  end.

End Assembler.

(** ** The selection tree *)

(** What [readdir] reports about an entry: [isFile()], [isDirectory()], or
    neither (a symbolic link, a socket, ...). *)
Inductive EntryKind := IsFile | IsDirectory | IsOther.

Global Instance EntryKind_eq_dec : EqDecision EntryKind.
Proof. solve_decision. Defined.

(** What the file system holds at a directory path when the code looks:
    nothing, something that is not a directory, a directory that cannot be
    read, or a listing. Each listed entry carries what will be found at its
    own path when a cascade descends into it. *)
Inductive DirState :=
| Missing
| NotADirectory
| ReadFails (e : JsError)
| Listing (entries : Dirents)
with Dirents :=
| DNil
| DCons (name : string) (kind : EntryKind) (sub : DirState) (rest : Dirents).

Scheme DirState_mut := Induction for DirState Sort Prop
  with Dirents_mut := Induction for Dirents Sort Prop.
Combined Scheme DirState_Dirents_ind from DirState_mut, Dirents_mut.

Definition collapsibleOf (kind : EntryKind) : CollapsibleState :=
  match kind with
  | IsDirectory => CollapsedState
  | _ => NoneState
  end.

Definition matchesPattern (fileName pattern : string) : bool :=
  if String.eqb pattern "" then false
  else if String.eqb fileName pattern then true
  else if Js.endsWith pattern "/"
          && String.eqb fileName (Js.take (String.length pattern - 1) pattern)
       then true
  else if Js.startsWith pattern "*." then Js.endsWith fileName (Js.drop 1 pattern)
  else false.

Definition notifyTokenUpdate (who : Publisher) (st : Provider) : Provider :=
  set_fired
    (fired st ++ [(who, mkPayload (totalTokenCount st) (isCountingTokens st))]) st.

(** [clearTimeout] on the stored handle, the version bump, [setTimeout].
    Time itself is not modelled: [delay] only decides when the host lets the
    armed timer fire. *)
Definition debouncedUpdateTokenCount (delay : N) (st : Provider) : Provider :=
  let pending :=
    match debounceTimeout st with
    | Some h => List.filter (fun t => negb (Nat.eqb t h)) (pendingTimers st)
    | None => pendingTimers st
    end in
  let st := set_version (currentTokenCalculationVersion st + 1) st in
  let h := nextTimer st in
  set_timers (Some h) (pending ++ [h]) (S h) st.

Section Selection.
Variable cfg : Config.

Definition excluded (name : string) : bool :=
  existsb (matchesPattern name) (excludedPatterns cfg).

(** [checkFileSize]: [true] when it throws "User cancelled large file
    selection". [confirm p] tells whether the user picks "Select Anyway"
    when asked about [p]. *)
Definition checkFileSize (view : FsView) (confirm : string -> bool)
    (path : string) : bool :=
  match statSize view path with
  | Some size =>
      if (maxFileSizeWarningKB cfg * 1024 <? size)%N then negb (confirm path)
      else false
  | None => false
  end.

(** "Find or create item" of [toggleDirectoryChildren]. *)
Definition setOrCreate (name : string) (kind : EntryKind) (path : string)
    (checked : bool) (st : Provider) : Provider :=
  match items st !! path with
  | None =>
      let r := length (heap st) in
      set_items (<[path := r]> (items st))
        (set_heap (heap st ++ [mkFileItem name (collapsibleOf kind) path checked]) st)
  | Some r =>
      set_items (<[path := r]> (items st))
        (set_heap (alter (updateCheckState checked) r (heap st)) st)
  end.

Fixpoint toggleDirectoryChildren (view : FsView) (confirm : string -> bool)
    (ds : DirState) (dirPath : string) (checked : bool) (st : Provider)
    : Provider * bool :=
  match ds with
  | Listing entries => toggleEntries view confirm entries dirPath checked false st
  | _ => (st, false)
  end
with toggleEntries (view : FsView) (confirm : string -> bool)
    (es : Dirents) (dirPath : string) (checked : bool)
    (userCancelledSomewhere : bool) (st : Provider) : Provider * bool :=
  match es with
  | DNil => (st, userCancelledSomewhere)
  | DCons name kind sub rest =>
      if excluded name then
        toggleEntries view confirm rest dirPath checked userCancelledSomewhere st
      else
        let filePath := Path.join dirPath name in
        let fileSpecificCancellation :=
          checked && bool_decide (kind = IsFile)
          && checkFileSize view confirm filePath in
        let st :=
          setOrCreate name kind filePath
            (if fileSpecificCancellation then false else checked) st in
        let '(st, childCancelled) :=
          if bool_decide (kind = IsDirectory)
          then toggleDirectoryChildren view confirm sub filePath checked st
          else (st, false) in
        toggleEntries view confirm rest dirPath checked
          (userCancelledSomewhere || fileSpecificCancellation || childCancelled) st
  end.

(** [toggleCheck(item)], with [item] the object at [r] and [ds] what is
    found at its path if it is a folder. The awaits inside are not cut: one
    toggle runs against one snapshot of the file system. The result is the
    provider; the call of [savePersistedState] that precedes the trigger of
    the recompute writes none of its fields, and what it stores is
    [savePersistedState] of the result (the trigger changes neither the
    heap nor the map). *)
Definition toggleCheck (view : FsView) (confirm : string -> bool)
    (ds : DirState) (r : ref) (st : Provider) : Provider :=
  match heap st !! r with
  | None => st
  | Some item =>
      let originalState := isChecked item in
      let userCancelled :=
        negb originalState && String.eqb (contextValue item) "file"
        && checkFileSize view confirm (filePath item) in
      let newState := if userCancelled then false else negb originalState in
      if negb (Bool.eqb newState originalState) || userCancelled then
        let st := set_heap (alter (updateCheckState newState) r (heap st)) st in
        let '(st, childrenCancelled) :=
          if String.eqb (contextValue item) "folder"
          then toggleDirectoryChildren view confirm ds (filePath item) newState st
          else (st, false) in
        let st := set_items (<[filePath item := r]> (items st)) st in
        if negb (Bool.eqb newState originalState) || childrenCancelled
        then debouncedUpdateTokenCount 300 st
        else st
      else st
  end.

(** [element?.isChecked ?? false]. *)
Definition parentChecked (element : option ref) (st : Provider) : bool :=
  match element with
  | Some r => match heap st !! r with Some el => isChecked el | None => false end
  | None => false
  end.

(** The loop of [getChildren] over the listed entries. Both branches build
    a new object; [children] collects the objects in listing order. *)
Fixpoint scanEntries (element : option ref) (dirPath : string) (es : Dirents)
    (children : list ref) (st : Provider) : Provider * list ref :=
  match es with
  | DNil => (st, children)
  | DCons name kind _ rest =>
      if excluded name then scanEntries element dirPath rest children st
      else
        let filePath := Path.join dirPath name in
        let r := length (heap st) in
        match items st !! filePath with
        | None =>
            let item :=
              mkFileItem name (collapsibleOf kind) filePath (parentChecked element st) in
            let st := set_items (<[filePath := r]> (items st))
                        (set_heap (heap st ++ [item]) st) in
            let st := if isChecked item then debouncedUpdateTokenCount 300 st else st in
            scanEntries element dirPath rest (children ++ [r]) st
        | Some old =>
            let kept :=
              match heap st !! old with Some o => isChecked o | None => false end in
            let newItem := mkFileItem name (collapsibleOf kind) filePath kept in
            let st := set_items (<[filePath := r]> (items st))
                        (set_heap (heap st ++ [newItem]) st) in
            scanEntries element dirPath rest (children ++ [r]) st
        end
  end.

(** [getChildren(element)]; [ds] is what is found at the directory's path.
    The final sort of the returned array (folders first, then
    [localeCompare] on labels) does not touch the map and is left out. The
    first component is the provider; where [readdir] fails with ENOENT
    the code calls [savePersistedState] after pruning the element, which
    writes none of the provider's fields and stores [savePersistedState]
    of that component. *)
Definition getChildren (element : option ref) (ds : DirState) (st : Provider)
    : Provider * list ref :=
  let elementPath :=
    match element with
    | Some r => filePath <$> heap st !! r
    | None => None
    end in
  let dirPath := default (workspaceRoot cfg) elementPath in
  let prune (st : Provider) :=
    match elementPath with
    | Some p => set_items (delete p (items st)) st
    | None => st
    end in
  match ds with
  | Missing | NotADirectory => (prune st, [])
  | ReadFails e =>
      if bool_decide (code e = Some "ENOENT") then (prune st, []) else (st, [])
  | Listing entries => scanEntries element dirPath entries [] st
  end.

End Selection.

(** ** What is persisted: [savePersistedState] *)

(** What [context.globalState] holds under the key [fileStates]: nothing,
    or a record of checked flags by path. *)
Abbreviation FileStates := (option (gmap string bool)).

(** [savePersistedState]: the value it hands to [globalState.update]. *)
Definition savePersistedState (persistState : bool) (view : FsView)
    (st : Provider) : FileStates :=
  if negb persistState then None
  else
    Some (foldl (fun (state : gmap string bool) (pr : string * ref) =>
                   if existsSync view pr.1 then
                     match heap st !! pr.2 with
                     | Some item => <[pr.1 := isChecked item]> state
                     | None => state
                     end
                   else state)
                ∅ (map_to_list (items st))).

(** The paths [savePersistedState] asks [fs.existsSync] about: every key of
    the map while persistence is on, none otherwise. *)
Definition savedChecks (persistState : bool) (st : Provider) : list string :=
  if negb persistState then [] else List.map fst (map_to_list (items st)).

(** What one call of [savePersistedState] does outside the provider: the
    paths it asks the file system about and the value it stores. *)
Record SaveCall := mkSaveCall { asked : list string; stored : FileStates }.

(** [toggleAllFiles]: no size gate. With persistence on, the selection is
    saved before the count is touched; the second component is that call of
    [savePersistedState], if there is one. *)
Definition toggleAllFiles (persistState : bool) (view : FsView) (st : Provider)
    : Provider * option SaveCall :=
  let allChecked := forallb isChecked (itemValues st) in
  let newState := negb allChecked in
  let st :=
    set_heap
      (foldr (fun pr h => alter (updateCheckState newState) pr.2 h)
             (heap st) (map_to_list (items st))) st in
  let saved :=
    if persistState
    then Some (mkSaveCall (savedChecks persistState st)
                 (savePersistedState persistState view st))
    else None in
  (if negb newState then
     let st := set_version (currentTokenCalculationVersion st + 1) st in
     let st := set_totalTokenCount 0 st in
     let st := set_isCountingTokens false st in
     notifyTokenUpdate ByToggleAll st
   else debouncedUpdateTokenCount 300 st,
   saved).

(** ** The recompute scheduler: [updateTokenCount] cut at its awaits *)

(** Where a run is suspended: at [await readFile(filePath)] with the files
    still to visit after it, at the [await] that yields every 50 files, or
    nowhere because it has returned. *)
Inductive Suspended :=
| AwaitRead (filePath : string) (rest : list string)
| AwaitYield (rest : list string)
| Returned.

(** The locals of one call of [updateTokenCount]. *)
Record Run := mkRun {
  calculationVersion : N;
  checkedFiles : list string;
  runningTokenCount : N;
  filesProcessed : N;
  suspended : Suspended
}.

Definition set_suspended (s : Suspended) (run : Run) : Run :=
  mkRun (calculationVersion run) (checkedFiles run) (runningTokenCount run)
    (filesProcessed run) s.

Definition stale (run : Run) (st : Provider) : bool :=
  negb (calculationVersion run =? currentTokenCalculationVersion st)%N.

Section Scheduler.
(** [encode(content).length], or what [encode] throws. *)
Variable encodeLength : string -> Result N.

(** The [finally] block. *)
Definition finallyBlock (id : nat) (run : Run) (st : Provider) : Provider :=
  if stale run st then st
  else notifyTokenUpdate (ByRun id) (set_isCountingTokens false st).

(** The inner [catch]: only ENOENT changes anything (the map entry goes). *)
Definition catchFileError (e : JsError) (filePath : string) (st : Provider) : Provider :=
  if bool_decide (code e = Some "ENOENT")
  then set_items (delete filePath (items st)) st
  else st.

(** From the head of the [for] loop with [rest] still to visit, up to the
    next await or the return. *)
Fixpoint loopFrom (view : FsView) (id : nat) (run : Run) (rest : list string)
    (st : Provider) : Provider * Run :=
  match rest with
  | [] =>
      if stale run st then (finallyBlock id run st, set_suspended Returned run)
      else
        let st := set_totalTokenCount (runningTokenCount run) st in
        let st := set_isCountingTokens false st in
        (finallyBlock id run st, set_suspended Returned run)
  | filePath :: rest' =>
      if stale run st then (finallyBlock id run st, set_suspended Returned run)
      else if negb (existsSync view filePath) then
        loopFrom view id run rest' (set_items (delete filePath (items st)) st)
      else
        (set_reads (reads st ++ [filePath]) st,
         set_suspended (AwaitRead filePath rest') run)
  end.

(** [updateTokenCount()] from its first line to its first await (or its
    return); [id] numbers the call. *)
Definition updateTokenCount (view : FsView) (id : nat) (st : Provider)
    : Provider * Run :=
  let calculationVersion := currentTokenCalculationVersion st in
  let checkedFiles := getCheckedFiles view st in
  let run := mkRun calculationVersion checkedFiles 0 0 Returned in
  match checkedFiles with
  | [] =>
      if stale run st then (st, run)
      else
        let st := set_totalTokenCount 0 st in
        let st := set_isCountingTokens false st in
        (notifyTokenUpdate (ByRun id) st, run)
  | _ =>
      let st := set_isCountingTokens true st in
      let st := notifyTokenUpdate (ByRun id) st in
      loopFrom view id run checkedFiles st
  end.

(** A suspended run is resumed: its promise has settled. *)
Definition resume (view : FsView) (id : nat) (run : Run) (st : Provider)
    : Provider * Run :=
  match suspended run with
  | AwaitRead filePath rest =>
      match readFile view filePath with
      | Ok content =>
          match encodeLength content with
          | Ok tokens =>
              let run :=
                mkRun (calculationVersion run) (checkedFiles run)
                  (runningTokenCount run + tokens) (filesProcessed run + 1)
                  (suspended run) in
              if (filesProcessed run mod 50 =? 0)%N
              then (st, set_suspended (AwaitYield rest) run)
              else loopFrom view id run rest st
          | Err e => loopFrom view id run rest (catchFileError e filePath st)
          end
      | Err e => loopFrom view id run rest (catchFileError e filePath st)
      end
  | AwaitYield rest =>
      if stale run st then (finallyBlock id run st, set_suspended Returned run)
      else loopFrom view id run rest st
  | Returned => (st, run)
  end.

(** *** The provider and its runs under the host's event loop *)

Record System := mkSystem { prov : Provider; runs : list Run }.

(** What the host may do next. Every event runs one synchronous segment. *)
Inductive Event :=
| EInvalidate (delay : N)                 (* [debouncedUpdateTokenCount(delay)] *)
| ETimer (h : nat) (view : FsView)        (* armed timer [h] fires *)
| EResume (id : nat) (view : FsView)      (* the await of run [id] settles *)
| EToggleAllFiles (persistState : bool) (view : FsView)
| EToggleCheck (cfg : Config) (view : FsView) (confirm : string -> bool)
    (ds : DirState) (r : ref)
| EGetChildren (cfg : Config) (element : option ref) (ds : DirState).

Definition step (s : System) (e : Event) : System :=
  match e with
  | EInvalidate delay => mkSystem (debouncedUpdateTokenCount delay (prov s)) (runs s)
  | ETimer h view =>
      if bool_decide (h ∈ pendingTimers (prov s)) then
        let st :=
          set_timers (debounceTimeout (prov s))
            (List.filter (fun t => negb (Nat.eqb t h)) (pendingTimers (prov s)))
            (nextTimer (prov s)) (prov s) in
        let '(st, run) := updateTokenCount view (length (runs s)) st in
        mkSystem st (runs s ++ [run])
      else s
  | EResume id view =>
      match runs s !! id with
      | Some run =>
          let '(st, run) := resume view id run (prov s) in
          mkSystem st (<[id := run]> (runs s))
      | None => s
      end
  | EToggleAllFiles persistState view =>
      mkSystem (toggleAllFiles persistState view (prov s)).1 (runs s)
  | EToggleCheck cfg view confirm ds r =>
      mkSystem (toggleCheck cfg view confirm ds r (prov s)) (runs s)
  | EGetChildren cfg element ds =>
      mkSystem (getChildren cfg element ds (prov s)).1 (runs s)
  end.

Definition exec (evs : list Event) (s : System) : System := foldl step s evs.

(** The provider as its constructor leaves it when nothing was persisted:
    empty map, and one timer armed by [debouncedUpdateTokenCount(100)]. *)
Definition initial : System :=
  mkSystem
    (debouncedUpdateTokenCount 100
       (mkProvider [] ∅ 0 false 0 None [] 0 [] []))
    [].

(** What run [id] has fired on the emitter so far. *)
Definition publishedBy (id : nat) (st : Provider) : list TokenUpdatePayload :=
  List.map snd (List.filter (fun e => bool_decide (e.1 = ByRun id)) (fired st)).

End Scheduler.

(** ** Predicates and measures used to state the properties *)

Abbreviation ver st := (currentTokenCalculationVersion st).

(** What a recompute run never touches. *)
Definition runFrame (st st' : Provider) : Prop :=
  heap st' = heap st /\ ver st' = ver st
  /\ debounceTimeout st' = debounceTimeout st
  /\ pendingTimers st' = pendingTimers st
  /\ nextTimer st' = nextTimer st.

(** How a loop segment of a run that is still current ends: it returns
    after publishing its total, or it is suspended at a read without having
    published anything. *)
Definition segmentOutcome (id : nat) (run : Run) (st : Provider)
    (res : Provider * Run) : Prop :=
  runFrame st res.1
  /\ ((res.2 = set_suspended Returned run
       /\ fired res.1
          = fired st ++ [(ByRun id, mkPayload (runningTokenCount run) false)]
       /\ totalTokenCount res.1 = runningTokenCount run
       /\ isCountingTokens res.1 = false
       /\ reads res.1 = reads st)
      \/ (exists f rest', res.2 = set_suspended (AwaitRead f rest') run
          /\ fired res.1 = fired st
          /\ totalTokenCount res.1 = totalTokenCount st
          /\ isCountingTokens res.1 = isCountingTokens st
          /\ reads res.1 = reads st ++ [f])).

(** A step of the run that is still current: it keeps its version, and it
    publishes exactly when it returns, once, with its running total. *)
Definition currentStep (id : nat) (run : Run) (st : Provider)
    (res : Provider * Run) : Prop :=
  runFrame st res.1
  /\ calculationVersion res.2 = calculationVersion run
  /\ checkedFiles res.2 = checkedFiles run
  /\ match suspended run with
     | Returned => res = (st, run)
     | _ =>
         match suspended res.2 with
         | Returned =>
             fired res.1
             = fired st ++ [(ByRun id, mkPayload (runningTokenCount res.2) false)]
             /\ totalTokenCount res.1 = runningTokenCount res.2
             /\ isCountingTokens res.1 = false
         | _ =>
             fired res.1 = fired st
             /\ totalTokenCount res.1 = totalTokenCount st
             /\ isCountingTokens res.1 = isCountingTokens st
         end
     end.

Section Measures.
Variable encodeLength : string -> Result N.

(** What a file adds to the running total when its read settles: the
    tokenizer's count, or nothing when the read or the tokenizer fails. *)
Definition tokensOf (view : FsView) (f : string) : N :=
  match readFile view f with
  | Ok content =>
      match encodeLength content with
      | Ok tokens => tokens
      | Err _ => 0
      end
  | Err _ => 0
  end.

(** The same for a file still ahead in the loop, which is skipped when it
    no longer exists. *)
Definition contribution (view : FsView) (f : string) : N :=
  if existsSync view f then tokensOf view f else 0%N.

Definition sumN (l : list N) : N := foldr N.add 0%N l.

(** What the files a run has not finished with will still add. *)
Definition pendingTokens (view : FsView) (run : Run) : N :=
  match suspended run with
  | AwaitRead f rest => tokensOf view f + sumN (List.map (contribution view) rest)
  | AwaitYield rest => sumN (List.map (contribution view) rest)
  | Returned => 0
  end.

(** The read of [f] fails because the file is gone. *)
Definition goneAtRead (view : FsView) (f : string) : bool :=
  match readFile view f with
  | Err e => bool_decide (code e = Some "ENOENT")
  | Ok _ => false
  end.

(** [f], still ahead in the loop, will be found missing by the existence
    check or by the read. *)
Definition gone (view : FsView) (f : string) : bool :=
  negb (existsSync view f) || goneAtRead view f.

(** The files a run has not finished with that it will find gone. *)
Definition goneAhead (view : FsView) (run : Run) : list string :=
  match suspended run with
  | AwaitRead f rest =>
      (if goneAtRead view f then [f] else []) ++ List.filter (gone view) rest
  | AwaitYield rest => List.filter (gone view) rest
  | Returned => []
  end.

(** The tokenizer's count for [f], when [f] can be read and tokenized. *)
Definition tokenCount (view : FsView) (f : string) : option N :=
  match readFile view f with
  | Ok content =>
      match encodeLength content with
      | Ok tokens => Some tokens
      | Err _ => None
      end
  | Err _ => None
  end.

End Measures.

(** How many more resumptions a run can take at most. *)
Definition stepsLeft (run : Run) : nat :=
  match suspended run with
  | AwaitRead _ rest => 2 * length rest + 2
  | AwaitYield rest => 2 * length rest + 1
  | Returned => 0
  end.

(** An operation that leaves everything but the heap and the map alone. *)
Definition selectionOnly (st st' : Provider) : Prop :=
  ver st' = ver st
  /\ debounceTimeout st' = debounceTimeout st
  /\ pendingTimers st' = pendingTimers st
  /\ nextTimer st' = nextTimer st
  /\ fired st' = fired st
  /\ totalTokenCount st' = totalTokenCount st
  /\ isCountingTokens st' = isCountingTokens st
  /\ reads st' = reads st.

(** At most one timer is armed, it is the one whose handle the provider
    holds, and the host has not handed out that handle again. *)
Definition timersCoalesced (st : Provider) : Prop :=
  pendingTimers st = []
  \/ exists h, pendingTimers st = [h] /\ debounceTimeout st = Some h
               /\ (h < nextTimer st)%nat.

(** How the scheduler's fields may move in one synchronous segment that is
    not a timer firing: the version never decreases, timers stay coalesced,
    the armed timers change only together with a version bump, and an
    armed timer is never left without a successor. *)
Definition schedStep (st st' : Provider) : Prop :=
  (ver st <= ver st')%N
  /\ (timersCoalesced st -> timersCoalesced st')
  /\ (pendingTimers st' = pendingTimers st \/ (ver st < ver st')%N)
  /\ (pendingTimers st <> [] -> pendingTimers st' <> []).

(** A segment that fires nothing on the emitter and reads no file. *)
Definition quietStep (st st' : Provider) : Prop :=
  fired st' = fired st
  /\ totalTokenCount st' = totalTokenCount st
  /\ isCountingTokens st' = isCountingTokens st
  /\ reads st' = reads st
  /\ schedStep st st'.

Definition isResume (e : Event) : bool :=
  match e with
  | EResume _ _ => true
  | _ => false
  end.


(** No run carries a version from the future. *)
Definition runsNotAhead (s : System) : Prop :=
  forall j r, runs s !! j = Some r -> (calculationVersion r <= ver (prov s))%N.

(** Every run has been overtaken. *)
Definition allSuperseded (s : System) : Prop :=
  forall j r, runs s !! j = Some r -> (calculationVersion r < ver (prov s))%N.

(** The invariant of the scheduler: timers are coalesced, no run is ahead
    of the live version, every run is superseded while a timer is armed,
    and at most one run carries the live version. *)
Definition schedInv (s : System) : Prop :=
  timersCoalesced (prov s)
  /\ runsNotAhead s
  /\ (pendingTimers (prov s) <> [] -> allSuperseded s)
  /\ (forall i j ri rj, runs s !! i = Some ri -> runs s !! j = Some rj ->
        calculationVersion ri = ver (prov s) ->
        calculationVersion rj = ver (prov s) -> i = j).

(** Run [c] carries the live version and every other run is superseded;
    [F] is the emitter's log as long as [c] has not returned, and [c]'s
    return appends exactly one entry to it: its running total, not
    counting. *)
Definition currentRun (c : nat) (F : list (Publisher * TokenUpdatePayload))
    (s : System) : Prop :=
  (forall j r, runs s !! j = Some r -> j <> c ->
     (calculationVersion r < ver (prov s))%N)
  /\ exists rc, runs s !! c = Some rc
     /\ calculationVersion rc = ver (prov s)
     /\ match suspended rc with
        | Returned =>
            fired (prov s)
            = F ++ [(ByRun c, mkPayload (runningTokenCount rc) false)]
            /\ totalTokenCount (prov s) = runningTokenCount rc
            /\ isCountingTokens (prov s) = false
        | _ => fired (prov s) = F
        end.

(** Run [c] is resumed under the view [view] of the file system; nothing is
    asked of the other events. *)
Definition resumeWith (c : nat) (view : FsView) (e : Event) : Prop :=
  match e with
  | EResume j v => j = c -> v = view
  | _ => True
  end.

Section TraceMeasures.
Variable encodeLength : string -> Result N.

(** What run [c] has counted plus what is still ahead of it is [T]. *)
Definition sumInv (c : nat) (view : FsView) (T : N) (s : System) : Prop :=
  exists rc, runs s !! c = Some rc
    /\ (runningTokenCount rc + pendingTokens encodeLength view rc = T)%N.

(** Every file run [c] will find gone among [doomed] is either still ahead
    of it or already out of the map. *)
Definition pruneInv (c : nat) (view : FsView) (doomed : list string)
    (s : System) : Prop :=
  exists rc, runs s !! c = Some rc
    /\ forall g, In g doomed ->
         In g (goneAhead view rc) \/ items (prov s) !! g = None.

End TraceMeasures.

(** The files a run counts when it starts under [view0] and is then resumed
    under [view]: the first file of its list, which it was about to read
    when it was first suspended, and those of the others that still exist
    when the loop reaches them. *)
Definition visited (view0 view : FsView) (st : Provider) : list string :=
  match getCheckedFiles view0 st with
  | [] => []
  | f :: rest => f :: List.filter (existsSync view) rest
  end.

(** The "counting has started" event of run [c], fired unless no file is
    checked. *)
Definition announce (c : nat) (view : FsView) (st : Provider)
    : list (Publisher * TokenUpdatePayload) :=
  match getCheckedFiles view st with
  | [] => []
  | _ => [(ByRun c, mkPayload (totalTokenCount st) true)]
  end.

(** ** Predicates about the selection tree *)

(** The tree widget hands [getChildren] a live object, or nothing for the
    root. *)
Definition elementValid (element : option ref) (st : Provider) : Prop :=
  match element with
  | Some r => is_Some (heap st !! r)
  | None => True
  end.

(** Every map entry points to an object that carries the entry's key as
    its path: the map is only ever written as [items.set(x.filePath, x)]. *)
Definition itemsKeyed (st : Provider) : Prop :=
  forall p r, items st !! p = Some r ->
    exists o, heap st !! r = Some o /\ filePath o = p.

Section TreePredicates.
Variable cfg : Config.

(** The paths [getChildren] builds nodes for: the listed entries that no
    exclusion pattern matches. *)
Fixpoint listedPaths (dirPath : string) (es : Dirents) : list string :=
  match es with
  | DNil => []
  | DCons name _ _ rest =>
      if excluded cfg name then listedPaths dirPath rest
      else Path.join dirPath name :: listedPaths dirPath rest
  end.

(** The entries a cascade from [dirPath] reaches, in the order it reaches
    them, each with its path and kind: the entries no exclusion pattern
    matches, and below every such directory what is found there. *)
Fixpoint walk (ds : DirState) (dirPath : string) : list (string * EntryKind) :=
  match ds with
  | Listing entries => walkEntries entries dirPath
  | _ => []
  end
with walkEntries (es : Dirents) (dirPath : string) : list (string * EntryKind) :=
  match es with
  | DNil => []
  | DCons name kind sub rest =>
      if excluded cfg name then walkEntries rest dirPath
      else
        (Path.join dirPath name, kind)
        :: (if bool_decide (kind = IsDirectory)
            then walk sub (Path.join dirPath name) else [])
        ++ walkEntries rest dirPath
  end.

(** The size gate declines this entry when the cascade checks it on. *)
Definition declinedEntry (view : FsView) (confirm : string -> bool)
    (pk : string * EntryKind) : bool :=
  bool_decide (pk.2 = IsFile) && checkFileSize cfg view confirm pk.1.

(** The flag a cascade towards [checked] stores for an entry it reaches. *)
Definition targetState (view : FsView) (confirm : string -> bool)
    (checked : bool) (pk : string * EntryKind) : bool :=
  if checked && bool_decide (pk.2 = IsFile) && checkFileSize cfg view confirm pk.1
  then false else checked.

(** What a cascade over the entries [W] does, from [st] to [st']: the map
    stays keyed by the objects' paths; objects whose path is not among
    those of [W] are untouched; so are the map entries of such paths; and
    every path of [W] ends with the flag the cascade stores for one of the
    entries of [W] at that path. *)
Definition cascadePost (view : FsView) (confirm : string -> bool)
    (checked : bool) (W : list (string * EntryKind)) (st st' : Provider) : Prop :=
  itemsKeyed st'
  /\ (forall r o, heap st !! r = Some o -> ~ In (filePath o) (List.map fst W) ->
        heap st' !! r = Some o)
  /\ (forall p, ~ In p (List.map fst W) -> items st' !! p = items st !! p)
  /\ (forall p, In p (List.map fst W) ->
        exists k, In (p, k) W
                  /\ checkedAt st' p = Some (targetState view confirm checked (p, k))).

End TreePredicates.

(** What a scan that builds nodes for the paths [listed] may do, from [st]
    to [st']: objects are only added to the heap; map entries of other
    paths stay; every stored checked flag is kept; every listed path is
    mapped to an object that did not exist before; and a listed path that
    was unknown gets the parent's flag. *)
Definition scanPost (element : option ref) (listed : list string)
    (st st' : Provider) : Prop :=
  (exists news, heap st' = heap st ++ news)
  /\ (forall p, ~ In p listed -> items st' !! p = items st !! p)
  /\ (forall p b, checkedAt st p = Some b -> checkedAt st' p = Some b)
  /\ (forall p, In p listed ->
        exists r o, items st' !! p = Some r
                    /\ (length (heap st) <= r)%nat
                    /\ heap st' !! r = Some o
                    /\ filePath o = p)
  /\ (forall p, In p listed -> items st !! p = None ->
        checkedAt st' p = Some (parentChecked element st)).

(** [itemsKeyed], as a check that can be run on a concrete provider. *)
Definition itemsKeyedb (st : Provider) : bool :=
  forallb
    (fun pr : string * ref =>
       match heap st !! pr.2 with
       | Some o => String.eqb (filePath o) pr.1
       | None => false
       end)
    (map_to_list (items st)).

(** The objects the map holds for the paths of [W]. *)
Definition walkedRefs (W : list (string * EntryKind)) (st : Provider) : list ref :=
  omap (fun pk : string * EntryKind => items st !! pk.1) W.

(** [updateCheckState(b)] on each of the objects [refs], in order. *)
Definition setAll (b : bool) (refs : list ref) (h : list FileItem) : list FileItem :=
  foldl (fun h r => alter (updateCheckState b) r h) h refs.

(** The entries a toggle of [item] cascades to. *)
Definition reachedBy (cfg : Config) (ds : DirState) (item : FileItem)
    : list (string * EntryKind) :=
  match collapsibleState item with
  | CollapsedState => walk cfg ds (filePath item)
  | NoneState => []
  end.

(** The cascade a toggle of [item] runs, if [item] is a folder. *)
Definition cascadeFrom (cfg : Config) (view : FsView) (confirm : string -> bool)
    (ds : DirState) (item : FileItem) (checked : bool) (st : Provider) : Provider :=
  match collapsibleState item with
  | CollapsedState =>
      (toggleDirectoryChildren cfg view confirm ds (filePath item) checked st).1
  | NoneState => st
  end.

(** *** Listings as a file system produces them *)

Fixpoint slashFree (s : string) : bool :=
  match s with
  | EmptyString => true
  | String c s' => negb (Ascii.eqb c "/"%char) && slashFree s'
  end.

Fixpoint entryNames (es : Dirents) : list string :=
  match es with
  | DNil => []
  | DCons name _ _ rest => name :: entryNames rest
  end.

(** Entry names contain no slash and no directory lists a name twice. *)
Fixpoint wellFormed (ds : DirState) : bool :=
  match ds with
  | Listing entries => wellFormedEntries entries
  | _ => true
  end
with wellFormedEntries (es : Dirents) : bool :=
  match es with
  | DNil => true
  | DCons name _ sub rest =>
      slashFree name
      && negb (existsb (String.eqb name) (entryNames rest))
      && wellFormed sub
      && wellFormedEntries rest
  end.

(** ** Concrete inputs used by the examples *)

Definition newline : string := String (ascii_of_nat 10) EmptyString.

(** The block template of the round-trip property:
    [<file name="{fileNameWithExtension}">{fileContent}</file>]. *)
Definition roundTripTemplate : string :=
  "<file name=" +:+ Js.dquote +:+ "{fileNameWithExtension}" +:+ Js.dquote
  +:+ ">{fileContent}</file>".

Definition roundTripConfig : Config :=
  mkConfig "/ws" [".git"; "node_modules"; ".vscode"; "dist"; "out"] 500
    roundTripTemplate newline "txt" None.

(** A file system holding [/ws/src/a.ts] with the given content. *)
Definition oneFileView (content : string) : FsView :=
  mkFsView (fun p => String.eqb p "/ws/src/a.ts")
           (fun p => if String.eqb p "/ws/src/a.ts" then Some 1%N else None)
           (fun p => if String.eqb p "/ws/src/a.ts" then Ok content
                     else Err (mkError (Some "ENOENT") "no such file")).

(** A provider that knows [/ws/src/a.ts], checked. *)
Definition oneCheckedFile : Provider :=
  mkProvider [mkFileItem "a.ts" NoneState "/ws/src/a.ts" true]
    {["/ws/src/a.ts" := 0%nat]} 0 false 0 None [] 0 [] [].

Definition unreadableView : FsView :=
  mkFsView (fun _ => true) (fun _ => Some 1%N)
           (fun _ => Err (mkError (Some "EACCES") "permission denied")).

(** A tokenizer for the examples: one token per character. *)
Definition charTokenizer (s : string) : Result N := Ok (N.of_nat (String.length s)).

(** A tokenizer that rejects long inputs. *)
Definition pickyTokenizer (s : string) : Result N :=
  if (String.length s <=? 4)%nat then Ok (N.of_nat (String.length s))
  else Err (mkError None "input is too large").

(** [/ws/a.ts] holds [hello] and [/ws/b.ts] holds [hi!]. *)
Definition twoFilesView : FsView :=
  mkFsView (fun p => String.eqb p "/ws/a.ts" || String.eqb p "/ws/b.ts")
           (fun p => if String.eqb p "/ws/a.ts" then Some 5%N
                     else if String.eqb p "/ws/b.ts" then Some 3%N else None)
           (fun p => if String.eqb p "/ws/a.ts" then Ok "hello"
                     else if String.eqb p "/ws/b.ts" then Ok "hi!"
                     else Err (mkError (Some "ENOENT") "no such file")).

(** Later [/ws/b.ts] has been deleted. *)
Definition bGoneView : FsView :=
  mkFsView (fun p => String.eqb p "/ws/a.ts")
           (fun p => if String.eqb p "/ws/a.ts" then Some 5%N else None)
           (fun p => if String.eqb p "/ws/a.ts" then Ok "hello"
                     else Err (mkError (Some "ENOENT") "no such file")).

(** Both files known and checked; nothing else has happened yet. *)
Definition twoFiles : Provider :=
  mkProvider
    [mkFileItem "a.ts" NoneState "/ws/a.ts" true;
     mkFileItem "b.ts" NoneState "/ws/b.ts" true]
    (<["/ws/a.ts" := 0%nat]> {["/ws/b.ts" := 1%nat]})
    0 false 0 None [] 0 [] [].

(** ... and one debounce timer armed. *)
Definition twoFilesArmed : System :=
  mkSystem (debouncedUpdateTokenCount 100 twoFiles) [].

(** Run 0 has started on the two files and has read the first one. *)
Definition runAReading : System :=
  exec charTokenizer [ETimer 0 twoFilesView; EResume 0 twoFilesView] twoFilesArmed.

(** Then the selection is invalidated, the new timer starts run 1, and both
    runs are resumed until they have returned. *)
Definition runBFinished : System :=
  exec charTokenizer
    (EInvalidate 300
     :: [EResume 0 twoFilesView]
        ++ ETimer 1 twoFilesView
           :: [EResume 1 twoFilesView; EResume 0 twoFilesView; EResume 1 twoFilesView])
    runAReading.

(** Five checked files, one timer armed. *)
Definition fiveFiles : Provider :=
  mkProvider
    [mkFileItem "a.ts" NoneState "/ws/a.ts" true;
     mkFileItem "b.ts" NoneState "/ws/b.ts" true;
     mkFileItem "big.ts" NoneState "/ws/big.ts" true;
     mkFileItem "gone.ts" NoneState "/ws/gone.ts" true;
     mkFileItem "z.ts" NoneState "/ws/z.ts" true]
    (<["/ws/a.ts" := 0%nat]> (<["/ws/b.ts" := 1%nat]> (<["/ws/big.ts" := 2%nat]>
       (<["/ws/gone.ts" := 3%nat]> {["/ws/z.ts" := 4%nat]}))))
    0 false 0 None [] 0 [] [].

Definition fiveFilesArmed : System :=
  mkSystem (debouncedUpdateTokenCount 100 fiveFiles) [].

(** All five files are there when the run starts. *)
Definition allThereView : FsView :=
  mkFsView (fun _ => true) (fun _ => Some 1%N) (fun _ => Ok "x").

(** Later the read of [gone.ts] fails with ENOENT, the read of [a.ts] is
    refused, [z.ts] no longer exists, [big.ts] holds ten characters and
    [b.ts] three. *)
Definition laterView : FsView :=
  mkFsView (fun p => negb (String.eqb p "/ws/z.ts"))
           (fun _ => Some 1%N)
           (fun p => if String.eqb p "/ws/gone.ts"
                     then Err (mkError (Some "ENOENT") "no such file or directory")
                     else if String.eqb p "/ws/a.ts"
                     then Err (mkError (Some "EACCES") "permission denied")
                     else if String.eqb p "/ws/big.ts" then Ok "0123456789"
                     else Ok "hi!").

(** The run has started and waits for its first read. *)
Definition fiveFilesStarted : System :=
  step pickyTokenizer fiveFilesArmed (ETimer 0 allThereView).

(** The first run on the two files, resumed until it has returned. *)
Definition twoFilesCounted : System :=
  exec charTokenizer
    (ETimer 0 twoFilesView :: [EResume 0 twoFilesView; EResume 0 twoFilesView])
    twoFilesArmed.

(** The first run on the two files when [/ws/b.ts] is deleted while
    [/ws/a.ts] is being read. *)
Definition twoFilesOneLeft : System :=
  exec charTokenizer [ETimer 0 twoFilesView; EResume 0 bGoneView] twoFilesArmed.

(** The run on the five files, resumed five times against [laterView]. *)
Definition fiveFilesCounted : System :=
  exec pickyTokenizer (repeat (EResume 0 laterView) 5) fiveFilesStarted.

(** A burst: between two invalidations the selection is cleared and then
    set again, so that both files are checked at its end. *)
Definition burst : list Event :=
  [EInvalidate 300; EToggleAllFiles true twoFilesView;
   EToggleAllFiles true twoFilesView; EInvalidate 300].

(** After the burst its timer fires and the run it starts is resumed until
    it has returned. *)
Definition burstCounted : System :=
  exec charTokenizer
    (ETimer 3 twoFilesView :: [EResume 0 twoFilesView; EResume 0 twoFilesView])
    (exec charTokenizer burst twoFilesArmed).

(** The folder [/ws/src], checked, with one known file that is unchecked. *)
Definition srcKnown : Provider :=
  mkProvider
    [mkFileItem "src" CollapsedState "/ws/src" true;
     mkFileItem "a.ts" NoneState "/ws/src/a.ts" false]
    (<["/ws/src" := 0%nat]> {["/ws/src/a.ts" := 1%nat]})
    0 false 0 None [] 0 [] [].

(** What [readdir] now lists in [/ws/src]. *)
Definition srcListing : Dirents :=
  DCons "a.ts" IsFile Missing
    (DCons "b.ts" IsFile Missing
       (DCons "node_modules" IsDirectory (Listing DNil) DNil)).

(** The folder [/ws/d] is known and unchecked, and so is its file [a.ts]. *)
Definition folderKnown : Provider :=
  mkProvider
    [mkFileItem "d" CollapsedState "/ws/d" false;
     mkFileItem "a.ts" NoneState "/ws/d/a.ts" false]
    (<["/ws/d" := 0%nat]> {["/ws/d/a.ts" := 1%nat]})
    0 false 0 None [] 0 [] [].

(** On disk [/ws/d] holds [a.ts], [big.bin], the folder [sub] with [c.ts],
    and [node_modules], which the default patterns exclude. *)
Definition folderOnDisk : DirState :=
  Listing
    (DCons "a.ts" IsFile Missing
       (DCons "big.bin" IsFile Missing
          (DCons "sub" IsDirectory (Listing (DCons "c.ts" IsFile Missing DNil))
             (DCons "node_modules" IsDirectory
                (Listing (DCons "x.js" IsFile Missing DNil)) DNil)))).

(** The folder [/ws/d], its folder [sub] and the file [c.ts] in it are
    known and unchecked. *)
Definition subKnown : Provider :=
  mkProvider
    [mkFileItem "d" CollapsedState "/ws/d" false;
     mkFileItem "sub" CollapsedState "/ws/d/sub" false;
     mkFileItem "c.ts" NoneState "/ws/d/sub/c.ts" false]
    (<["/ws/d" := 0%nat]> (<["/ws/d/sub" := 1%nat]> {["/ws/d/sub/c.ts" := 2%nat]}))
    0 false 0 None [] 0 [] [].

(** On disk [/ws/d] holds [a.ts], [big.bin] and the folder [sub], which
    cannot be read. *)
Definition lockedSubOnDisk : DirState :=
  Listing
    (DCons "a.ts" IsFile Missing
       (DCons "big.bin" IsFile Missing
          (DCons "sub" IsDirectory
             (ReadFails (mkError (Some "EACCES") "permission denied")) DNil))).

(** [big.bin] is larger than the 500 KB threshold, the rest is small. *)
Definition folderView : FsView :=
  mkFsView (fun _ => true)
           (fun p => if String.eqb p "/ws/d/big.bin" then Some 600000%N
                     else Some 10%N)
           (fun p => if String.eqb p "/ws/d/big.bin" then Ok "0123456789"
                     else Ok "hi!").

(** The user answers "Cancel" to every size warning. *)
Definition alwaysCancel (p : string) : bool := false.

(** The user answers "Select Anyway" to every size warning. *)
Definition alwaysSelect (p : string) : bool := true.

(** The folder [/ws/d] is unchecked; of its two files, [a.ts] is checked
    and [b.ts] is not. *)
Definition mixedFolder : Provider :=
  mkProvider
    [mkFileItem "d" CollapsedState "/ws/d" false;
     mkFileItem "a.ts" NoneState "/ws/d/a.ts" true;
     mkFileItem "b.ts" NoneState "/ws/d/b.ts" false]
    (<["/ws/d" := 0%nat]> (<["/ws/d/a.ts" := 1%nat]> {["/ws/d/b.ts" := 2%nat]}))
    0 false 0 None [] 0 [] [].

Definition mixedDisk : DirState :=
  Listing (DCons "a.ts" IsFile Missing (DCons "b.ts" IsFile Missing DNil)).

(** Both files are small; [a.ts] holds [hello] and [b.ts] holds [hi!]. *)
Definition mixedView : FsView :=
  mkFsView (fun _ => true) (fun _ => Some 10%N)
           (fun p => if String.eqb p "/ws/d/a.ts" then Ok "hello" else Ok "hi!").

(** The first recompute has settled. *)
Definition mixedSettled : System :=
  exec charTokenizer [ETimer 0 mixedView; EResume 0 mixedView]
    (mkSystem (debouncedUpdateTokenCount 100 mixedFolder) []).

(** Then the folder is toggled twice and the recompute settles again. *)
Definition mixedToggledTwice : System :=
  exec charTokenizer
    [EToggleCheck roundTripConfig mixedView alwaysSelect mixedDisk 0;
     EToggleCheck roundTripConfig mixedView alwaysSelect mixedDisk 0;
     ETimer 2 mixedView; EResume 1 mixedView]
    mixedSettled.

(** The same folder with both files unchecked, like the folder itself. *)
Definition plainFolder : Provider :=
  mkProvider
    [mkFileItem "d" CollapsedState "/ws/d" false;
     mkFileItem "a.ts" NoneState "/ws/d/a.ts" false;
     mkFileItem "b.ts" NoneState "/ws/d/b.ts" false]
    (<["/ws/d" := 0%nat]> (<["/ws/d/a.ts" := 1%nat]> {["/ws/d/b.ts" := 2%nat]}))
    0 false 0 None [] 0 [] [].

(** ** The rest of the provider *)

From Stdlib Require Import Sorted.

(** *** What the webview asks for when it reports ready *)

Definition getCurrentTokenCount (st : Provider) : N := totalTokenCount st.

Definition getIsCounting (st : Provider) : bool := isCountingTokens st.

(** The payload of the last event fired on the token emitter; before the
    first event a listener still shows its initial [0], not counting. *)
Definition lastPayload (st : Provider) : TokenUpdatePayload :=
  match last (fired st) with
  | Some e => e.2
  | None => mkPayload 0 false
  end.

(** A run that carries the live version and has not returned. *)
Definition liveRun (s : System) : Prop :=
  exists i r, runs s !! i = Some r
              /\ stale r (prov s) = false /\ suspended r <> Returned.

(** A segment that bumps the version only by arming a timer. *)
Definition armingStep (st st' : Provider) : Prop :=
  ver st' = ver st \/ pendingTimers st' <> [].

(** The last event told the listeners what the getters return now. *)
Definition inSync (st : Provider) : Prop :=
  lastPayload st = mkPayload (getCurrentTokenCount st) (getIsCounting st).

(** The spinner is backed by something: while the provider says it is
    counting, a timer is armed or a live run is under way. *)
Definition countingJustified (s : System) : Prop :=
  isCountingTokens (prov s) = true ->
  pendingTimers (prov s) <> [] \/ liveRun s.

(** A trace from the start: the root is listed, everything is checked, and
    the timer armed by that starts a run. *)
Definition startCounting : list Event :=
  [EGetChildren roundTripConfig None (Listing (DCons "a.ts" IsFile Missing DNil));
   EToggleAllFiles true allThereView; ETimer 1 allThereView].

(** *** The persisted selection: [loadPersistedState], [refresh] and the
    constructor *)

(** One turn of the loop of [loadPersistedState] over the stored entries;
    [isDirectorySync p] is [fs.statSync(p).isDirectory()], or what
    [statSync] throws. *)
Definition loadEntry (view : FsView) (isDirectorySync : string -> Result bool)
    (st : Provider) (entry : string * bool) : Provider :=
  let '(filePath, isChecked) := entry in
  if existsSync view filePath then
    match isDirectorySync filePath with
    | Ok isDirectory =>
        let item :=
          mkFileItem (Path.basename filePath)
            (if isDirectory then CollapsedState else NoneState)
            filePath isChecked in
        set_items (<[filePath := length (heap st)]> (items st))
          (set_heap (heap st ++ [item]) st)
    | Err _ => st
    end
  else st.

Definition loadPersistedState (persistState : bool) (view : FsView)
    (isDirectorySync : string -> Result bool) (state : FileStates)
    (st : Provider) : Provider :=
  if negb persistState then set_items ∅ st
  else
    let st := set_items ∅ st in
    match state with
    | Some entries => foldl (loadEntry view isDirectorySync) st (map_to_list entries)
    | None => st
    end.

(** [refresh()]; the event it fires for the tree widget is not modelled. *)
Definition refresh (persistState : bool) (view : FsView)
    (isDirectorySync : string -> Result bool) (state : FileStates)
    (st : Provider) : Provider :=
  debouncedUpdateTokenCount 300
    (loadPersistedState persistState view isDirectorySync state
       (set_items ∅ st)).

(** The provider as its constructor leaves it: the stored selection is
    loaded and the first recompute is armed. *)
Definition construct (persistState : bool) (view : FsView)
    (isDirectorySync : string -> Result bool) (state : FileStates) : System :=
  mkSystem
    (debouncedUpdateTokenCount 100
       (loadPersistedState persistState view isDirectorySync state
          (mkProvider [] ∅ 0 false 0 None [] 0 [] [])))
    [].

(** A stored path that [loadPersistedState] turns into a node: it exists
    and [statSync] succeeds on it. *)
Definition loadable (view : FsView) (isDirectorySync : string -> Result bool)
    (p : string) : bool :=
  existsSync view p
  && match isDirectorySync p with Ok _ => true | Err _ => false end.

(** *** Settings: [loadConfig] and [getGitIgnorePatterns] *)

Module JsText.

(** A [string] stands for a JavaScript string whose code units are all
    below 256. Among those, [trim] removes the white space and line
    terminators of ECMAScript: TAB, LF, VT, FF, CR, space and the no-break
    space U+00A0. *)
Definition isWhiteSpace (c : ascii) : bool :=
  let n := nat_of_ascii c in
  (n =? 9)%nat || (n =? 10)%nat || (n =? 11)%nat || (n =? 12)%nat
  || (n =? 13)%nat || (n =? 32)%nat || (n =? 160)%nat.

Fixpoint trimStart (s : string) : string :=
  match s with
  | EmptyString => EmptyString
  | String c s' => if isWhiteSpace c then trimStart s' else s
  end.

Fixpoint trimEnd (s : string) : string :=
  match s with
  | EmptyString => EmptyString
  | String c s' =>
      match trimEnd s' with
      | EmptyString => if isWhiteSpace c then EmptyString else String c EmptyString
      | t => String c t
      end
  end.

(** [s.trim()]. *)
Definition trim (s : string) : string := trimEnd (trimStart s).

(** [s.split(/\r?\n/)]: the pieces between line feeds, a carriage return
    right before a line feed belonging to the separator; [cur] is the piece
    being read. *)
Fixpoint splitLinesFrom (cur : string) (s : string) : list string :=
  match s with
  | EmptyString => [cur]
  | String c s' =>
      if Ascii.eqb c (ascii_of_nat 10) then cur :: splitLinesFrom EmptyString s'
      else if Ascii.eqb c (ascii_of_nat 13) then
        match s' with
        | String d s'' =>
            if Ascii.eqb d (ascii_of_nat 10)
            then cur :: splitLinesFrom EmptyString s''
            else splitLinesFrom (cur +:+ String c EmptyString) s'
        | EmptyString => [cur +:+ String c EmptyString]
        end
      else splitLinesFrom (cur +:+ String c EmptyString) s'
  end.

Definition splitLines (s : string) : list string := splitLinesFrom EmptyString s.

(** [[...new Set(xs)]]: the elements of [xs] in the order of their first
    occurrence; [seen] holds what the set already contains. *)
Fixpoint uniqueFrom (seen : list string) (xs : list string) : list string :=
  match xs with
  | [] => []
  | x :: rest =>
      if bool_decide (x ∈ seen) then uniqueFrom seen rest
      else x :: uniqueFrom (x :: seen) rest
  end.

Definition unique (xs : list string) : list string := uniqueFrom [] xs.

End JsText.

(** [getGitIgnorePatterns]; [readFileSync] finds what [readFile] finds. *)
Definition getGitIgnorePatterns (workspaceRoot : string) (view : FsView)
    : list string :=
  let gitignorePath := Path.join workspaceRoot ".gitignore" in
  if existsSync view gitignorePath then
    match readFile view gitignorePath with
    | Ok content =>
        List.filter
          (fun line => negb (String.eqb line "") && negb (Js.startsWith line "#"))
          (List.map JsText.trim (JsText.splitLines content))
    | Err _ => []
    end
  else [].

(** The settings of the [promptTower] section as [loadConfig] reads them,
    each of the type its schema declares; [None] is a setting that is not
    there. *)
Record OutputFormatSetting := mkOutputFormatSetting {
  blockTemplateSetting : option string;
  blockSeparatorSetting : option string;
  outputExtensionSetting : option string
}.

(** [outputFormat.wrapperFormat]: [null], not there, or an object that may
    carry a [template]. *)
Inductive WrapperFormatSetting :=
| WrapperNull
| WrapperMissing
| WrapperObject (template : option string).

Record Settings := mkSettings {
  useGitignore : option bool;
  ignore : option (list string);
  persistStateSetting : option bool;
  maxFileSizeWarningKBSetting : option N;
  outputFormat : option OutputFormatSetting;
  wrapperFormat : WrapperFormatSetting
}.

Definition standardIgnores : list string :=
  [".git"; "node_modules"; ".vscode"; "dist"; "out"].

(** The initial values of the provider's fields. *)
Definition defaultBlockTemplate : string :=
  "<file name=" +:+ Js.dquote +:+ "{fileNameWithExtension}" +:+ Js.dquote +:+ ">"
  +:+ newline +:+ "<source>{rawFilePath}</source>"
  +:+ newline +:+ "<file_content><![CDATA["
  +:+ newline +:+ "{fileContent}"
  +:+ newline +:+ "]]>"
  +:+ newline +:+ "</file_content>"
  +:+ newline +:+ "</file>".

Definition defaultWrapperTemplate : string :=
  "<context>" +:+ newline +:+ "<files>" +:+ newline +:+ "{blocks}"
  +:+ newline +:+ "</files>" +:+ newline +:+ "</context>".

(** [loadConfig]: the configuration the provider works with, and its
    [persistState] flag. *)
Definition loadConfig (workspaceRoot : string) (settings : Settings)
    (view : FsView) : Config * bool :=
  let useGitIgnore := default true (useGitignore settings) in
  let manualIgnores := default [] (ignore settings) in
  let excludedPatterns :=
    JsText.unique
      (standardIgnores
       ++ (if useGitIgnore then getGitIgnorePatterns workspaceRoot view else [])
       ++ List.filter (fun p => negb (String.eqb p ""))
            (List.map JsText.trim manualIgnores)) in
  let persistState := default true (persistStateSetting settings) in
  let maxFileSizeWarningKB := default 500%N (maxFileSizeWarningKBSetting settings) in
  let blockTemplate :=
    default defaultBlockTemplate (outputFormat settings ≫= blockTemplateSetting) in
  let blockSeparator :=
    default newline (outputFormat settings ≫= blockSeparatorSetting) in
  let outputExtension :=
    default "txt" (outputFormat settings ≫= outputExtensionSetting) in
  let wrapperTemplate :=
    match wrapperFormat settings with
    | WrapperNull => None
    | WrapperMissing => Some defaultWrapperTemplate
    | WrapperObject template => Some (default defaultWrapperTemplate template)
    end in
  (mkConfig workspaceRoot excludedPatterns maxFileSizeWarningKB blockTemplate
     blockSeparator outputExtension wrapperTemplate,
   persistState).

(** A [.gitignore] with a comment, CRLF line ends, a blank line and
    patterns surrounded by white space. *)
Definition gitignoreView : FsView :=
  mkFsView (fun p => String.eqb p "/ws/.gitignore")
           (fun _ => None)
           (fun p => if String.eqb p "/ws/.gitignore"
                     then Ok ("  # build output" +:+ String (ascii_of_nat 13) newline
                              +:+ "build/" +:+ String (ascii_of_nat 13) newline
                              +:+ String (ascii_of_nat 13) newline
                              +:+ " *.log ")
                     else Err (mkError (Some "ENOENT") "no such file")).

(** *** Rendering a block *)

(** The block template after the placeholders for names and paths have been
    replaced, before the file content is put in. *)
Definition blockWithNames (cfg : Config) (fullFilePath : string) : string :=
  let relativePath := Path.relative (workspaceRoot cfg) fullFilePath in
  let fileNameWithExtension := Path.basename fullFilePath in
  let fileExtension := Path.extname fullFilePath in
  let fileName := Path.basenameWithout fullFilePath fileExtension in
  let sourcePath := "/" +:+ Js.backslashesToSlashes relativePath in
  Js.replaceAll "{fullPath}" fullFilePath
    (Js.replaceAll "{fileExtension}" fileExtension
       (Js.replaceAll "{fileName}" fileName
          (Js.replaceAll "{rawFilePath}" sourcePath
             (Js.replaceAll "{fileNameWithExtension}" fileNameWithExtension
                (blockTemplate cfg))))).

(** The character [c] does not occur in [s]. *)
Fixpoint lacks (c : ascii) (s : string) : bool :=
  match s with
  | EmptyString => true
  | String d s' => negb (Ascii.eqb d c) && lacks c s'
  end.

(** The name [generateFile] gives its output: what the user typed, or
    [context] when the box was dismissed or left empty. *)
Definition outputName (cfg : Config) (env : GenerateEnv) : string :=
  match inputBox env with
  | Some s => if String.eqb s "" then "context" else s
  | None => "context"
  end
  +:+ "." +:+ outputExtension cfg.

(** *** The array [getChildren] returns *)

(** [xs.sort(cmp)] for a comparator that returns a negative number, zero or
    a positive number: the sort is stable (ECMAScript 2019), so for a
    consistent comparator its result is the one of this insertion sort. *)
Fixpoint insertBy {A : Type} (cmp : A -> A -> Z) (x : A) (l : list A) : list A :=
  match l with
  | [] => [x]
  | y :: l' => if (cmp x y <=? 0)%Z then x :: l else y :: insertBy cmp x l'
  end.

Definition sortBy {A : Type} (cmp : A -> A -> Z) (l : list A) : list A :=
  foldr (insertBy cmp) [] l.

Section Sorting.
(** [a.localeCompare(b)], which depends on the host's locale. *)
Variable localeCompare : string -> string -> Z.

(** The comparator of [getChildren]: folders before files, then by label. *)
Definition compareChildren (a b : FileItem) : Z :=
  let aIsFolder := negb (bool_decide (collapsibleState a = NoneState)) in
  let bIsFolder := negb (bool_decide (collapsibleState b = NoneState)) in
  if negb (Bool.eqb aIsFolder bIsFolder) then (if aIsFolder then -1 else 1)%Z
  else localeCompare (label a) (label b).

(** The comparator on the objects' names in the heap; the array only ever
    holds live objects. *)
Definition compareRefs (h : list FileItem) (r1 r2 : ref) : Z :=
  match h !! r1, h !! r2 with
  | Some a, Some b => compareChildren a b
  | _, _ => 0%Z
  end.

(** [getChildren] with the final sort of the array it returns. *)
Definition getChildrenSorted (cfg : Config) (element : option ref) (ds : DirState)
    (st : Provider) : Provider * list ref :=
  let '(st', children) := getChildren cfg element ds st in
  (st', sortBy (compareRefs (heap st')) children).

End Sorting.

(** A comparator for the examples: shorter labels first. *)
Definition byLength (a b : string) : Z :=
  (Z.of_nat (String.length a) - Z.of_nat (String.length b))%Z.

(** The directory [getChildren] lists for [element]. *)
Definition scannedPath (cfg : Config) (element : option ref) (st : Provider)
    : string :=
  default (workspaceRoot cfg)
    (match element with
     | Some r => filePath <$> heap st !! r
     | None => None
     end).

(** The scan finds an entry it has no node for, below a checked parent. *)
Definition discoversChecked (cfg : Config) (element : option ref)
    (entries : Dirents) (st : Provider) : bool :=
  parentChecked element st
  && existsb (fun p => bool_decide (items st !! p = None))
       (listedPaths cfg (scannedPath cfg element st) entries).

(** *** The reads of a run *)

(** The files a run will still ask [readFile] for, if it is resumed under
    [view] until it returns. *)
Definition pendingReads (view : FsView) (run : Run) : list string :=
  match suspended run with
  | AwaitRead _ rest => List.filter (existsSync view) rest
  | AwaitYield rest => List.filter (existsSync view) rest
  | Returned => []
  end.

(** What has been read so far, followed by what run [c] will still read,
    is [R]. *)
Definition readsInv (c : nat) (view : FsView) (R : list string) (s : System) : Prop :=
  exists rc, runs s !! c = Some rc
             /\ reads (prov s) ++ pendingReads view rc = R.

(** ** Prompt history: [services/PromptHistoryService.ts] *)

Module PromptHistory.

Record PromptHistoryEntry := mkEntry {
  text : string;
  workspaceName : string;
  workspacePath : string;
  timestamp : Z
}.

Inductive PromptType := Prefix | Suffix.

Global Instance PromptType_eq_dec : EqDecision PromptType.
Proof. solve_decision. Defined.

(** The two arrays the service keeps in [context.globalState]; an array
    that was never stored reads as empty. *)
Record Store := mkStore {
  prefixHistory : list PromptHistoryEntry;
  suffixHistory : list PromptHistoryEntry
}.

Definition emptyStore : Store := mkStore [] [].

Definition getHistory (type : PromptType) (store : Store)
    : list PromptHistoryEntry :=
  match type with
  | Prefix => prefixHistory store
  | Suffix => suffixHistory store
  end.

Definition saveHistory (type : PromptType) (history : list PromptHistoryEntry)
    (store : Store) : Store :=
  match type with
  | Prefix => mkStore history (suffixHistory store)
  | Suffix => mkStore (prefixHistory store) history
  end.

(** [xs.findIndex(f)], with [None] for [-1]. *)
Fixpoint findIndex {A : Type} (f : A -> bool) (xs : list A) : option nat :=
  match xs with
  | [] => None
  | x :: rest => if f x then Some 0%nat else S <$> findIndex f rest
  end.

(** The test of [addToHistory] for an entry that is already there. *)
Definition sameEntry (trimmed workspacePath0 : string) (entry : PromptHistoryEntry)
    : bool :=
  String.eqb (text entry) trimmed && String.eqb (workspacePath entry) workspacePath0.

(** [addToHistory]; [now] is what [Date.now()] returns. *)
Definition addToHistory (now : Z) (type : PromptType)
    (text0 workspaceName0 workspacePath0 : string) (store : Store) : Store * bool :=
  let trimmed := JsText.trim text0 in
  if String.eqb trimmed "" then (store, false)
  else
    let history := getHistory type store in
    let history :=
      match findIndex (sameEntry trimmed workspacePath0) history with
      | Some existingIndex => delete existingIndex history
      | None => history
      end in
    let entry := mkEntry trimmed workspaceName0 workspacePath0 now in
    (saveHistory type (entry :: history) store, true).

(** [savePrompts]: the object literal is evaluated left to right, each call
    reading the clock. *)
Definition savePrompts (now1 now2 : Z) (prefix suffix workspaceName0 workspacePath0 : string)
    (store : Store) : Store * (bool * bool) :=
  let '(store, prefixSaved) :=
    addToHistory now1 Prefix prefix workspaceName0 workspacePath0 store in
  let '(store, suffixSaved) :=
    addToHistory now2 Suffix suffix workspaceName0 workspacePath0 store in
  (store, (prefixSaved, suffixSaved)).

Definition isEmpty (type : PromptType) (store : Store) : bool :=
  bool_decide (length (getHistory type store) = 0%nat).

(** A quick-pick item: a separator, or an entry with its label and
    description. *)
Inductive QuickPickItem :=
| Separator (label : string)
| EntryItem (label description : string) (entry : PromptHistoryEntry).

Definition itemEntry (item : QuickPickItem) : option PromptHistoryEntry :=
  match item with
  | Separator _ => None
  | EntryItem _ _ entry => Some entry
  end.

Definition itemLabel (item : QuickPickItem) : string :=
  match item with
  | Separator label => label
  | EntryItem label _ _ => label
  end.

(** [s.replace(/\n/g, " ")]. *)
Fixpoint newlinesToSpaces (s : string) : string :=
  match s with
  | EmptyString => EmptyString
  | String c s' =>
      String (if Ascii.eqb c (ascii_of_nat 10) then " "%char else c)
             (newlinesToSpaces s')
  end.

Section QuickPick.
(** [new Date(timestamp).toLocaleDateString()], which depends on the host. *)
Variable toLocaleDateString : Z -> string.

(** [getRelativeTime]; [now] is what [Date.now()] returns. *)
Definition getRelativeTime (now timestamp0 : Z) : string :=
  let diff := (now - timestamp0)%Z in
  let minutes := (diff / 60000)%Z in
  let hours := (diff / 3600000)%Z in
  let days := (diff / 86400000)%Z in
  if (minutes <? 1)%Z then "just now"
  else if (minutes <? 60)%Z then pretty minutes +:+ "m ago"
  else if (hours <? 24)%Z then pretty hours +:+ "h ago"
  else if (days <? 7)%Z then pretty days +:+ "d ago"
  else toLocaleDateString timestamp0.

(** The two characters between the workspace name and the time, as the
    source file holds them (code units 194 and 183). *)
Definition dot : string :=
  String (ascii_of_nat 194) (String (ascii_of_nat 183) EmptyString).

Definition entryToQuickPickItem (now : Z) (entry : PromptHistoryEntry)
    (showWorkspace : bool) : QuickPickItem :=
  let maxLength := 60%nat in
  let displayText :=
    if (maxLength <? String.length (text entry))%nat
    then Js.take maxLength (text entry) +:+ "..."
    else text entry in
  let relativeTime := getRelativeTime now (timestamp entry) in
  let description :=
    if showWorkspace
    then workspaceName entry +:+ " " +:+ dot +:+ " " +:+ relativeTime
    else relativeTime in
  EntryItem (newlinesToSpaces displayText) description entry.

(** The [Map] that groups the other workspaces' entries, in insertion
    order: [byWorkspace.set(key, existing)] after [existing.push(entry)]. *)
Fixpoint groupPush (key : string) (entry : PromptHistoryEntry)
    (byWorkspace : list (string * list PromptHistoryEntry))
    : list (string * list PromptHistoryEntry) :=
  match byWorkspace with
  | [] => [(key, [entry])]
  | (k, entries) :: rest =>
      if String.eqb k key then (k, entries ++ [entry]) :: rest
      else (k, entries) :: groupPush key entry rest
  end.

Definition groupByWorkspace (entries : list PromptHistoryEntry)
    : list (string * list PromptHistoryEntry) :=
  foldl (fun byWorkspace entry => groupPush (workspacePath entry) entry byWorkspace)
        [] entries.

(** [getQuickPickItems]; the clock is read once for the whole list. *)
Definition getQuickPickItems (now : Z) (type : PromptType)
    (currentWorkspacePath : string) (store : Store) : list QuickPickItem :=
  let history := getHistory type store in
  let currentWorkspaceEntries :=
    List.filter (fun e => String.eqb (workspacePath e) currentWorkspacePath) history in
  let otherEntries :=
    List.filter (fun e => negb (String.eqb (workspacePath e) currentWorkspacePath))
      history in
  (match currentWorkspaceEntries with
   | [] => []
   | _ => Separator "Current Workspace"
          :: List.map (fun e => entryToQuickPickItem now e false)
               currentWorkspaceEntries
   end)
  ++ (match otherEntries with
      | [] => []
      | _ => Separator "Other Workspaces"
             :: List.map (fun e => entryToQuickPickItem now e true)
                  (concat (List.map snd (groupByWorkspace otherEntries)))
      end).

End QuickPick.

(** One call of the service that writes. *)
Inductive Call :=
| CallAdd (now : Z) (type : PromptType) (text0 workspaceName0 workspacePath0 : string)
| CallSavePrompts (now1 now2 : Z)
    (prefix suffix workspaceName0 workspacePath0 : string).

Definition call (store : Store) (c : Call) : Store :=
  match c with
  | CallAdd now type text0 workspaceName0 workspacePath0 =>
      (addToHistory now type text0 workspaceName0 workspacePath0 store).1
  | CallSavePrompts now1 now2 prefix suffix workspaceName0 workspacePath0 =>
      (savePrompts now1 now2 prefix suffix workspaceName0 workspacePath0 store).1
  end.

(** The key under which [addToHistory] looks an entry up. *)
Definition entryKey (entry : PromptHistoryEntry) : string * string :=
  (text entry, workspacePath entry).

(** The groups of the map are well formed: no key twice, and every entry
    under the key of its workspace path. *)
Definition grouped (byWorkspace : list (string * list PromptHistoryEntry)) : Prop :=
  NoDup (List.map fst byWorkspace)
  /\ forall k es, In (k, es) byWorkspace ->
       Forall (fun e => workspacePath e = k) es.

(** The entries of workspace [w] among [entries], in order. *)
Definition ofWorkspace (w : string) (entries : list PromptHistoryEntry)
    : list PromptHistoryEntry :=
  List.filter (fun e => String.eqb (workspacePath e) w) entries.

(** The entries a list of quick-pick items shows, in order. *)
Definition shownEntries (items : list QuickPickItem) : list PromptHistoryEntry :=
  omap itemEntry items.

(** The entries of a history are well kept: no two share text and
    workspace path, and every text is trimmed and not empty. *)
Definition wellKept (history : list PromptHistoryEntry) : Prop :=
  NoDup (List.map entryKey history)
  /\ forall e, In e history -> text e <> "" /\ JsText.trim (text e) = text e.

End PromptHistory.


(** * Properties *)

(** ** Strings and paths on concrete inputs *)

Example basename_a_ts : Path.basename "/ws/src/a.ts" = "a.ts".
Proof. reflexivity. Qed.

Example extname_a_ts : Path.extname "/ws/src/a.ts" = ".ts".
Proof. reflexivity. Qed.

Example extname_dotfile : Path.extname "/ws/.bashrc" = "".
Proof. reflexivity. Qed.

Example relative_a_ts : Path.relative "/ws" "/ws/src/a.ts" = "src/a.ts".
Proof. reflexivity. Qed.

Example replaceAll_plain :
  Js.replaceAll "{x}" "<>" "a{x}b{x}" = "a<>b<>".
Proof. reflexivity. Qed.

Example replaceAll_dollar_amp :
  Js.replaceAll "{x}" "[$&]" "a{x}b" = "a[{x}]b".
Proof. reflexivity. Qed.


(** ** The context assembler *)

Example renderBlock_round_trip :
  renderBlock roundTripConfig (oneFileView "X") "/ws/src/a.ts"
  = Ok ("<file name=" +:+ Js.dquote +:+ "a.ts" +:+ Js.dquote +:+ ">X</file>").
Proof. reflexivity. Qed.

(** Placeholder-like text inside the content is not substituted again. *)
Example renderBlock_content_placeholder :
  renderBlock roundTripConfig (oneFileView "{fileName}") "/ws/src/a.ts"
  = Ok ("<file name=" +:+ Js.dquote +:+ "a.ts" +:+ Js.dquote
        +:+ ">{fileName}</file>").
Proof. reflexivity. Qed.

(** C5 (the code departs from the claim): the content is the replacement
    string of [String.prototype.replace], so its dollar patterns are
    expanded instead of being inserted verbatim. A file [src/a.ts] holding
    [$&] renders as [<file name="a.ts">{fileContent}</file>], and one
    holding the JavaScript text ['$'] has the rest of the template spliced
    into it. *)
Theorem C5_renderBlock_expands_dollar_patterns :
  renderBlock roundTripConfig (oneFileView "$&") "/ws/src/a.ts"
  = Ok ("<file name=" +:+ Js.dquote +:+ "a.ts" +:+ Js.dquote
        +:+ ">{fileContent}</file>")
  /\ renderBlock roundTripConfig (oneFileView "c == '$'") "/ws/src/a.ts"
     = Ok ("<file name=" +:+ Js.dquote +:+ "a.ts" +:+ Js.dquote
           +:+ ">c == '</file></file>")
  /\ renderBlock roundTripConfig (oneFileView "X") "/ws/src/a.ts"
     = Ok ("<file name=" +:+ Js.dquote +:+ "a.ts" +:+ Js.dquote +:+ ">X</file>").
Proof. repeat split; reflexivity. Qed.

Lemma promiseAll_rejects {A : Type} (ps : list (Result A)) (e : JsError) :
  In (Err e) ps -> exists e', promiseAll ps = Err e'.
Proof.
  induction ps as [|p ps IH]; intros Hin; [destruct Hin|].
  destruct Hin as [->|Hin]; [simpl; eauto|].
  destruct p as [a|e0]; simpl; [|eauto].
  destruct (IH Hin) as [e' ->]. eauto.
Qed.

Lemma renderBlock_unreadable cfg view f e :
  readFile view f = Err e -> renderBlock cfg view f = Err e.
Proof. intros H. unfold renderBlock. now rewrite H. Qed.

(** C6: when one of the checked files cannot be read, [generateFile] shows
    an error message and writes nothing; the outcome is neither the
    "no files" warning nor a file with the blocks rendered so far. *)
Theorem C6_unreadable_file_aborts_render
    (cfg : Config) (view : FsView) (env : GenerateEnv) (st : Provider)
    (f : string) (e : JsError) :
  In f (getCheckedFiles view st) ->
  readFile view f = Err e ->
  written (generateFile cfg view env st) = None
  /\ (exists e', errorShown (generateFile cfg view env st)
                 = Some ("Error generating file: " +:+ message e'))
  /\ warningShown (generateFile cfg view env st) = None.
Proof.
  intros Hin Hread. unfold generateFile.
  destruct (getCheckedFiles view st) as [|f0 fs] eqn:Hfiles; [destruct Hin|].
  assert (Hrej : In (Err e) (List.map (renderBlock cfg view) (f0 :: fs))).
  { apply in_map_iff. exists f. split; [now apply renderBlock_unreadable | exact Hin]. }
  destruct (promiseAll_rejects _ _ Hrej) as [e' ->]. simpl. eauto.
Qed.

Lemma C6_unreadable_file_aborts_render_witness :
  written (generateFile roundTripConfig unreadableView
             (mkGenerateEnv (Some "context") "2024-01-01T00:00:00.000Z" None None)
             oneCheckedFile) = None
  /\ (exists e', errorShown (generateFile roundTripConfig unreadableView
             (mkGenerateEnv (Some "context") "2024-01-01T00:00:00.000Z" None None)
             oneCheckedFile)
                 = Some ("Error generating file: " +:+ message e'))
  /\ warningShown (generateFile roundTripConfig unreadableView
             (mkGenerateEnv (Some "context") "2024-01-01T00:00:00.000Z" None None)
             oneCheckedFile) = None.
Proof.
  apply (C6_unreadable_file_aborts_render roundTripConfig unreadableView _
           oneCheckedFile "/ws/src/a.ts"
           (mkError (Some "EACCES") "permission denied")).
  - vm_compute. left. reflexivity.
  - reflexivity.
Defined.

Example generateFile_writes_when_readable :
  written (generateFile roundTripConfig (oneFileView "X")
             (mkGenerateEnv None "2024-01-01T00:00:00.000Z" None None)
             oneCheckedFile)
  = Some ("/ws/context.txt",
          "<file name=" +:+ Js.dquote +:+ "a.ts" +:+ Js.dquote +:+ ">X</file>").
Proof. vm_compute. reflexivity. Qed.

(** ** The recompute scheduler *)

Section SchedulerFacts.
Variable encodeLength : string -> Result N.

Lemma runFrame_refl st : runFrame st st.
Proof. repeat split. Qed.

Lemma runFrame_trans st1 st2 st3 :
  runFrame st1 st2 -> runFrame st2 st3 -> runFrame st1 st3.
Proof. unfold runFrame. intuition congruence. Qed.

Lemma stale_frame run st st' :
  ver st' = ver st -> stale run st' = stale run st.
Proof. unfold stale. now intros ->. Qed.

Lemma finallyBlock_stale id run st :
  stale run st = true -> finallyBlock id run st = st.
Proof. unfold finallyBlock. now intros ->. Qed.

Lemma loopFrom_stale view id run rest st :
  stale run st = true ->
  loopFrom view id run rest st = (st, set_suspended Returned run).
Proof.
  intros H. destruct rest; simpl; rewrite H; now rewrite finallyBlock_stale.
Qed.

Lemma loopFrom_current view id run rest : forall st,
  stale run st = false ->
  segmentOutcome id run st (loopFrom view id run rest st).
Proof.
  unfold segmentOutcome.
  induction rest as [|f rest IH]; intros st Hcur; simpl; rewrite Hcur.
  - unfold finallyBlock.
    rewrite (stale_frame run st) by reflexivity. rewrite Hcur. simpl.
    split; [repeat split|]. left. repeat split.
  - destruct (existsSync view f); simpl.
    + split; [repeat split|]. right. exists f, rest. repeat split.
    + specialize (IH (set_items (delete f (items st)) st) Hcur).
      destruct IH as [Hf Hout]. split; [exact Hf|]. exact Hout.
Qed.

Lemma catchFileError_ver e f st : ver (catchFileError e f st) = ver st.
Proof. unfold catchFileError. now case_bool_decide. Qed.

Lemma stale_bump run tokens s st :
  stale (mkRun (calculationVersion run) (checkedFiles run)
           (runningTokenCount run + tokens) (filesProcessed run + 1) s) st
  = stale run st.
Proof. reflexivity. Qed.

(** A step of a superseded run changes nothing an observer of the
    aggregate can see. *)
Lemma resume_stale view id run st :
  stale run st = true ->
  runFrame st (resume encodeLength view id run st).1
  /\ fired (resume encodeLength view id run st).1 = fired st
  /\ totalTokenCount (resume encodeLength view id run st).1 = totalTokenCount st
  /\ isCountingTokens (resume encodeLength view id run st).1 = isCountingTokens st
  /\ reads (resume encodeLength view id run st).1 = reads st
  /\ calculationVersion (resume encodeLength view id run st).2
     = calculationVersion run.
Proof.
  intros Hst. unfold resume.
  destruct (suspended run) as [f rest|rest|] eqn:Hs.
  - destruct (readFile view f) as [content|e].
    + destruct (encodeLength content) as [tokens|e].
      * simpl. destruct (_ =? 0)%N; [repeat split|].
        rewrite loopFrom_stale by (rewrite stale_bump; exact Hst).
        repeat split.
      * rewrite loopFrom_stale
          by (rewrite (stale_frame run st) by apply catchFileError_ver; exact Hst).
        unfold catchFileError. case_bool_decide; repeat split.
    + rewrite loopFrom_stale
        by (rewrite (stale_frame run st) by apply catchFileError_ver; exact Hst).
      unfold catchFileError. case_bool_decide; repeat split.
  - rewrite Hst. rewrite finallyBlock_stale by exact Hst. repeat split.
  - repeat split.
Qed.

Lemma segment_currentStep id run0 run st st0 res :
  suspended run0 <> Returned ->
  calculationVersion run = calculationVersion run0 ->
  checkedFiles run = checkedFiles run0 ->
  runFrame st0 st -> fired st = fired st0 ->
  totalTokenCount st = totalTokenCount st0 ->
  isCountingTokens st = isCountingTokens st0 ->
  segmentOutcome id run st res ->
  currentStep id run0 st0 res.
Proof.
  intros Hs Hv Hc Hf Hfi Ht Hi [Hfr Hout]. unfold currentStep.
  split; [eapply runFrame_trans; eassumption|].
  destruct Hout as [(-> & H1 & H2 & H3 & _)|(f & rest' & -> & H1 & H2 & H3 & _)];
    simpl; (split; [exact Hv|]); (split; [exact Hc|]);
    destruct (suspended run0); try congruence; repeat split; congruence.
Qed.

Lemma resume_current view id run st :
  stale run st = false ->
  currentStep id run st (resume encodeLength view id run st).
Proof.
  intros Hcur. unfold resume.
  destruct (suspended run) as [f rest|rest|] eqn:Hs.
  - assert (Hne : suspended run <> Returned) by congruence.
    assert (Herr : forall e,
      currentStep id run st (loopFrom view id run rest (catchFileError e f st))).
    { intros e. eapply (segment_currentStep id run run (catchFileError e f st) st);
        try reflexivity; try exact Hne.
      - unfold catchFileError. case_bool_decide; repeat split.
      - unfold catchFileError. now case_bool_decide.
      - unfold catchFileError. now case_bool_decide.
      - unfold catchFileError. now case_bool_decide.
      - apply loopFrom_current.
        rewrite (stale_frame run st) by apply catchFileError_ver. exact Hcur. }
    destruct (readFile view f) as [content|e]; [|apply Herr].
    destruct (encodeLength content) as [tokens|e]; [|apply Herr].
    simpl. destruct (_ =? 0)%N.
    + unfold currentStep. simpl. rewrite Hs. repeat split.
    + eapply (segment_currentStep id run
                (mkRun (calculationVersion run) (checkedFiles run)
                   (runningTokenCount run + tokens) (filesProcessed run + 1)
                   (AwaitRead f rest)) st st); try reflexivity; try exact Hne.
      * apply runFrame_refl.
      * apply loopFrom_current. exact Hcur.
  - rewrite Hcur.
    eapply (segment_currentStep id run run st st); try reflexivity.
    + congruence.
    + apply runFrame_refl.
    + apply loopFrom_current. exact Hcur.
  - unfold currentStep. simpl. rewrite Hs. repeat split.
Qed.

(** *** The running total under a fixed view of the file system *)

Lemma loopFrom_sum view id run rest : forall st,
  stale run st = false ->
  (runningTokenCount (loopFrom view id run rest st).2
   + pendingTokens encodeLength view (loopFrom view id run rest st).2
   = runningTokenCount run
     + sumN (List.map (contribution encodeLength view) rest))%N.
Proof.
  induction rest as [|f rest IH]; intros st Hcur; simpl; rewrite Hcur.
  - reflexivity.
  - unfold contribution at 1. destruct (existsSync view f); simpl.
    + reflexivity.
    + now rewrite IH.
Qed.

Lemma resume_sum view id run st :
  stale run st = false ->
  (runningTokenCount (resume encodeLength view id run st).2
   + pendingTokens encodeLength view (resume encodeLength view id run st).2
   = runningTokenCount run + pendingTokens encodeLength view run)%N.
Proof.
  intros Hcur. unfold resume, pendingTokens at 2, tokensOf.
  destruct (suspended run) as [f rest|rest|] eqn:Hs.
  - assert (Herr : forall e, stale run (catchFileError e f st) = false)
      by (intros e; rewrite (stale_frame run st) by apply catchFileError_ver;
          exact Hcur).
    destruct (readFile view f) as [content|e].
    + destruct (encodeLength content) as [tokens|e].
      * simpl. destruct (_ =? 0)%N.
        -- unfold pendingTokens. simpl. lia.
        -- rewrite loopFrom_sum by exact Hcur. simpl. lia.
      * rewrite loopFrom_sum by apply Herr. lia.
    + rewrite loopFrom_sum by apply Herr. lia.
  - rewrite Hcur. now rewrite loopFrom_sum.
  - simpl. unfold pendingTokens. now rewrite Hs.
Qed.

(** *** Pruning: a run only ever deletes map entries *)

Lemma loopFrom_items_None view id run rest g : forall st,
  items st !! g = None -> items (loopFrom view id run rest st).1 !! g = None.
Proof.
  induction rest as [|f rest IH]; intros st Hg; simpl.
  - unfold finallyBlock. repeat (destruct (stale _ _); simpl); exact Hg.
  - unfold finallyBlock. destruct (stale run st); simpl; [exact Hg|].
    destruct (existsSync view f); simpl; [exact Hg|].
    apply IH. simpl. destruct (decide (f = g)) as [->|Hne].
    + apply lookup_delete_eq.
    + now rewrite lookup_delete_ne.
Qed.

Lemma catchFileError_items_None e f g st :
  items st !! g = None -> items (catchFileError e f st) !! g = None.
Proof.
  intros Hg. unfold catchFileError. case_bool_decide; [|exact Hg]. simpl.
  destruct (decide (f = g)) as [->|Hne].
  - apply lookup_delete_eq.
  - now rewrite lookup_delete_ne.
Qed.

Lemma resume_items_None view id run st g :
  items st !! g = None ->
  items (resume encodeLength view id run st).1 !! g = None.
Proof.
  intros Hg. unfold resume.
  destruct (suspended run) as [f rest|rest|].
  - destruct (readFile view f) as [content|e].
    + destruct (encodeLength content) as [tokens|e].
      * simpl. destruct (_ =? 0)%N; [exact Hg|].
        now apply loopFrom_items_None.
      * now apply loopFrom_items_None, catchFileError_items_None.
    + now apply loopFrom_items_None, catchFileError_items_None.
  - unfold finallyBlock. destruct (stale run st); [exact Hg|].
    now apply loopFrom_items_None.
  - exact Hg.
Qed.

Lemma loopFrom_gone view id run rest g : forall st,
  stale run st = false ->
  In g (List.filter (gone view) rest) ->
  In g (goneAhead view (loopFrom view id run rest st).2)
  \/ items (loopFrom view id run rest st).1 !! g = None.
Proof.
  induction rest as [|f rest IH]; intros st Hcur Hin; simpl in *.
  - destruct Hin.
  - rewrite Hcur. unfold gone in Hin at 1.
    destruct (existsSync view f); simpl in *.
    + left. unfold goneAhead. simpl.
      destruct (goneAtRead view f); simpl in *; exact Hin.
    + destruct Hin as [->|Hin].
      * right. apply loopFrom_items_None. simpl. apply lookup_delete_eq.
      * now apply IH.
Qed.

Lemma resume_gone view id run st g :
  stale run st = false ->
  In g (goneAhead view run) ->
  In g (goneAhead view (resume encodeLength view id run st).2)
  \/ items (resume encodeLength view id run st).1 !! g = None.
Proof.
  intros Hcur. unfold resume, goneAhead at 1, goneAtRead.
  destruct (suspended run) as [f rest|rest|] eqn:Hs.
  - assert (Herr : forall e, stale run (catchFileError e f st) = false)
      by (intros e; rewrite (stale_frame run st) by apply catchFileError_ver;
          exact Hcur).
    destruct (readFile view f) as [content|e].
    + simpl. intros Hin. destruct (encodeLength content) as [tokens|e].
      * simpl. destruct (_ =? 0)%N.
        -- left. unfold goneAhead. simpl. exact Hin.
        -- now apply loopFrom_gone.
      * apply loopFrom_gone; [apply Herr | exact Hin].
    + intros Hin. apply in_app_or in Hin. destruct Hin as [Hin|Hin].
      * right. apply loopFrom_items_None. unfold catchFileError.
        case_bool_decide; simpl in Hin; [|destruct Hin].
        destruct Hin as [->|[]]. simpl. apply lookup_delete_eq.
      * apply loopFrom_gone; [apply Herr | exact Hin].
  - intros Hin. rewrite Hcur. now apply loopFrom_gone.
  - intros [].
Qed.

End SchedulerFacts.

(** ** How the selection operations move the scheduler's fields *)

Lemma selectionOnly_refl st : selectionOnly st st.
Proof. repeat split. Qed.

Lemma selectionOnly_trans st1 st2 st3 :
  selectionOnly st1 st2 -> selectionOnly st2 st3 -> selectionOnly st1 st3.
Proof. unfold selectionOnly. intuition congruence. Qed.

Lemma schedStep_refl st : schedStep st st.
Proof.
  unfold schedStep. split; [lia|]. split; [tauto|]. split; [now left|tauto].
Qed.

Lemma schedStep_trans st1 st2 st3 :
  schedStep st1 st2 -> schedStep st2 st3 -> schedStep st1 st3.
Proof.
  intros (H1 & H2 & H3 & H3') (H4 & H5 & H6 & H6'). split; [lia|].
  split; [tauto|]. split; [|tauto].
  destruct H3 as [H3|H3], H6 as [H6|H6]; try (right; lia).
  left. congruence.
Qed.

Lemma quietStep_refl st : quietStep st st.
Proof. repeat split; try apply schedStep_refl. Qed.

Lemma quietStep_trans st1 st2 st3 :
  quietStep st1 st2 -> quietStep st2 st3 -> quietStep st1 st3.
Proof.
  intros (A1 & A2 & A3 & A4 & A5) (B1 & B2 & B3 & B4 & B5).
  repeat split; try congruence; eapply schedStep_trans; eassumption.
Qed.

Lemma selectionOnly_quiet st st' : selectionOnly st st' -> quietStep st st'.
Proof.
  intros (H1 & H2 & H3 & H4 & H5 & H6 & H7 & H8).
  repeat split; try assumption.
  - lia.
  - unfold timersCoalesced. now rewrite H2, H3, H4.
  - now left.
  - now rewrite H3.
Qed.

Lemma debounced_timers delay st :
  timersCoalesced st ->
  pendingTimers (debouncedUpdateTokenCount delay st) = [nextTimer st]
  /\ debounceTimeout (debouncedUpdateTokenCount delay st) = Some (nextTimer st).
Proof.
  intros Hco. unfold debouncedUpdateTokenCount. simpl. split; [|reflexivity].
  destruct Hco as [Hnil|(h & Hp & Hd & _)].
  - rewrite Hnil. now destruct (debounceTimeout st).
  - rewrite Hd, Hp. simpl. now rewrite Nat.eqb_refl.
Qed.

Lemma debounced_ver delay st :
  ver (debouncedUpdateTokenCount delay st) = (ver st + 1)%N.
Proof. reflexivity. Qed.

Lemma debounced_quiet delay st :
  quietStep st (debouncedUpdateTokenCount delay st).
Proof.
  repeat split.
  - rewrite debounced_ver. lia.
  - intros Hco. destruct (debounced_timers delay st Hco) as [Hp Hd].
    right. exists (nextTimer st). split; [exact Hp|]. split; [exact Hd|].
    simpl. lia.
  - right. rewrite debounced_ver. lia.
  - intros _. unfold debouncedUpdateTokenCount. simpl.
    intros Habs. apply app_eq_nil in Habs. destruct Habs as [_ Habs]. discriminate.
Qed.

Lemma setOrCreate_selectionOnly name kind path checked st :
  selectionOnly st (setOrCreate name kind path checked st).
Proof. unfold setOrCreate. destruct (items st !! path); repeat split. Qed.

Lemma toggleCascade_selectionOnly cfg view confirm :
  (forall ds dirPath checked st,
     selectionOnly st
       (toggleDirectoryChildren cfg view confirm ds dirPath checked st).1)
  /\ (forall es dirPath checked c st,
        selectionOnly st (toggleEntries cfg view confirm es dirPath checked c st).1).
Proof.
  apply DirState_Dirents_ind; simpl; intros; try apply selectionOnly_refl.
  - apply H.
  - destruct (excluded cfg name); [apply H0|].
    match goal with
    | |- context [setOrCreate ?n ?k ?p ?b st] =>
        pose proof (setOrCreate_selectionOnly n k p b st) as Hs;
        set (st1 := setOrCreate n k p b st) in *
    end.
    case_bool_decide.
    + pose proof (H (Path.join dirPath name) checked st1) as Hd.
      destruct (toggleDirectoryChildren cfg view confirm sub
                  (Path.join dirPath name) checked st1) as [st2 cc].
      simpl in Hd. eapply selectionOnly_trans; [|apply H0].
      eapply selectionOnly_trans; eassumption.
    + eapply selectionOnly_trans; [exact Hs|apply H0].
Qed.

Lemma toggleCheck_quiet cfg view confirm ds r st :
  quietStep st (toggleCheck cfg view confirm ds r st).
Proof.
  unfold toggleCheck. destruct (heap st !! r) as [item|]; [|apply quietStep_refl].
  set (userCancelled := negb (isChecked item) && _ && _).
  set (newState := if userCancelled then false else negb (isChecked item)).
  destruct (negb (Bool.eqb newState (isChecked item)) || userCancelled);
    [|apply quietStep_refl].
  set (st1 := set_heap _ st).
  assert (H1 : selectionOnly st st1) by (repeat split).
  set (c := if String.eqb (contextValue item) "folder" then _ else _).
  assert (H2 : selectionOnly st1 c.1).
  { subst c. destruct (String.eqb (contextValue item) "folder");
      [apply (proj1 (toggleCascade_selectionOnly cfg view confirm))|].
    apply selectionOnly_refl. }
  destruct c as [st2 cc]. simpl in H2.
  set (st3 := set_items _ st2).
  assert (H3 : selectionOnly st st3).
  { eapply selectionOnly_trans; [exact H1|].
    eapply selectionOnly_trans; [exact H2|]. repeat split. }
  destruct (negb (Bool.eqb newState (isChecked item)) || cc).
  - eapply quietStep_trans; [apply selectionOnly_quiet, H3|apply debounced_quiet].
  - apply selectionOnly_quiet, H3.
Qed.

Lemma scanEntries_quiet cfg element dirPath es : forall children st,
  quietStep st (scanEntries cfg element dirPath es children st).1.
Proof.
  induction es as [|name kind sub rest IH]; intros children st; simpl.
  - apply quietStep_refl.
  - destruct (excluded cfg name); [apply IH|].
    destruct (items st !! Path.join dirPath name) as [old|].
    + eapply quietStep_trans; [|apply IH].
      apply selectionOnly_quiet. repeat split.
    + eapply quietStep_trans; [|apply IH].
      destruct (parentChecked element st).
      * eapply quietStep_trans; [|apply debounced_quiet].
        apply selectionOnly_quiet. repeat split.
      * apply selectionOnly_quiet. repeat split.
Qed.

Lemma getChildren_quiet cfg element ds st :
  quietStep st (getChildren cfg element ds st).1.
Proof.
  unfold getChildren.
  assert (Hprune : forall o : option string,
    quietStep st match o with
                 | Some p => set_items (delete p (items st)) st
                 | None => st
                 end).
  { intros [p|]; [|apply quietStep_refl]. apply selectionOnly_quiet. repeat split. }
  destruct ds; simpl; try apply Hprune.
  - case_bool_decide; simpl; [apply Hprune|apply quietStep_refl].
  - apply scanEntries_quiet.
Qed.

Lemma toggleAllFiles_sched persist view st :
  schedStep st (toggleAllFiles persist view st).1
  /\ (ver st < ver (toggleAllFiles persist view st).1)%N
  /\ reads (toggleAllFiles persist view st).1 = reads st
  /\ (fired (toggleAllFiles persist view st).1 = fired st
      \/ fired (toggleAllFiles persist view st).1
         = fired st ++ [(ByToggleAll, mkPayload 0 false)]).
Proof.
  unfold toggleAllFiles. cbn [fst].
  destruct (negb (negb (forallb isChecked (itemValues st)))).
  - split; [|split; [|split]].
    + split; [simpl; lia|]. split; [|split; [right; simpl; lia|simpl; tauto]].
      unfold timersCoalesced. simpl. tauto.
    + simpl. lia.
    + reflexivity.
    + now right.
  - match goal with
    | |- context [debouncedUpdateTokenCount _ ?s] =>
        pose proof (debounced_quiet 300 s) as (Hf & _ & _ & Hr & Hs);
        assert (Hsel : selectionOnly st s) by (repeat split)
    end.
    split; [|split; [|split]].
    + eapply schedStep_trans; [|exact Hs].
      apply selectionOnly_quiet in Hsel. apply Hsel.
    + rewrite debounced_ver. simpl. lia.
    + rewrite Hr. reflexivity.
    + left. rewrite Hf. reflexivity.
Qed.

(** ** The provider under the event loop *)

Section SystemFacts.
Variable encodeLength : string -> Result N.

Local Abbreviation step := (step encodeLength).
Local Abbreviation exec := (exec encodeLength).

Lemma stale_lt run st :
  (calculationVersion run < ver st)%N -> stale run st = true.
Proof.
  intros H. unfold stale. destruct (N.eqb_spec (calculationVersion run) (ver st)).
  - lia.
  - reflexivity.
Qed.

Lemma stale_eq run st :
  calculationVersion run = ver st -> stale run st = false.
Proof. intros H. unfold stale. rewrite H, N.eqb_refl. reflexivity. Qed.

Lemma publishedBy_other i st st' extra :
  fired st' = fired st ++ extra ->
  Forall (fun e => e.1 <> ByRun i) extra ->
  publishedBy i st' = publishedBy i st.
Proof.
  intros Hf Hall. unfold publishedBy. rewrite Hf, List.filter_app, List.map_app.
  clear Hf.
  assert (Hnil : List.filter (fun e : Publisher * TokenUpdatePayload =>
                    bool_decide (e.1 = ByRun i)) extra = []).
  { induction Hall as [|e l He _ IH]; simpl; [reflexivity|].
    case_bool_decide; [contradiction|exact IH]. }
  rewrite Hnil. simpl. now rewrite app_nil_r.
Qed.

Lemma publishedBy_same i st st' :
  fired st' = fired st -> publishedBy i st' = publishedBy i st.
Proof. unfold publishedBy. now intros ->. Qed.

(** The first segment of a run: it captures the live version and the
    checked files; with no file it publishes zero at once and reads
    nothing, otherwise it publishes "counting", possibly followed by its
    return. *)
Lemma updateTokenCount_spec view id st :
  runFrame st (updateTokenCount view id st).1
  /\ calculationVersion (updateTokenCount view id st).2 = ver st
  /\ checkedFiles (updateTokenCount view id st).2 = getCheckedFiles view st
  /\ exists start,
       ((start = [] /\ getCheckedFiles view st = []
         /\ suspended (updateTokenCount view id st).2 = Returned
         /\ runningTokenCount (updateTokenCount view id st).2 = 0%N
         /\ reads (updateTokenCount view id st).1 = reads st)
        \/ (start = [(ByRun id, mkPayload (totalTokenCount st) true)]
            /\ getCheckedFiles view st <> []))
       /\ match suspended (updateTokenCount view id st).2 with
          | Returned =>
              fired (updateTokenCount view id st).1
              = fired st ++ start
                ++ [(ByRun id,
                     mkPayload (runningTokenCount (updateTokenCount view id st).2)
                       false)]
              /\ totalTokenCount (updateTokenCount view id st).1
                 = runningTokenCount (updateTokenCount view id st).2
              /\ isCountingTokens (updateTokenCount view id st).1 = false
          | _ => fired (updateTokenCount view id st).1 = fired st ++ start
          end.
Proof.
  unfold updateTokenCount.
  destruct (getCheckedFiles view st) as [|f fs] eqn:Hfiles.
  - rewrite stale_eq by reflexivity. simpl.
    split; [repeat split|]. split; [reflexivity|]. split; [reflexivity|].
    exists []. split; [left; repeat split|]. repeat split.
  - cbv beta iota zeta.
    set (st1 := notifyTokenUpdate (ByRun id) (set_isCountingTokens true st)).
    set (run := mkRun (ver st) (f :: fs) 0 0 Returned).
    assert (Hcur : stale run st1 = false) by (apply stale_eq; reflexivity).
    destruct (loopFrom_current view id run (f :: fs) st1 Hcur) as [Hfr Hout].
    destruct (loopFrom view id run (f :: fs) st1) as [st2 run2].
    simpl in Hfr, Hout |- *.
    split; [eapply runFrame_trans; [|exact Hfr]; repeat split|].
    destruct Hout as [(-> & H1 & H2 & H3 & _)|(g & rest' & -> & H1 & _)];
      simpl; (split; [reflexivity|]); (split; [reflexivity|]);
      exists [(ByRun id, mkPayload (totalTokenCount st) true)];
      (split; [right; split; [reflexivity|discriminate]|]).
    + rewrite H1. simpl. rewrite <- app_assoc. repeat split; assumption.
    + rewrite H1. reflexivity.
Qed.

Lemma updateTokenCount_tagged view id st :
  exists extra,
    fired (updateTokenCount view id st).1 = fired st ++ extra
    /\ Forall (fun e => e.1 = ByRun id) extra.
Proof.
  destruct (updateTokenCount_spec view id st) as (_ & _ & _ & start & Hstart & Hf).
  assert (Hs : Forall (fun e : Publisher * TokenUpdatePayload => e.1 = ByRun id) start).
  { destruct Hstart as [(-> & _)|(-> & _)]; repeat constructor. }
  destruct (suspended (updateTokenCount view id st).2).
  - exists start. split; assumption.
  - exists start. split; assumption.
  - destruct Hf as (Hf & _). eexists. split; [exact Hf|].
    apply Forall_app. split; [exact Hs|repeat constructor].
Qed.

Lemma resume_tagged view id run st :
  exists extra,
    fired (resume encodeLength view id run st).1 = fired st ++ extra
    /\ Forall (fun e => e.1 = ByRun id) extra.
Proof.
  destruct (stale run st) eqn:Hst.
  - destruct (resume_stale encodeLength view id run st Hst) as (_ & Hf & _).
    exists []. rewrite Hf, app_nil_r. split; [reflexivity|constructor].
  - destruct (resume_current encodeLength view id run st Hst) as (_ & _ & _ & Hm).
    destruct (suspended run).
    + destruct (suspended (resume encodeLength view id run st).2).
      * exists []. rewrite app_nil_r. split; [apply Hm|constructor].
      * exists []. rewrite app_nil_r. split; [apply Hm|constructor].
      * eexists. split; [apply Hm|repeat constructor].
    + destruct (suspended (resume encodeLength view id run st).2).
      * exists []. rewrite app_nil_r. split; [apply Hm|constructor].
      * exists []. rewrite app_nil_r. split; [apply Hm|constructor].
      * eexists. split; [apply Hm|repeat constructor].
    + rewrite Hm. exists []. rewrite app_nil_r. split; [reflexivity|constructor].
Qed.

Lemma resume_runFrame view id run st :
  runFrame st (resume encodeLength view id run st).1
  /\ calculationVersion (resume encodeLength view id run st).2
     = calculationVersion run.
Proof.
  destruct (stale run st) eqn:Hst.
  - destruct (resume_stale encodeLength view id run st Hst) as (H1 & _ & _ & _ & _ & H2).
    now split.
  - destruct (resume_current encodeLength view id run st Hst) as (H1 & H2 & _).
    now split.
Qed.

(** One step of the event loop: the version never decreases and the
    existing runs keep their places and their versions. *)
Lemma step_keeps s e :
  (ver (prov s) <= ver (prov (step s e)))%N
  /\ (length (runs s) <= length (runs (step s e)))%nat
  /\ forall i r, runs s !! i = Some r ->
       exists r', runs (step s e) !! i = Some r'
                  /\ calculationVersion r' = calculationVersion r.
Proof.
  destruct e as [delay|h view|id view|persist pview|cfg view confirm ds r|cfg element ds]; with_strategy opaque [toggleAllFiles] simpl.
  - split; [lia|]. split; [lia|]. eauto.
  - case_bool_decide; [|split; [lia|]; split; [lia|]; eauto].
    match goal with
    | |- context [updateTokenCount view ?i ?st] =>
        pose proof (updateTokenCount_spec view i st) as ((_ & Hv & _) & _);
        destruct (updateTokenCount view i st) as [st' run]
    end.
    simpl in *. split; [lia|]. split; [rewrite length_app; lia|].
    intros i r Hi. exists r. split; [|reflexivity].
    rewrite lookup_app_l; [exact Hi|]. eapply lookup_lt_Some, Hi.
  - destruct (runs s !! id) as [run|] eqn:Hrun;
      [|split; [lia|]; split; [lia|]; eauto].
    pose proof (resume_runFrame view id run (prov s)) as ((_ & Hv & _) & Hcv).
    destruct (resume encodeLength view id run (prov s)) as [st' run'].
    simpl in *. split; [lia|]. split; [rewrite length_insert; lia|].
    intros i r Hi. destruct (decide (i = id)) as [->|Hne].
    + exists run'. split.
      * apply list_lookup_insert_eq. eapply lookup_lt_Some, Hrun.
      * congruence.
    + exists r. split; [|reflexivity].
      rewrite list_lookup_insert_ne by congruence. exact Hi.
  - destruct (toggleAllFiles_sched persist pview (prov s)) as (_ & Hlt & _).
    split; [lia|]. split; [lia|]. eauto.
  - destruct (toggleCheck_quiet cfg view confirm ds r (prov s))
      as (_ & _ & _ & _ & Hle & _).
    split; [exact Hle|]. split; [lia|]. eauto.
  - destruct (getChildren_quiet cfg element ds (prov s))
      as (_ & _ & _ & _ & Hle & _).
    split; [exact Hle|]. split; [lia|]. eauto.
Qed.

(** A run that has been overtaken publishes nothing, whatever happens. *)
Lemma step_superseded s e i r :
  runs s !! i = Some r ->
  (calculationVersion r < ver (prov s))%N ->
  publishedBy i (prov (step s e)) = publishedBy i (prov s).
Proof.
  intros Hi Hlt.
  destruct e as [delay|h view|id view|persist pview|cfg view confirm ds r0|cfg element ds]; with_strategy opaque [toggleAllFiles] simpl.
  - reflexivity.
  - case_bool_decide; [|reflexivity].
    match goal with
    | |- context [updateTokenCount view ?j ?st] =>
        destruct (updateTokenCount_tagged view j st) as (extra & Hf & Hall);
        destruct (updateTokenCount view j st) as [st' run]
    end.
    simpl in *. eapply publishedBy_other; [exact Hf|].
    eapply Forall_impl; [exact Hall|]. simpl. intros e He Habs.
    rewrite He in Habs. injection Habs as Habs.
    apply lookup_lt_Some in Hi. lia.
  - destruct (runs s !! id) as [run|] eqn:Hrun; [|reflexivity].
    destruct (decide (id = i)) as [->|Hne].
    + assert (run = r) as -> by congruence.
      destruct (resume_stale encodeLength view i r (prov s) (stale_lt _ _ Hlt))
        as (_ & Hf & _).
      destruct (resume encodeLength view i r (prov s)) as [st' run'].
      simpl in *. now apply publishedBy_same.
    + destruct (resume_tagged view id run (prov s)) as (extra & Hf & Hall).
      destruct (resume encodeLength view id run (prov s)) as [st' run'].
      simpl in *. eapply publishedBy_other; [exact Hf|].
      eapply Forall_impl; [exact Hall|]. simpl. intros e He Habs.
      rewrite He in Habs. congruence.
  - destruct (toggleAllFiles_sched persist pview (prov s)) as (_ & _ & _ & [Hf|Hf]).
    + now apply publishedBy_same.
    + eapply publishedBy_other; [exact Hf|]. repeat constructor. discriminate.
  - apply publishedBy_same. apply toggleCheck_quiet.
  - apply publishedBy_same. apply getChildren_quiet.
Qed.

Lemma exec_cons e evs s : exec (e :: evs) s = exec evs (step s e).
Proof. reflexivity. Qed.

Lemma exec_app evs1 evs2 s : exec (evs1 ++ evs2) s = exec evs2 (exec evs1 s).
Proof. apply foldl_app. Qed.

Lemma exec_superseded evs : forall s i r,
  runs s !! i = Some r ->
  (calculationVersion r < ver (prov s))%N ->
  publishedBy i (prov (exec evs s)) = publishedBy i (prov s).
Proof.
  induction evs as [|e evs IH]; intros s i r Hi Hlt; [reflexivity|].
  rewrite exec_cons. destruct (step_keeps s e) as (Hle & _ & Hkeep).
  destruct (Hkeep i r Hi) as (r' & Hi' & Hv).
  rewrite (IH (step s e) i r' Hi') by lia.
  eapply step_superseded; eassumption.
Qed.

Lemma step_runsNotAhead s e : runsNotAhead s -> runsNotAhead (step s e).
Proof.
  intros Hna j r' Hj.
  destruct (step_keeps s e) as (Hle & _ & Hkeep).
  destruct (runs s !! j) as [r|] eqn:Hold.
  - destruct (Hkeep j r Hold) as (r'' & Hj' & Hv).
    assert (r'' = r') as -> by congruence.
    specialize (Hna j r Hold). lia.
  - destruct e as [delay|h view|id view|persist pview|cfg view confirm ds r0|cfg element ds];
      simpl in Hj; try congruence.
    + case_bool_decide; [|congruence].
      match type of Hj with
      | context [updateTokenCount view ?i ?st] =>
          pose proof (updateTokenCount_spec view i st) as ((_ & Hv & _) & Hcv & _);
          destruct (updateTokenCount view i st) as [st' run]
      end.
      simpl in *. apply lookup_ge_None in Hold.
      destruct (decide (j = length (runs s))) as [->|Hne].
      * rewrite lookup_app_r in Hj by lia.
        rewrite Nat.sub_diag in Hj. simpl in Hj.
        assert (run = r') as -> by congruence. lia.
      * apply lookup_lt_Some in Hj. rewrite length_app in Hj. simpl in Hj. lia.
    + destruct (runs s !! id) as [run|] eqn:Hrun; [|congruence].
      destruct (resume encodeLength view id run (prov s)) as [st' run'].
      simpl in Hj. apply lookup_lt_Some in Hj. rewrite length_insert in Hj.
      apply lookup_ge_None in Hold. lia.
Qed.

Lemma exec_runsNotAhead evs : forall s,
  runsNotAhead s -> runsNotAhead (exec evs s).
Proof.
  induction evs as [|e evs IH]; intros s H; [exact H|].
  rewrite exec_cons. apply IH. now apply step_runsNotAhead.
Qed.

Lemma exec_keeps evs : forall s i r,
  runs s !! i = Some r ->
  exists r', runs (exec evs s) !! i = Some r'
             /\ calculationVersion r' = calculationVersion r.
Proof.
  induction evs as [|e evs IH]; intros s i r Hi; [eauto|].
  rewrite exec_cons. destruct (step_keeps s e) as (_ & _ & Hkeep).
  destruct (Hkeep i r Hi) as (r' & Hi' & Hv).
  destruct (IH _ _ _ Hi') as (r'' & Hi'' & Hv'').
  exists r''. split; [exact Hi''|congruence].
Qed.

(** *** Traces made of resumptions only *)

Lemma resume_step_currentRun c F s j view :
  currentRun c F s -> currentRun c F (step s (EResume j view)).
Proof.
  intros (Hothers & rc & Hc & Hv & Hlog). simpl.
  destruct (runs s !! j) as [run|] eqn:Hrun;
    [|split; [exact Hothers|exists rc; auto]].
  destruct (decide (j = c)) as [->|Hne].
  - assert (run = rc) as -> by congruence.
    pose proof (resume_current encodeLength view c rc (prov s) (stale_eq _ _ Hv))
      as ((_ & Hver & _) & Hcv & _ & Hm).
    destruct (resume encodeLength view c rc (prov s)) as [st' rc'].
    simpl in *. unfold currentRun. simpl. split.
    + intros k r Hk Hkc. rewrite list_lookup_insert_ne in Hk by congruence.
      rewrite Hver. now apply (Hothers k).
    + exists rc'. split; [apply list_lookup_insert_eq; eapply lookup_lt_Some, Hc|].
      split; [congruence|].
      destruct (suspended rc) eqn:Hs.
      * destruct (suspended rc'); destruct Hm as (Hm1 & Hm2 & Hm3);
          [congruence|congruence|].
        rewrite Hm1, Hm2, Hm3, Hlog. repeat split.
      * destruct (suspended rc'); destruct Hm as (Hm1 & Hm2 & Hm3);
          [congruence|congruence|].
        rewrite Hm1, Hm2, Hm3, Hlog. repeat split.
      * injection Hm as -> ->. rewrite Hs. exact Hlog.
  - pose proof (Hothers j run Hrun Hne) as Hlt.
    pose proof (resume_stale encodeLength view j run (prov s) (stale_lt _ _ Hlt))
      as ((_ & Hver & _) & Hf & Ht & Hi & _ & Hcv).
    destruct (resume encodeLength view j run (prov s)) as [st' run'].
    simpl in *. unfold currentRun. simpl. split.
    + intros k r Hk Hkc. rewrite Hver. destruct (decide (k = j)) as [->|Hkj].
      * rewrite list_lookup_insert_eq in Hk by (eapply lookup_lt_Some, Hrun).
        injection Hk as <-. lia.
      * rewrite list_lookup_insert_ne in Hk by congruence. now apply (Hothers k).
    + exists rc. split; [now rewrite list_lookup_insert_ne by congruence|].
      split; [congruence|]. rewrite Hf, Ht, Hi. exact Hlog.
Qed.

Lemma resumes_currentRun c F evs : forall s,
  Forall (fun e => isResume e = true) evs ->
  currentRun c F s -> currentRun c F (exec evs s).
Proof.
  induction evs as [|e evs IH]; intros s Hall Hcur; [exact Hcur|].
  rewrite exec_cons. inversion Hall as [|e' evs' He Hall']; subst.
  apply IH; [exact Hall'|].
  destruct e; try discriminate. now apply resume_step_currentRun.
Qed.

(** While every run is superseded, resumptions change neither the log, nor
    the aggregate, nor the timers. *)
Lemma resumes_allSuperseded evs : forall s,
  Forall (fun e => isResume e = true) evs ->
  allSuperseded s ->
  allSuperseded (exec evs s)
  /\ runFrame (prov s) (prov (exec evs s))
  /\ fired (prov (exec evs s)) = fired (prov s)
  /\ totalTokenCount (prov (exec evs s)) = totalTokenCount (prov s)
  /\ isCountingTokens (prov (exec evs s)) = isCountingTokens (prov s)
  /\ length (runs (exec evs s)) = length (runs s).
Proof.
  induction evs as [|e evs IH]; intros s Hall Hsup.
  - split; [exact Hsup|]. split; [apply runFrame_refl|]. repeat split.
  - rewrite exec_cons. inversion Hall as [|e' evs' He Hall']; subst.
    destruct e as [| |j view| | |]; try discriminate.
    assert (Hstep : allSuperseded (step s (EResume j view))
              /\ runFrame (prov s) (prov (step s (EResume j view)))
              /\ fired (prov (step s (EResume j view))) = fired (prov s)
              /\ totalTokenCount (prov (step s (EResume j view)))
                 = totalTokenCount (prov s)
              /\ isCountingTokens (prov (step s (EResume j view)))
                 = isCountingTokens (prov s)
              /\ length (runs (step s (EResume j view))) = length (runs s)).
    { simpl. destruct (runs s !! j) as [run|] eqn:Hrun.
      - pose proof (resume_stale encodeLength view j run (prov s)
                      (stale_lt _ _ (Hsup j run Hrun)))
          as (Hfr & Hf & Ht & Hi & _ & Hcv).
        destruct (resume encodeLength view j run (prov s)) as [st' run'].
        simpl in *. split; [|rewrite length_insert; auto].
        intros k r Hk. simpl in Hk |- *. destruct Hfr as (_ & -> & _).
        destruct (decide (k = j)) as [->|Hkj].
        + rewrite list_lookup_insert_eq in Hk by (eapply lookup_lt_Some, Hrun).
          injection Hk as <-. rewrite Hcv. now apply (Hsup j).
        + rewrite list_lookup_insert_ne in Hk by congruence. now apply (Hsup k).
      - split; [exact Hsup|]. split; [apply runFrame_refl|]. repeat split. }
    destruct Hstep as (H1 & H2 & H3 & H4 & H5 & H6).
    destruct (IH _ Hall' H1) as (G1 & G2 & G3 & G4 & G5 & G6).
    split; [exact G1|]. split; [eapply runFrame_trans; eassumption|].
    repeat split; congruence.
Qed.

(** When the armed timer fires while every run is superseded, the run it
    starts is the current one. *)
Lemma timer_currentRun s h view :
  allSuperseded s ->
  h ∈ pendingTimers (prov s) ->
  length (runs (step s (ETimer h view))) = S (length (runs s))
  /\ exists start,
       Forall (fun e => e.1 = ByRun (length (runs s)) /\ isCounting e.2 = true) start
       /\ currentRun (length (runs s)) (fired (prov s) ++ start)
            (step s (ETimer h view)).
Proof.
  intros Hsup Hin. simpl. rewrite bool_decide_eq_true_2 by exact Hin.
  match goal with
  | |- context [updateTokenCount view ?i ?st] =>
      pose proof (updateTokenCount_spec view i st)
        as ((_ & Hver & _) & Hcv & _ & start & Hstart & Hlog);
      destruct (updateTokenCount view i st) as [st' run]
  end.
  simpl in *. split; [rewrite length_app; simpl; lia|].
  exists start. split.
  { destruct Hstart as [(-> & _)|(-> & _)]; repeat constructor. }
  unfold currentRun. simpl. split.
  - intros j r Hj Hne. rewrite Hver.
    destruct (decide (j < length (runs s))%nat) as [Hlt|Hge].
    + rewrite lookup_app_l in Hj by exact Hlt. now apply (Hsup j).
    + apply lookup_lt_Some in Hj. rewrite length_app in Hj. simpl in Hj. lia.
  - exists run. split.
    + rewrite lookup_app_r by lia. now rewrite Nat.sub_diag.
    + split; [congruence|].
      destruct (suspended run); try exact Hlog.
      destruct Hlog as (-> & -> & ->). rewrite app_assoc. repeat split.
Qed.

Lemma invalidate_allSuperseded s delay :
  runsNotAhead s -> allSuperseded (step s (EInvalidate delay)).
Proof.
  intros Hna j r Hj. simpl in *. specialize (Hna j r Hj). lia.
Qed.

(** *** A run returns after finitely many resumptions *)

Lemma loopFrom_stepsLeft view id run rest : forall st,
  (stepsLeft (loopFrom view id run rest st).2 <= 2 * length rest)%nat.
Proof.
  induction rest as [|f rest IH]; intros st; simpl.
  - destruct (stale run st); simpl; unfold stepsLeft; simpl; lia.
  - destruct (stale run st); [unfold stepsLeft; simpl; lia|].
    destruct (existsSync view f); simpl.
    + unfold stepsLeft. simpl. lia.
    + specialize (IH (set_items (delete f (items st)) st)). lia.
Qed.

Lemma resume_stepsLeft view id run st :
  suspended run <> Returned ->
  (stepsLeft (resume encodeLength view id run st).2 < stepsLeft run)%nat.
Proof.
  intros Hne. unfold resume, stepsLeft at 2.
  destruct (suspended run) as [f rest|rest|] eqn:Hs; [| |congruence].
  - destruct (readFile view f) as [content|e].
    + destruct (encodeLength content) as [tokens|e].
      * simpl. destruct (_ =? 0)%N.
        -- unfold stepsLeft. simpl. lia.
        -- match goal with
           | |- context [loopFrom view id ?r rest ?s] =>
               pose proof (loopFrom_stepsLeft view id r rest s)
           end. lia.
      * pose proof (loopFrom_stepsLeft view id run rest (catchFileError e f st)). lia.
    + pose proof (loopFrom_stepsLeft view id run rest (catchFileError e f st)). lia.
  - destruct (stale run st); [unfold stepsLeft; simpl; lia|].
    pose proof (loopFrom_stepsLeft view id run rest st). lia.
Qed.

Lemma resumes_return view c n : forall s rc,
  runs s !! c = Some rc ->
  (stepsLeft rc <= n)%nat ->
  exists rc', runs (exec (repeat (EResume c view) n) s) !! c = Some rc'
              /\ suspended rc' = Returned.
Proof.
  induction n as [|n IH]; intros s rc Hc Hle.
  - exists rc. split; [exact Hc|]. unfold stepsLeft in Hle.
    destruct (suspended rc); [lia|lia|reflexivity].
  - change (repeat (EResume c view) (S n))
      with (EResume c view :: repeat (EResume c view) n).
    rewrite exec_cons.
    assert (Hstep : exists rc1, runs (step s (EResume c view)) !! c = Some rc1
                                /\ (stepsLeft rc1 <= n)%nat).
    { simpl. rewrite Hc.
      assert (Hcases : suspended rc = Returned \/ suspended rc <> Returned)
        by (destruct (suspended rc); [right|right|left]; congruence).
      destruct Hcases as [Hret|Hne].
      - unfold resume. rewrite Hret. simpl. exists rc. split.
        + apply list_lookup_insert_eq. eapply lookup_lt_Some, Hc.
        + unfold stepsLeft. rewrite Hret. lia.
      - pose proof (resume_stepsLeft view c rc (prov s) Hne) as Hlt.
        destruct (resume encodeLength view c rc (prov s)) as [st' rc1].
        simpl in *. exists rc1. split; [|lia].
        apply list_lookup_insert_eq. eapply lookup_lt_Some, Hc. }
    destruct Hstep as (rc1 & Hc1 & Hle1). eapply IH; eassumption.
Qed.

(** Run A has started, an invalidation follows and its timer fires: the
    run it starts, B, is the current one, and A has published nothing
    since. *)
Lemma second_run_current s hA viewA evs1 delay evs2 viewB :
  runsNotAhead s ->
  hA ∈ pendingTimers (prov s) ->
  Forall (fun e => isResume e = true) evs1 ->
  Forall (fun e => isResume e = true) evs2 ->
  let a := length (runs s) in
  let sA := exec (ETimer hA viewA :: evs1) s in
  let sB := step (exec evs2 (step sA (EInvalidate delay)))
              (ETimer (nextTimer (prov sA)) viewB) in
  (exists rA, runs sA !! a = Some rA /\ (calculationVersion rA <= ver (prov sA))%N)
  /\ exists start,
       Forall (fun e => e.1 = ByRun (S a) /\ isCounting e.2 = true) start
       /\ currentRun (S a) (fired (prov sA) ++ start) sB.
Proof.
  intros Hna HhA H1 H2 a sA sB.
  assert (HlenA : length (runs sA) = S a).
  { subst sA. rewrite exec_cons.
    assert (Hlen : length (runs (step s (ETimer hA viewA))) = S a).
    { simpl. rewrite bool_decide_eq_true_2 by exact HhA.
      destruct (updateTokenCount _ _ _) as [st' run]. simpl.
      rewrite length_app. simpl. subst a. lia. }
    clear -Hlen H1. revert Hlen. generalize (step s (ETimer hA viewA)).
    induction evs1 as [|e evs IH]; intros s0 Hlen; [exact Hlen|].
    rewrite exec_cons. inversion H1 as [|e' evs' He Hall']; subst.
    apply IH; [exact Hall'|].
    destruct e as [| |j view| | |]; try discriminate. simpl.
    destruct (runs s0 !! j) as [run|]; [|exact Hlen].
    destruct (resume _ _ _ _ _) as [st' run']. simpl.
    now rewrite length_insert. }
  assert (HnaA : runsNotAhead sA) by (apply exec_runsNotAhead, Hna).
  split.
  { destruct (runs sA !! a) as [rA|] eqn:HrA;
      [|apply lookup_ge_None in HrA; lia].
    exists rA. split; [reflexivity|]. now apply (HnaA a). }
  subst sB. set (sI := step sA (EInvalidate delay)).
  pose proof (invalidate_allSuperseded sA delay HnaA) as HsupI. fold sI in HsupI.
  destruct (resumes_allSuperseded evs2 sI H2 HsupI)
    as (Hsup2 & (_ & _ & _ & Hpend & _) & Hf2 & _ & _ & Hlen2).
  set (s2 := exec evs2 sI) in *.
  assert (HhB : nextTimer (prov sA) ∈ pendingTimers (prov s2)).
  { rewrite Hpend. subst sI. simpl. apply elem_of_app. right.
    apply list_elem_of_singleton. reflexivity. }
  destruct (timer_currentRun s2 (nextTimer (prov sA)) viewB Hsup2 HhB)
    as (_ & start & Hstart & Hcur).
  assert (Hb : length (runs s2) = S a).
  { rewrite Hlen2. subst sI. simpl. exact HlenA. }
  rewrite Hb in Hcur, Hstart.
  exists start. split; [exact Hstart|].
  rewrite Hf2 in Hcur. exact Hcur.
Qed.

(** C1: once [debouncedUpdateTokenCount] has been called after a run
    captured its version, that run fires nothing more on the emitter,
    whatever follows (neither a count nor the final "not counting"). And
    when run A has started, an invalidation follows and its timer starts
    run B (the runs being resumed in any order meanwhile), then whenever B
    has returned, everything fired since A's last step before the
    invalidation comes from B: "counting" notifications, then exactly one
    final event, which carries B's running total. And B does return:
    whatever the file system holds, there is a number of resumptions of B
    after which B has returned, A has still published nothing more, and
    the log ends with B's one final event. *)
Theorem C1_superseded_run_never_publishes :
  (forall s evs1 delay evs2 i r,
     runsNotAhead s ->
     runs s !! i = Some r ->
     publishedBy i (prov (exec (evs1 ++ EInvalidate delay :: evs2) s))
     = publishedBy i (prov (exec evs1 s)))
  /\ (forall s hA viewA evs1 delay evs2 viewB evs3 rB,
        runsNotAhead s ->
        hA ∈ pendingTimers (prov s) ->
        Forall (fun e => isResume e = true) evs1 ->
        Forall (fun e => isResume e = true) evs2 ->
        Forall (fun e => isResume e = true) evs3 ->
        let a := length (runs s) in
        let b := S a in
        let sA := exec (ETimer hA viewA :: evs1) s in
        let sEnd :=
          exec (EInvalidate delay
                :: evs2 ++ ETimer (nextTimer (prov sA)) viewB :: evs3) sA in
        runs sEnd !! b = Some rB ->
        suspended rB = Returned ->
        publishedBy a (prov sEnd) = publishedBy a (prov sA)
        /\ exists start,
             fired (prov sEnd)
             = fired (prov sA) ++ start
               ++ [(ByRun b, mkPayload (runningTokenCount rB) false)]
             /\ Forall (fun e => e.1 = ByRun b /\ isCounting e.2 = true) start)
  /\ (forall s hA viewA evs1 delay evs2 viewB view,
        runsNotAhead s ->
        hA ∈ pendingTimers (prov s) ->
        Forall (fun e => isResume e = true) evs1 ->
        Forall (fun e => isResume e = true) evs2 ->
        let a := length (runs s) in
        let b := S a in
        let sA := exec (ETimer hA viewA :: evs1) s in
        exists n rB start,
          let sEnd :=
            exec (EInvalidate delay
                  :: evs2 ++ ETimer (nextTimer (prov sA)) viewB
                     :: repeat (EResume b view) n) sA in
          runs sEnd !! b = Some rB
          /\ suspended rB = Returned
          /\ publishedBy a (prov sEnd) = publishedBy a (prov sA)
          /\ fired (prov sEnd)
             = fired (prov sA) ++ start
               ++ [(ByRun b, mkPayload (runningTokenCount rB) false)]
          /\ Forall (fun e => e.1 = ByRun b /\ isCounting e.2 = true) start).
Proof.
  assert (Hsafe : forall s hA viewA evs1 delay evs2 viewB evs3 rB,
        runsNotAhead s ->
        hA ∈ pendingTimers (prov s) ->
        Forall (fun e => isResume e = true) evs1 ->
        Forall (fun e => isResume e = true) evs2 ->
        Forall (fun e => isResume e = true) evs3 ->
        let a := length (runs s) in
        let b := S a in
        let sA := exec (ETimer hA viewA :: evs1) s in
        let sEnd :=
          exec (EInvalidate delay
                :: evs2 ++ ETimer (nextTimer (prov sA)) viewB :: evs3) sA in
        runs sEnd !! b = Some rB ->
        suspended rB = Returned ->
        publishedBy a (prov sEnd) = publishedBy a (prov sA)
        /\ exists start,
             fired (prov sEnd)
             = fired (prov sA) ++ start
               ++ [(ByRun b, mkPayload (runningTokenCount rB) false)]
             /\ Forall (fun e => e.1 = ByRun b /\ isCounting e.2 = true) start).
  { intros s hA viewA evs1 delay evs2 viewB evs3 rB Hna HhA H1 H2 H3 a b sA sEnd
      HrB Hret.
    destruct (second_run_current s hA viewA evs1 delay evs2 viewB Hna HhA H1 H2)
      as ((rA & HrA & HleA) & start & Hstart & Hcur).
    fold a in HrA, Hstart, Hcur. fold sA in HrA, HleA, Hcur. fold b in Hstart, Hcur.
    split.
    { subst sEnd. rewrite exec_cons.
      assert (HrA' : runs (step sA (EInvalidate delay)) !! a = Some rA) by exact HrA.
      rewrite (exec_superseded _ _ a rA HrA').
      - reflexivity.
      - simpl. lia. }
    subst sEnd. rewrite exec_cons, exec_app, exec_cons in HrB |- *.
    pose proof (resumes_currentRun b _ evs3 _ H3 Hcur) as (_ & rc & Hc & _ & Hlog).
    assert (rc = rB) as -> by congruence.
    rewrite Hret in Hlog. destruct Hlog as (Hlog & _).
    exists start. split; [|exact Hstart].
    rewrite Hlog. now rewrite app_assoc. }
  split; [|split; [exact Hsafe|]].
  - intros s evs1 delay evs2 i r Hna Hi.
    rewrite exec_app, exec_cons.
    destruct (exec_keeps evs1 s i r Hi) as (r1 & Hi1 & Hv1).
    pose proof (exec_runsNotAhead evs1 s Hna i r1 Hi1) as Hle.
    set (s1 := exec evs1 s) in *.
    assert (Hi2 : runs (step s1 (EInvalidate delay)) !! i = Some r1) by exact Hi1.
    rewrite (exec_superseded evs2 _ i r1 Hi2) by (simpl; lia).
    reflexivity.
  - intros s hA viewA evs1 delay evs2 viewB view Hna HhA H1 H2 a b sA.
    destruct (second_run_current s hA viewA evs1 delay evs2 viewB Hna HhA H1 H2)
      as (_ & _ & _ & (_ & rc & Hc & _)).
    fold a in Hc. fold sA in Hc. fold b in Hc.
    destruct (resumes_return view b (stepsLeft rc) _ rc Hc (Nat.le_refl _))
      as (rB & HrB & Hret).
    assert (HrB' : runs (exec (EInvalidate delay
                               :: evs2 ++ ETimer (nextTimer (prov sA)) viewB
                                  :: repeat (EResume b view) (stepsLeft rc)) sA) !! b
                   = Some rB).
    { rewrite exec_cons, exec_app, exec_cons. exact HrB. }
    assert (H3 : Forall (fun e => isResume e = true)
                   (repeat (EResume b view) (stepsLeft rc))).
    { apply Forall_forall. intros e He. apply list_elem_of_In in He.
      apply repeat_spec in He. now subst e. }
    destruct (Hsafe s hA viewA evs1 delay evs2 viewB _ rB Hna HhA H1 H2 H3 HrB' Hret)
      as (Hpub & start & Hlog & Hstart).
    exists (stepsLeft rc), rB, start. cbv zeta. auto.
Qed.

End SystemFacts.

(** ** Uncontested runs *)

Section Uncontested.
Variable encodeLength : string -> Result N.

Local Abbreviation step := (step encodeLength).
Local Abbreviation exec := (exec encodeLength).

Lemma exec_ver_mono evs : forall s,
  (ver (prov s) <= ver (prov (exec evs s)))%N.
Proof.
  induction evs as [|e evs IH]; intros s; [simpl; lia|].
  rewrite exec_cons. specialize (IH (step s e)).
  destruct (step_keeps encodeLength s e) as (Hle & _). lia.
Qed.

Lemma currentRun_quiet c F s st' :
  currentRun c F s ->
  ver st' = ver (prov s) -> fired st' = fired (prov s) ->
  totalTokenCount st' = totalTokenCount (prov s) ->
  isCountingTokens st' = isCountingTokens (prov s) ->
  currentRun c F (mkSystem st' (runs s)).
Proof.
  intros (Hothers & rc & Hc & Hv & Hlog) H1 H2 H3 H4.
  unfold currentRun. simpl. rewrite H1, H2, H3, H4. split; [exact Hothers|].
  exists rc. auto.
Qed.

Lemma step_uncontested c F view T s e :
  currentRun c F s ->
  pendingTimers (prov s) = [] ->
  sumInv encodeLength c view T s ->
  resumeWith c view e ->
  ver (prov (step s e)) = ver (prov s) ->
  currentRun c F (step s e)
  /\ pendingTimers (prov (step s e)) = []
  /\ sumInv encodeLength c view T (step s e).
Proof.
  intros Hcur Hpend Hsum Hwith Hver.
  destruct e as [delay|h v|j v|persist pview|cfg v confirm ds r|cfg element ds].
  - simpl in Hver. lia.
  - simpl. rewrite Hpend. rewrite bool_decide_eq_false_2 by apply not_elem_of_nil.
    auto.
  - split; [now apply resume_step_currentRun|].
    destruct Hcur as (Hothers & rc & Hc & Hv & _).
    destruct Hsum as (rc' & Hc' & HT). assert (rc' = rc) as -> by congruence.
    unfold sumInv. simpl in *.
    destruct (runs s !! j) as [run|] eqn:Hrun; [|split; [auto|exists rc; auto]].
    pose proof (resume_runFrame encodeLength v j run (prov s))
      as ((_ & _ & _ & Hp & _) & _).
    destruct (decide (j = c)) as [->|Hne].
    + assert (run = rc) as -> by congruence. rewrite (Hwith eq_refl) in *.
      pose proof (resume_sum encodeLength view c rc (prov s) (stale_eq _ _ Hv)) as Hs.
      destruct (resume encodeLength view c rc (prov s)) as [st' rc'].
      simpl in *. split; [congruence|]. exists rc'. split; [|lia].
      apply list_lookup_insert_eq. eapply lookup_lt_Some, Hc.
    + destruct (resume encodeLength v j run (prov s)) as [st' run'].
      simpl in *. split; [congruence|]. exists rc. split; [|exact HT].
      now rewrite list_lookup_insert_ne by congruence.
  - destruct (toggleAllFiles_sched persist pview (prov s)) as (_ & Hlt & _).
    with_strategy opaque [toggleAllFiles] simpl in Hver. lia.
  - destruct (toggleCheck_quiet cfg v confirm ds r (prov s))
      as (H1 & H2 & H3 & _ & _ & _ & Hp & _).
    simpl in *. split; [now apply currentRun_quiet|]. split; [|exact Hsum].
    destruct Hp as [Hp|Hp]; [congruence|lia].
  - destruct (getChildren_quiet cfg element ds (prov s))
      as (H1 & H2 & H3 & _ & _ & _ & Hp & _).
    simpl in *. split; [now apply currentRun_quiet|]. split; [|exact Hsum].
    destruct Hp as [Hp|Hp]; [congruence|lia].
Qed.

Lemma exec_uncontested c F view T evs : forall s,
  currentRun c F s ->
  pendingTimers (prov s) = [] ->
  sumInv encodeLength c view T s ->
  Forall (resumeWith c view) evs ->
  ver (prov (exec evs s)) = ver (prov s) ->
  currentRun c F (exec evs s) /\ sumInv encodeLength c view T (exec evs s).
Proof.
  induction evs as [|e evs IH]; intros s Hcur Hpend Hsum Hall Hver; [auto|].
  rewrite exec_cons in *. inversion Hall as [|e' evs' He Hall']; subst.
  assert (Hv1 : ver (prov (step s e)) = ver (prov s)).
  { pose proof (exec_ver_mono evs (step s e)).
    destruct (step_keeps encodeLength s e) as (Hle & _). lia. }
  destruct (step_uncontested c F view T s e Hcur Hpend Hsum He Hv1)
    as (H1 & H2 & H3).
  apply IH; try assumption. congruence.
Qed.

(** *** The scheduler's invariant holds in every reachable state *)

Lemma schedStep_schedInv s st' :
  schedStep (prov s) st' -> schedInv s -> schedInv (mkSystem st' (runs s)).
Proof.
  intros (Hle & Hco & Hp & _) (J1 & J2 & J3 & J4). unfold schedInv. simpl.
  split; [now apply Hco|]. split; [|split].
  - intros j r Hj. simpl in Hj |- *. specialize (J2 j r Hj). lia.
  - intros Hne j r Hj. simpl in Hj |- *. destruct Hp as [Hp|Hp].
    + rewrite Hp in Hne. specialize (J3 Hne j r Hj). lia.
    + specialize (J2 j r Hj). lia.
  - intros i j ri rj Hi Hj Hvi Hvj.
    assert (Hcase : ver st' = ver (prov s) \/ (ver (prov s) < ver st')%N) by lia.
    destruct Hcase as [Heq|Hlt].
    + rewrite Heq in *. eapply J4; eassumption.
    + specialize (J2 i ri Hi). lia.
Qed.

Lemma step_schedInv s e : schedInv s -> schedInv (step s e).
Proof.
  intros Hinv.
  destruct e as [delay|h view|j view|persist pview|cfg view confirm ds r|cfg element ds].
  - apply (schedStep_schedInv s); [apply debounced_quiet|exact Hinv].
  - simpl. case_bool_decide as Hin; [|exact Hinv].
    destruct Hinv as (J1 & J2 & J3 & J4).
    destruct J1 as [Hnil|(h' & Hp & Hd & _)]; [rewrite Hnil in Hin; inversion Hin|].
    rewrite Hp in Hin. apply list_elem_of_singleton in Hin. subst h'.
    assert (Hsup : allSuperseded s) by (apply J3; rewrite Hp; discriminate).
    match goal with
    | |- context [updateTokenCount view ?i ?st] =>
        pose proof (updateTokenCount_spec view i st)
          as ((_ & Hver & _ & Hpend & _) & Hcv & _);
        destruct (updateTokenCount view i st) as [st' run]
    end.
    simpl in *. rewrite Hp in Hpend. simpl in Hpend.
    rewrite Nat.eqb_refl in Hpend. simpl in Hpend.
    unfold schedInv. simpl. split; [now left|]. split; [|split].
    + intros k r Hk. simpl in Hk |- *. rewrite Hver.
      destruct (decide (k < length (runs s))%nat) as [Hlt|Hge].
      * rewrite lookup_app_l in Hk by exact Hlt. now apply (J2 k).
      * assert (k = length (runs s)) as ->.
        { apply lookup_lt_Some in Hk. rewrite length_app in Hk. simpl in Hk. lia. }
        rewrite lookup_app_r in Hk by lia. rewrite Nat.sub_diag in Hk.
        injection Hk as <-. lia.
    + rewrite Hpend. congruence.
    + intros i k ri rk Hi Hk Hvi Hvk. rewrite Hver in *.
      assert (Hnew : forall k r, (runs s ++ [run]) !! k = Some r ->
                calculationVersion r = ver (prov s) -> k = length (runs s)).
      { intros k0 r0 Hk0 Hv0.
        destruct (decide (k0 < length (runs s))%nat) as [Hlt|Hge].
        - rewrite lookup_app_l in Hk0 by exact Hlt.
          specialize (Hsup k0 r0 Hk0). lia.
        - apply lookup_lt_Some in Hk0. rewrite length_app in Hk0. simpl in Hk0. lia. }
      rewrite (Hnew i ri Hi Hvi), (Hnew k rk Hk Hvk). reflexivity.
  - simpl. destruct (runs s !! j) as [run|] eqn:Hrun; [|exact Hinv].
    pose proof (resume_runFrame encodeLength view j run (prov s))
      as ((_ & Hver & Hd & Hp & Hn) & Hcv).
    destruct (resume encodeLength view j run (prov s)) as [st' run'].
    simpl in *. destruct Hinv as (J1 & J2 & J3 & J4).
    assert (Hback : forall k r, <[j:=run']> (runs s) !! k = Some r ->
              exists r0, runs s !! k = Some r0
                         /\ calculationVersion r0 = calculationVersion r).
    { intros k r Hk. destruct (decide (k = j)) as [->|Hne].
      - rewrite list_lookup_insert_eq in Hk by (eapply lookup_lt_Some, Hrun).
        injection Hk as <-. exists run. auto.
      - rewrite list_lookup_insert_ne in Hk by congruence. exists r. auto. }
    unfold schedInv. simpl. split; [|split; [|split]].
    + unfold timersCoalesced. now rewrite Hp, Hd, Hn.
    + intros k r Hk. simpl in Hk |- *. destruct (Hback k r Hk) as (r0 & Hk0 & Hv0).
      rewrite Hver, <- Hv0. now apply (J2 k).
    + rewrite Hp. intros Hne k r Hk. simpl in Hk |- *.
      destruct (Hback k r Hk) as (r0 & Hk0 & Hv0).
      rewrite Hver, <- Hv0. now apply (J3 Hne k).
    + intros i k ri rk Hi Hk Hvi Hvk. rewrite Hver in *.
      destruct (Hback i ri Hi) as (ri0 & Hi0 & Hvi0).
      destruct (Hback k rk Hk) as (rk0 & Hk0 & Hvk0).
      eapply J4; [exact Hi0|exact Hk0|congruence|congruence].
  - apply (schedStep_schedInv s); [apply toggleAllFiles_sched|exact Hinv].
  - apply (schedStep_schedInv s); [apply toggleCheck_quiet|exact Hinv].
  - apply (schedStep_schedInv s); [apply getChildren_quiet|exact Hinv].
Qed.

Lemma exec_schedInv evs : forall s, schedInv s -> schedInv (exec evs s).
Proof.
  induction evs as [|e evs IH]; intros s H; [exact H|].
  rewrite exec_cons. apply IH. now apply step_schedInv.
Qed.

Lemma schedInv_no_runs st : timersCoalesced st -> schedInv (mkSystem st []).
Proof.
  intros Hco. unfold schedInv, runsNotAhead, allSuperseded. simpl.
  split; [exact Hco|].
  split; [|split].
  - intros j r H. now rewrite lookup_nil in H.
  - intros _ j r H. now rewrite lookup_nil in H.
  - intros i j ri rj H. now rewrite lookup_nil in H.
Qed.

Lemma initial_schedInv : schedInv initial.
Proof.
  apply schedInv_no_runs. right. exists 0%nat. simpl. repeat split. lia.
Qed.

(** Every state the event loop can reach from the constructor satisfies
    the invariant. *)
Lemma reachable_schedInv evs : schedInv (exec evs initial).
Proof. apply exec_schedInv, initial_schedInv. Qed.

(** *** A run from its start *)

Lemma getCheckedFiles_exist view st f :
  In f (getCheckedFiles view st) -> existsSync view f = true.
Proof.
  unfold getCheckedFiles. intros Hin. apply in_map_iff in Hin.
  destruct Hin as (it & <- & Hin). apply filter_In in Hin.
  destruct Hin as (_ & Hb). apply andb_true_iff in Hb. apply Hb.
Qed.

Lemma sum_contribution_existing view files :
  (forall f, In f files -> existsSync view f = true) ->
  sumN (List.map (contribution encodeLength view) files)
  = sumN (List.map (tokensOf encodeLength view) files).
Proof.
  induction files as [|f files IH]; intros Hex; [reflexivity|].
  simpl. unfold contribution at 1. rewrite (Hex f) by now left.
  rewrite IH; [reflexivity|]. intros g Hg. apply Hex. now right.
Qed.

Lemma updateTokenCount_sum view id st :
  (runningTokenCount (updateTokenCount view id st).2
   + pendingTokens encodeLength view (updateTokenCount view id st).2
   = sumN (List.map (tokensOf encodeLength view) (getCheckedFiles view st)))%N.
Proof.
  pose proof (getCheckedFiles_exist view st) as Hex.
  unfold updateTokenCount.
  destruct (getCheckedFiles view st) as [|f fs].
  - rewrite stale_eq by reflexivity. reflexivity.
  - cbv beta iota zeta.
    rewrite loopFrom_sum by (apply stale_eq; reflexivity).
    rewrite sum_contribution_existing by exact Hex. reflexivity.
Qed.

(** The armed timer fires in a state that satisfies the invariant. *)
Lemma timer_step_spec s h view :
  schedInv s ->
  h ∈ pendingTimers (prov s) ->
  currentRun (length (runs s))
    (fired (prov s) ++ announce (length (runs s)) view (prov s))
    (step s (ETimer h view))
  /\ pendingTimers (prov (step s (ETimer h view))) = []
  /\ ver (prov (step s (ETimer h view))) = ver (prov s)
  /\ sumInv encodeLength (length (runs s)) view
       (sumN (List.map (tokensOf encodeLength view)
                (getCheckedFiles view (prov s))))
       (step s (ETimer h view)).
Proof.
  intros (J1 & J2 & J3 & J4) Hin.
  destruct J1 as [Hnil|(h' & Hp & Hd & _)]; [rewrite Hnil in Hin; inversion Hin|].
  assert (Hsup : allSuperseded s) by (apply J3; rewrite Hp; discriminate).
  rewrite Hp in Hin. apply list_elem_of_singleton in Hin. subst h'.
  unfold sumInv, currentRun, announce. simpl.
  rewrite bool_decide_eq_true_2 by (rewrite Hp; apply list_elem_of_here).
  match goal with
  | |- context [updateTokenCount view ?i ?st] =>
      pose proof (updateTokenCount_spec view i st)
        as ((_ & Hver & _ & Hpend & _) & Hcv & _ & start & Hstart & Hlog);
      pose proof (updateTokenCount_sum view i st) as Hsum;
      change (getCheckedFiles view st) with (getCheckedFiles view (prov s)) in *;
      change (totalTokenCount st) with (totalTokenCount (prov s)) in *;
      change (fired st) with (fired (prov s)) in *;
      destruct (updateTokenCount view i st) as [st' run]
  end.
  simpl in *. rewrite Hp in Hpend. simpl in Hpend.
  rewrite Nat.eqb_refl in Hpend. simpl in Hpend.
  assert (Hst : start = match getCheckedFiles view (prov s) with
                        | [] => []
                        | _ => [(ByRun (length (runs s)),
                                 mkPayload (totalTokenCount (prov s)) true)]
                        end).
  { destruct Hstart as [(-> & -> & _)|(-> & Hne)]; [reflexivity|].
    destruct (getCheckedFiles view (prov s)); [congruence|reflexivity]. }
  rewrite <- Hst.
  assert (Hrun : (runs s ++ [run]) !! length (runs s) = Some run).
  { rewrite lookup_app_r by lia. now rewrite Nat.sub_diag. }
  split; [|split; [exact Hpend|split; [exact Hver|exists run; auto]]].
  split.
  - intros j r Hj Hne. rewrite Hver.
    destruct (decide (j < length (runs s))%nat) as [Hlt|Hge].
    + rewrite lookup_app_l in Hj by exact Hlt. now apply (Hsup j).
    + apply lookup_lt_Some in Hj. rewrite length_app in Hj. simpl in Hj. lia.
  - exists run. split; [exact Hrun|]. split; [congruence|].
    destruct (suspended run); try exact Hlog.
    destruct Hlog as (-> & -> & ->). rewrite app_assoc. repeat split.
Qed.

Lemma sum_tokensOf_tokenCount view files :
  sumN (List.map (tokensOf encodeLength view) files)
  = sumN (omap (tokenCount encodeLength view) files).
Proof.
  induction files as [|f files IH]; [reflexivity|].
  simpl. unfold tokensOf at 1, tokenCount at 1.
  destruct (readFile view f) as [content|e]; [|exact IH].
  destruct (encodeLength content) as [tokens|e]; [|exact IH].
  simpl. now rewrite IH.
Qed.

Lemma sum_contribution_filter view files :
  sumN (List.map (contribution encodeLength view) files)
  = sumN (List.map (tokensOf encodeLength view)
            (List.filter (existsSync view) files)).
Proof.
  induction files as [|f files IH]; [reflexivity|].
  simpl. unfold contribution at 1.
  destruct (existsSync view f); simpl; now rewrite IH.
Qed.

Lemma updateTokenCount_visited view0 view id st :
  (runningTokenCount (updateTokenCount view0 id st).2
   + pendingTokens encodeLength view (updateTokenCount view0 id st).2
   = sumN (omap (tokenCount encodeLength view) (visited view0 view st)))%N.
Proof.
  pose proof (getCheckedFiles_exist view0 st) as Hex.
  unfold updateTokenCount, visited.
  destruct (getCheckedFiles view0 st) as [|f fs].
  - rewrite stale_eq by reflexivity. reflexivity.
  - cbv beta iota zeta. cbn [loopFrom].
    rewrite stale_eq by reflexivity. rewrite (Hex f) by now left.
    cbn [negb snd runningTokenCount]. unfold pendingTokens. cbn [suspended set_suspended].
    rewrite sum_contribution_filter.
    rewrite <- (sum_tokensOf_tokenCount view (f :: List.filter (existsSync view) fs)).
    reflexivity.
Qed.

Lemma timer_step_visited s h view0 view :
  h ∈ pendingTimers (prov s) ->
  sumInv encodeLength (length (runs s)) view
    (sumN (omap (tokenCount encodeLength view) (visited view0 view (prov s))))
    (step s (ETimer h view0)).
Proof.
  intros Hin. unfold sumInv. simpl. rewrite bool_decide_eq_true_2 by exact Hin.
  match goal with
  | |- context [updateTokenCount view0 ?i ?st] =>
      pose proof (updateTokenCount_visited view0 view i st) as Hsum;
      change (visited view0 view st) with (visited view0 view (prov s)) in Hsum;
      destruct (updateTokenCount view0 i st) as [st' run]
  end.
  simpl in *. exists run. split; [|exact Hsum].
  rewrite lookup_app_r by lia. now rewrite Nat.sub_diag.
Qed.

(** A run from the firing of its timer (the file system being [view0]
    then) to its return, when it is resumed under [view] and not
    superseded. *)
Lemma timer_run_outcome s h view0 view :
  schedInv s ->
  h ∈ pendingTimers (prov s) ->
  let c := length (runs s) in
  let T := sumN (omap (tokenCount encodeLength view)
                   (visited view0 view (prov s))) in
  (exists n rc,
     runs (exec (ETimer h view0 :: repeat (EResume c view) n) s) !! c = Some rc
     /\ suspended rc = Returned)
  /\ forall evs rc,
       Forall (resumeWith c view) evs ->
       ver (prov (exec (ETimer h view0 :: evs) s)) = ver (prov s) ->
       runs (exec (ETimer h view0 :: evs) s) !! c = Some rc ->
       suspended rc = Returned ->
       runningTokenCount rc = T
       /\ fired (prov (exec (ETimer h view0 :: evs) s))
          = fired (prov s) ++ announce c view0 (prov s)
            ++ [(ByRun c, mkPayload T false)]
       /\ totalTokenCount (prov (exec (ETimer h view0 :: evs) s)) = T
       /\ isCountingTokens (prov (exec (ETimer h view0 :: evs) s)) = false.
Proof.
  intros Hinv Hin c T.
  destruct (timer_step_spec s h view0 Hinv Hin) as (Hcur & Hpend & Hver & _).
  pose proof (timer_step_visited s h view0 view Hin) as Hsum.
  fold c in Hcur, Hsum. fold T in Hsum.
  split.
  - destruct Hsum as (rc0 & Hc0 & _).
    destruct (resumes_return encodeLength view c (stepsLeft rc0) _ rc0 Hc0
                (Nat.le_refl _)) as (rc & Hc & Hret).
    exists (stepsLeft rc0), rc. rewrite exec_cons. auto.
  - intros evs rc Hall Hv Hc Hret. rewrite exec_cons in *.
    destruct (exec_uncontested c _ view T evs _ Hcur Hpend Hsum Hall)
      as ((_ & rc' & Hc' & _ & Hlog) & (rc'' & Hc'' & HT)); [congruence|].
    assert (rc' = rc) as -> by congruence.
    assert (rc'' = rc) as -> by congruence.
    rewrite Hret in Hlog. unfold pendingTokens in HT. rewrite Hret in HT.
    destruct Hlog as (Hlog & Htot & Hcnt).
    assert (HrT : runningTokenCount rc = T) by lia.
    split; [exact HrT|]. split; [|split; [congruence|exact Hcnt]].
    rewrite Hlog, HrT. now rewrite <- app_assoc.
Qed.

(** C2, as the code has it: the armed timer fires and starts a run on a
    non-empty list of checked files; afterwards the run is resumed against
    a file system that may have changed. The run returns after finitely
    many resumptions; and whenever it has returned while the live version
    is still the one it captured (whatever else happened in between), it
    has fired "counting" once and then its result, not counting, and the
    result is the sum of what the tokenizer counted for the first file of
    the list [getCheckedFiles] returned at its start and for those of the
    others that were still there when their turn came (nothing for a file
    whose read or tokenization failed). When every file of that list is
    still there, this is the sum over the whole list. *)
Theorem C2_uncontested_run_publishes_sum
    (s : System) (h : nat) (view0 view : FsView) :
  schedInv s ->
  h ∈ pendingTimers (prov s) ->
  getCheckedFiles view0 (prov s) <> [] ->
  let c := length (runs s) in
  let T := sumN (omap (tokenCount encodeLength view)
                   (visited view0 view (prov s))) in
  (exists n rc,
     runs (exec (ETimer h view0 :: repeat (EResume c view) n) s) !! c = Some rc
     /\ suspended rc = Returned)
  /\ (forall evs rc,
        Forall (resumeWith c view) evs ->
        ver (prov (exec (ETimer h view0 :: evs) s)) = ver (prov s) ->
        runs (exec (ETimer h view0 :: evs) s) !! c = Some rc ->
        suspended rc = Returned ->
        runningTokenCount rc = T
        /\ fired (prov (exec (ETimer h view0 :: evs) s))
           = fired (prov s)
             ++ [(ByRun c, mkPayload (totalTokenCount (prov s)) true);
                 (ByRun c, mkPayload T false)]
        /\ totalTokenCount (prov (exec (ETimer h view0 :: evs) s)) = T
        /\ isCountingTokens (prov (exec (ETimer h view0 :: evs) s)) = false)
  /\ ((forall f, In f (getCheckedFiles view0 (prov s)) -> existsSync view f = true) ->
      T = sumN (List.map (tokensOf encodeLength view)
                  (getCheckedFiles view0 (prov s)))).
Proof.
  intros Hinv Hin Hfiles c T.
  destruct (timer_run_outcome s h view0 view Hinv Hin) as (Hreturns & Hresult).
  fold c in Hreturns, Hresult. fold T in Hresult.
  split; [exact Hreturns|]. split.
  - intros evs rc Hall Hv Hc Hret.
    destruct (Hresult evs rc Hall Hv Hc Hret) as (HrT & Hlog & Htot & Hcnt).
    split; [exact HrT|]. split; [|split; [exact Htot|exact Hcnt]].
    rewrite Hlog. unfold announce.
    destruct (getCheckedFiles view0 (prov s)); [congruence|reflexivity].
  - intros Hthere. subst T. unfold visited.
    destruct (getCheckedFiles view0 (prov s)) as [|f rest]; [reflexivity|].
    rewrite sum_tokensOf_tokenCount. do 3 f_equal.
    clear -Hthere. induction rest as [|g rest IH]; [reflexivity|].
    simpl. rewrite (Hthere g) by (right; now left). f_equal. apply IH.
    intros f' [->|Hf']; apply Hthere; [now left|right; now right].
Qed.

(** *** Per-file errors *)

Lemma resume_step_sumInv c F view T s j v :
  currentRun c F s ->
  sumInv encodeLength c view T s ->
  (j = c -> v = view) ->
  sumInv encodeLength c view T (step s (EResume j v)).
Proof.
  intros (_ & rc & Hc & Hv & _) (rc' & Hc' & HT) Hwith.
  assert (rc' = rc) as -> by congruence.
  unfold sumInv. simpl.
  destruct (runs s !! j) as [run|] eqn:Hrun; [|exists rc; auto].
  destruct (decide (j = c)) as [->|Hne].
  - assert (run = rc) as -> by congruence. rewrite (Hwith eq_refl) in *.
    pose proof (resume_sum encodeLength view c rc (prov s) (stale_eq _ _ Hv)) as Hs.
    destruct (resume encodeLength view c rc (prov s)) as [st' rc'].
    simpl in *. exists rc'. split; [|lia].
    apply list_lookup_insert_eq. eapply lookup_lt_Some, Hc.
  - destruct (resume encodeLength v j run (prov s)) as [st' run'].
    simpl. exists rc. split; [|exact HT].
    now rewrite list_lookup_insert_ne by congruence.
Qed.

Lemma resume_step_pruneInv c F view doomed s j v :
  currentRun c F s ->
  pruneInv c view doomed s ->
  (j = c -> v = view) ->
  pruneInv c view doomed (step s (EResume j v)).
Proof.
  intros (_ & rc & Hc & Hv & _) (rc' & Hc' & Hd) Hwith.
  assert (rc' = rc) as -> by congruence.
  unfold pruneInv. simpl.
  destruct (runs s !! j) as [run|] eqn:Hrun; [|exists rc; auto].
  destruct (decide (j = c)) as [->|Hne].
  - assert (run = rc) as -> by congruence. rewrite (Hwith eq_refl) in *.
    pose proof (resume_gone encodeLength view c rc (prov s)) as Hg.
    pose proof (resume_items_None encodeLength view c rc (prov s)) as Hn.
    destruct (resume encodeLength view c rc (prov s)) as [st' rc'].
    simpl in *. exists rc'. split.
    + apply list_lookup_insert_eq. eapply lookup_lt_Some, Hc.
    + intros g Hin. destruct (Hd g Hin) as [Hahead|Hnone].
      * apply Hg; [now apply stale_eq|exact Hahead].
      * right. now apply Hn.
  - pose proof (resume_items_None encodeLength v j run (prov s)) as Hn.
    destruct (resume encodeLength v j run (prov s)) as [st' run'].
    simpl in *. exists rc. split.
    + now rewrite list_lookup_insert_ne by congruence.
    + intros g Hin. destruct (Hd g Hin) as [Hahead|Hnone]; [now left|].
      right. now apply Hn.
Qed.

Lemma resumes_invariants c F view T doomed evs : forall s,
  Forall (fun e => isResume e = true /\ resumeWith c view e) evs ->
  currentRun c F s ->
  sumInv encodeLength c view T s ->
  pruneInv c view doomed s ->
  currentRun c F (exec evs s)
  /\ sumInv encodeLength c view T (exec evs s)
  /\ pruneInv c view doomed (exec evs s).
Proof.
  induction evs as [|e evs IH]; intros s Hall Hcur Hsum Hpr; [auto|].
  rewrite exec_cons. inversion Hall as [|e' evs' [He Hw] Hall']; subst.
  destruct e as [| |j v| | |]; try discriminate.
  apply IH; [exact Hall'| | |].
  - now apply resume_step_currentRun.
  - eapply resume_step_sumInv; eassumption.
  - eapply resume_step_pruneInv; eassumption.
Qed.

(** C7: the current run is suspended at the read of [f], with [rest] still
    to visit. It returns after finitely many resumptions; and when it has
    returned (the runs having been resumed in any order, this one against
    the file system [view]), its total has grown by the tokenizer's counts
    of exactly the files that were there, could be read and could be
    tokenized (a failing file adds nothing and does not stop the files
    after it from being counted), that total has been published, and every
    file found missing, by the existence check or by an ENOENT read, is
    gone from the map. *)
Theorem C7_per_file_errors_are_skipped
    (c : nat) (F : list (Publisher * TokenUpdatePayload)) (view : FsView)
    (s : System) (rc0 : Run) (f : string) (rest : list string) :
  currentRun c F s ->
  runs s !! c = Some rc0 ->
  suspended rc0 = AwaitRead f rest ->
  let T := (runningTokenCount rc0
            + sumN (omap (tokenCount encodeLength view)
                      (f :: List.filter (existsSync view) rest)))%N in
  (exists n rc,
     runs (exec (repeat (EResume c view) n) s) !! c = Some rc
     /\ suspended rc = Returned)
  /\ forall evs rc,
       Forall (fun e => isResume e = true /\ resumeWith c view e) evs ->
       runs (exec evs s) !! c = Some rc ->
       suspended rc = Returned ->
       runningTokenCount rc = T
       /\ fired (prov (exec evs s)) = F ++ [(ByRun c, mkPayload T false)]
       /\ forall g,
            (g = f /\ goneAtRead view f = true)
            \/ (In g rest /\ gone view g = true) ->
            items (prov (exec evs s)) !! g = None.
Proof.
  intros Hcur Hc0 Hs0 T. split.
  - destruct (resumes_return encodeLength view c (stepsLeft rc0) s rc0 Hc0 (Nat.le_refl _))
      as (rc & Hc & Hret).
    exists (stepsLeft rc0), rc. auto.
  - intros evs rc Hall Hc Hret.
    assert (Hsum : sumInv encodeLength c view T s).
    { exists rc0. split; [exact Hc0|]. unfold pendingTokens. rewrite Hs0.
      subst T. rewrite <- sum_tokensOf_tokenCount, sum_contribution_filter.
      reflexivity. }
    assert (Hpr : pruneInv c view
                    ((if goneAtRead view f then [f] else [])
                     ++ List.filter (gone view) rest) s).
    { exists rc0. split; [exact Hc0|]. intros g Hin. left.
      unfold goneAhead. now rewrite Hs0. }
    destruct (resumes_invariants c F view T _ evs s Hall Hcur Hsum Hpr)
      as ((_ & rc1 & Hc1 & _ & Hlog) & (rc2 & Hc2 & HT) & (rc3 & Hc3 & Hgone)).
    assert (rc1 = rc) as -> by congruence.
    assert (rc2 = rc) as -> by congruence.
    assert (rc3 = rc) as -> by congruence.
    rewrite Hret in Hlog. unfold pendingTokens in HT. rewrite Hret in HT.
    destruct Hlog as (Hlog & _).
    assert (HrT : runningTokenCount rc = T) by lia.
    split; [exact HrT|]. split; [now rewrite Hlog, HrT|].
    intros g Hg.
    assert (Hin : In g ((if goneAtRead view f then [f] else [])
                        ++ List.filter (gone view) rest)).
    { apply in_or_app. destruct Hg as [(-> & Hgr)|(Hin & Hgone')].
      - left. rewrite Hgr. now left.
      - right. apply filter_In. auto. }
    destruct (Hgone g Hin) as [Hahead|Hnone]; [|exact Hnone].
    unfold goneAhead in Hahead. rewrite Hret in Hahead. destruct Hahead.
Qed.

End Uncontested.

Lemma runsNotAhead_no_runs st : runsNotAhead (mkSystem st []).
Proof. intros j r H. simpl in H. now rewrite lookup_nil in H. Qed.

Example runBFinished_log :
  fired (prov runBFinished)
  = [(ByRun 0, mkPayload 0 true); (ByRun 1, mkPayload 0 true);
     (ByRun 1, mkPayload 8 false)].
Proof. vm_compute. reflexivity. Qed.

Lemma C1_superseded_run_never_publishes_witness :
  publishedBy 0
    (prov (exec charTokenizer
             ([ETimer 0 twoFilesView; EResume 0 twoFilesView]
              ++ EInvalidate 300 :: [EResume 0 twoFilesView])
             (step charTokenizer twoFilesArmed (ETimer 0 twoFilesView))))
  = publishedBy 0
      (prov (exec charTokenizer [ETimer 0 twoFilesView; EResume 0 twoFilesView]
               (step charTokenizer twoFilesArmed (ETimer 0 twoFilesView))))
  /\ (publishedBy 0 (prov runBFinished) = publishedBy 0 (prov runAReading)
      /\ exists start,
           fired (prov runBFinished)
           = fired (prov runAReading) ++ start ++ [(ByRun 1, mkPayload 8 false)]
           /\ Forall (fun e => e.1 = ByRun 1 /\ isCounting e.2 = true) start)
  /\ exists n rB start,
       runs (exec charTokenizer
               (EInvalidate 300
                :: [EResume 0 twoFilesView]
                   ++ ETimer (nextTimer (prov runAReading)) twoFilesView
                      :: repeat (EResume 1 twoFilesView) n)
               runAReading) !! 1%nat = Some rB
       /\ suspended rB = Returned
       /\ publishedBy 0
            (prov (exec charTokenizer
                     (EInvalidate 300
                      :: [EResume 0 twoFilesView]
                         ++ ETimer (nextTimer (prov runAReading)) twoFilesView
                            :: repeat (EResume 1 twoFilesView) n)
                     runAReading))
          = publishedBy 0 (prov runAReading)
       /\ fired (prov (exec charTokenizer
                         (EInvalidate 300
                          :: [EResume 0 twoFilesView]
                             ++ ETimer (nextTimer (prov runAReading)) twoFilesView
                                :: repeat (EResume 1 twoFilesView) n)
                         runAReading))
          = fired (prov runAReading) ++ start
            ++ [(ByRun 1, mkPayload (runningTokenCount rB) false)]
       /\ Forall (fun e => e.1 = ByRun 1 /\ isCounting e.2 = true) start.
Proof.
  split; [|split].
  - apply (proj1 (C1_superseded_run_never_publishes charTokenizer)
             (step charTokenizer twoFilesArmed (ETimer 0 twoFilesView))
             [ETimer 0 twoFilesView; EResume 0 twoFilesView] 300%N
             [EResume 0 twoFilesView] 0%nat
             (mkRun 1 ["/ws/a.ts"; "/ws/b.ts"] 0 0 (AwaitRead "/ws/a.ts" ["/ws/b.ts"]))).
    + intros j r H. destruct j as [|j].
      * vm_compute in H. injection H as <-. vm_compute. discriminate.
      * vm_compute in H. destruct j; discriminate.
    + vm_compute. reflexivity.
  - apply (proj1 (proj2 (C1_superseded_run_never_publishes charTokenizer))
             twoFilesArmed 0%nat twoFilesView [EResume 0 twoFilesView] 300%N
             [EResume 0 twoFilesView] twoFilesView
             [EResume 1 twoFilesView; EResume 0 twoFilesView; EResume 1 twoFilesView]
             (mkRun 2 ["/ws/a.ts"; "/ws/b.ts"] 8 2 Returned)).
    + apply runsNotAhead_no_runs.
    + vm_compute. apply list_elem_of_here.
    + repeat constructor.
    + repeat constructor.
    + repeat constructor.
    + vm_compute. reflexivity.
    + reflexivity.
  - apply (proj2 (proj2 (C1_superseded_run_never_publishes charTokenizer))
             twoFilesArmed 0%nat twoFilesView [EResume 0 twoFilesView] 300%N
             [EResume 0 twoFilesView] twoFilesView twoFilesView).
    + apply runsNotAhead_no_runs.
    + vm_compute. apply list_elem_of_here.
    + repeat constructor.
    + repeat constructor.
Defined.

Lemma twoFilesArmed_schedInv : schedInv twoFilesArmed.
Proof.
  apply schedInv_no_runs. right. exists 0%nat. simpl. repeat split. lia.
Qed.

(** C2 as stated fails: both files are checked when the run starts, and
    the tokenizer counts five tokens for [a.ts] and three for [b.ts]. While
    [a.ts] is being read, [b.ts] is deleted. The run is not superseded and
    returns, but what it publishes is five: the sum over one of the two
    paths [getCheckedFiles] returned at its start. *)
Lemma C2_counterexample :
  getCheckedFiles twoFilesView (prov twoFilesArmed) = ["/ws/a.ts"; "/ws/b.ts"]
  /\ List.map (tokenCount charTokenizer twoFilesView) ["/ws/a.ts"; "/ws/b.ts"]
     = [Some 5%N; Some 3%N]
  /\ ver (prov twoFilesOneLeft) = ver (prov twoFilesArmed)
  /\ suspended <$> runs twoFilesOneLeft !! 0%nat = Some Returned
  /\ fired (prov twoFilesOneLeft)
     = [(ByRun 0, mkPayload 0 true); (ByRun 0, mkPayload 5 false)]
  /\ reads (prov twoFilesOneLeft) = ["/ws/a.ts"].
Proof. vm_compute. repeat split. Qed.

Lemma C2_uncontested_run_publishes_sum_witness :
  (runningTokenCount (mkRun 1 ["/ws/a.ts"; "/ws/b.ts"] 5 1 Returned) = 5%N
   /\ fired (prov twoFilesOneLeft)
      = fired (prov twoFilesArmed)
        ++ [(ByRun 0, mkPayload 0 true); (ByRun 0, mkPayload 5 false)]
   /\ totalTokenCount (prov twoFilesOneLeft) = 5%N
   /\ isCountingTokens (prov twoFilesOneLeft) = false)
  /\ (runningTokenCount (mkRun 1 ["/ws/a.ts"; "/ws/b.ts"] 8 2 Returned) = 8%N
      /\ fired (prov twoFilesCounted)
         = fired (prov twoFilesArmed)
           ++ [(ByRun 0, mkPayload 0 true); (ByRun 0, mkPayload 8 false)]
      /\ totalTokenCount (prov twoFilesCounted) = 8%N
      /\ isCountingTokens (prov twoFilesCounted) = false).
Proof.
  split.
  - apply (proj1 (proj2 (C2_uncontested_run_publishes_sum charTokenizer
                           twoFilesArmed 0%nat twoFilesView bGoneView
                           twoFilesArmed_schedInv
                           ltac:(vm_compute; apply list_elem_of_here)
                           ltac:(vm_compute; discriminate)))
             [EResume 0 bGoneView]
             (mkRun 1 ["/ws/a.ts"; "/ws/b.ts"] 5 1 Returned)).
    + repeat constructor.
    + vm_compute. reflexivity.
    + vm_compute. reflexivity.
    + reflexivity.
  - apply (proj1 (proj2 (C2_uncontested_run_publishes_sum charTokenizer
                           twoFilesArmed 0%nat twoFilesView twoFilesView
                           twoFilesArmed_schedInv
                           ltac:(vm_compute; apply list_elem_of_here)
                           ltac:(vm_compute; discriminate)))
             [EResume 0 twoFilesView; EResume 0 twoFilesView]
             (mkRun 1 ["/ws/a.ts"; "/ws/b.ts"] 8 2 Returned)).
    + repeat constructor.
    + vm_compute. reflexivity.
    + vm_compute. reflexivity.
    + reflexivity.
Defined.

Lemma fiveFilesStarted_currentRun :
  currentRun 0 [(ByRun 0, mkPayload 0 true)] fiveFilesStarted.
Proof.
  split.
  - intros j r Hj Hne. destruct j as [|j]; [congruence|].
    vm_compute in Hj. destruct j; discriminate.
  - eexists. split; [vm_compute; reflexivity|].
    split; vm_compute; reflexivity.
Qed.

Lemma C7_per_file_errors_are_skipped_witness :
  runningTokenCount
    (mkRun 1 ["/ws/gone.ts"; "/ws/a.ts"; "/ws/z.ts"; "/ws/big.ts"; "/ws/b.ts"]
       3 1 Returned) = 3%N
  /\ fired (prov fiveFilesCounted)
     = [(ByRun 0, mkPayload 0 true)] ++ [(ByRun 0, mkPayload 3 false)]
  /\ items (prov fiveFilesCounted) !! "/ws/gone.ts" = None
  /\ items (prov fiveFilesCounted) !! "/ws/z.ts" = None
  /\ is_Some (items (prov fiveFilesCounted) !! "/ws/a.ts").
Proof.
  destruct (proj2 (C7_per_file_errors_are_skipped pickyTokenizer 0%nat
                     [(ByRun 0, mkPayload 0 true)] laterView fiveFilesStarted
                     (mkRun 1
                        ["/ws/gone.ts"; "/ws/a.ts"; "/ws/z.ts"; "/ws/big.ts"; "/ws/b.ts"]
                        0 0
                        (AwaitRead "/ws/gone.ts"
                           ["/ws/a.ts"; "/ws/z.ts"; "/ws/big.ts"; "/ws/b.ts"]))
                     "/ws/gone.ts"
                     ["/ws/a.ts"; "/ws/z.ts"; "/ws/big.ts"; "/ws/b.ts"]
                     fiveFilesStarted_currentRun
                     ltac:(vm_compute; reflexivity) eq_refl)
            (repeat (EResume 0 laterView) 5)
            (mkRun 1
               ["/ws/gone.ts"; "/ws/a.ts"; "/ws/z.ts"; "/ws/big.ts"; "/ws/b.ts"]
               3 1 Returned)
            ltac:(repeat constructor)
            ltac:(vm_compute; reflexivity) eq_refl)
    as (H1 & H2 & H3).
  split; [exact H1|]. split; [exact H2|].
  split; [apply H3; left; split; reflexivity|].
  split; [apply H3; right; split; [simpl; tauto|reflexivity]|].
  vm_compute. eauto.
Defined.

(** ** Clearing the selection, and debouncing *)

Lemma toggleAll_heap_lookup (b : bool) (r : ref) (heap0 : list FileItem)
    (l : list (string * ref)) :
  (r ∈ l.*2 ->
   foldr (fun pr h => alter (updateCheckState b) pr.2 h) heap0 l !! r
   = updateCheckState b <$> heap0 !! r)
  /\ (r ∉ l.*2 ->
      foldr (fun pr h => alter (updateCheckState b) pr.2 h) heap0 l !! r
      = heap0 !! r).
Proof.
  set (f := fun (pr : string * ref) (h : list FileItem) =>
              alter (updateCheckState b) pr.2 h).
  induction l as [|[p r'] l [IHin IHout]].
  - split; [intros H; inversion H|reflexivity].
  - change (foldr f heap0 ((p, r') :: l))
      with (alter (updateCheckState b) r' (foldr f heap0 l)).
    change (((p, r') :: l).*2) with (r' :: l.*2).
    destruct (decide (r' = r)) as [->|Hne].
    + split; [intros _|intros Habs; exfalso; apply Habs; apply list_elem_of_here].
      rewrite list_lookup_alter_eq.
      destruct (decide (r ∈ l.*2)) as [Hin|Hout].
      * rewrite (IHin Hin). now destruct (heap0 !! r).
      * now rewrite (IHout Hout).
    + rewrite list_lookup_alter_ne by exact Hne. split.
      * intros Hin. apply IHin. apply elem_of_cons in Hin.
        destruct Hin as [Heq|Hin]; [congruence|exact Hin].
      * intros Hout. apply IHout. intros Hin. apply Hout.
        apply elem_of_cons. now right.
Qed.

Lemma toggleAllFiles_off persist view st :
  forallb isChecked (itemValues st) = true ->
  ver (toggleAllFiles persist view st).1 = (ver st + 1)%N
  /\ totalTokenCount (toggleAllFiles persist view st).1 = 0%N
  /\ isCountingTokens (toggleAllFiles persist view st).1 = false
  /\ fired (toggleAllFiles persist view st).1 = fired st ++ [(ByToggleAll, mkPayload 0 false)]
  /\ reads (toggleAllFiles persist view st).1 = reads st
  /\ pendingTimers (toggleAllFiles persist view st).1 = pendingTimers st
  /\ forall p b, checkedAt st p = Some b ->
       checkedAt (toggleAllFiles persist view st).1 p = Some false.
Proof.
  intros Hall. unfold toggleAllFiles. cbn [fst]. rewrite Hall. simpl.
  repeat (split; [reflexivity|]).
  intros p b Hp. unfold checkedAt in *. simpl.
  destruct (items st !! p) as [r|] eqn:Hr; [|discriminate]. simpl in *.
  assert (Hin : r ∈ (map_to_list (items st)).*2).
  { apply list_elem_of_fmap. exists (p, r). split; [reflexivity|].
    now apply elem_of_map_to_list. }
  rewrite (proj1 (toggleAll_heap_lookup false r (heap st) _) Hin).
  destruct (heap st !! r); [reflexivity|discriminate].
Qed.

Lemma toggleAllFiles_off_unchecked persist view st it :
  forallb isChecked (itemValues st) = true ->
  In it (itemValues (toggleAllFiles persist view st).1) -> isChecked it = false.
Proof.
  intros Hall. unfold toggleAllFiles. cbn [fst]. rewrite Hall. simpl.
  unfold itemValues. simpl. intros Hin.
  apply list_elem_of_In, list_elem_of_omap in Hin.
  destruct Hin as ([p r] & Hpr & Hr). simpl in Hr.
  assert (Hin : r ∈ (map_to_list (items st)).*2).
  { apply list_elem_of_fmap. exists (p, r). split; [reflexivity|exact Hpr]. }
  rewrite (proj1 (toggleAll_heap_lookup false r (heap st) _) Hin) in Hr.
  destruct (heap st !! r); [|discriminate]. now injection Hr as <-.
Qed.

Lemma toggleAllFiles_off_no_checks persist view st :
  forallb isChecked (itemValues st) = true ->
  existenceChecks (toggleAllFiles persist view st).1 = []
  /\ forall view', getCheckedFiles view' (toggleAllFiles persist view st).1 = [].
Proof.
  intros Hall.
  assert (Hnone : forall f : FileItem -> bool,
            (forall it, f it = true -> isChecked it = true) ->
            List.filter f (itemValues (toggleAllFiles persist view st).1) = []).
  { intros f Hf.
    pose proof (toggleAllFiles_off_unchecked persist view st) as Hun.
    induction (itemValues (toggleAllFiles persist view st).1) as [|it l IH];
      [reflexivity|].
    simpl. destruct (f it) eqn:Hfit.
    - apply Hf in Hfit. rewrite (Hun it Hall) in Hfit by now left. discriminate.
    - apply IH. intros it' Hall' Hin. apply Hun; [exact Hall'|now right]. }
  split.
  - unfold existenceChecks. rewrite Hnone; [reflexivity|].
    intros it Hit. now apply andb_true_iff in Hit.
  - intros view'. unfold getCheckedFiles. rewrite Hnone; [reflexivity|].
    intros it Hit. apply andb_true_iff in Hit. destruct Hit as (Hit & _).
    now apply andb_true_iff in Hit.
Qed.

(** *** What [savePersistedState] stores and asks *)

Lemma saveEntries_lookup view (h : list FileItem) (l : list (string * ref)) :
  forall acc : gmap string bool,
  NoDup l.*1 ->
  let g := fun (state : gmap string bool) (pr : string * ref) =>
             if existsSync view pr.1 then
               match h !! pr.2 with
               | Some item => <[pr.1 := isChecked item]> state
               | None => state
               end
             else state in
  (forall p, p ∉ l.*1 -> foldl g acc l !! p = acc !! p)
  /\ (forall p r, (p, r) ∈ l ->
        foldl g acc l !! p
        = if existsSync view p then
            match h !! r with
            | Some item => Some (isChecked item)
            | None => acc !! p
            end
          else acc !! p).
Proof.
  induction l as [|[p0 r0] l IH]; intros acc Hnd g.
  - simpl. split; [auto|]. intros p r Hin. now apply elem_of_nil in Hin.
  - simpl in Hnd. apply NoDup_cons in Hnd as [Hp0 Hnd].
    change (foldl g acc ((p0, r0) :: l)) with (foldl g (g acc (p0, r0)) l).
    destruct (IH (g acc (p0, r0)) Hnd) as (Hout & Hin). fold g in Hout, Hin.
    assert (Hother : forall p, p <> p0 -> g acc (p0, r0) !! p = acc !! p).
    { intros p Hne. subst g. simpl. destruct (existsSync view p0); [|reflexivity].
      destruct (h !! r0); [|reflexivity]. now rewrite lookup_insert_ne. }
    split.
    + intros p Hp. apply not_elem_of_cons in Hp as [Hne Hp].
      rewrite (Hout p Hp). now apply Hother.
    + intros p r Hpr. apply elem_of_cons in Hpr as [Heq|Hpr].
      * injection Heq as -> ->. rewrite (Hout p0 Hp0). subst g. simpl.
        destruct (existsSync view p0); [|reflexivity].
        destruct (h !! r0); [|reflexivity]. now rewrite lookup_insert_eq.
      * rewrite (Hin p r Hpr).
        assert (Hne : p <> p0).
        { intros ->. apply Hp0. apply list_elem_of_fmap. now exists (p0, r). }
        rewrite (Hother p Hne). reflexivity.
Qed.

Lemma savePersistedState_lookup view st :
  exists m, savePersistedState true view st = Some m
            /\ forall p, m !! p = if existsSync view p then checkedAt st p else None.
Proof.
  unfold savePersistedState. simpl. eexists. split; [reflexivity|].
  intros p.
  destruct (saveEntries_lookup view (heap st) (map_to_list (items st)) ∅
              (NoDup_fst_map_to_list (items st))) as (Hout & Hin).
  unfold checkedAt. destruct (items st !! p) as [r|] eqn:Hp.
  - apply elem_of_map_to_list in Hp. rewrite (Hin p r Hp). simpl.
    destruct (existsSync view p); [|apply lookup_empty].
    destruct (heap st !! r); [reflexivity|apply lookup_empty].
  - rewrite Hout.
    + rewrite lookup_empty. now destruct (existsSync view p).
    + intros Hin'. apply list_elem_of_fmap in Hin' as ([p' r] & -> & Hpr).
      apply elem_of_map_to_list in Hpr. simpl in Hp. congruence.
Qed.

Lemma savedChecks_keys st :
  NoDup (savedChecks true st)
  /\ forall p, In p (savedChecks true st) <-> is_Some (items st !! p).
Proof.
  unfold savedChecks. simpl. split; [apply NoDup_fst_map_to_list|].
  intros p. rewrite <- list_elem_of_In, list_elem_of_fmap. split.
  - intros ([p' r] & -> & Hpr). apply elem_of_map_to_list in Hpr. now exists r.
  - intros (r & Hr). exists (p, r). split; [reflexivity|].
    now apply elem_of_map_to_list.
Qed.

(** The call of [savePersistedState] inside [toggleAllFiles]. *)
Lemma toggleAllFiles_saved persist view st :
  (toggleAllFiles persist view st).2
  = if persist
    then Some (mkSaveCall (savedChecks true (toggleAllFiles persist view st).1)
                 (savePersistedState true view (toggleAllFiles persist view st).1))
    else None.
Proof.
  unfold toggleAllFiles. cbn [fst snd]. destruct persist; [|reflexivity].
  now destruct (negb (negb (forallb isChecked (itemValues st)))).
Qed.

Lemma toggleAllFiles_items persist view st :
  items (toggleAllFiles persist view st).1 = items st.
Proof.
  unfold toggleAllFiles. cbn [fst].
  now destruct (negb (negb (forallb isChecked (itemValues st)))).
Qed.

Section Clearing.
Variable encodeLength : string -> Result N.

Local Abbreviation step := (step encodeLength).
Local Abbreviation exec := (exec encodeLength).

(** C8, as the code has it: when every known node is checked,
    [toggleAllFiles] unchecks them all and, in the same synchronous
    segment, bumps the version, sets the aggregate to zero and fires it,
    without reading a file and without arming or waiting for a timer. The
    file system is asked on behalf of [savePersistedState] only: with
    persistence off nothing is asked and nothing stored; with persistence
    on, [fs.existsSync] is called once for every path of the map, and the
    record stored holds the new flag of each of those paths that exists.
    No run that was in flight publishes afterwards, and the next
    [getCheckedFiles] finds nothing without asking the file system about
    any path. And a recompute run that finds no checked file fires
    [{count: 0, isCounting: false}] and returns without issuing a read. *)
Theorem C8_clearing_is_immediate_and_reads_nothing :
  (forall persistState view st,
     forallb isChecked (itemValues st) = true ->
     let res := toggleAllFiles persistState view st in
     ver res.1 = (ver st + 1)%N
     /\ totalTokenCount res.1 = 0%N
     /\ isCountingTokens res.1 = false
     /\ fired res.1 = fired st ++ [(ByToggleAll, mkPayload 0 false)]
     /\ reads res.1 = reads st
     /\ pendingTimers res.1 = pendingTimers st
     /\ (forall p b, checkedAt st p = Some b -> checkedAt res.1 p = Some false)
     /\ existenceChecks res.1 = []
     /\ (forall view', getCheckedFiles view' res.1 = [])
     /\ (persistState = false -> res.2 = None)
     /\ (persistState = true ->
         exists call m,
           res.2 = Some call
           /\ NoDup (asked call)
           /\ (forall p, In p (asked call) <-> is_Some (items st !! p))
           /\ stored call = Some m
           /\ forall p, m !! p = if existsSync view p then checkedAt res.1 p
                                 else None))
  /\ (forall s persistState view evs i r,
        runsNotAhead s ->
        runs s !! i = Some r ->
        publishedBy i (prov (exec (EToggleAllFiles persistState view :: evs) s))
        = publishedBy i (prov s))
  /\ (forall view id st,
        getCheckedFiles view st = [] ->
        fired (updateTokenCount view id st).1
        = fired st ++ [(ByRun id, mkPayload 0 false)]
        /\ totalTokenCount (updateTokenCount view id st).1 = 0%N
        /\ isCountingTokens (updateTokenCount view id st).1 = false
        /\ reads (updateTokenCount view id st).1 = reads st
        /\ suspended (updateTokenCount view id st).2 = Returned).
Proof.
  split.
  { intros persistState view st Hall res. subst res.
    destruct (toggleAllFiles_off persistState view st Hall)
      as (H1 & H2 & H3 & H4 & H5 & H6 & H7).
    destruct (toggleAllFiles_off_no_checks persistState view st Hall) as (H8 & H9).
    repeat (split; [assumption|]).
    rewrite toggleAllFiles_saved. split.
    - now intros ->.
    - intros ->.
      destruct (savePersistedState_lookup view (toggleAllFiles true view st).1)
        as (m & Hm & Hlook).
      destruct (savedChecks_keys (toggleAllFiles true view st).1) as (Hnd & Hkeys).
      eexists _, m. split; [reflexivity|]. cbn [asked stored].
      split; [exact Hnd|]. split; [|split; [exact Hm|exact Hlook]].
      intros p. rewrite Hkeys. now rewrite toggleAllFiles_items. }
  split.
  - intros s persistState view evs i r Hna Hi. rewrite exec_cons.
    assert (Hi' : runs (step s (EToggleAllFiles persistState view)) !! i = Some r)
      by exact Hi.
    rewrite (exec_superseded encodeLength evs _ i r Hi').
    + with_strategy opaque [toggleAllFiles] simpl.
      destruct (toggleAllFiles_sched persistState view (prov s))
        as (_ & _ & _ & [Hf|Hf]).
      * now apply publishedBy_same.
      * eapply publishedBy_other; [exact Hf|]. repeat constructor. discriminate.
    + with_strategy opaque [toggleAllFiles] simpl.
      destruct (toggleAllFiles_sched persistState view (prov s)) as (_ & Hlt & _).
      specialize (Hna i r Hi). lia.
  - intros view id st Hfiles. unfold updateTokenCount. rewrite Hfiles.
    rewrite stale_eq by reflexivity. simpl. repeat split.
Qed.

End Clearing.

(** C8 as stated fails: both files are known and checked and persistence is
    on (the default). Clearing the selection fires zero at once, but on the
    way [savePersistedState] has asked the file system about both paths:
    the clearing is not free of file I/O. *)
Lemma C8_counterexample :
  forallb isChecked (itemValues twoFiles) = true
  /\ fired (toggleAllFiles true twoFilesView twoFiles).1
     = [(ByToggleAll, mkPayload 0 false)]
  /\ asked <$> (toggleAllFiles true twoFilesView twoFiles).2
     = Some ["/ws/a.ts"; "/ws/b.ts"].
Proof. vm_compute. repeat split. Qed.

Lemma C8_clearing_is_immediate_and_reads_nothing_witness :
  (fired (toggleAllFiles true twoFilesView twoFiles).1
   = fired twoFiles ++ [(ByToggleAll, mkPayload 0 false)]
   /\ reads (toggleAllFiles true twoFilesView twoFiles).1 = reads twoFiles
   /\ pendingTimers (toggleAllFiles true twoFilesView twoFiles).1
      = pendingTimers twoFiles
   /\ checkedAt (toggleAllFiles true twoFilesView twoFiles).1 "/ws/a.ts"
      = Some false
   /\ (toggleAllFiles false twoFilesView twoFiles).2 = None
   /\ exists call m,
        (toggleAllFiles true twoFilesView twoFiles).2 = Some call
        /\ stored call = Some m
        /\ m !! "/ws/a.ts" = Some false)
  /\ publishedBy 0
       (prov (exec charTokenizer
                (EToggleAllFiles true twoFilesView
                 :: [EResume 0 twoFilesView; EResume 0 twoFilesView])
                runAReading))
     = publishedBy 0 (prov runAReading)
  /\ (fired (updateTokenCount twoFilesView 0
               (toggleAllFiles true twoFilesView twoFiles).1).1
      = fired (toggleAllFiles true twoFilesView twoFiles).1
        ++ [(ByRun 0, mkPayload 0 false)]
      /\ reads (updateTokenCount twoFilesView 0
                  (toggleAllFiles true twoFilesView twoFiles).1).1
         = reads (toggleAllFiles true twoFilesView twoFiles).1).
Proof.
  destruct (C8_clearing_is_immediate_and_reads_nothing charTokenizer)
    as (Hoff & Hsup & Hempty).
  split; [|split].
  - destruct (Hoff true twoFilesView twoFiles ltac:(vm_compute; reflexivity))
      as (_ & _ & _ & Hf & Hr & Hp & Hc & _ & _ & _ & Hon).
    destruct (Hoff false twoFilesView twoFiles ltac:(vm_compute; reflexivity))
      as (_ & _ & _ & _ & _ & _ & _ & _ & _ & Hoff' & _).
    split; [exact Hf|]. split; [exact Hr|]. split; [exact Hp|].
    split; [apply (Hc "/ws/a.ts" true); vm_compute; reflexivity|].
    split; [exact (Hoff' eq_refl)|].
    destruct (Hon eq_refl) as (call & m & Hcall & _ & _ & Hm & Hlook).
    exists call, m. split; [exact Hcall|]. split; [exact Hm|].
    rewrite Hlook. vm_compute. reflexivity.
  - apply (Hsup runAReading true twoFilesView
             [EResume 0 twoFilesView; EResume 0 twoFilesView] 0%nat
             (mkRun 1 ["/ws/a.ts"; "/ws/b.ts"] 5 1 (AwaitRead "/ws/b.ts" []))).
    + intros j r H. destruct j as [|j].
      * vm_compute in H. injection H as <-. vm_compute. discriminate.
      * vm_compute in H. destruct j; discriminate.
    + vm_compute. reflexivity.
  - destruct (Hempty twoFilesView 0%nat (toggleAllFiles true twoFilesView twoFiles).1
                ltac:(vm_compute; reflexivity)) as (Hf & _ & _ & Hr & _).
    split; [exact Hf|exact Hr].
Defined.

Section Debounce.
Variable encodeLength : string -> Result N.

Local Abbreviation step := (step encodeLength).
Local Abbreviation exec := (exec encodeLength).

Lemma schedStep_pending st st' :
  schedStep st st' -> pendingTimers st <> [] -> pendingTimers st' <> [].
Proof. intros (_ & _ & _ & H). exact H. Qed.

Lemma quietStep_pending st st' :
  quietStep st st' -> pendingTimers st <> [] -> pendingTimers st' <> [].
Proof. intros (_ & _ & _ & _ & H). now apply schedStep_pending. Qed.





End Debounce.

Example burst_end :
  pendingTimers (prov (exec charTokenizer burst twoFilesArmed)) = [3%nat]
  /\ getCheckedFiles twoFilesView (prov (exec charTokenizer burst twoFilesArmed))
     = ["/ws/a.ts"; "/ws/b.ts"]
  /\ fired (prov burstCounted)
     = [(ByToggleAll, mkPayload 0 false); (ByRun 0, mkPayload 0 true);
        (ByRun 0, mkPayload 8 false)].
Proof. vm_compute. repeat split. Qed.


(** ** The selection tree: re-scans *)

Lemma parentChecked_alloc element st o m :
  elementValid element st ->
  parentChecked element (set_items m (set_heap (heap st ++ [o]) st))
  = parentChecked element st
  /\ elementValid element (set_items m (set_heap (heap st ++ [o]) st)).
Proof.
  destruct element as [r|]; simpl; [|auto].
  intros [el Hel]. rewrite lookup_app_l by (eapply lookup_lt_Some, Hel).
  rewrite Hel. eauto.
Qed.

Lemma scanPost_nil element st : scanPost element [] st st.
Proof.
  split; [exists []; now rewrite app_nil_r|].
  split; [auto|]. split; [auto|]. split; intros p [].
Qed.

Lemma scanPost_cons element path listed st st1 st' o :
  heap st1 = heap st ++ [o] ->
  items st1 = <[path := length (heap st)]> (items st) ->
  filePath o = path ->
  (forall b, checkedAt st path = Some b -> isChecked o = b) ->
  (items st !! path = None -> isChecked o = parentChecked element st) ->
  parentChecked element st1 = parentChecked element st ->
  scanPost element listed st1 st' ->
  scanPost element (path :: listed) st st'.
Proof.
  intros Hheap Hitems Hpath Hkept Hnew Hpc (P1 & P2 & P3 & P4 & P5).
  assert (Hsame : checkedAt st1 path = Some (isChecked o)).
  { unfold checkedAt. rewrite Hitems, Hheap, lookup_insert_eq. simpl.
    rewrite lookup_app_r by lia. now rewrite Nat.sub_diag. }
  assert (Hother : forall q b, q <> path -> checkedAt st q = Some b ->
                               checkedAt st1 q = Some b).
  { intros q b Hne. unfold checkedAt. rewrite Hitems, Hheap.
    rewrite lookup_insert_ne by congruence.
    destruct (items st !! q) as [r|]; [|discriminate]. simpl.
    destruct (heap st !! r) as [o'|] eqn:Hr; [|discriminate].
    intros Hb. rewrite lookup_app_l by (eapply lookup_lt_Some, Hr).
    now rewrite Hr. }
  destruct P1 as (news & Hnews).
  split; [exists ([o] ++ news); now rewrite Hnews, Hheap, <- app_assoc|].
  split; [|split; [|split]].
  - intros p Hnot. rewrite P2 by (intros Hin; apply Hnot; now right).
    rewrite Hitems. apply lookup_insert_ne. intros ->. apply Hnot. now left.
  - intros p b Hp. apply P3. destruct (decide (p = path)) as [->|Hne].
    + rewrite Hsame. f_equal. now apply Hkept.
    + now apply Hother.
  - intros p Hin. destruct (in_dec string_dec p listed) as [Hl|Hnl].
    + destruct (P4 p Hl) as (r & o' & H1 & H2 & H3 & H4).
      exists r, o'. rewrite Hheap, length_app in H2. simpl in H2.
      repeat split; try assumption. lia.
    + destruct Hin as [<-|Hin]; [|contradiction].
      exists (length (heap st)), o. rewrite (P2 path Hnl), Hitems, lookup_insert_eq.
      repeat split; try assumption; [lia|].
      rewrite Hnews, Hheap, <- app_assoc. rewrite lookup_app_r by lia.
      now rewrite Nat.sub_diag.
  - intros p Hin Hnone. destruct (decide (p = path)) as [->|Hne].
    + apply P3. rewrite Hsame. f_equal. now apply Hnew.
    + rewrite <- Hpc. apply P5.
      * destruct Hin as [Heq|Hin]; [congruence|exact Hin].
      * rewrite Hitems. now rewrite lookup_insert_ne by congruence.
Qed.

(** What the loop of [getChildren] does to the heap and the map. *)
Lemma scanEntries_spec cfg element dirPath es : forall children st,
  elementValid element st ->
  scanPost element (listedPaths cfg dirPath es) st
    (scanEntries cfg element dirPath es children st).1.
Proof.
  induction es as [|name kind sub rest IH]; intros children st Hel; simpl.
  - apply scanPost_nil.
  - destruct (excluded cfg name); [now apply IH|].
    set (path := Path.join dirPath name).
    destruct (items st !! path) as [old|] eqn:Hold.
    + set (kept := match heap st !! old with
                   | Some o => isChecked o
                   | None => false
                   end).
      set (o := mkFileItem name (collapsibleOf kind) path kept).
      set (st1 := set_items (<[path := length (heap st)]> (items st))
                    (set_heap (heap st ++ [o]) st)).
      destruct (parentChecked_alloc element st o
                  (<[path := length (heap st)]> (items st)) Hel) as (Hpc & Hel1).
      eapply (scanPost_cons element path _ st st1 _ o); try reflexivity.
      * intros b. unfold checkedAt. rewrite Hold. simpl. subst kept.
        destruct (heap st !! old); simpl; congruence.
      * congruence.
      * exact Hpc.
      * apply IH. exact Hel1.
    + set (o := mkFileItem name (collapsibleOf kind) path (parentChecked element st)).
      set (st1 := set_items (<[path := length (heap st)]> (items st))
                    (set_heap (heap st ++ [o]) st)).
      destruct (parentChecked_alloc element st o
                  (<[path := length (heap st)]> (items st)) Hel) as (Hpc & Hel1).
      set (st2 := if isChecked o then debouncedUpdateTokenCount 300 st1 else st1).
      assert (H2 : heap st2 = heap st1 /\ items st2 = items st1)
        by (subst st2; destruct (isChecked o); split; reflexivity).
      destruct H2 as (Hh2 & Hi2).
      assert (Hel2 : elementValid element st2).
      { unfold elementValid in *. destruct element; [|exact I]. now rewrite Hh2. }
      assert (Hpc2 : parentChecked element st2 = parentChecked element st).
      { rewrite <- Hpc. unfold parentChecked. destruct element; [|reflexivity].
        now rewrite Hh2. }
      eapply (scanPost_cons element path _ st st2 _ o).
      * rewrite Hh2. reflexivity.
      * rewrite Hi2. reflexivity.
      * reflexivity.
      * intros b. unfold checkedAt. rewrite Hold. discriminate.
      * reflexivity.
      * exact Hpc2.
      * apply IH. exact Hel2.
Qed.

(** C10: [getChildren] on a directory that can be listed. No object that
    existed before is changed (the heap only grows); every listed,
    non-excluded path is mapped to an object created by this scan; every
    path whose checked flag was stored keeps that flag; and a listed path
    the map did not know gets the flag of the parent node handed in, or
    [false] when the listing is that of the root. *)
Theorem C10_rescan_replaces_nodes_and_keeps_checks
    (cfg : Config) (element : option ref) (entries : Dirents) (st : Provider) :
  elementValid element st ->
  let dirPath :=
    default (workspaceRoot cfg)
      (match element with
       | Some r => filePath <$> heap st !! r
       | None => None
       end) in
  let st' := (getChildren cfg element (Listing entries) st).1 in
  (forall r o, heap st !! r = Some o -> heap st' !! r = Some o)
  /\ (forall p, In p (listedPaths cfg dirPath entries) ->
        exists r o, items st' !! p = Some r
                    /\ (length (heap st) <= r)%nat
                    /\ heap st !! r = None
                    /\ heap st' !! r = Some o
                    /\ filePath o = p)
  /\ (forall p b, checkedAt st p = Some b -> checkedAt st' p = Some b)
  /\ (forall p, In p (listedPaths cfg dirPath entries) ->
        items st !! p = None ->
        checkedAt st' p
        = Some (match element with
                | Some r => match heap st !! r with
                            | Some el => isChecked el
                            | None => false
                            end
                | None => false
                end)).
Proof.
  intros Hel dirPath st'.
  assert (Hst' : st' = (scanEntries cfg element dirPath entries [] st).1)
    by reflexivity.
  clearbody st'. subst st'.
  destruct (scanEntries_spec cfg element dirPath entries [] st Hel)
    as ((news & Hnews) & _ & P3 & P4 & P5).
  split; [|split; [|split]].
  - intros r o Hr. rewrite Hnews. rewrite lookup_app_l by (eapply lookup_lt_Some, Hr).
    exact Hr.
  - intros p Hin. destruct (P4 p Hin) as (r & o & H1 & H2 & H3 & H4).
    exists r, o. repeat split; try assumption. now apply lookup_ge_None.
  - exact P3.
  - exact P5.
Qed.

Example rescan_src :
  listedPaths roundTripConfig "/ws/src" srcListing = ["/ws/src/a.ts"; "/ws/src/b.ts"]
  /\ (getChildren roundTripConfig (Some 0%nat) (Listing srcListing) srcKnown).2
     = [2%nat; 3%nat]
  /\ heap (getChildren roundTripConfig (Some 0%nat) (Listing srcListing) srcKnown).1
     = [mkFileItem "src" CollapsedState "/ws/src" true;
        mkFileItem "a.ts" NoneState "/ws/src/a.ts" false;
        mkFileItem "a.ts" NoneState "/ws/src/a.ts" false;
        mkFileItem "b.ts" NoneState "/ws/src/b.ts" true].
Proof. vm_compute. repeat split. Qed.

Lemma C10_rescan_replaces_nodes_and_keeps_checks_witness :
  heap (getChildren roundTripConfig (Some 0%nat) (Listing srcListing) srcKnown).1
    !! 1%nat
  = Some (mkFileItem "a.ts" NoneState "/ws/src/a.ts" false)
  /\ (exists r o,
        items (getChildren roundTripConfig (Some 0%nat) (Listing srcListing) srcKnown).1
          !! "/ws/src/a.ts" = Some r
        /\ (2 <= r)%nat
        /\ heap srcKnown !! r = None
        /\ heap (getChildren roundTripConfig (Some 0%nat) (Listing srcListing)
                   srcKnown).1 !! r = Some o
        /\ filePath o = "/ws/src/a.ts")
  /\ checkedAt (getChildren roundTripConfig (Some 0%nat) (Listing srcListing) srcKnown).1
       "/ws/src/a.ts" = Some false
  /\ checkedAt (getChildren roundTripConfig (Some 0%nat) (Listing srcListing) srcKnown).1
       "/ws/src/b.ts" = Some true.
Proof.
  destruct (C10_rescan_replaces_nodes_and_keeps_checks roundTripConfig
              (Some 0%nat) srcListing srcKnown ltac:(simpl; eauto))
    as (Hold & Hnew & Hkept & Hdef).
  split; [apply Hold; reflexivity|].
  split; [apply (Hnew "/ws/src/a.ts"); vm_compute; tauto|].
  split; [apply (Hkept "/ws/src/a.ts" false); reflexivity|].
  apply (Hdef "/ws/src/b.ts"); [vm_compute; tauto|reflexivity].
Defined.

(** ** The selection tree: cascades *)

Lemma string_length_append (a b : string) :
  String.length (a +:+ b) = (String.length a + String.length b)%nat.
Proof. induction a as [|c a IH]; simpl; [reflexivity|]. now rewrite IH. Qed.

Lemma join_longer dir name :
  (String.length dir < String.length (Path.join dir name))%nat.
Proof. unfold Path.join. rewrite !string_length_append. simpl. lia. Qed.

(** Every path a cascade reaches lies strictly below its starting point. *)
Lemma walk_longer cfg :
  (forall ds dirPath p, In p (List.map fst (walk cfg ds dirPath)) ->
     (String.length dirPath < String.length p)%nat)
  /\ (forall es dirPath p, In p (List.map fst (walkEntries cfg es dirPath)) ->
        (String.length dirPath < String.length p)%nat).
Proof.
  apply DirState_Dirents_ind; simpl; try (intros; contradiction).
  - intros entries IH dirPath p Hin. now apply IH.
  - intros name kind sub IHsub rest IHrest dirPath p.
    destruct (excluded cfg name); [apply IHrest|]. simpl.
    rewrite List.map_app. intros [<-|Hin]; [apply join_longer|].
    apply in_app_or in Hin. destruct Hin as [Hin|Hin]; [|now apply IHrest].
    case_bool_decide; [|destruct Hin].
    pose proof (IHsub _ _ Hin). pose proof (join_longer dirPath name). lia.
Qed.

Lemma walk_not_self cfg ds dirPath :
  ~ In dirPath (List.map fst (walk cfg ds dirPath)).
Proof. intros Hin. apply (proj1 (walk_longer cfg)) in Hin. lia. Qed.

(** ** In a well-formed listing every path names one entry *)

Lemma append_inj_l (a x y : string) : a +:+ x = a +:+ y -> x = y.
Proof. induction a as [|c a IH]; simpl; [auto|]. intros H. injection H. auto. Qed.

Lemma append_assoc (a b c : string) : (a +:+ b) +:+ c = a +:+ (b +:+ c).
Proof.
  induction a as [|x a IH]; [reflexivity|].
  change (String x ((a +:+ b) +:+ c) = String x (a +:+ (b +:+ c))).
  now rewrite IH.
Qed.

Lemma slashFree_first_slash n : forall n' t t',
  slashFree n = true -> slashFree n' = true ->
  n +:+ "/" +:+ t = n' +:+ "/" +:+ t' -> n = n'.
Proof.
  induction n as [|c n IH]; intros [|c' n'] t t' Hn Hn' Heq; simpl in *.
  - reflexivity.
  - injection Heq as <- _. discriminate.
  - injection Heq as -> _. discriminate.
  - injection Heq as <- Heq.
    apply andb_true_iff in Hn. apply andb_true_iff in Hn'.
    f_equal. eapply IH; [apply Hn|apply Hn'|exact Heq].
Qed.

Lemma slashFree_no_slash n : forall n' t,
  slashFree n = true -> n = n' +:+ "/" +:+ t -> False.
Proof.
  induction n as [|c n IH]; intros [|c' n'] t Hn Heq; simpl in *;
    try discriminate.
  - injection Heq as -> _. discriminate.
  - injection Heq as _ Heq. apply andb_true_iff in Hn. eapply IH; [apply Hn|exact Heq].
Qed.

Lemma append_empty_r (a : string) : a +:+ "" = a.
Proof.
  induction a as [|c a IH]; [reflexivity|].
  change (String c (a +:+ "") = String c a). now rewrite IH.
Qed.

Lemma join_append dir name t :
  Path.join dir name +:+ t = dir +:+ "/" +:+ name +:+ t.
Proof. unfold Path.join. rewrite append_assoc. reflexivity. Qed.

(** Every path a walk of the entries of [dirPath] reaches starts with
    [dirPath], a slash and the name of one of the entries, followed by
    nothing or by a slash and more. *)
Lemma walk_shape cfg :
  (forall ds dirPath p, In p (List.map fst (walk cfg ds dirPath)) ->
     exists t, p = dirPath +:+ "/" +:+ t)
  /\ (forall es dirPath p, In p (List.map fst (walkEntries cfg es dirPath)) ->
        exists n rest, p = dirPath +:+ "/" +:+ n +:+ rest
                       /\ In n (entryNames es)
                       /\ (rest = "" \/ exists t, rest = "/" +:+ t)).
Proof.
  apply DirState_Dirents_ind; simpl; try (intros; contradiction).
  - intros entries IH dirPath p Hin.
    destruct (IH dirPath p Hin) as (n & rest & -> & _). eauto.
  - intros name kind sub IHsub rest IHrest dirPath p.
    assert (Hrest : In p (List.map fst (walkEntries cfg rest dirPath)) ->
              exists n r, p = dirPath +:+ "/" +:+ n +:+ r
                          /\ (name = n \/ In n (entryNames rest))
                          /\ (r = "" \/ exists t, r = "/" +:+ t)).
    { intros Hin. destruct (IHrest dirPath p Hin) as (n & r & Hp & Hn & Hr).
      exists n, r. auto. }
    destruct (excluded cfg name); [exact Hrest|]. simpl.
    rewrite List.map_app. intros [<-|Hin].
    + exists name, "". split; [|auto].
      now rewrite <- join_append, append_empty_r.
    + apply in_app_or in Hin. destruct Hin as [Hin|Hin]; [|now apply Hrest].
      case_bool_decide; [|destruct Hin].
      destruct (IHsub _ _ Hin) as (t & ->).
      exists name, ("/" +:+ t). split; [|eauto]. apply join_append.
Qed.

Lemma existsb_eqb_false n l :
  existsb (String.eqb n) l = false -> ~ In n l.
Proof.
  intros H Hin. assert (existsb (String.eqb n) l = true); [|congruence].
  apply existsb_exists. exists n. split; [exact Hin|apply String.eqb_refl].
Qed.

Lemma wellFormedEntries_slashFree es n :
  wellFormedEntries es = true -> In n (entryNames es) -> slashFree n = true.
Proof.
  induction es as [|name kind sub rest IH]; simpl; [intros _ []|].
  intros Hwf. repeat (apply andb_true_iff in Hwf; destruct Hwf as (Hwf & ?)).
  intros [<-|Hin]; [exact Hwf|]. now apply IH.
Qed.

(** In a well-formed listing a cascade reaches every path once. *)
Lemma walk_NoDup cfg :
  (forall ds dirPath, wellFormed ds = true ->
     NoDup (List.map fst (walk cfg ds dirPath)))
  /\ (forall es dirPath, wellFormedEntries es = true ->
        NoDup (List.map fst (walkEntries cfg es dirPath))).
Proof.
  apply DirState_Dirents_ind; simpl; try (intros; apply NoDup_nil_2).
  - intros entries IH dirPath Hwf. now apply IH.
  - intros name kind sub IHsub rest IHrest dirPath Hwf.
    apply andb_true_iff in Hwf. destruct Hwf as (Hwf & Hrest).
    apply andb_true_iff in Hwf. destruct Hwf as (Hwf & Hsub).
    apply andb_true_iff in Hwf. destruct Hwf as (Hname & Hfresh).
    apply negb_true_iff, existsb_eqb_false in Hfresh.
    destruct (excluded cfg name); [now apply IHrest|]. simpl.
    set (path := Path.join dirPath name).
    assert (Hother : forall p, In p (List.map fst (walkEntries cfg rest dirPath)) ->
              forall t, p = path +:+ t -> (t = "" \/ exists u, t = "/" +:+ u) -> False).
    { intros p Hin t Hp Ht.
      destruct (proj2 (walk_shape cfg) rest dirPath p Hin) as (n & r & Hp' & Hn & Hr).
      pose proof (wellFormedEntries_slashFree rest n Hrest Hn) as Hsf.
      rewrite Hp' in Hp. unfold path in Hp. rewrite join_append in Hp.
      apply append_inj_l in Hp. simpl in Hp. injection Hp as Hp.
      destruct Hr as [->|(u & ->)], Ht as [->|(v & ->)].
      - assert (n = name); [|congruence].
        clear -Hp. revert Hp. generalize name. 
        induction n as [|c n IH]; intros [|c' m]; simpl; try discriminate; auto.
        intros H. injection H as -> H. f_equal. now apply IH.
      - assert (Hn' : n = name +:+ "/" +:+ v).
        { clear -Hp. revert Hp. generalize (name +:+ "/" +:+ v).
          induction n as [|c n IH]; intros [|c' m]; simpl; try discriminate; auto.
          intros H. injection H as -> H. f_equal. now apply IH. }
        eapply slashFree_no_slash; [exact Hsf|exact Hn'].
      - assert (Hn' : name = n +:+ "/" +:+ u).
        { clear -Hp. revert Hp. generalize (n +:+ "/" +:+ u).
          induction name as [|c m IH]; intros [|c' k]; simpl; try discriminate; auto.
          intros H. injection H as -> H. f_equal. now apply IH. }
        eapply slashFree_no_slash; [exact Hname|exact Hn'].
      - assert (n = name); [|congruence].
        eapply slashFree_first_slash; [exact Hsf|exact Hname|exact Hp]. }
    apply NoDup_cons. split.
    + rewrite List.map_app. intros Hin. apply list_elem_of_In, in_app_or in Hin.
      destruct Hin as [Hin|Hin].
      * case_bool_decide; [|destruct Hin]. now apply walk_not_self in Hin.
      * apply (Hother path Hin ""); [|now left].
        now rewrite append_empty_r.
    + rewrite List.map_app. apply NoDup_app. split; [|split].
      * case_bool_decide; [now apply IHsub|apply NoDup_nil_2].
      * intros p Hin1 Hin2. apply list_elem_of_In in Hin1, Hin2.
        case_bool_decide; [|destruct Hin1].
        destruct (proj1 (walk_shape cfg) sub path p Hin1) as (t & Hp).
        apply (Hother p Hin2 ("/" +:+ t)); [exact Hp|eauto].
      * now apply IHrest.
Qed.

(** ** The selection tree: what a cascade does *)

Lemma setOrCreate_post cfg view confirm checked name kind path st :
  itemsKeyed st ->
  cascadePost cfg view confirm checked [(path, kind)] st
    (setOrCreate name kind path (targetState cfg view confirm checked (path, kind)) st).
Proof.
  intros Hkeyed. unfold setOrCreate.
  set (b := targetState cfg view confirm checked (path, kind)).
  destruct (items st !! path) as [r|] eqn:Hr.
  - destruct (Hkeyed path r Hr) as (o & Ho & Hpath).
    split; [|split; [|split]]; simpl.
    + intros q r' Hq. simpl in Hq |- *. destruct (decide (q = path)) as [->|Hne].
      * rewrite lookup_insert_eq in Hq. injection Hq as <-.
        exists (updateCheckState b o). rewrite list_lookup_alter_eq, Ho. auto.
      * rewrite lookup_insert_ne in Hq by congruence.
        destruct (Hkeyed q r' Hq) as (o' & Ho' & Hpath').
        exists o'. split; [|exact Hpath'].
        rewrite list_lookup_alter_ne; [exact Ho'|].
        intros <-. congruence.
    + intros r' o' Ho' Hnot. rewrite list_lookup_alter_ne; [exact Ho'|].
      intros <-. apply Hnot. left. congruence.
    + intros q Hnot. apply lookup_insert_ne. intros <-. apply Hnot. now left.
    + intros q [<-|[]]. exists kind. split; [now left|].
      unfold checkedAt. simpl. rewrite lookup_insert_eq. simpl.
      now rewrite list_lookup_alter_eq, Ho.
  - split; [|split; [|split]]; simpl.
    + intros q r' Hq. simpl in Hq |- *. destruct (decide (q = path)) as [->|Hne].
      * rewrite lookup_insert_eq in Hq. injection Hq as <-.
        eexists. rewrite lookup_app_r by lia. rewrite Nat.sub_diag. simpl.
        split; reflexivity.
      * rewrite lookup_insert_ne in Hq by congruence.
        destruct (Hkeyed q r' Hq) as (o' & Ho' & Hpath').
        exists o'. split; [|exact Hpath'].
        rewrite lookup_app_l by (eapply lookup_lt_Some, Ho'). exact Ho'.
    + intros r' o' Ho' _. rewrite lookup_app_l by (eapply lookup_lt_Some, Ho').
      exact Ho'.
    + intros q Hnot. apply lookup_insert_ne. intros <-. apply Hnot. now left.
    + intros q [<-|[]]. exists kind. split; [now left|].
      unfold checkedAt. simpl. rewrite lookup_insert_eq. simpl.
      rewrite lookup_app_r by lia. now rewrite Nat.sub_diag.
Qed.

Lemma cascadePost_nil cfg view confirm checked st :
  itemsKeyed st -> cascadePost cfg view confirm checked [] st st.
Proof.
  intros Hkeyed. split; [exact Hkeyed|]. split; [auto|]. split; [auto|].
  intros p [].
Qed.

Lemma cascadePost_app cfg view confirm checked W1 W2 st st1 st2 :
  cascadePost cfg view confirm checked W1 st st1 ->
  cascadePost cfg view confirm checked W2 st1 st2 ->
  cascadePost cfg view confirm checked (W1 ++ W2) st st2.
Proof.
  intros (K1 & A1 & B1 & C1) (K2 & A2 & B2 & C2).
  split; [exact K2|]. split; [|split].
  - intros r o Ho Hnot. rewrite List.map_app in Hnot.
    apply A2; [apply A1; [exact Ho|]|]; intros Hin; apply Hnot, in_or_app; auto.
  - intros p Hnot. rewrite List.map_app in Hnot.
    rewrite B2, B1; [reflexivity| |]; intros Hin; apply Hnot, in_or_app; auto.
  - intros p Hin. rewrite List.map_app in Hin.
    destruct (in_dec string_dec p (List.map fst W2)) as [H2|H2].
    + destruct (C2 p H2) as (k & Hk & Hc). exists k.
      split; [apply in_or_app; now right|exact Hc].
    + apply in_app_or in Hin. destruct Hin as [H1|H1]; [|contradiction].
      destruct (C1 p H1) as (k & Hk & Hc). exists k.
      split; [apply in_or_app; now left|].
      unfold checkedAt in *. rewrite (B2 p H2).
      destruct (items st1 !! p) as [r|] eqn:Hr; [|discriminate]. simpl in *.
      destruct (K1 p r Hr) as (o & Ho & Hpath).
      rewrite (A2 r o Ho) by (now rewrite Hpath). now rewrite Ho in Hc.
Qed.

(** What a cascade does to the heap and the map. *)
Lemma toggleCascade_post cfg view confirm checked :
  (forall ds dirPath st,
     itemsKeyed st ->
     cascadePost cfg view confirm checked (walk cfg ds dirPath) st
       (toggleDirectoryChildren cfg view confirm ds dirPath checked st).1)
  /\ (forall es dirPath c0 st,
        itemsKeyed st ->
        cascadePost cfg view confirm checked (walkEntries cfg es dirPath) st
          (toggleEntries cfg view confirm es dirPath checked c0 st).1).
Proof.
  apply DirState_Dirents_ind; simpl; intros; try (now apply cascadePost_nil).
  - now apply H.
  - destruct (excluded cfg name); [now apply H0|].
    set (path := Path.join dirPath name).
    pose proof (setOrCreate_post cfg view confirm checked name kind path st H1) as P1.
    set (st1 := setOrCreate name kind path
                  (targetState cfg view confirm checked (path, kind)) st) in *.
    change (setOrCreate name kind path
              (if checked && bool_decide (kind = IsFile)
                  && checkFileSize cfg view confirm path
               then false else checked) st) with st1.
    change ((path, kind) :: (if bool_decide (kind = IsDirectory)
                             then walk cfg sub path else [])
            ++ walkEntries cfg rest dirPath)
      with ([(path, kind)] ++ (if bool_decide (kind = IsDirectory)
                               then walk cfg sub path else [])
            ++ walkEntries cfg rest dirPath).
    eapply cascadePost_app; [exact P1|].
    destruct (bool_decide (kind = IsDirectory)).
    + pose proof (H path st1 (proj1 P1)) as P2.
      destruct (toggleDirectoryChildren cfg view confirm sub path checked st1)
        as [st2 cc].
      eapply cascadePost_app; [exact P2|]. apply H0. apply P2.
    + apply H0. apply P1.
Qed.

(** What a cascade returns: whether the gate declined an entry it
    reached. *)
Lemma toggleCascade_result cfg view confirm :
  (forall ds dirPath st,
     (toggleDirectoryChildren cfg view confirm ds dirPath true st).2
     = existsb (declinedEntry cfg view confirm) (walk cfg ds dirPath))
  /\ (forall es dirPath c0 st,
        (toggleEntries cfg view confirm es dirPath true c0 st).2
        = c0 || existsb (declinedEntry cfg view confirm) (walkEntries cfg es dirPath)).
Proof.
  apply DirState_Dirents_ind; simpl; intros; try reflexivity.
  - rewrite H. reflexivity.
  - now rewrite orb_false_r.
  - destruct (excluded cfg name); [apply H0|].
    set (path := Path.join dirPath name).
    cbn [existsb].
    change (declinedEntry cfg view confirm (path, kind))
      with (bool_decide (kind = IsFile) && checkFileSize cfg view confirm path).
    rewrite existsb_app.
    match goal with
    | |- context [setOrCreate name kind path ?b st] =>
        set (st1 := setOrCreate name kind path b st)
    end.
    destruct (bool_decide (kind = IsDirectory)).
    + pose proof (H path st1) as P2.
      destruct (toggleDirectoryChildren cfg view confirm sub path true st1)
        as [st2 cc].
      simpl in P2. rewrite H0, P2.
      now rewrite !orb_assoc.
    + rewrite H0. simpl. now rewrite orb_false_r, !orb_assoc.
Qed.

Lemma itemsKeyed_alter st b r :
  itemsKeyed st ->
  itemsKeyed (set_heap (alter (updateCheckState b) r (heap st)) st).
Proof.
  intros Hkeyed p r' Hp. simpl in *. destruct (Hkeyed p r' Hp) as (o & Ho & Hpath).
  destruct (decide (r = r')) as [->|Hne].
  - exists (updateCheckState b o). rewrite list_lookup_alter_eq, Ho. auto.
  - exists o. now rewrite list_lookup_alter_ne.
Qed.

(** Toggling a folder: its own flag flips, the cascade runs towards the
    new flag, the map entry of its path is set to the toggled object, and
    the recompute is invalidated. *)
Lemma toggleCheck_folder cfg view confirm ds r item st :
  heap st !! r = Some item ->
  collapsibleState item = CollapsedState ->
  toggleCheck cfg view confirm ds r st
  = debouncedUpdateTokenCount 300
      (set_items
         (<[filePath item := r]>
            (items (toggleDirectoryChildren cfg view confirm ds (filePath item)
                      (negb (isChecked item))
                      (set_heap (alter (updateCheckState (negb (isChecked item))) r
                                   (heap st)) st)).1))
         (toggleDirectoryChildren cfg view confirm ds (filePath item)
            (negb (isChecked item))
            (set_heap (alter (updateCheckState (negb (isChecked item))) r
                         (heap st)) st)).1).
Proof.
  intros Hitem Hkind. unfold toggleCheck, contextValue. rewrite Hitem, Hkind.
  simpl. rewrite andb_false_r. simpl.
  destruct (isChecked item); simpl;
    destruct (toggleDirectoryChildren _ _ _ _ _ _ _) as [st2 cc]; reflexivity.
Qed.

(** Toggling a file the gate lets through. *)
Lemma toggleCheck_file cfg view confirm ds r item st :
  heap st !! r = Some item ->
  collapsibleState item = NoneState ->
  checkFileSize cfg view confirm (filePath item) = false ->
  toggleCheck cfg view confirm ds r st
  = debouncedUpdateTokenCount 300
      (set_items (<[filePath item := r]> (items st))
         (set_heap (alter (updateCheckState (negb (isChecked item))) r (heap st))
            st)).
Proof.
  intros Hitem Hkind Hgate. unfold toggleCheck, contextValue.
  rewrite Hitem, Hkind, Hgate. simpl. rewrite andb_false_r. simpl.
  destruct (isChecked item); reflexivity.
Qed.

Lemma walk_kind_unique (W : list (string * EntryKind)) p k k' :
  NoDup (List.map fst W) -> In (p, k) W -> In (p, k') W -> k = k'.
Proof.
  induction W as [|[q kq] W IH]; simpl; intros Hnd Hk Hk'; [destruct Hk|].
  apply NoDup_cons in Hnd. destruct Hnd as (Hnot & Hnd).
  assert (Hfst : forall x, In (q, x) W -> False).
  { intros x Hx. apply Hnot. apply list_elem_of_In.
    apply in_map_iff. exists (q, x). auto. }
  destruct Hk as [Hk|Hk], Hk' as [Hk'|Hk'].
  - congruence.
  - injection Hk as -> ->. exfalso. eapply Hfst, Hk'.
  - injection Hk' as -> ->. exfalso. eapply Hfst, Hk.
  - now apply IH.
Qed.

Lemma checkedAt_alter_other st b r p :
  itemsKeyed st ->
  (forall o, heap st !! r = Some o -> filePath o <> p) ->
  checkedAt (set_heap (alter (updateCheckState b) r (heap st)) st) p
  = checkedAt st p.
Proof.
  intros K Hr. unfold checkedAt. simpl.
  destruct (items st !! p) as [r'|] eqn:Hp; [|reflexivity]. simpl.
  destruct (K p r' Hp) as (o & Ho & Hpath).
  destruct (decide (r = r')) as [->|Hne].
  - exfalso. now apply (Hr o Ho).
  - now rewrite list_lookup_alter_ne.
Qed.

Lemma checkedAt_cascade_frame cfg view confirm checked W st st' p :
  cascadePost cfg view confirm checked W st st' ->
  itemsKeyed st ->
  ~ In p (List.map fst W) ->
  checkedAt st' p = checkedAt st p.
Proof.
  intros (_ & A & B & _) K Hp. unfold checkedAt. rewrite (B p Hp).
  destruct (items st !! p) as [r|] eqn:Hr; [|reflexivity]. simpl.
  destruct (K p r Hr) as (o & Ho & Hpath).
  rewrite Ho. rewrite (A r o Ho); [reflexivity|]. now rewrite Hpath.
Qed.

Lemma checkedAt_insert_other st q r p :
  p <> q -> checkedAt (set_items (<[q := r]> (items st)) st) p = checkedAt st p.
Proof. intros Hne. unfold checkedAt. simpl. now rewrite lookup_insert_ne. Qed.

(** C4, as the code has it: a folder is toggled on; what is on disk below
    it is a well-formed listing, in which the size gate declines the file
    [p0] and no other file. Afterwards the folder is checked, [p0] is
    unchecked, every other entry the cascade reached is checked (nothing
    was rolled back), the cascade has returned [true], and the recompute
    has been invalidated: the version is bumped and a timer armed. The
    cascade reaches what [readdir] lists, through the folders it can read;
    every other path, known or not, keeps the flag it had. *)
Theorem C4_partial_cascade_is_kept
    (cfg : Config) (view : FsView) (confirm : string -> bool) (ds : DirState)
    (r0 : ref) (item : FileItem) (p0 : string) (st : Provider) :
  itemsKeyed st ->
  heap st !! r0 = Some item ->
  isChecked item = false ->
  collapsibleState item = CollapsedState ->
  wellFormed ds = true ->
  In (p0, IsFile) (walk cfg ds (filePath item)) ->
  checkFileSize cfg view confirm p0 = true ->
  (forall p, In (p, IsFile) (walk cfg ds (filePath item)) -> p <> p0 ->
     checkFileSize cfg view confirm p = false) ->
  let st' := toggleCheck cfg view confirm ds r0 st in
  checkedAt st' (filePath item) = Some true
  /\ checkedAt st' p0 = Some false
  /\ (forall p k, In (p, k) (walk cfg ds (filePath item)) -> p <> p0 ->
        checkedAt st' p = Some true)
  /\ (toggleDirectoryChildren cfg view confirm ds (filePath item) true
        (set_heap (alter (updateCheckState true) r0 (heap st)) st)).2 = true
  /\ ver st' = (ver st + 1)%N
  /\ In (nextTimer st) (pendingTimers st')
  /\ (forall p, p <> filePath item ->
        ~ In p (List.map fst (walk cfg ds (filePath item))) ->
        checkedAt st' p = checkedAt st p).
Proof.
  intros Hkeyed Hitem Hunchecked Hkind Hwf Hp0 Hdecl Hothers st'.
  pose proof (proj1 (walk_NoDup cfg) ds (filePath item) Hwf) as Hnd.
  subst st'. rewrite (toggleCheck_folder cfg view confirm ds r0 item st Hitem Hkind).
  rewrite Hunchecked. simpl negb.
  set (st1 := set_heap (alter (updateCheckState true) r0 (heap st)) st).
  pose proof (proj1 (toggleCascade_post cfg view confirm true) ds (filePath item) st1
                (itemsKeyed_alter st true r0 Hkeyed)) as Hpost.
  pose proof Hpost as (K & A & B & C).
  pose proof (proj1 (toggleCascade_result cfg view confirm) ds (filePath item) st1)
    as Hres.
  pose proof (proj1 (toggleCascade_selectionOnly cfg view confirm) ds (filePath item)
                true st1) as (Hv & _ & _ & Hn & _).
  destruct (toggleDirectoryChildren cfg view confirm ds (filePath item) true st1)
    as [st2 cc].
  simpl in Hpost, K, A, B, C, Hres, Hv, Hn |- *.
  assert (Hwalked : forall p, In p (List.map fst (walk cfg ds (filePath item))) ->
            checkedAt (set_items (<[filePath item := r0]> (items st2)) st2) p
            = checkedAt st2 p).
  { intros p Hin. unfold checkedAt. simpl. rewrite lookup_insert_ne; [reflexivity|].
    intros Heq. rewrite <- Heq in Hin. now apply walk_not_self in Hin. }
  split; [|split; [|split; [|split; [|split; [|split]]]]].
  - unfold checkedAt. simpl. rewrite lookup_insert_eq. simpl.
    rewrite (A r0 (updateCheckState true item)).
    + reflexivity.
    + subst st1. simpl. now rewrite list_lookup_alter_eq, Hitem.
    + simpl. apply walk_not_self.
  - assert (Hin : In p0 (List.map fst (walk cfg ds (filePath item))))
      by (apply in_map_iff; exists (p0, IsFile); auto).
    change (checkedAt (debouncedUpdateTokenCount 300
              (set_items (<[filePath item := r0]> (items st2)) st2)) p0)
      with (checkedAt (set_items (<[filePath item := r0]> (items st2)) st2) p0).
    rewrite (Hwalked p0 Hin). destruct (C p0 Hin) as (k & Hk & ->).
    rewrite (walk_kind_unique _ p0 k IsFile Hnd Hk Hp0).
    unfold targetState. simpl. now rewrite Hdecl.
  - intros p k Hk Hne.
    assert (Hin : In p (List.map fst (walk cfg ds (filePath item))))
      by (apply in_map_iff; exists (p, k); auto).
    change (checkedAt (debouncedUpdateTokenCount 300
              (set_items (<[filePath item := r0]> (items st2)) st2)) p)
      with (checkedAt (set_items (<[filePath item := r0]> (items st2)) st2) p).
    rewrite (Hwalked p Hin). destruct (C p Hin) as (k' & Hk' & ->).
    unfold targetState. simpl. case_bool_decide as Hfile; [|reflexivity].
    subst k'. simpl. now rewrite (Hothers p Hk' Hne).
  - rewrite Hres. apply existsb_exists. exists (p0, IsFile).
    split; [exact Hp0|]. unfold declinedEntry. simpl. exact Hdecl.
  - simpl. rewrite Hv. reflexivity.
  - simpl. apply in_or_app. right. rewrite Hn. now left.
  - intros p Hne Hout.
    change (checkedAt (debouncedUpdateTokenCount 300
              (set_items (<[filePath item := r0]> (items st2)) st2)) p)
      with (checkedAt (set_items (<[filePath item := r0]> (items st2)) st2) p).
    rewrite checkedAt_insert_other by exact Hne.
    rewrite (checkedAt_cascade_frame cfg view confirm true _ st1 st2 p Hpost
               (itemsKeyed_alter st true r0 Hkeyed) Hout).
    subst st1. apply checkedAt_alter_other; [exact Hkeyed|].
    intros o Ho. assert (o = item) as -> by congruence. congruence.
Qed.

(** C4 as stated fails: the folder [/ws/d] is toggled on; the size gate
    declines [big.bin] and would accept every other file. The folder [sub]
    cannot be read, so the cascade does not descend into it: its file
    [c.ts], which is known and which no pattern excludes, is still
    unchecked afterwards, although it is not the declined file. *)
Lemma C4_counterexample :
  checkFileSize roundTripConfig folderView alwaysCancel "/ws/d/big.bin" = true
  /\ checkFileSize roundTripConfig folderView alwaysCancel "/ws/d/a.ts" = false
  /\ checkFileSize roundTripConfig folderView alwaysCancel "/ws/d/sub/c.ts" = false
  /\ excluded roundTripConfig "sub" = false
  /\ excluded roundTripConfig "c.ts" = false
  /\ checkedAt subKnown "/ws/d/sub/c.ts" = Some false
  /\ checkedAt (toggleCheck roundTripConfig folderView alwaysCancel lockedSubOnDisk
                  0%nat subKnown) "/ws/d" = Some true
  /\ checkedAt (toggleCheck roundTripConfig folderView alwaysCancel lockedSubOnDisk
                  0%nat subKnown) "/ws/d/big.bin" = Some false
  /\ checkedAt (toggleCheck roundTripConfig folderView alwaysCancel lockedSubOnDisk
                  0%nat subKnown) "/ws/d/a.ts" = Some true
  /\ checkedAt (toggleCheck roundTripConfig folderView alwaysCancel lockedSubOnDisk
                  0%nat subKnown) "/ws/d/sub" = Some true
  /\ checkedAt (toggleCheck roundTripConfig folderView alwaysCancel lockedSubOnDisk
                  0%nat subKnown) "/ws/d/sub/c.ts" = Some false.
Proof. vm_compute. repeat split. Qed.

Lemma itemsKeyedb_sound st : itemsKeyedb st = true -> itemsKeyed st.
Proof.
  unfold itemsKeyedb. intros Hall p r Hp.
  rewrite forallb_forall in Hall.
  assert (Hin : In (p, r) (map_to_list (items st))).
  { apply list_elem_of_In. now apply elem_of_map_to_list. }
  specialize (Hall (p, r) Hin). simpl in Hall.
  destruct (heap st !! r) as [o|]; [|discriminate].
  exists o. split; [reflexivity|]. now apply String.eqb_eq.
Qed.

Example folder_walk :
  walk roundTripConfig folderOnDisk "/ws/d"
  = [("/ws/d/a.ts", IsFile); ("/ws/d/big.bin", IsFile);
     ("/ws/d/sub", IsDirectory); ("/ws/d/sub/c.ts", IsFile)].
Proof. vm_compute. reflexivity. Qed.

Lemma C4_partial_cascade_is_kept_witness :
  checkedAt (toggleCheck roundTripConfig folderView alwaysCancel folderOnDisk 0%nat
               folderKnown) "/ws/d" = Some true
  /\ checkedAt (toggleCheck roundTripConfig folderView alwaysCancel folderOnDisk 0%nat
                  folderKnown) "/ws/d/big.bin" = Some false
  /\ checkedAt (toggleCheck roundTripConfig folderView alwaysCancel folderOnDisk 0%nat
                  folderKnown) "/ws/d/a.ts" = Some true
  /\ checkedAt (toggleCheck roundTripConfig folderView alwaysCancel folderOnDisk 0%nat
                  folderKnown) "/ws/d/sub/c.ts" = Some true
  /\ ver (toggleCheck roundTripConfig folderView alwaysCancel folderOnDisk 0%nat
            folderKnown) = 1%N
  /\ checkedAt (toggleCheck roundTripConfig folderView alwaysCancel lockedSubOnDisk
                  0%nat subKnown) "/ws/d/sub/c.ts"
     = checkedAt subKnown "/ws/d/sub/c.ts".
Proof.
  assert (Hlocked :
            checkedAt (toggleCheck roundTripConfig folderView alwaysCancel
                         lockedSubOnDisk 0%nat subKnown) "/ws/d/sub/c.ts"
            = checkedAt subKnown "/ws/d/sub/c.ts").
  { destruct (C4_partial_cascade_is_kept roundTripConfig folderView alwaysCancel
                lockedSubOnDisk 0%nat (mkFileItem "d" CollapsedState "/ws/d" false)
                "/ws/d/big.bin" subKnown)
      as (_ & _ & _ & _ & _ & _ & Hframe).
    - apply itemsKeyedb_sound. vm_compute. reflexivity.
    - reflexivity.
    - reflexivity.
    - reflexivity.
    - reflexivity.
    - vm_compute. tauto.
    - vm_compute. reflexivity.
    - intros p Hin Hne. vm_compute in Hin.
      destruct Hin as [Hin|[Hin|[Hin|[]]]]; try discriminate;
        injection Hin as <-; try congruence; vm_compute; reflexivity.
    - apply Hframe; [discriminate|]. vm_compute.
      intros [H|[H|[H|[]]]]; discriminate. }
  destruct (C4_partial_cascade_is_kept roundTripConfig folderView alwaysCancel
              folderOnDisk 0%nat (mkFileItem "d" CollapsedState "/ws/d" false)
              "/ws/d/big.bin" folderKnown)
    as (Hdir & Hbig & Hrest & _ & Hver & _).
  - apply itemsKeyedb_sound. vm_compute. reflexivity.
  - reflexivity.
  - reflexivity.
  - reflexivity.
  - reflexivity.
  - vm_compute. tauto.
  - vm_compute. reflexivity.
  - intros p Hin Hne. vm_compute in Hin.
    destruct Hin as [Hin|[Hin|[Hin|[Hin|[]]]]]; try discriminate;
      injection Hin as <-; try congruence; vm_compute; reflexivity.
  - split; [exact Hdir|]. split; [exact Hbig|].
    split; [apply (Hrest _ IsFile); [vm_compute; tauto|discriminate]|].
    split; [apply (Hrest _ IsFile); [vm_compute; tauto|discriminate]|].
    split; [exact Hver|exact Hlocked].
Defined.

(** ** The selection tree: toggling twice *)

Lemma setAll_lookup b refs : forall h r,
  (In r refs -> setAll b refs h !! r = updateCheckState b <$> h !! r)
  /\ (~ In r refs -> setAll b refs h !! r = h !! r).
Proof.
  induction refs as [|r' refs IH]; intros h r; simpl.
  - split; [intros []|reflexivity].
  - destruct (IH (alter (updateCheckState b) r' h) r) as (IHin & IHout).
    destruct (decide (r' = r)) as [->|Hne].
    + split; [intros _|intros Habs; exfalso; apply Habs; now left].
      destruct (in_dec Nat.eq_dec r refs) as [Hin|Hout].
      * unfold setAll in *. rewrite (IHin Hin), list_lookup_alter_eq.
        now destruct (h !! r).
      * unfold setAll in *. rewrite (IHout Hout). apply list_lookup_alter_eq.
    + split.
      * intros [Heq|Hin]; [congruence|]. unfold setAll in *.
        rewrite (IHin Hin). now rewrite list_lookup_alter_ne.
      * intros Hout. unfold setAll in *. rewrite IHout by tauto.
        now rewrite list_lookup_alter_ne.
Qed.

Lemma setAll_app b refs1 refs2 h :
  setAll b (refs1 ++ refs2) h = setAll b refs2 (setAll b refs1 h).
Proof. apply foldl_app. Qed.

Lemma confirm_all_accepts cfg view confirm p :
  (forall q, confirm q = true) -> checkFileSize cfg view confirm p = false.
Proof.
  intros Hyes. unfold checkFileSize. destruct (statSize view p); [|reflexivity].
  rewrite Hyes. now destruct (_ <? _)%N.
Qed.

(** A cascade over entries that are all known, with a gate that declines
    none of them: the map is unchanged and the flag is stored in each of
    their objects. *)
Lemma toggleCascade_known cfg view confirm checked :
  (forall q, confirm q = true) ->
  (forall ds dirPath st,
     (forall p, In p (List.map fst (walk cfg ds dirPath)) -> is_Some (items st !! p)) ->
     (toggleDirectoryChildren cfg view confirm ds dirPath checked st).1
     = set_heap (setAll checked (walkedRefs (walk cfg ds dirPath) st) (heap st)) st)
  /\ (forall es dirPath c0 st,
        (forall p, In p (List.map fst (walkEntries cfg es dirPath)) ->
           is_Some (items st !! p)) ->
        (toggleEntries cfg view confirm es dirPath checked c0 st).1
        = set_heap
            (setAll checked (walkedRefs (walkEntries cfg es dirPath) st) (heap st))
            st).
Proof.
  intros Hyes.
  assert (Heta : forall st, set_heap (heap st) st = st) by (now intros []).
  apply DirState_Dirents_ind; simpl; intros; try (now rewrite Heta).
  - now apply H.
  - destruct (excluded cfg name); [now apply H0|].
    set (path := Path.join dirPath name) in *.
    rewrite (confirm_all_accepts cfg view confirm path Hyes), andb_false_r.
    destruct (H1 path ltac:(now left)) as (r & Hr).
    unfold setOrCreate. rewrite Hr, (insert_id _ _ _ Hr).
    set (st1 := set_heap (alter (updateCheckState checked) r (heap st)) st).
    change (set_items (items st) st1) with st1.
    unfold walkedRefs. simpl. rewrite Hr. simpl. rewrite omap_app.
    fold (walkedRefs (if bool_decide (kind = IsDirectory)
                      then walk cfg sub path else []) st).
    fold (walkedRefs (walkEntries cfg rest dirPath) st).
    rewrite setAll_app.
    assert (Hknown2 : forall p,
      In p (List.map fst (walkEntries cfg rest dirPath)) -> is_Some (items st !! p)).
    { intros p Hin. apply H1. right. rewrite List.map_app. apply in_or_app. now right. }
    destruct (bool_decide (kind = IsDirectory)).
    + assert (Hknown1 : forall p,
        In p (List.map fst (walk cfg sub path)) -> is_Some (items st1 !! p)).
      { intros p Hin. apply H1. right. rewrite List.map_app. apply in_or_app. now left. }
      pose proof (H path st1 Hknown1) as E1.
      destruct (toggleDirectoryChildren cfg view confirm sub path checked st1)
        as [st2 cc].
      simpl in E1. subst st2. rewrite H0 by exact Hknown2. reflexivity.
    + rewrite H0 by exact Hknown2. reflexivity.
Qed.

(** Storing a flag and then the original one in the same objects, all of
    which carried the original flag, gives the heap back. *)
Lemma heap_round_trip (h : list FileItem) (r0 : ref) (item : FileItem)
    (refs : list ref) :
  h !! r0 = Some item ->
  (forall r, In r refs ->
     exists o, h !! r = Some o /\ isChecked o = isChecked item) ->
  setAll (isChecked item) refs
    (alter (updateCheckState (isChecked item)) r0
       (setAll (negb (isChecked item)) refs
          (alter (updateCheckState (negb (isChecked item))) r0 h)))
  = h.
Proof.
  intros Hitem Hrefs. apply list_eq. intros i.
  set (c := isChecked item) in *.
  set (h1 := alter (updateCheckState (negb c)) r0 h).
  set (h2 := setAll (negb c) refs h1).
  set (h3 := alter (updateCheckState c) r0 h2).
  assert (Hsame : forall o, isChecked o = c ->
            updateCheckState c o = o
            /\ updateCheckState c (updateCheckState (negb c) o) = o
            /\ updateCheckState c (updateCheckState c
                  (updateCheckState (negb c) (updateCheckState (negb c) o))) = o).
  { intros [l cs fp ic] Hc. simpl in Hc. rewrite <- Hc. repeat split. }
  assert (H1 : h1 !! i = if decide (r0 = i)
                         then updateCheckState (negb c) <$> h !! i else h !! i).
  { subst h1. destruct (decide (r0 = i)) as [->|Hne].
    - apply list_lookup_alter_eq.
    - now apply list_lookup_alter_ne. }
  assert (H3 : h3 !! i = if decide (r0 = i)
                         then updateCheckState c <$> h2 !! i else h2 !! i).
  { subst h3. destruct (decide (r0 = i)) as [->|Hne].
    - apply list_lookup_alter_eq.
    - now apply list_lookup_alter_ne. }
  destruct (setAll_lookup (negb c) refs h1 i) as (H2in & H2out).
  destruct (setAll_lookup c refs h3 i) as (H4in & H4out).
  fold h2 in H2in, H2out.
  destruct (in_dec Nat.eq_dec i refs) as [Hin|Hout].
  - rewrite (H4in Hin), H3, (H2in Hin), H1.
    destruct (Hrefs i Hin) as (o & Ho & Hc). rewrite Ho.
    destruct (Hsame o Hc) as (E1 & E2 & E3).
    destruct (decide (r0 = i)); simpl; f_equal; assumption.
  - rewrite (H4out Hout), H3, (H2out Hout), H1.
    destruct (decide (r0 = i)) as [<-|Hne]; [|reflexivity].
    rewrite Hitem. destruct (Hsame item eq_refl) as (E1 & E2 & E3).
    simpl. f_equal. exact E2.
Qed.

Lemma toggleCheck_accepting cfg view confirm ds r item st :
  (forall q, confirm q = true) ->
  heap st !! r = Some item ->
  toggleCheck cfg view confirm ds r st
  = debouncedUpdateTokenCount 300
      (set_items
         (<[filePath item := r]>
            (items (cascadeFrom cfg view confirm ds item (negb (isChecked item))
                      (set_heap (alter (updateCheckState (negb (isChecked item))) r
                                   (heap st)) st))))
         (cascadeFrom cfg view confirm ds item (negb (isChecked item))
            (set_heap (alter (updateCheckState (negb (isChecked item))) r
                         (heap st)) st))).
Proof.
  intros Hyes Hitem. unfold cascadeFrom.
  destruct (collapsibleState item) eqn:Hkind.
  - now apply toggleCheck_folder.
  - rewrite (toggleCheck_file cfg view confirm ds r item st Hitem Hkind
               (confirm_all_accepts cfg view confirm _ Hyes)).
    reflexivity.
Qed.

Lemma cascadeFrom_post cfg view confirm ds item checked st :
  itemsKeyed st ->
  cascadePost cfg view confirm checked (reachedBy cfg ds item) st
    (cascadeFrom cfg view confirm ds item checked st).
Proof.
  intros Hkeyed. unfold cascadeFrom, reachedBy.
  destruct (collapsibleState item).
  - now apply toggleCascade_post.
  - now apply cascadePost_nil.
Qed.

Lemma cascadeFrom_known cfg view confirm ds item checked st :
  (forall q, confirm q = true) ->
  (forall p, In p (List.map fst (reachedBy cfg ds item)) -> is_Some (items st !! p)) ->
  cascadeFrom cfg view confirm ds item checked st
  = set_heap (setAll checked (walkedRefs (reachedBy cfg ds item) st) (heap st)) st.
Proof.
  intros Hyes Hknown. unfold cascadeFrom, reachedBy in *.
  destruct (collapsibleState item).
  - now apply (proj1 (toggleCascade_known cfg view confirm checked Hyes)).
  - now destruct st.
Qed.

Lemma reachedBy_not_self cfg ds item :
  ~ In (filePath item) (List.map fst (reachedBy cfg ds item)).
Proof.
  unfold reachedBy. destruct (collapsibleState item); [apply walk_not_self|].
  intros [].
Qed.

Lemma getCheckedFiles_ext view st st' :
  heap st' = heap st -> items st' = items st ->
  getCheckedFiles view st' = getCheckedFiles view st.
Proof. unfold getCheckedFiles, itemValues. now intros -> ->. Qed.

(** One toggle of a node with an accepting gate: the toggled object gets
    the opposite flag, its map entry is set, and every entry the cascade
    reaches ends with that flag too. *)
Lemma toggleCheck_once cfg view confirm ds r item st :
  (forall q, confirm q = true) ->
  itemsKeyed st ->
  heap st !! r = Some item ->
  itemsKeyed (toggleCheck cfg view confirm ds r st)
  /\ heap (toggleCheck cfg view confirm ds r st) !! r
     = Some (updateCheckState (negb (isChecked item)) item)
  /\ items (toggleCheck cfg view confirm ds r st) !! filePath item = Some r
  /\ forall p, In p (List.map fst (reachedBy cfg ds item)) ->
       checkedAt (toggleCheck cfg view confirm ds r st) p
       = Some (negb (isChecked item)).
Proof.
  intros Hyes Hkeyed Hitem.
  rewrite (toggleCheck_accepting cfg view confirm ds r item st Hyes Hitem).
  set (b := negb (isChecked item)).
  set (st1 := set_heap (alter (updateCheckState b) r (heap st)) st).
  destruct (cascadeFrom_post cfg view confirm ds item b st1
              (itemsKeyed_alter st b r Hkeyed)) as (K & A & B & C).
  set (stc := cascadeFrom cfg view confirm ds item b st1) in *.
  assert (Hr : heap stc !! r = Some (updateCheckState b item)).
  { apply A; [|apply (reachedBy_not_self cfg ds item)].
    subst st1. simpl. now rewrite list_lookup_alter_eq, Hitem. }
  split; [|split; [|split]].
  - intros p r' Hp. simpl in Hp |- *.
    destruct (decide (p = filePath item)) as [->|Hne].
    + rewrite lookup_insert_eq in Hp. injection Hp as <-. eauto.
    + rewrite lookup_insert_ne in Hp by congruence. now apply K.
  - exact Hr.
  - simpl. apply lookup_insert_eq.
  - intros p Hin. destruct (C p Hin) as (k & _ & Hc).
    unfold checkedAt in *. simpl.
    rewrite lookup_insert_ne
      by (intros Heq; rewrite <- Heq in Hin; now apply reachedBy_not_self in Hin).
    rewrite Hc. unfold targetState. simpl.
    rewrite (confirm_all_accepts cfg view confirm p Hyes), andb_false_r.
    reflexivity.
Qed.

(** C9, as the code has it: with the size gate accepting throughout, two
    toggles of a node that is the map's object for its path give the node
    object back as it was, and leave every entry the cascade reaches
    (none for a file) with the node's original flag. If those entries were
    all known with that flag before, the heap and the map are exactly as
    before, hence so is the list of checked files and the aggregate a
    settled recompute publishes; entries that carried another flag have
    been overwritten. *)
Theorem C9_double_toggle_restores
    (cfg : Config) (view : FsView) (confirm : string -> bool) (ds : DirState)
    (r0 : ref) (item : FileItem) (st : Provider) :
  (forall q, confirm q = true) ->
  itemsKeyed st ->
  heap st !! r0 = Some item ->
  items st !! filePath item = Some r0 ->
  let st2 :=
    toggleCheck cfg view confirm ds r0 (toggleCheck cfg view confirm ds r0 st) in
  heap st2 !! r0 = Some item
  /\ items st2 !! filePath item = Some r0
  /\ (forall p, In p (List.map fst (reachedBy cfg ds item)) ->
        checkedAt st2 p = Some (isChecked item))
  /\ ((forall p, In p (List.map fst (reachedBy cfg ds item)) ->
         checkedAt st p = Some (isChecked item)) ->
      heap st2 = heap st
      /\ items st2 = items st
      /\ forall (encodeLength : string -> Result N) view',
           getCheckedFiles view' st2 = getCheckedFiles view' st
           /\ sumN (List.map (tokensOf encodeLength view') (getCheckedFiles view' st2))
              = sumN (List.map (tokensOf encodeLength view') (getCheckedFiles view' st))).
Proof.
  intros Hyes Hkeyed Hitem Hmap st2.
  set (c := isChecked item) in *.
  set (item1 := updateCheckState (negb c) item).
  destruct (toggleCheck_once cfg view confirm ds r0 item st Hyes Hkeyed Hitem)
    as (K1 & Hr1 & Hi1 & _).
  fold c in Hr1. fold item1 in Hr1.
  set (sta := toggleCheck cfg view confirm ds r0 st) in *.
  destruct (toggleCheck_once cfg view confirm ds r0 item1 sta Hyes K1 Hr1)
    as (_ & Hr2 & Hi2 & Hc2).
  fold st2 in Hr2, Hi2, Hc2.
  assert (Hback : updateCheckState (negb (isChecked item1)) item1 = item).
  { subst item1 c. destruct item as [l cs fp ic]. simpl.
    now rewrite negb_involutive. }
  assert (Hflag : negb (isChecked item1) = c)
    by (subst item1; simpl; apply negb_involutive).
  split; [now rewrite Hr2, Hback|]. split; [exact Hi2|]. split.
  - intros p Hin. rewrite <- Hflag. apply Hc2. exact Hin.
  - intros Huniform.
    assert (Hknown : forall p, In p (List.map fst (reachedBy cfg ds item)) ->
              is_Some (items st !! p)).
    { intros p Hin. specialize (Huniform p Hin). unfold checkedAt in Huniform.
      destruct (items st !! p); [eauto|discriminate]. }
    set (refs := walkedRefs (reachedBy cfg ds item) st).
    assert (Hrefs : forall r, In r refs ->
              exists o, heap st !! r = Some o /\ isChecked o = isChecked item).
    { intros r Hin. subst refs. unfold walkedRefs in Hin.
      apply list_elem_of_In, list_elem_of_omap in Hin.
      destruct Hin as ([p k] & Hpk & Hr). simpl in Hr.
      apply list_elem_of_In in Hpk.
      assert (Hp : In p (List.map fst (reachedBy cfg ds item)))
        by (apply in_map_iff; exists (p, k); auto).
      specialize (Huniform p Hp). unfold checkedAt in Huniform.
      rewrite Hr in Huniform. simpl in Huniform.
      destruct (heap st !! r) as [o|]; [|discriminate].
      exists o. split; [reflexivity|]. now injection Huniform. }
    (* the first toggle *)
    assert (Ea : heap sta
                 = setAll (negb c) refs (alter (updateCheckState (negb c)) r0 (heap st))
                 /\ items sta = items st).
    { subst sta. rewrite (toggleCheck_accepting cfg view confirm ds r0 item st Hyes Hitem).
      fold c. rewrite cascadeFrom_known by (try exact Hyes; exact Hknown).
      simpl. split; [reflexivity|]. now apply insert_id. }
    destruct Ea as (Eha & Eia).
    (* the second toggle *)
    assert (Eb : heap st2
                 = setAll c refs (alter (updateCheckState c) r0 (heap sta))
                 /\ items st2 = items sta).
    { subst st2. rewrite (toggleCheck_accepting cfg view confirm ds r0 item1 sta Hyes Hr1).
      rewrite Hflag.
      rewrite cascadeFrom_known;
        [|exact Hyes|intros p Hin; simpl; rewrite Eia; apply Hknown; exact Hin].
      simpl. split.
      - unfold walkedRefs. simpl. rewrite Eia. reflexivity.
      - rewrite Eia. now apply insert_id. }
    destruct Eb as (Ehb & Eib).
    assert (Hheap : heap st2 = heap st).
    { rewrite Ehb, Eha. apply heap_round_trip; assumption. }
    assert (Hitems : items st2 = items st) by congruence.
    split; [exact Hheap|]. split; [exact Hitems|].
    intros encodeLength view'.
    rewrite (getCheckedFiles_ext view' st st2 Hheap Hitems). auto.
Qed.

(** C9 as stated fails: the folder [/ws/d] is unchecked, its file [a.ts]
    is checked and [b.ts] is not. The settled aggregate is 5. After two
    toggles of the folder, with a gate that accepts everything, the folder
    is unchecked again, but so is [a.ts], and the settled aggregate is 0. *)
Lemma C9_counterexample :
  (forall q, alwaysSelect q = true)
  /\ checkedAt (prov mixedToggledTwice) "/ws/d" = checkedAt (prov mixedSettled) "/ws/d"
  /\ pendingTimers (prov mixedSettled) = []
  /\ pendingTimers (prov mixedToggledTwice) = []
  /\ List.map suspended (runs mixedToggledTwice) = [Returned; Returned]
  /\ fired (prov mixedSettled)
     = [(ByRun 0, mkPayload 0 true); (ByRun 0, mkPayload 5 false)]
  /\ fired (prov mixedToggledTwice)
     = fired (prov mixedSettled) ++ [(ByRun 1, mkPayload 0 false)]
  /\ totalTokenCount (prov mixedToggledTwice) <> totalTokenCount (prov mixedSettled).
Proof.
  split; [reflexivity|]. vm_compute. repeat split. discriminate.
Qed.

Lemma C9_double_toggle_restores_witness :
  heap (toggleCheck roundTripConfig mixedView alwaysSelect mixedDisk 0%nat
          (toggleCheck roundTripConfig mixedView alwaysSelect mixedDisk 0%nat
             plainFolder))
  = heap plainFolder
  /\ items (toggleCheck roundTripConfig mixedView alwaysSelect mixedDisk 0%nat
              (toggleCheck roundTripConfig mixedView alwaysSelect mixedDisk 0%nat
                 plainFolder))
     = items plainFolder
  /\ checkedAt (toggleCheck roundTripConfig mixedView alwaysSelect mixedDisk 0%nat
                  (toggleCheck roundTripConfig mixedView alwaysSelect mixedDisk 0%nat
                     mixedFolder)) "/ws/d/a.ts"
     = Some false.
Proof.
  destruct (C9_double_toggle_restores roundTripConfig mixedView alwaysSelect
              mixedDisk 0%nat (mkFileItem "d" CollapsedState "/ws/d" false)
              plainFolder)
    as (_ & _ & _ & Hsame).
  - reflexivity.
  - apply itemsKeyedb_sound. vm_compute. reflexivity.
  - reflexivity.
  - reflexivity.
  - destruct (C9_double_toggle_restores roundTripConfig mixedView alwaysSelect
                mixedDisk 0%nat (mkFileItem "d" CollapsedState "/ws/d" false)
                mixedFolder)
      as (_ & _ & Hall & _).
    + reflexivity.
    + apply itemsKeyedb_sound. vm_compute. reflexivity.
    + reflexivity.
    + reflexivity.
    + destruct Hsame as (Hh & Hi & _).
      { intros p Hin. vm_compute in Hin.
        destruct Hin as [<-|[<-|[]]]; reflexivity. }
      split; [exact Hh|]. split; [exact Hi|].
      apply (Hall "/ws/d/a.ts"). vm_compute. tauto.
Defined.

(** ** The map stays keyed by its objects' paths *)

Lemma itemsKeyed_frame st st' :
  heap st' = heap st ->
  (forall p r, items st' !! p = Some r -> items st !! p = Some r) ->
  itemsKeyed st -> itemsKeyed st'.
Proof.
  intros Hh Hi Hkeyed p r Hp. rewrite Hh. apply Hkeyed. now apply Hi.
Qed.

Lemma lookup_delete_Some_inv (m : gmap string ref) p q r :
  delete p m !! q = Some r -> m !! q = Some r.
Proof.
  destruct (decide (p = q)) as [->|Hne].
  - rewrite lookup_delete_eq. discriminate.
  - now rewrite lookup_delete_ne.
Qed.

Lemma loopFrom_shrinks view id run rest : forall st,
  heap (loopFrom view id run rest st).1 = heap st
  /\ forall p r, items (loopFrom view id run rest st).1 !! p = Some r ->
       items st !! p = Some r.
Proof.
  induction rest as [|f rest IH]; intros st; simpl.
  - unfold finallyBlock. repeat (destruct (stale _ _); simpl); auto.
  - unfold finallyBlock. destruct (stale run st); simpl; [auto|].
    destruct (existsSync view f); simpl; [auto|].
    destruct (IH (set_items (delete f (items st)) st)) as (Hh & Hi).
    split; [exact Hh|]. intros p r Hp. apply Hi in Hp. simpl in Hp.
    eapply lookup_delete_Some_inv, Hp.
Qed.

Lemma resume_shrinks encodeLength view id run st :
  heap (resume encodeLength view id run st).1 = heap st
  /\ forall p r, items (resume encodeLength view id run st).1 !! p = Some r ->
       items st !! p = Some r.
Proof.
  assert (Hcatch : forall e f rest,
    heap (loopFrom view id run rest (catchFileError e f st)).1 = heap st
    /\ forall p r, items (loopFrom view id run rest (catchFileError e f st)).1 !! p
                   = Some r -> items st !! p = Some r).
  { intros e f rest.
    destruct (loopFrom_shrinks view id run rest (catchFileError e f st)) as (Hh & Hi).
    unfold catchFileError in *. case_bool_decide; simpl in *; split; auto.
    intros p r Hp. eapply lookup_delete_Some_inv, Hi, Hp. }
  unfold resume. destruct (suspended run) as [f rest|rest|]; [| |auto].
  - destruct (readFile view f) as [content|e]; [|apply Hcatch].
    destruct (encodeLength content) as [tokens|e]; [|apply Hcatch].
    simpl. destruct (_ =? 0)%N; [auto|]. apply loopFrom_shrinks.
  - unfold finallyBlock. destruct (stale run st); [auto|]. apply loopFrom_shrinks.
Qed.

Lemma updateTokenCount_shrinks view id st :
  heap (updateTokenCount view id st).1 = heap st
  /\ forall p r, items (updateTokenCount view id st).1 !! p = Some r ->
       items st !! p = Some r.
Proof.
  unfold updateTokenCount. destruct (getCheckedFiles view st) as [|f fs].
  - destruct (stale _ _); simpl; auto.
  - cbv beta iota zeta.
    match goal with
    | |- context [loopFrom view id ?r ?l ?s] =>
        destruct (loopFrom_shrinks view id r l s) as (Hh & Hi)
    end.
    split; [exact Hh|exact Hi].
Qed.

Lemma toggleAllFiles_itemsKeyed persist view st :
  itemsKeyed st -> itemsKeyed (toggleAllFiles persist view st).1.
Proof.
  intros Hkeyed.
  assert (Hheap : forall b, itemsKeyed
            (set_heap (foldr (fun (pr : string * ref) h =>
                                alter (updateCheckState b) pr.2 h)
                         (heap st) (map_to_list (items st))) st)).
  { intros b p r Hp. simpl in *. destruct (Hkeyed p r Hp) as (o & Ho & Hpath).
    destruct (toggleAll_heap_lookup b r (heap st) (map_to_list (items st)))
      as (Hin & Hout).
    destruct (decide (r ∈ (map_to_list (items st)).*2)) as [H|H].
    - rewrite (Hin H), Ho. eauto.
    - rewrite (Hout H), Ho. eauto. }
  unfold toggleAllFiles. cbn [fst]. destruct (negb (negb _)); apply Hheap.
Qed.

Lemma toggleCheck_itemsKeyed cfg view confirm ds r st :
  itemsKeyed st -> itemsKeyed (toggleCheck cfg view confirm ds r st).
Proof.
  intros Hkeyed. unfold toggleCheck.
  destruct (heap st !! r) as [item|] eqn:Hitem; [|exact Hkeyed].
  set (userCancelled := negb (isChecked item) && _ && _).
  set (newState := if userCancelled then false else negb (isChecked item)).
  destruct (negb (Bool.eqb newState (isChecked item)) || userCancelled);
    [|exact Hkeyed].
  set (st1 := set_heap (alter (updateCheckState newState) r (heap st)) st).
  assert (K1 : itemsKeyed st1) by now apply itemsKeyed_alter.
  assert (Hr1 : heap st1 !! r = Some (updateCheckState newState item)).
  { subst st1. simpl. now rewrite list_lookup_alter_eq, Hitem. }
  assert (Hset : forall st2,
            itemsKeyed st2 -> heap st2 !! r = Some (updateCheckState newState item) ->
            itemsKeyed (set_items (<[filePath item := r]> (items st2)) st2)).
  { intros st2 K2 Hr2 p r' Hp. simpl in Hp |- *.
    destruct (decide (p = filePath item)) as [->|Hne].
    - rewrite lookup_insert_eq in Hp. injection Hp as <-. eauto.
    - rewrite lookup_insert_ne in Hp by congruence. now apply K2. }
  assert (Hdeb : forall st3 b, itemsKeyed st3 ->
            itemsKeyed (if b : bool then debouncedUpdateTokenCount 300 st3 else st3)).
  { intros st3 [|] K3; exact K3. }
  destruct (String.eqb (contextValue item) "folder").
  - destruct (proj1 (toggleCascade_post cfg view confirm newState) ds (filePath item)
                st1 K1) as (K2 & A & _).
    specialize (A r _ Hr1 (walk_not_self cfg ds (filePath item))).
    destruct (toggleDirectoryChildren cfg view confirm ds (filePath item) newState st1)
      as [st2 cc].
    apply Hdeb, Hset; assumption.
  - apply Hdeb, Hset; assumption.
Qed.

Lemma scanEntries_itemsKeyed cfg element dirPath es : forall children st,
  itemsKeyed st -> itemsKeyed (scanEntries cfg element dirPath es children st).1.
Proof.
  assert (Halloc : forall st o,
            itemsKeyed st ->
            itemsKeyed (set_items (<[filePath o := length (heap st)]> (items st))
                          (set_heap (heap st ++ [o]) st))).
  { intros st o Hkeyed p r Hp. simpl in Hp |- *.
    destruct (decide (p = filePath o)) as [->|Hne].
    - rewrite lookup_insert_eq in Hp. injection Hp as <-. exists o.
      rewrite lookup_app_r by lia. now rewrite Nat.sub_diag.
    - rewrite lookup_insert_ne in Hp by congruence.
      destruct (Hkeyed p r Hp) as (o' & Ho' & Hpath). exists o'.
      rewrite lookup_app_l by (eapply lookup_lt_Some, Ho'). auto. }
  induction es as [|name kind sub rest IH]; intros children st Hkeyed; simpl.
  - exact Hkeyed.
  - destruct (excluded cfg name); [now apply IH|].
    destruct (items st !! Path.join dirPath name) as [old|].
    + apply IH.
      apply (Halloc st (mkFileItem name (collapsibleOf kind)
                          (Path.join dirPath name) _) Hkeyed).
    + apply IH. destruct (parentChecked element st);
        apply (Halloc st (mkFileItem name (collapsibleOf kind)
                            (Path.join dirPath name) _) Hkeyed).
Qed.

Lemma getChildren_itemsKeyed cfg element ds st :
  itemsKeyed st -> itemsKeyed (getChildren cfg element ds st).1.
Proof.
  intros Hkeyed. unfold getChildren.
  assert (Hprune : forall o : option string,
            itemsKeyed match o with
                       | Some p => set_items (delete p (items st)) st
                       | None => st
                       end).
  { intros [p|]; [|exact Hkeyed].
    apply (itemsKeyed_frame st); [reflexivity| |exact Hkeyed].
    intros q r Hq. eapply lookup_delete_Some_inv, Hq. }
  destruct ds; simpl; try apply Hprune.
  - case_bool_decide; simpl; [apply Hprune|exact Hkeyed].
  - now apply scanEntries_itemsKeyed.
Qed.

(** Every state the event loop can reach from the constructor has its map
    keyed by its objects' paths. *)
Lemma step_itemsKeyed encodeLength s e :
  itemsKeyed (prov s) -> itemsKeyed (prov (step encodeLength s e)).
Proof.
  intros Hkeyed.
  destruct e as [delay|h view|j view|persist pview|cfg view confirm ds r|cfg element ds]; with_strategy opaque [toggleAllFiles] simpl.
  - exact Hkeyed.
  - case_bool_decide; [|exact Hkeyed].
    match goal with
    | |- context [updateTokenCount view ?i ?st] =>
        destruct (updateTokenCount_shrinks view i st) as (Hh & Hi);
        destruct (updateTokenCount view i st) as [st' run]
    end.
    simpl in *. apply (itemsKeyed_frame (prov s)); [exact Hh|exact Hi|exact Hkeyed].
  - destruct (runs s !! j) as [run|]; [|exact Hkeyed].
    destruct (resume_shrinks encodeLength view j run (prov s)) as (Hh & Hi).
    destruct (resume encodeLength view j run (prov s)) as [st' run'].
    simpl in *. apply (itemsKeyed_frame (prov s)); [exact Hh|exact Hi|exact Hkeyed].
  - now apply toggleAllFiles_itemsKeyed.
  - now apply toggleCheck_itemsKeyed.
  - now apply getChildren_itemsKeyed.
Qed.

Lemma reachable_itemsKeyed encodeLength evs :
  itemsKeyed (prov (exec encodeLength evs initial)).
Proof.
  assert (H : forall s, itemsKeyed (prov s) ->
            itemsKeyed (prov (exec encodeLength evs s))).
  { induction evs as [|e evs IH]; intros s Hs; [exact Hs|].
    apply IH. now apply step_itemsKeyed. }
  apply H. intros p r Hp. simpl in Hp. now rewrite lookup_empty in Hp.
Qed.

(** ** Further properties of the provider *)

(** *** The emitter, the getters and the scheduler *)

Lemma inSync_quiet st st' :
  fired st' = fired st -> totalTokenCount st' = totalTokenCount st ->
  isCountingTokens st' = isCountingTokens st -> inSync st -> inSync st'.
Proof.
  unfold inSync, lastPayload, getCurrentTokenCount, getIsCounting.
  now intros -> -> ->.
Qed.

Lemma inSync_fire st' l who n b :
  fired st' = l ++ [(who, mkPayload n b)] ->
  totalTokenCount st' = n -> isCountingTokens st' = b -> inSync st'.
Proof.
  unfold inSync, lastPayload, getCurrentTokenCount, getIsCounting.
  intros -> -> ->. now rewrite last_snoc.
Qed.

(** *** Loading and saving the selection *)

Lemma loadEntry_selectionOnly view isDir st entry :
  selectionOnly st (loadEntry view isDir st entry).
Proof.
  destruct entry as [p b]. unfold loadEntry.
  destruct (existsSync view p); [|apply selectionOnly_refl].
  destruct (isDir p); [|apply selectionOnly_refl]. repeat split.
Qed.

Lemma loadEntries_spec view isDir l : forall st,
  NoDup l.*1 ->
  (exists news, heap (foldl (loadEntry view isDir) st l) = heap st ++ news)
  /\ selectionOnly st (foldl (loadEntry view isDir) st l)
  /\ (forall p, p ∉ l.*1 ->
        items (foldl (loadEntry view isDir) st l) !! p = items st !! p)
  /\ (forall p b, (p, b) ∈ l ->
        (loadable view isDir p = true ->
         exists r d,
           items (foldl (loadEntry view isDir) st l) !! p = Some r
           /\ isDir p = Ok d
           /\ heap (foldl (loadEntry view isDir) st l) !! r
              = Some (mkFileItem (Path.basename p)
                        (if d then CollapsedState else NoneState) p b))
        /\ (loadable view isDir p = false ->
            items (foldl (loadEntry view isDir) st l) !! p = items st !! p)).
Proof.
  induction l as [|[p0 b0] l IH]; intros st Hnd.
  - simpl. split; [exists []; now rewrite app_nil_r|].
    split; [apply selectionOnly_refl|]. split; [auto|].
    intros p b Hin. now apply elem_of_nil in Hin.
  - simpl in Hnd. apply NoDup_cons in Hnd as [Hp0 Hnd].
    change (foldl (loadEntry view isDir) st ((p0, b0) :: l))
      with (foldl (loadEntry view isDir) (loadEntry view isDir st (p0, b0)) l).
    set (st1 := loadEntry view isDir st (p0, b0)).
    destruct (IH st1 Hnd) as (Hheap & Hsel & Hout & Hin).
    assert (Hst1 :
      (loadable view isDir p0 = true /\
       exists d, isDir p0 = Ok d
         /\ heap st1 = heap st ++ [mkFileItem (Path.basename p0)
                                     (if d then CollapsedState else NoneState) p0 b0]
         /\ items st1 = <[p0 := length (heap st)]> (items st))
      \/ (loadable view isDir p0 = false /\ st1 = st)).
    { subst st1. unfold loadEntry, loadable.
      destruct (existsSync view p0); [|now right].
      destruct (isDir p0) as [d|e]; [|now right]. left. eauto. }
    assert (Hheap1 : exists news, heap st1 = heap st ++ news).
    { destruct Hst1 as [(_ & d & _ & -> & _)|(_ & ->)]; [eauto|].
      exists []. now rewrite app_nil_r. }
    split; [|split; [|split]].
    + destruct Hheap as (n2 & ->). destruct Hheap1 as (n1 & ->).
      exists (n1 ++ n2). now rewrite app_assoc.
    + eapply selectionOnly_trans; [apply loadEntry_selectionOnly|exact Hsel].
    + intros p Hp. apply not_elem_of_cons in Hp as [Hne Hp].
      rewrite (Hout p Hp).
      destruct Hst1 as [(_ & d & _ & _ & ->)|(_ & ->)]; [|reflexivity].
      now rewrite lookup_insert_ne.
    + intros p b Hpb. apply elem_of_cons in Hpb as [Heq|Hpb].
      * injection Heq as -> ->. rewrite (Hout p0 Hp0).
        destruct Hst1 as [(Hl & d & Hd & Hh & Hi)|(Hl & Hs)].
        -- split; [|congruence]. intros _. exists (length (heap st)), d.
           rewrite Hi, lookup_insert_eq. split; [reflexivity|]. split; [exact Hd|].
           destruct Hheap as (n2 & ->). rewrite Hh, <- app_assoc.
           rewrite lookup_app_r by lia. now rewrite Nat.sub_diag.
        -- split; [congruence|]. intros _. now rewrite Hs.
      * destruct (Hin p b Hpb) as (Hyes & Hno). split; [exact Hyes|].
        intros Hl. rewrite (Hno Hl).
        assert (Hne : p0 <> p).
        { intros ->. apply Hp0. apply list_elem_of_fmap. now exists (p, b). }
        destruct Hst1 as [(_ & d & _ & _ & ->)|(_ & ->)]; [|reflexivity].
        now rewrite lookup_insert_ne.
Qed.

Lemma loadPersistedState_selectionOnly persist view isDir state st :
  selectionOnly st (loadPersistedState persist view isDir state st).
Proof.
  unfold loadPersistedState. destruct (negb persist); [repeat split|].
  destruct state as [m|]; [|repeat split].
  eapply selectionOnly_trans;
    [|apply (loadEntries_spec view isDir (map_to_list m)), NoDup_fst_map_to_list].
  repeat split.
Qed.

Lemma loadPersistedState_itemsKeyed persist view isDir state st :
  itemsKeyed (loadPersistedState persist view isDir state st).
Proof.
  unfold loadPersistedState.
  assert (Hempty : itemsKeyed (set_items ∅ st)).
  { intros p r Hp. simpl in Hp. now rewrite lookup_empty in Hp. }
  destruct (negb persist); [exact Hempty|].
  destruct state as [m|]; [|exact Hempty].
  destruct (loadEntries_spec view isDir (map_to_list m) (set_items ∅ st)
              (NoDup_fst_map_to_list m)) as (_ & _ & Hout & Hin).
  intros p r Hp.
  destruct (m !! p) as [b|] eqn:Hm.
  - apply elem_of_map_to_list in Hm. destruct (Hin p b Hm) as (Hyes & Hno).
    destruct (loadable view isDir p) eqn:Hl.
    + destruct (Hyes eq_refl) as (r' & d & Hr' & _ & Hobj).
      rewrite Hp in Hr'. injection Hr' as <-. eauto.
    + rewrite (Hno eq_refl) in Hp. simpl in Hp. now rewrite lookup_empty in Hp.
  - rewrite Hout in Hp; [simpl in Hp; now rewrite lookup_empty in Hp|].
    intros Hin'. apply list_elem_of_fmap in Hin' as ([p' b] & -> & Hpb).
    apply elem_of_map_to_list in Hpb. simpl in Hm. congruence.
Qed.

Lemma loadPersistedState_checkedAt view isDir m st p :
  checkedAt (loadPersistedState true view isDir (Some m) st) p
  = if loadable view isDir p then m !! p else None.
Proof.
  unfold loadPersistedState. simpl.
  destruct (loadEntries_spec view isDir (map_to_list m) (set_items ∅ st)
              (NoDup_fst_map_to_list m)) as (_ & _ & Hout & Hin).
  unfold checkedAt.
  destruct (m !! p) as [b|] eqn:Hm.
  - apply elem_of_map_to_list in Hm. destruct (Hin p b Hm) as (Hyes & Hno).
    destruct (loadable view isDir p) eqn:Hl.
    + destruct (Hyes eq_refl) as (r & d & -> & _ & Hobj). simpl. now rewrite Hobj.
    + rewrite (Hno eq_refl). simpl. now rewrite lookup_empty.
  - rewrite Hout.
    + simpl. rewrite lookup_empty. now destruct (loadable view isDir p).
    + intros Hin'. apply list_elem_of_fmap in Hin' as ([p' b] & -> & Hpb).
      apply elem_of_map_to_list in Hpb. simpl in Hm. congruence.
Qed.

(** X5: the selection survives a reload. When the state written by
    [savePersistedState] is read back by [refresh] (persistence enabled, the
    same files on disk), every path that still exists and can be stat'ed
    is known again with the checked flag it had, and every other path is
    forgotten, whatever the map held in between. *)
Theorem selection_survives_reload
    (view : FsView) (isDirectorySync : string -> Result bool)
    (st st' : Provider) (p : string) :
  checkedAt (refresh true view isDirectorySync (savePersistedState true view st) st') p
  = if loadable view isDirectorySync p then checkedAt st p else None.
Proof.
  destruct (savePersistedState_lookup view st) as (m & -> & Hm).
  unfold refresh.
  match goal with
  | |- checkedAt (debouncedUpdateTokenCount 300 ?x) p = ?rhs =>
      change (checkedAt x p = rhs)
  end.
  rewrite loadPersistedState_checkedAt, Hm. unfold loadable.
  now destruct (existsSync view p).
Qed.

Lemma construct_fields persist view isDir state :
  fired (prov (construct persist view isDir state)) = []
  /\ totalTokenCount (prov (construct persist view isDir state)) = 0%N
  /\ isCountingTokens (prov (construct persist view isDir state)) = false
  /\ pendingTimers (prov (construct persist view isDir state)) = [0%nat]
  /\ debounceTimeout (prov (construct persist view isDir state)) = Some 0%nat
  /\ nextTimer (prov (construct persist view isDir state)) = 1%nat
  /\ runs (construct persist view isDir state) = [].
Proof.
  destruct (loadPersistedState_selectionOnly persist view isDir state
              (mkProvider [] ∅ 0 false 0 None [] 0 [] []))
    as (Hv & Hd & Hp & Hn & Hf & Ht & Hc & Hr).
  unfold construct, debouncedUpdateTokenCount. simpl in *.
  rewrite Hf, Ht, Hc, Hd, Hp, Hn. repeat split.
Qed.

Lemma construct_schedInv persist view isDir state :
  schedInv (construct persist view isDir state).
Proof.
  destruct (construct_fields persist view isDir state)
    as (_ & _ & _ & Hp & Hd & Hn & Hr).
  unfold construct in *. apply schedInv_no_runs. right. exists 0%nat.
  simpl in *. rewrite Hp, Hd, Hn. repeat split. lia.
Qed.

Section SchedulerExtras.
Variable encodeLength : string -> Result N.

Local Abbreviation step := (step encodeLength).
Local Abbreviation exec := (exec encodeLength).

Lemma loopFrom_inSync view id run rest st :
  inSync st -> inSync (loopFrom view id run rest st).1.
Proof.
  intros Hs. destruct (stale run st) eqn:Hst.
  - now rewrite loopFrom_stale.
  - destruct (loopFrom_current view id run rest st Hst) as (_ & [H|H]).
    + destruct H as (_ & Hf & Ht & Hc & _). eapply inSync_fire; eauto.
    + destruct H as (f & rest' & _ & Hf & Ht & Hc & _).
      eapply inSync_quiet; eauto.
Qed.

Lemma updateTokenCount_inSync view id st :
  inSync st -> inSync (updateTokenCount view id st).1.
Proof.
  intros Hs. unfold updateTokenCount.
  destruct (getCheckedFiles view st) as [|f files] eqn:Hfiles.
  - unfold stale. simpl. rewrite N.eqb_refl. simpl.
    eapply inSync_fire; reflexivity.
  - apply loopFrom_inSync. eapply inSync_fire; reflexivity.
Qed.

Lemma resume_inSync view id run st :
  inSync st -> inSync (resume encodeLength view id run st).1.
Proof.
  intros Hs. destruct (stale run st) eqn:Hst.
  - destruct (resume_stale encodeLength view id run st Hst)
      as (_ & Hf & Ht & Hc & _).
    eapply inSync_quiet; eauto.
  - pose proof (resume_current encodeLength view id run st Hst) as Hcur.
    destruct Hcur as (_ & _ & _ & Hcur).
    destruct (suspended run) eqn:Hsus.
    + destruct (suspended (resume encodeLength view id run st).2).
      * destruct Hcur as (Hf & Ht & Hc). eapply inSync_quiet; eauto.
      * destruct Hcur as (Hf & Ht & Hc). eapply inSync_quiet; eauto.
      * destruct Hcur as (Hf & Ht & Hc). eapply inSync_fire; eauto.
    + destruct (suspended (resume encodeLength view id run st).2).
      * destruct Hcur as (Hf & Ht & Hc). eapply inSync_quiet; eauto.
      * destruct Hcur as (Hf & Ht & Hc). eapply inSync_quiet; eauto.
      * destruct Hcur as (Hf & Ht & Hc). eapply inSync_fire; eauto.
    + now rewrite Hcur.
Qed.

Lemma quietStep_inSync st st' : quietStep st st' -> inSync st -> inSync st'.
Proof. intros (Hf & Ht & Hc & _). now apply inSync_quiet. Qed.

Lemma toggleAllFiles_inSync persist view st :
  inSync st -> inSync (toggleAllFiles persist view st).1.
Proof.
  intros Hs. unfold toggleAllFiles. cbn [fst].
  destruct (forallb isChecked (itemValues st)); simpl.
  - eapply inSync_fire; reflexivity.
  - eapply quietStep_inSync; [apply debounced_quiet|].
    eapply inSync_quiet; [| | |exact Hs]; reflexivity.
Qed.

Lemma step_inSync s e : inSync (prov s) -> inSync (prov (step s e)).
Proof.
  intros Hs. destruct e as [delay|h view|id view|persist pview|cfg view confirm ds r|cfg el ds];
    with_strategy opaque [toggleAllFiles] simpl.
  - eapply quietStep_inSync; [apply debounced_quiet|exact Hs].
  - case_bool_decide; [|exact Hs].
    match goal with
    | |- context [updateTokenCount ?v ?i ?st0] =>
        pose proof (updateTokenCount_inSync v i st0) as Hu;
        destruct (updateTokenCount v i st0) as [st1 run1]
    end.
    simpl in *. apply Hu. eapply inSync_quiet; [| | |exact Hs]; reflexivity.
  - destruct (runs s !! id) as [run|]; [|exact Hs].
    pose proof (resume_inSync view id run (prov s) Hs) as Hr.
    destruct (resume encodeLength view id run (prov s)) as [st1 run1].
    exact Hr.
  - now apply toggleAllFiles_inSync.
  - eapply quietStep_inSync; [apply toggleCheck_quiet|exact Hs].
  - eapply quietStep_inSync; [apply getChildren_quiet|exact Hs].
Qed.

Lemma exec_inSync evs : forall s, inSync (prov s) -> inSync (prov (exec evs s)).
Proof.
  induction evs as [|e evs IH]; intros s Hs; [exact Hs|].
  rewrite exec_cons. apply IH, step_inSync, Hs.
Qed.

(** X1: in every state the provider reaches from its constructor (whatever
    selection was stored), the payload of the last event fired on the token emitter is exactly what
    [getCurrentTokenCount] and [getIsCounting] return (before the first event:
    zero, not counting). What a webview is sent when it reports ready and
    what the listeners were told last never differ. *)
Theorem getters_agree_with_last_event
    (persistState : bool) (view : FsView) (isDirectorySync : string -> Result bool)
    (state : FileStates) (evs : list Event) :
  let s := exec evs (construct persistState view isDirectorySync state) in
  lastPayload (prov s)
  = mkPayload (getCurrentTokenCount (prov s)) (getIsCounting (prov s)).
Proof.
  apply exec_inSync.
  destruct (construct_fields persistState view isDirectorySync state)
    as (Hf & Ht & Hc & _).
  unfold inSync, lastPayload, getCurrentTokenCount, getIsCounting.
  now rewrite Hf, Ht, Hc.
Qed.

(** X2: in every state reached from the constructor at most one debounce
    timer is armed, and
    it is the one whose handle the provider holds; at most one run carries
    the live version; and while a timer is armed every run is superseded. *)
Theorem one_timer_one_current_run
    (persistState : bool) (view : FsView) (isDirectorySync : string -> Result bool)
    (state : FileStates) (evs : list Event) :
  let s := exec evs (construct persistState view isDirectorySync state) in
  (length (pendingTimers (prov s)) <= 1)%nat
  /\ (forall h, h ∈ pendingTimers (prov s) -> debounceTimeout (prov s) = Some h)
  /\ (forall i j ri rj,
        runs s !! i = Some ri -> runs s !! j = Some rj ->
        stale ri (prov s) = false -> stale rj (prov s) = false -> i = j)
  /\ (pendingTimers (prov s) <> [] ->
      forall i r, runs s !! i = Some r -> stale r (prov s) = true).
Proof.
  intros s.
  destruct (exec_schedInv encodeLength evs _
              (construct_schedInv persistState view isDirectorySync state))
    as (Hco & _ & Hsup & Huniq).
  fold s in Hco, Hsup, Huniq.
  assert (Hst : forall r, stale r (prov s) = false ->
                          calculationVersion r = ver (prov s)).
  { intros r Hr. unfold stale in Hr. apply negb_false_iff, N.eqb_eq in Hr.
    exact Hr. }
  split; [|split; [|split]].
  - destruct Hco as [->|(h & -> & _)]; simpl; lia.
  - intros h Hh. destruct Hco as [Hnil|(h' & Hp & Hd & _)].
    + rewrite Hnil in Hh. now apply elem_of_nil in Hh.
    + rewrite Hp in Hh. apply list_elem_of_singleton in Hh. now subst.
  - intros i j ri rj Hi Hj Hsi Hsj. eapply Huniq; eauto.
  - intros Hp i r Hi. apply stale_lt. eapply Hsup; eauto.
Qed.

Lemma debounced_armed delay st :
  pendingTimers (debouncedUpdateTokenCount delay st) <> [].
Proof.
  unfold debouncedUpdateTokenCount. simpl.
  intros Habs. apply app_eq_nil in Habs. destruct Habs as [_ Habs]. discriminate.
Qed.

Lemma armingStep_trans st1 st2 st3 :
  armingStep st1 st2 -> armingStep st2 st3 ->
  (pendingTimers st2 <> [] -> pendingTimers st3 <> []) ->
  armingStep st1 st3.
Proof.
  unfold armingStep. intros [H1|H1] [H2|H2] Hp; auto. left. congruence.
Qed.

Lemma selectionOnly_arming st st' : selectionOnly st st' -> armingStep st st'.
Proof. intros (H & _). now left. Qed.

Lemma toggleCheck_arming cfg view confirm ds r st :
  armingStep st (toggleCheck cfg view confirm ds r st).
Proof.
  unfold toggleCheck. destruct (heap st !! r) as [item|]; [|now left].
  set (userCancelled := negb (isChecked item) && _ && _).
  set (newState := if userCancelled then false else negb (isChecked item)).
  destruct (negb (Bool.eqb newState (isChecked item)) || userCancelled);
    [|now left].
  set (st1 := set_heap _ st).
  assert (H1 : selectionOnly st st1) by (repeat split).
  set (c := if String.eqb (contextValue item) "folder" then _ else _).
  assert (H2 : selectionOnly st1 c.1).
  { subst c. destruct (String.eqb (contextValue item) "folder");
      [apply (proj1 (toggleCascade_selectionOnly cfg view confirm))|].
    apply selectionOnly_refl. }
  destruct c as [st2 cc]. simpl in H2.
  set (st3 := set_items _ st2).
  assert (H3 : selectionOnly st st3).
  { eapply selectionOnly_trans; [exact H1|].
    eapply selectionOnly_trans; [exact H2|]. repeat split. }
  destruct (negb (Bool.eqb newState (isChecked item)) || cc).
  - right. apply debounced_armed.
  - apply selectionOnly_arming, H3.
Qed.

Lemma scanEntries_arming cfg element dirPath es : forall children st,
  armingStep st (scanEntries cfg element dirPath es children st).1.
Proof.
  induction es as [|name kind sub rest IH]; intros children st; simpl.
  - now left.
  - destruct (excluded cfg name); [apply IH|].
    destruct (items st !! Path.join dirPath name) as [old|].
    + eapply armingStep_trans; [|apply IH|].
      * apply selectionOnly_arming. repeat split.
      * apply quietStep_pending, scanEntries_quiet.
    + eapply armingStep_trans; [|apply IH|].
      * destruct (parentChecked element st).
        -- right. apply debounced_armed.
        -- apply selectionOnly_arming. repeat split.
      * apply quietStep_pending, scanEntries_quiet.
Qed.

Lemma getChildren_arming cfg element ds st :
  armingStep st (getChildren cfg element ds st).1.
Proof.
  unfold getChildren.
  assert (Hprune : forall o : option string,
    armingStep st match o with
                  | Some p => set_items (delete p (items st)) st
                  | None => st
                  end).
  { intros [p|]; now left. }
  destruct ds; simpl; try apply Hprune.
  - case_bool_decide; simpl; [apply Hprune|now left].
  - apply scanEntries_arming.
Qed.

Lemma quiet_arming_justified s st' :
  quietStep (prov s) st' -> armingStep (prov s) st' ->
  countingJustified s -> countingJustified (mkSystem st' (runs s)).
Proof.
  intros Hq Ha Hj Hc. simpl in *.
  destruct Hq as (_ & _ & Hcount & _ & Hsched).
  rewrite Hcount in Hc. destruct (Hj Hc) as [Hp|(i & r & Hi & Hst & Hsus)].
  - left. eapply schedStep_pending; eauto.
  - destruct Ha as [Hv|Hp]; [|now left].
    right. exists i, r. simpl. split; [exact Hi|]. split; [|exact Hsus].
    rewrite (stale_frame r (prov s) st' Hv). exact Hst.
Qed.

Lemma step_countingJustified s e :
  countingJustified s -> countingJustified (step s e).
Proof.
  intros Hj. destruct e as [delay|h view|id view|persist pview|cfg view confirm ds r|cfg el ds];
    with_strategy opaque [toggleAllFiles] simpl.
  - apply quiet_arming_justified; [apply debounced_quiet| |exact Hj].
    right. apply debounced_armed.
  - case_bool_decide; [|exact Hj].
    match goal with
    | |- context [updateTokenCount ?v ?i ?st0] =>
        pose proof (updateTokenCount_spec v i st0) as (Hfr & Hver & _ & start & _ & Hm);
        destruct (updateTokenCount v i st0) as [st1 run1]
    end.
    simpl in *. intros Hc. simpl in Hc.
    destruct (suspended run1) eqn:Hsus.
    + right. exists (length (runs s)), run1. simpl.
      split; [apply list_lookup_middle; reflexivity|].
      split; [|rewrite Hsus; discriminate].
      apply stale_eq. rewrite Hver. destruct Hfr as (_ & -> & _). reflexivity.
    + right. exists (length (runs s)), run1. simpl.
      split; [apply list_lookup_middle; reflexivity|].
      split; [|rewrite Hsus; discriminate].
      apply stale_eq. rewrite Hver. destruct Hfr as (_ & -> & _). reflexivity.
    + destruct Hm as (_ & _ & Hfalse). congruence.
  - destruct (runs s !! id) as [run|] eqn:Hrun; [|exact Hj].
    destruct (stale run (prov s)) eqn:Hst.
    + destruct (resume_stale encodeLength view id run (prov s) Hst)
        as (Hfr & _ & _ & Hcount & _ & Hcv).
      destruct (resume encodeLength view id run (prov s)) as [st1 run1].
      simpl in *. intros Hc. simpl in Hc. rewrite Hcount in Hc.
      destruct Hfr as (_ & Hv & _ & Hp & _).
      destruct (Hj Hc) as [Hpend|(i & r & Hi & Hsi & Hsus)].
      * left. simpl. now rewrite Hp.
      * right. exists i, r. simpl.
        assert (Hne : id <> i) by (intros ->; congruence).
        split; [now rewrite list_lookup_insert_ne|].
        split; [|exact Hsus]. now rewrite (stale_frame r (prov s) st1 Hv).
    + pose proof (resume_current encodeLength view id run (prov s) Hst)
        as (Hfr & Hcv & _ & Hm).
      destruct (suspended run) eqn:Hsus0.
      * destruct (resume encodeLength view id run (prov s)) as [st1 run1].
        simpl in *. intros Hc. simpl in Hc.
        destruct Hfr as (_ & Hv & _).
        destruct (suspended run1) eqn:Hsus1.
        -- right. exists id, run1. simpl.
           split; [apply list_lookup_insert_eq; now apply lookup_lt_Some in Hrun|].
           split; [|rewrite Hsus1; discriminate].
           unfold stale in *. now rewrite Hcv, Hv.
        -- right. exists id, run1. simpl.
           split; [apply list_lookup_insert_eq; now apply lookup_lt_Some in Hrun|].
           split; [|rewrite Hsus1; discriminate].
           unfold stale in *. now rewrite Hcv, Hv.
        -- destruct Hm as (_ & _ & Hfalse). congruence.
      * destruct (resume encodeLength view id run (prov s)) as [st1 run1].
        simpl in *. intros Hc. simpl in Hc.
        destruct Hfr as (_ & Hv & _).
        destruct (suspended run1) eqn:Hsus1.
        -- right. exists id, run1. simpl.
           split; [apply list_lookup_insert_eq; now apply lookup_lt_Some in Hrun|].
           split; [|rewrite Hsus1; discriminate].
           unfold stale in *. now rewrite Hcv, Hv.
        -- right. exists id, run1. simpl.
           split; [apply list_lookup_insert_eq; now apply lookup_lt_Some in Hrun|].
           split; [|rewrite Hsus1; discriminate].
           unfold stale in *. now rewrite Hcv, Hv.
        -- destruct Hm as (_ & _ & Hfalse). congruence.
      * rewrite Hm. rewrite list_insert_id by exact Hrun. now destruct s.
  - intros Hc. simpl in *. left. revert Hc. unfold toggleAllFiles. cbn [fst].
    destruct (forallb isChecked (itemValues (prov s))); simpl; [discriminate|].
    intros _ Habs. apply app_eq_nil in Habs. destruct Habs as [_ Habs]. discriminate.
  - apply quiet_arming_justified;
      [apply toggleCheck_quiet|apply toggleCheck_arming|exact Hj].
  - apply quiet_arming_justified;
      [apply getChildren_quiet|apply getChildren_arming|exact Hj].
Qed.

Lemma exec_countingJustified evs : forall s,
  countingJustified s -> countingJustified (exec evs s).
Proof.
  induction evs as [|e evs IH]; intros s Hs; [exact Hs|].
  rewrite exec_cons. apply IH, step_countingJustified, Hs.
Qed.

(** X3: the counting flag is never left dangling. In every reachable state
    in which the provider reports that it is counting, either a debounce
    timer is armed (a recompute will start) or a run that carries the live
    version has not returned yet (it will publish when it does). *)
Theorem counting_flag_is_backed
    (persistState : bool) (view : FsView) (isDirectorySync : string -> Result bool)
    (state : FileStates) (evs : list Event) :
  let s := exec evs (construct persistState view isDirectorySync state) in
  getIsCounting (prov s) = true ->
  pendingTimers (prov s) <> [] \/ liveRun s.
Proof.
  apply (exec_countingJustified evs). intros Hc. left.
  apply debounced_armed.
Qed.

(** X6: the map is always keyed by its objects' paths. In every state
    reached from the constructor, whatever selection was stored, each map
    entry points to a live object whose [filePath] is the entry's key; in
    particular two paths never share an object. *)
Theorem map_stays_keyed
    (persistState : bool) (view : FsView) (isDirectorySync : string -> Result bool)
    (state : FileStates) (evs : list Event) :
  let s := exec evs (construct persistState view isDirectorySync state) in
  (forall p r, items (prov s) !! p = Some r ->
     exists o, heap (prov s) !! r = Some o /\ filePath o = p)
  /\ (forall p q r, items (prov s) !! p = Some r -> items (prov s) !! q = Some r ->
        p = q).
Proof.
  intros s.
  assert (K : itemsKeyed (prov s)).
  { subst s. generalize (construct persistState view isDirectorySync state)
      (loadPersistedState_itemsKeyed persistState view isDirectorySync state
         (mkProvider [] ∅ 0 false 0 None [] 0 [] [])
       : itemsKeyed (prov (construct persistState view isDirectorySync state))).
    induction evs as [|e evs IH]; intros s0 Hs0; [exact Hs0|].
    rewrite exec_cons. apply IH. now apply step_itemsKeyed. }
  split; [exact K|].
  intros p q r Hp Hq. destruct (K p r Hp) as (o & Ho & <-).
  destruct (K q r Hq) as (o' & Ho' & <-). congruence.
Qed.

Lemma stale_resume_first view id run st :
  stale run st = true ->
  let r1 := resume encodeLength view id run st in
  stale r1.2 r1.1 = true
  /\ (suspended r1.2 = Returned \/ exists rest, suspended r1.2 = AwaitYield rest)
  /\ fired r1.1 = fired st /\ reads r1.1 = reads st /\ heap r1.1 = heap st
  /\ totalTokenCount r1.1 = totalTokenCount st
  /\ isCountingTokens r1.1 = isCountingTokens st
  /\ (items r1.1 = items st
      \/ exists f rest,
           suspended run = AwaitRead f rest
           /\ tokenCount encodeLength view f = None
           /\ items r1.1 = delete f (items st)).
Proof.
  intros Hst. cbv zeta.
  assert (Hcatch : forall e f rest,
    suspended run = AwaitRead f rest ->
    tokenCount encodeLength view f = None ->
    let r1 := loopFrom view id run rest (catchFileError e f st) in
    stale r1.2 r1.1 = true
    /\ (suspended r1.2 = Returned \/ exists rest, suspended r1.2 = AwaitYield rest)
    /\ fired r1.1 = fired st /\ reads r1.1 = reads st /\ heap r1.1 = heap st
    /\ totalTokenCount r1.1 = totalTokenCount st
    /\ isCountingTokens r1.1 = isCountingTokens st
    /\ (items r1.1 = items st
        \/ exists f rest,
             suspended run = AwaitRead f rest
             /\ tokenCount encodeLength view f = None
             /\ items r1.1 = delete f (items st))).
  { intros e f rest Hsus Hnone. cbv zeta.
    assert (Hst' : stale run (catchFileError e f st) = true)
      by (rewrite (stale_frame run st (catchFileError e f st)
                     (catchFileError_ver e f st)); exact Hst).
    rewrite loopFrom_stale by exact Hst'.
    simpl. split; [exact Hst'|]. split; [now left|].
    unfold catchFileError. case_bool_decide as Hcode; simpl.
    - repeat split; try reflexivity. right. exists f, rest. auto.
    - repeat split; try reflexivity. now left. }
  unfold resume. destruct (suspended run) as [f rest|rest|] eqn:Hsus.
  - destruct (readFile view f) as [content|e] eqn:Hread.
    2:{ apply (Hcatch e f rest eq_refl). unfold tokenCount. now rewrite Hread. }
    destruct (encodeLength content) as [tokens|e] eqn:Henc.
    2:{ apply (Hcatch e f rest eq_refl). unfold tokenCount.
        now rewrite Hread, Henc. }
    simpl.
    destruct ((filesProcessed run + 1) mod 50 =? 0)%N; simpl.
    + split; [exact Hst|]. split; [right; eauto|].
      repeat split; try reflexivity. now left.
    + rewrite loopFrom_stale by exact Hst. simpl.
      split; [exact Hst|]. split; [now left|].
      repeat split; try reflexivity. now left.
  - rewrite Hst. rewrite finallyBlock_stale by exact Hst. simpl.
    split; [exact Hst|]. split; [now left|].
    repeat split; try reflexivity. now left.
  - simpl. split; [exact Hst|]. split; [now left|].
    repeat split; try reflexivity. now left.
Qed.

Lemma stale_resume_second view id run st :
  stale run st = true ->
  suspended run = Returned \/ (exists rest, suspended run = AwaitYield rest) ->
  (resume encodeLength view id run st).1 = st
  /\ suspended (resume encodeLength view id run st).2 = Returned.
Proof.
  intros Hst [Hsus|(rest & Hsus)]; unfold resume; rewrite Hsus.
  - auto.
  - rewrite Hst. rewrite finallyBlock_stale by exact Hst. auto.
Qed.

(** X4: cancellation is prompt. A run that has been superseded returns at
    its next resumption, or at the one after it when it was resumed on the
    fiftieth file; on the way it fires no event, issues no read and touches
    no object, total or flag. The only trace it can leave is the removal
    from the map of the file it was reading, when the read or the tokenizer
    failed on it (with ENOENT). *)
Theorem superseded_run_stops_promptly
    (view view' : FsView) (id : nat) (run : Run) (st : Provider) :
  stale run st = true ->
  let r1 := resume encodeLength view id run st in
  let r2 := resume encodeLength view' id r1.2 r1.1 in
  suspended r2.2 = Returned
  /\ fired r2.1 = fired st
  /\ reads r2.1 = reads st
  /\ heap r2.1 = heap st
  /\ totalTokenCount r2.1 = totalTokenCount st
  /\ isCountingTokens r2.1 = isCountingTokens st
  /\ (items r2.1 = items st
      \/ exists f rest,
           suspended run = AwaitRead f rest
           /\ tokenCount encodeLength view f = None
           /\ items r2.1 = delete f (items st)).
Proof.
  intros Hst r1 r2.
  destruct (stale_resume_first view id run st Hst)
    as (Hst1 & Hsus1 & Hf & Hr & Hh & Ht & Hc & Hi).
  fold r1 in Hst1, Hsus1, Hf, Hr, Hh, Ht, Hc, Hi.
  destruct (stale_resume_second view' id r1.2 r1.1 Hst1 Hsus1) as (Hsame & Hret).
  fold r2 in Hsame, Hret. rewrite Hsame. auto 10.
Qed.

End SchedulerExtras.

Lemma counting_flag_is_backed_witness :
  getIsCounting
    (prov (exec charTokenizer startCounting
             (construct true allThereView (fun _ => Ok false) None))) = true
  /\ (pendingTimers
        (prov (exec charTokenizer startCounting
                 (construct true allThereView (fun _ => Ok false) None))) <> []
      \/ liveRun (exec charTokenizer startCounting
                    (construct true allThereView (fun _ => Ok false) None))).
Proof.
  split; [vm_compute; reflexivity|].
  apply (counting_flag_is_backed charTokenizer true allThereView
           (fun _ => Ok false) None startCounting).
  vm_compute. reflexivity.
Defined.

Lemma superseded_run_stops_promptly_witness :
  stale (mkRun 1 ["/ws/a.ts"; "/ws/b.ts"] 5 1 (AwaitRead "/ws/b.ts" []))
        (debouncedUpdateTokenCount 300 (prov runAReading)) = true
  /\ suspended
       (resume charTokenizer twoFilesView 0
          (resume charTokenizer twoFilesView 0
             (mkRun 1 ["/ws/a.ts"; "/ws/b.ts"] 5 1 (AwaitRead "/ws/b.ts" []))
             (debouncedUpdateTokenCount 300 (prov runAReading))).2
          (resume charTokenizer twoFilesView 0
             (mkRun 1 ["/ws/a.ts"; "/ws/b.ts"] 5 1 (AwaitRead "/ws/b.ts" []))
             (debouncedUpdateTokenCount 300 (prov runAReading))).1).2
     = Returned.
Proof.
  split; [vm_compute; reflexivity|].
  apply (superseded_run_stops_promptly charTokenizer twoFilesView twoFilesView 0
           (mkRun 1 ["/ws/a.ts"; "/ws/b.ts"] 5 1 (AwaitRead "/ws/b.ts" []))
           (debouncedUpdateTokenCount 300 (prov runAReading))).
  vm_compute. reflexivity.
Defined.

(** X7: the stored selection is stable. Where [statSync] succeeds on every
    path that exists, saving, loading what was saved and saving again stores
    the same record as the first save. *)
Theorem saved_state_is_stable
    (view : FsView) (isDirectorySync : string -> Result bool) (st st' : Provider) :
  (forall p, existsSync view p = true -> loadable view isDirectorySync p = true) ->
  savePersistedState true view
    (loadPersistedState true view isDirectorySync
       (savePersistedState true view st) st')
  = savePersistedState true view st.
Proof.
  intros Hstat.
  destruct (savePersistedState_lookup view st) as (m & Hsave & Hm).
  rewrite Hsave.
  destruct (savePersistedState_lookup view
              (loadPersistedState true view isDirectorySync (Some m) st'))
    as (m' & -> & Hm').
  f_equal. apply map_eq. intros p.
  rewrite Hm', loadPersistedState_checkedAt, Hm.
  destruct (existsSync view p) eqn:He; [|reflexivity].
  now rewrite (Hstat p He).
Qed.

Lemma saved_state_is_stable_witness :
  savePersistedState true allThereView
    (loadPersistedState true allThereView (fun _ => Ok false)
       (savePersistedState true allThereView twoFiles) twoFiles)
  = savePersistedState true allThereView twoFiles.
Proof.
  apply (saved_state_is_stable allThereView (fun _ => Ok false) twoFiles twoFiles).
  intros p _. reflexivity.
Defined.

(** X8: without persistence, or with nothing stored, [refresh] forgets the
    whole selection: the map is empty afterwards, no file counts as checked,
    and the recompute it arms publishes a count of zero without reading. *)
Theorem refresh_without_store_clears
    (persistState : bool) (view : FsView) (isDirectorySync : string -> Result bool)
    (state : FileStates) (st : Provider) (view' : FsView) (id : nat) :
  persistState = false \/ state = None ->
  let st' := refresh persistState view isDirectorySync state st in
  items st' = ∅
  /\ getCheckedFiles view' st' = []
  /\ ver st' = (ver st + 1)%N
  /\ pendingTimers st' <> []
  /\ fired (updateTokenCount view' id st').1
     = fired st ++ [(ByRun id, mkPayload 0 false)]
  /\ reads (updateTokenCount view' id st').1 = reads st.
Proof.
  intros Hoff st'.
  assert (Hitems : items st' = ∅).
  { subst st'. unfold refresh, loadPersistedState.
    destruct Hoff as [->| ->]; simpl; [reflexivity|].
    now destruct persistState. }
  assert (Hfiles : getCheckedFiles view' st' = []).
  { unfold getCheckedFiles, itemValues. rewrite Hitems, map_to_list_empty.
    reflexivity. }
  destruct (loadPersistedState_selectionOnly persistState view isDirectorySync state
              (set_items ∅ st)) as (Hv & _ & _ & _ & Hf & _ & _ & Hr).
  split; [exact Hitems|]. split; [exact Hfiles|].
  split; [subst st'; unfold refresh; rewrite debounced_ver, Hv; reflexivity|].
  split; [apply debounced_armed|].
  unfold updateTokenCount. rewrite Hfiles. unfold stale. simpl.
  rewrite N.eqb_refl. simpl. rewrite Hf, Hr. auto.
Qed.

Lemma refresh_without_store_clears_witness :
  (false = false \/ Some (∅ : gmap string bool) = None)
  /\ items (refresh false allThereView (fun _ => Ok false) (Some ∅) twoFiles) = ∅.
Proof.
  split; [now left|].
  apply (refresh_without_store_clears false allThereView (fun _ => Ok false)
           (Some ∅) twoFiles allThereView 0).
  now left.
Defined.


(** *** Strings *)

Lemma prefix_iff (p s : string) :
  String.prefix p s = true <-> exists t, s = p +:+ t.
Proof.
  revert s. induction p as [|c p IH]; intros s.
  - split; [intros _; now exists s|]. intros _. now destruct s.
  - destruct s as [|d s]; simpl;
      [split; [discriminate|intros (t & Ht); discriminate]|].
    destruct (Ascii.ascii_dec c d) as [->|Hne].
    + rewrite IH. split; intros (t & Ht); exists t.
      * now rewrite Ht.
      * simpl in Ht. now injection Ht.
    + split; [discriminate|]. intros (t & Ht). simpl in Ht.
      injection Ht as Hcd _. congruence.
Qed.

Lemma take_drop (n : nat) (s : string) : Js.take n s +:+ Js.drop n s = s.
Proof.
  revert s. induction n as [|n IH]; intros [|c s]; try reflexivity.
  change (String c (Js.take n s +:+ Js.drop n s) = String c s).
  f_equal. apply IH.
Qed.

Lemma drop_app_length (a b : string) : Js.drop (String.length a) (a +:+ b) = b.
Proof. induction a as [|c a IH]; simpl; [now destruct b|exact IH]. Qed.

Lemma take_app_length (a b : string) : Js.take (String.length a) (a +:+ b) = a.
Proof.
  induction a as [|c a IH]; [now destruct b|].
  change (String c (Js.take (String.length a) (a +:+ b)) = String c a).
  f_equal. exact IH.
Qed.

Lemma endsWith_iff (s p : string) :
  Js.endsWith s p = true <-> exists pre, s = pre +:+ p.
Proof.
  unfold Js.endsWith. rewrite andb_true_iff, Nat.leb_le, String.eqb_eq. split.
  - intros (Hle & Hdrop).
    exists (Js.take (String.length s - String.length p) s).
    pose proof (take_drop (String.length s - String.length p) s) as H.
    rewrite Hdrop in H. now symmetry.
  - intros (pre & ->). rewrite string_length_append. split; [lia|].
    replace (String.length pre + String.length p - String.length p)%nat
      with (String.length pre) by lia.
    apply drop_app_length.
Qed.

Lemma slashFree_app (a b : string) :
  slashFree (a +:+ b) = slashFree a && slashFree b.
Proof.
  induction a as [|c a IH]; simpl; [reflexivity|].
  rewrite IH. now rewrite andb_assoc.
Qed.

Lemma slashFree_take (n : nat) (s : string) :
  slashFree s = true -> slashFree (Js.take n s) = true.
Proof.
  revert s. induction n as [|n IH]; intros [|c s]; simpl; try reflexivity.
  rewrite !andb_true_iff. intros [Hc Hs]. auto.
Qed.

(** *** Exclusion patterns *)

Lemma matchesPattern_inv (fileName pattern : string) :
  matchesPattern fileName pattern = true ->
  pattern <> ""
  /\ (fileName = pattern
      \/ pattern = fileName +:+ "/"
      \/ exists suffix stem,
           pattern = "*." +:+ suffix /\ fileName = stem +:+ "." +:+ suffix).
Proof.
  unfold matchesPattern.
  destruct (String.eqb pattern "") eqn:Hempty; [discriminate|].
  apply String.eqb_neq in Hempty. intros Hm. split; [exact Hempty|].
  destruct (String.eqb fileName pattern) eqn:Hsame.
  { apply String.eqb_eq in Hsame. auto. }
  destruct (Js.endsWith pattern "/"
            && String.eqb fileName (Js.take (String.length pattern - 1) pattern))
    eqn:Hfolder.
  { apply andb_true_iff in Hfolder as [Hends Heq].
    apply endsWith_iff in Hends as (pre & ->). apply String.eqb_eq in Heq.
    rewrite string_length_append in Heq. simpl in Heq.
    replace (String.length pre + 1 - 1)%nat with (String.length pre) in Heq by lia.
    rewrite take_app_length in Heq. subst pre. auto. }
  unfold Js.startsWith in Hm.
  destruct (String.prefix "*." pattern) eqn:Hwild; [|discriminate].
  apply prefix_iff in Hwild as (suffix & ->).
  change (Js.drop 1 ("*." +:+ suffix)) with ("." +:+ suffix) in Hm.
  apply endsWith_iff in Hm as (stem & ->). right. right. eauto.
Qed.

Lemma matchesPattern_intro (fileName pattern : string) :
  pattern <> "" ->
  fileName = pattern
  \/ pattern = fileName +:+ "/"
  \/ (exists suffix stem,
        pattern = "*." +:+ suffix /\ fileName = stem +:+ "." +:+ suffix) ->
  matchesPattern fileName pattern = true.
Proof.
  intros Hempty Hforms. unfold matchesPattern.
  apply String.eqb_neq in Hempty. rewrite Hempty.
  destruct (String.eqb fileName pattern) eqn:Hsame; [reflexivity|].
  apply String.eqb_neq in Hsame.
  destruct Hforms as [H|[->|(suffix & stem & -> & ->)]]; [congruence| |].
  - assert (Hends : Js.endsWith (fileName +:+ "/") "/" = true)
      by (apply endsWith_iff; now exists fileName).
    rewrite Hends, string_length_append. simpl.
    replace (String.length fileName + 1 - 1)%nat
      with (String.length fileName) by lia.
    now rewrite take_app_length, String.eqb_refl.
  - match goal with
    | |- (if ?c then _ else _) = true => destruct c; [reflexivity|]
    end.
    unfold Js.startsWith.
    assert (Hp : String.prefix "*." ("*." +:+ suffix) = true)
      by (apply prefix_iff; now exists suffix).
    rewrite Hp. change (Js.drop 1 ("*." +:+ suffix)) with ("." +:+ suffix).
    apply endsWith_iff. now exists stem.
Qed.

(** X9: [matchesPattern] knows exactly three forms. A pattern excludes an
    entry name when it is that name, when it is that name followed by one
    slash, or when it is [*.] followed by a suffix and the name ends with a
    dot and that suffix; the empty pattern excludes nothing. *)
Theorem matchesPattern_three_forms (fileName pattern : string) :
  matchesPattern fileName pattern = true
  <-> pattern <> ""
      /\ (fileName = pattern
          \/ pattern = fileName +:+ "/"
          \/ exists suffix stem,
               pattern = "*." +:+ suffix
               /\ fileName = stem +:+ "." +:+ suffix).
Proof.
  split; [apply matchesPattern_inv|].
  intros [Hempty Hforms]. now apply matchesPattern_intro.
Qed.

(** X10: patterns are matched against entry names only. A pattern with a
    slash anywhere before its last character (a path such as [build/gen], a
    rooted [/dist]) matches no entry name, since the names [readdir] reports
    hold no slash. *)
Theorem path_patterns_match_nothing (fileName pattern : string) :
  slashFree fileName = true ->
  slashFree (Js.take (String.length pattern - 1) pattern) = false ->
  matchesPattern fileName pattern = false.
Proof.
  intros Hname Hpath. apply not_true_is_false. intros Hm.
  apply matchesPattern_inv in Hm
    as (_ & [->|[->|(suffix & stem & -> & ->)]]).
  - rewrite slashFree_take in Hpath by exact Hname. discriminate.
  - rewrite string_length_append in Hpath. simpl in Hpath.
    replace (String.length fileName + 1 - 1)%nat
      with (String.length fileName) in Hpath by lia.
    rewrite take_app_length in Hpath. congruence.
  - rewrite !slashFree_app in Hname. apply andb_true_iff in Hname as [_ Hname].
    simpl in Hname.
    rewrite slashFree_take in Hpath; [discriminate|].
    simpl. exact Hname.
Qed.

Lemma path_patterns_match_nothing_witness :
  slashFree "gen" = true
  /\ slashFree (Js.take (String.length "build/gen" - 1) "build/gen") = false
  /\ matchesPattern "gen" "build/gen" = false.
Proof.
  split; [reflexivity|]. split; [reflexivity|].
  apply path_patterns_match_nothing; reflexivity.
Defined.

(** *** Settings *)

Lemma trimStart_head (s : string) :
  JsText.trimStart s = ""
  \/ exists c t, JsText.trimStart s = String c t /\ JsText.isWhiteSpace c = false.
Proof.
  induction s as [|c s IH]; simpl; [now left|].
  destruct (JsText.isWhiteSpace c) eqn:Hc; [exact IH|]. right. eauto.
Qed.

Lemma trimEnd_idem (s : string) : JsText.trimEnd (JsText.trimEnd s) = JsText.trimEnd s.
Proof.
  induction s as [|c s IH]; simpl; [reflexivity|].
  destruct (JsText.trimEnd s) as [|d t] eqn:Ht.
  - destruct (JsText.isWhiteSpace c) eqn:Hc; simpl; [reflexivity|].
    now rewrite Hc.
  - simpl in IH |- *. now rewrite IH.
Qed.

Lemma trimEnd_head (c : ascii) (t : string) :
  JsText.isWhiteSpace c = false ->
  exists t', JsText.trimEnd (String c t) = String c t'.
Proof.
  intros Hc. simpl. destruct (JsText.trimEnd t); [|eauto].
  rewrite Hc. eauto.
Qed.

Lemma trim_idem (s : string) : JsText.trim (JsText.trim s) = JsText.trim s.
Proof.
  unfold JsText.trim.
  destruct (trimStart_head s) as [->|(c & t & -> & Hc)]; [reflexivity|].
  destruct (trimEnd_head c t Hc) as (t' & Ht'). rewrite Ht'.
  simpl JsText.trimStart. rewrite Hc. rewrite <- Ht'. apply trimEnd_idem.
Qed.

Lemma uniqueFrom_spec (xs : list string) : forall seen,
  NoDup (JsText.uniqueFrom seen xs)
  /\ forall x, x ∈ JsText.uniqueFrom seen xs <-> x ∈ xs /\ x ∉ seen.
Proof.
  induction xs as [|y xs IH]; intros seen; simpl.
  - split; [constructor|]. intros x. rewrite elem_of_nil. tauto.
  - case_bool_decide as Hy.
    + destruct (IH seen) as (Hnd & Hin). split; [exact Hnd|].
      intros x. rewrite Hin, elem_of_cons. split; [tauto|].
      intros [[->|H] Hs]; tauto.
    + destruct (IH (y :: seen)) as (Hnd & Hin). split.
      * constructor; [|exact Hnd]. rewrite Hin, elem_of_cons. tauto.
      * intros x. rewrite !elem_of_cons, Hin, elem_of_cons.
        split.
        -- intros [->|[Hx Hs]]; [tauto|]. tauto.
        -- intros [[->|Hx] Hs]; [tauto|].
           destruct (decide (x = y)) as [->|Hne]; [tauto|]. right. tauto.
Qed.

Lemma unique_spec (xs : list string) :
  NoDup (JsText.unique xs) /\ forall x, x ∈ JsText.unique xs <-> x ∈ xs.
Proof.
  destruct (uniqueFrom_spec xs []) as (Hnd & Hin). split; [exact Hnd|].
  intros x. unfold JsText.unique. rewrite Hin, elem_of_nil. tauto.
Qed.

Lemma getGitIgnorePatterns_spec root view p :
  In p (getGitIgnorePatterns root view) ->
  p <> "" /\ Js.startsWith p "#" = false /\ JsText.trim p = p
  /\ exists content line,
       readFile view (Path.join root ".gitignore") = Ok content
       /\ In line (JsText.splitLines content) /\ p = JsText.trim line.
Proof.
  unfold getGitIgnorePatterns.
  destruct (existsSync view (Path.join root ".gitignore")); [|intros []].
  destruct (readFile view (Path.join root ".gitignore")) as [content|e];
    [|intros []].
  intros Hin. apply filter_In in Hin as [Hin Hok].
  apply in_map_iff in Hin as (line & <- & Hline).
  apply andb_true_iff in Hok as [Hne Hcomment].
  apply negb_true_iff in Hne, Hcomment. apply String.eqb_neq in Hne.
  split; [exact Hne|]. split; [exact Hcomment|]. split; [apply trim_idem|].
  eauto.
Qed.

(** X11: what [getGitIgnorePatterns] returns is clean. Every pattern it
    takes from [.gitignore] is a line of that file with the surrounding
    white space removed; none is empty and none starts with [#], so blank
    lines and comments (indented ones too) never become patterns. *)
Theorem gitignore_patterns_are_clean
    (root : string) (view : FsView) (pattern : string) :
  In pattern (getGitIgnorePatterns root view) ->
  pattern <> ""
  /\ Js.startsWith pattern "#" = false
  /\ JsText.trim pattern = pattern
  /\ exists content line,
       readFile view (Path.join root ".gitignore") = Ok content
       /\ In line (JsText.splitLines content)
       /\ pattern = JsText.trim line.
Proof. apply getGitIgnorePatterns_spec. Qed.

Lemma gitignore_patterns_are_clean_witness :
  In "*.log" (getGitIgnorePatterns "/ws" gitignoreView)
  /\ JsText.trim "*.log" = "*.log".
Proof.
  split; [vm_compute; tauto|].
  apply (gitignore_patterns_are_clean "/ws" gitignoreView "*.log").
  vm_compute. tauto.
Defined.

Lemma Forall2_In_l {A B : Type} (P : A -> B -> Prop) (l : list A) (k : list B) x :
  Forall2 P l k -> In x l -> exists y, In y k /\ P x y.
Proof.
  induction 1 as [|a b l k Hab _ IH]; intros Hin; [destruct Hin|].
  destruct Hin as [->|Hin]; [exists b; simpl; auto|].
  destruct (IH Hin) as (y & Hy & HP). exists y. simpl. auto.
Qed.

Lemma scanEntries_heap_grows cfg element dirPath es : forall children st,
  exists news,
    heap (scanEntries cfg element dirPath es children st).1 = heap st ++ news.
Proof.
  induction es as [|name kind sub rest IH]; intros children st; simpl.
  - exists []. now rewrite app_nil_r.
  - destruct (excluded cfg name); [apply IH|].
    destruct (items st !! Path.join dirPath name) as [old|].
    + match goal with
      | |- context [scanEntries _ _ _ rest ?c ?s] => destruct (IH c s) as (news & ->)
      end.
      simpl. rewrite <- app_assoc. eauto.
    + match goal with
      | |- context [scanEntries _ _ _ rest ?c ?s] => destruct (IH c s) as (news & ->)
      end.
      destruct (parentChecked element st); simpl; rewrite <- app_assoc; eauto.
Qed.

Lemma scanEntries_children cfg element dirPath es : forall children st,
  exists added,
    (scanEntries cfg element dirPath es children st).2 = children ++ added
    /\ Forall2
         (fun r p =>
            (length (heap st) <= r)%nat
            /\ exists o,
                 heap (scanEntries cfg element dirPath es children st).1 !! r = Some o
                 /\ filePath o = p
                 /\ p = Path.join dirPath (label o)
                 /\ In (label o) (entryNames es)
                 /\ excluded cfg (label o) = false)
         added (listedPaths cfg dirPath es).
Proof.
  induction es as [|name kind sub rest IH]; intros children st; simpl.
  - exists []. rewrite app_nil_r. split; [reflexivity|constructor].
  - destruct (excluded cfg name) eqn:Hex.
    { destruct (IH children st) as (added & Heq & Hall). exists added.
      split; [exact Heq|]. eapply Forall2_impl; [exact Hall|].
      intros r p (Hr & o & Ho & Hp & Hj & Hin & He). split; [exact Hr|].
      exists o. auto 10. }
    assert (Hstep : forall (b : bool) (st1 : Provider),
      heap st1 = heap st ++ [mkFileItem name (collapsibleOf kind)
                               (Path.join dirPath name) b] ->
      exists added,
        (scanEntries cfg element dirPath rest (children ++ [length (heap st)]) st1).2
        = children ++ added
        /\ Forall2
             (fun r p =>
                (length (heap st) <= r)%nat
                /\ exists o,
                     heap (scanEntries cfg element dirPath rest
                             (children ++ [length (heap st)]) st1).1 !! r = Some o
                     /\ filePath o = p
                     /\ p = Path.join dirPath (label o)
                     /\ (name = label o \/ In (label o) (entryNames rest))
                     /\ excluded cfg (label o) = false)
             added (Path.join dirPath name :: listedPaths cfg dirPath rest)).
    { intros b st1 Hheap.
      destruct (IH (children ++ [length (heap st)]) st1) as (added & Heq & Hall).
      destruct (scanEntries_heap_grows cfg element dirPath rest
                  (children ++ [length (heap st)]) st1) as (news & Hgrow).
      exists (length (heap st) :: added). split.
      - rewrite Heq, <- app_assoc. reflexivity.
      - constructor.
        + split; [lia|]. eexists. split.
          * rewrite Hgrow, Hheap, <- app_assoc.
            rewrite lookup_app_r by lia. rewrite Nat.sub_diag. reflexivity.
          * simpl. auto.
        + eapply Forall2_impl; [exact Hall|].
          intros r p (Hr & o & Ho & Hp & Hj & Hin & He).
          split; [rewrite Hheap, length_app in Hr; simpl in Hr; lia|].
          exists o. auto 10. }
    destruct (items st !! Path.join dirPath name) as [old|].
    + eapply Hstep. reflexivity.
    + destruct (parentChecked element st); simpl; eapply Hstep; reflexivity.
Qed.

(** X12: the standard exclusions always apply. Whatever the settings and
    the [.gitignore] say, the pattern list [loadConfig] builds excludes
    [.git], [node_modules], [.vscode], [dist] and [out], holds no pattern
    twice and no empty pattern, and [getChildren] never returns a node with
    one of those five names. *)
Theorem standard_ignores_always_apply
    (root : string) (settings : Settings) (view : FsView) :
  let cfg := (loadConfig root settings view).1 in
  (forall name, In name standardIgnores -> excluded cfg name = true)
  /\ NoDup (excludedPatterns cfg)
  /\ (forall pattern, In pattern (excludedPatterns cfg) -> pattern <> "")
  /\ (forall element ds st r o,
        In r (getChildren cfg element ds st).2 ->
        heap (getChildren cfg element ds st).1 !! r = Some o ->
        ~ In (label o) standardIgnores).
Proof.
  intros cfg.
  set (all := standardIgnores
              ++ (if default true (useGitignore settings)
                  then getGitIgnorePatterns root view else [])
              ++ List.filter (fun p => negb (String.eqb p ""))
                   (List.map JsText.trim (default [] (ignore settings)))).
  assert (Hpat : excludedPatterns cfg = JsText.unique all) by reflexivity.
  destruct (unique_spec all) as (Hnd & Hin).
  assert (Hstd : forall name, In name standardIgnores -> excluded cfg name = true).
  { intros name Hname. unfold excluded. apply existsb_exists. exists name. split.
    - rewrite Hpat. apply list_elem_of_In, Hin. subst all.
      apply elem_of_app. left. now apply list_elem_of_In.
    - apply matchesPattern_intro; [|now left].
      simpl in Hname. intuition (subst; discriminate). }
  split; [exact Hstd|]. split; [now rewrite Hpat|]. split.
  - intros pattern Hp. rewrite Hpat in Hp. apply list_elem_of_In, Hin in Hp.
    subst all. apply elem_of_app in Hp as [Hp|Hp].
    + apply list_elem_of_In in Hp. simpl in Hp. intuition (subst; discriminate).
    + apply elem_of_app in Hp as [Hp|Hp].
      * destruct (default true (useGitignore settings));
          [|now apply elem_of_nil in Hp].
        apply list_elem_of_In in Hp. now apply getGitIgnorePatterns_spec in Hp.
      * apply list_elem_of_In, filter_In in Hp as [_ Hp].
        apply negb_true_iff in Hp. now apply String.eqb_neq in Hp.
  - intros element ds st r o Hr Ho Hlabel.
    unfold getChildren in Hr, Ho.
    destruct ds as [| |e|entries]; cbv beta iota zeta in Hr, Ho;
      try (simpl in Hr; contradiction).
    { case_bool_decide; simpl in Hr; contradiction. }
    match type of Hr with
    | In r (scanEntries cfg element ?d entries [] st).2 =>
        destruct (scanEntries_children cfg element d entries [] st)
          as (added & Heq & Hall)
    end.
    rewrite Heq in Hr. simpl in Hr.
    destruct (Forall2_In_l _ _ _ _ Hall Hr) as (p & _ & _ & o' & Ho' & _ & _ & _ & He).
    rewrite Ho in Ho'. injection Ho' as <-.
    rewrite (Hstd _ Hlabel) in He. discriminate.
Qed.

(** *** The context assembler *)

Lemma promiseAll_Ok {A : Type} (ps : list (Result A)) :
  (exists l, promiseAll ps = Ok l) <-> forall p, In p ps -> exists a, p = Ok a.
Proof.
  induction ps as [|[a|e] ps IH]; simpl.
  - split; [intros _ p []|eauto].
  - split.
    + intros (l & Hl) p [<-|Hp]; [eauto|].
      destruct (promiseAll ps) as [l'|e]; [|discriminate].
      apply (proj1 IH); eauto.
    + intros Hall. destruct (proj2 IH) as (l & ->); eauto.
  - split; [intros (l & Hl); discriminate|].
    intros Hall. destruct (Hall (Err e)) as (a & Ha); [now left|discriminate].
Qed.

Lemma renderBlock_Ok cfg view f :
  (exists b, renderBlock cfg view f = Ok b) <-> exists content, readFile view f = Ok content.
Proof.
  unfold renderBlock. destruct (readFile view f) as [content|e].
  - split; eauto.
  - split; intros (x & Hx); discriminate.
Qed.

(** X13: when [generateFile] writes. The output file is written exactly
    when at least one checked file exists, every one of them can be read and
    the write itself succeeds; it then goes to the workspace root under the
    name the user gave (or [context]) with the configured extension. The
    warning is shown exactly when no checked file exists, and never together
    with an error. *)
Theorem generateFile_writes_iff
    (cfg : Config) (view : FsView) (env : GenerateEnv) (st : Provider) :
  ((exists out, written (generateFile cfg view env st) = Some out)
   <-> getCheckedFiles view st <> []
       /\ (forall f, In f (getCheckedFiles view st) ->
             exists content, readFile view f = Ok content)
       /\ writeFileError env = None)
  /\ (forall path content,
        written (generateFile cfg view env st) = Some (path, content) ->
        path = Path.join (workspaceRoot cfg) (outputName cfg env))
  /\ (warningShown (generateFile cfg view env st) = Some "No files selected!"
      <-> getCheckedFiles view st = [])
  /\ (warningShown (generateFile cfg view env st) = None
      \/ errorShown (generateFile cfg view env st) = None).
Proof.
  unfold generateFile, outputName.
  destruct (getCheckedFiles view st) as [|f0 files] eqn:Hfiles.
  { simpl. split; [|split; [|split]].
    - split; [intros (out & Hout); discriminate|]. intros (H & _). congruence.
    - discriminate.
    - tauto.
    - now right. }
  set (blocks := promiseAll (List.map (renderBlock cfg view) (f0 :: files))).
  assert (Hblocks : (exists l, blocks = Ok l)
                    <-> forall f, In f (f0 :: files) ->
                          exists content, readFile view f = Ok content).
  { subst blocks. rewrite promiseAll_Ok. split.
    - intros Hall f Hf. apply (proj1 (renderBlock_Ok cfg view f)).
      apply Hall. now apply in_map.
    - intros Hall p Hp. apply in_map_iff in Hp as (f & <- & Hf).
      apply (proj2 (renderBlock_Ok cfg view f)). auto. }
  destruct blocks as [contents|e] eqn:Hb.
  - assert (Hreads : forall f, In f (f0 :: files) ->
                       exists content, readFile view f = Ok content)
      by (apply Hblocks; eauto).
    destruct (writeFileError env) as [e|] eqn:Hw; simpl.
    + split; [|split; [|split]].
      * split; [intros (out & Hout); discriminate|]. intros (_ & _ & H). discriminate.
      * discriminate.
      * split; discriminate.
      * now left.
    + destruct (openError env) as [e|]; simpl.
      * split; [|split; [|split]].
        -- split; [intros _|eauto]. repeat split; [discriminate|exact Hreads].
        -- intros path content H. now injection H as <- _.
        -- split; discriminate.
        -- now left.
      * split; [|split; [|split]].
        -- split; [intros _|eauto]. repeat split; [discriminate|exact Hreads].
        -- intros path content H. now injection H as <- _.
        -- split; discriminate.
        -- now left.
  - simpl. split; [|split; [|split]].
    + split; [intros (out & Hout); discriminate|].
      intros (_ & Hall & _). apply Hblocks in Hall as (l & Hl). discriminate.
    + discriminate.
    + split; discriminate.
    + now left.
Qed.

Lemma getSubstitution_plain (matched before after repl : string) :
  lacks "$" repl = true ->
  Js.getSubstitution matched before after repl = repl.
Proof.
  induction repl as [|c r IH]; simpl; [reflexivity|].
  intros H. apply andb_true_iff in H as [Hc Hr].
  apply negb_true_iff in Hc. rewrite Hc, IH by exact Hr. reflexivity.
Qed.

Lemma prefix_head_mismatch (c0 c : ascii) (pat' s : string) :
  Ascii.eqb c c0 = false -> String.prefix (String c0 pat') (String c s) = false.
Proof.
  intros Hc. simpl. destruct (Ascii.ascii_dec c0 c) as [->|]; [|reflexivity].
  now rewrite Ascii.eqb_refl in Hc.
Qed.

Lemma replaceFrom_lacking (c0 : ascii) (pat' repl a : string) : forall seen s,
  lacks c0 a = true ->
  Js.replaceFrom (String c0 pat') repl seen 0 (a +:+ s)
  = a +:+ Js.replaceFrom (String c0 pat') repl (seen +:+ a) 0 s.
Proof.
  induction a as [|c a IH]; intros seen s Ha.
  - now rewrite append_empty_r.
  - simpl in Ha. apply andb_true_iff in Ha as [Hc Ha]. apply negb_true_iff in Hc.
    change (String c a +:+ s) with (String c (a +:+ s)).
    cbn [Js.replaceFrom]. rewrite (prefix_head_mismatch c0 c pat' _ Hc).
    rewrite (IH _ s Ha), append_assoc. reflexivity.
Qed.

Lemma replaceFrom_nil pat repl seen skip :
  Js.replaceFrom pat repl seen skip "" = "".
Proof. reflexivity. Qed.

Lemma replaceFrom_skip pat repl (a : string) : forall seen s,
  Js.replaceFrom pat repl seen (String.length a) (a +:+ s)
  = Js.replaceFrom pat repl (seen +:+ a) 0 s.
Proof.
  induction a as [|c a IH]; intros seen s.
  - now rewrite append_empty_r.
  - change (String c a +:+ s) with (String c (a +:+ s)).
    cbn [Js.replaceFrom String.length]. rewrite IH, append_assoc. reflexivity.
Qed.

Lemma prefix_app (p s : string) : String.prefix p (p +:+ s) = true.
Proof. apply prefix_iff. now exists s. Qed.

Lemma replaceAll_single (c0 : ascii) (pat' repl before after : string) :
  lacks c0 before = true -> lacks c0 after = true -> lacks "$" repl = true ->
  Js.replaceAll (String c0 pat') repl (before +:+ String c0 pat' +:+ after)
  = before +:+ repl +:+ after.
Proof.
  intros Hb Ha Hr. unfold Js.replaceAll.
  rewrite (replaceFrom_lacking c0 pat' repl before _ _ Hb). f_equal.
  change (String c0 pat' +:+ after) with (String c0 (pat' +:+ after)).
  cbn [Js.replaceFrom].
  change (String c0 (pat' +:+ after)) with (String c0 pat' +:+ after).
  rewrite prefix_app, drop_app_length, getSubstitution_plain by exact Hr.
  f_equal.
  replace (String.length (String c0 pat') - 1)%nat with (String.length pat')
    by (simpl; lia).
  rewrite replaceFrom_skip.
  rewrite <- (append_empty_r after) at 1.
  rewrite (replaceFrom_lacking c0 pat' repl after _ "" Ha).
  now rewrite replaceFrom_nil, append_empty_r.
Qed.

(** X14: file content without a dollar sign is inserted verbatim. When the
    template, after the placeholders for names and paths have been replaced,
    holds [{fileContent}] once and no other opening brace, and the content
    of the file holds no [$], the rendered block is that text with the
    content in the place of the placeholder; the content is not scanned for
    placeholders. *)
Theorem dollar_free_content_is_verbatim
    (cfg : Config) (view : FsView) (fullFilePath content before after : string) :
  readFile view fullFilePath = Ok content ->
  blockWithNames cfg fullFilePath = before +:+ "{fileContent}" +:+ after ->
  lacks "{" before = true ->
  lacks "{" after = true ->
  lacks "$" content = true ->
  renderBlock cfg view fullFilePath = Ok (before +:+ content +:+ after).
Proof.
  intros Hread Hnames Hb Ha Hc.
  assert (Hrender : renderBlock cfg view fullFilePath
                    = Ok (Js.replaceAll "{fileContent}" content
                            (blockWithNames cfg fullFilePath))).
  { unfold renderBlock, blockWithNames. now rewrite Hread. }
  rewrite Hrender, Hnames. f_equal.
  apply (replaceAll_single "{" "fileContent}" content before after Hb Ha Hc).
Qed.

Lemma dollar_free_content_is_verbatim_witness :
  renderBlock roundTripConfig (oneFileView "if (a) { b(); }") "/ws/src/a.ts"
  = Ok (("<file name=" +:+ Js.dquote +:+ "a.ts" +:+ Js.dquote +:+ ">")
        +:+ "if (a) { b(); }" +:+ "</file>").
Proof.
  apply (dollar_free_content_is_verbatim roundTripConfig
           (oneFileView "if (a) { b(); }") "/ws/src/a.ts" "if (a) { b(); }"
           ("<file name=" +:+ Js.dquote +:+ "a.ts" +:+ Js.dquote +:+ ">")
           "</file>"); reflexivity.
Defined.

(** *** Toggling *)

Lemma contextValue_folder item :
  String.eqb (contextValue item) "folder"
  = bool_decide (collapsibleState item = CollapsedState).
Proof. unfold contextValue. now destruct (collapsibleState item). Qed.

Lemma contextValue_file item :
  String.eqb (contextValue item) "file"
  = bool_decide (collapsibleState item = NoneState).
Proof. unfold contextValue. now destruct (collapsibleState item). Qed.

Lemma checkedAt_debounced (b : bool) st p :
  checkedAt (if b then debouncedUpdateTokenCount 300 st else st) p = checkedAt st p.
Proof. now destruct b. Qed.

(** X15: a toggle stays inside the toggled node's subtree. The checked
    flag of a path changes only if the path is the toggled node's own, or
    that of an entry the cascade reaches; and every such entry lies below
    the node's path. *)
Theorem toggle_stays_in_subtree
    (cfg : Config) (view : FsView) (confirm : string -> bool) (ds : DirState)
    (r : ref) (item : FileItem) (st : Provider) (p : string) :
  itemsKeyed st ->
  heap st !! r = Some item ->
  checkedAt (toggleCheck cfg view confirm ds r st) p <> checkedAt st p ->
  p = filePath item
  \/ (In p (List.map fst (reachedBy cfg ds item))
      /\ exists t, p = filePath item +:+ "/" +:+ t).
Proof.
  intros K Hitem Hchanged.
  destruct (decide (p = filePath item)) as [Heq|Hne]; [now left|]. right.
  destruct (in_dec string_dec p (List.map fst (reachedBy cfg ds item)))
    as [Hin|Hout].
  { split; [exact Hin|]. unfold reachedBy in Hin.
    destruct (collapsibleState item); [|destruct Hin].
    now apply (proj1 (walk_shape cfg) ds (filePath item) p). }
  exfalso. apply Hchanged. clear Hchanged.
  unfold toggleCheck. rewrite Hitem.
  set (userCancelled := negb (isChecked item) && _ && _).
  set (newState := if userCancelled then false else negb (isChecked item)).
  destruct (negb (Bool.eqb newState (isChecked item)) || userCancelled);
    [|reflexivity].
  set (st1 := set_heap (alter (updateCheckState newState) r (heap st)) st).
  assert (H1 : checkedAt st1 p = checkedAt st p).
  { apply checkedAt_alter_other; [exact K|]. intros o Ho.
    rewrite Hitem in Ho. injection Ho as <-. congruence. }
  assert (K1 : itemsKeyed st1) by now apply itemsKeyed_alter.
  rewrite contextValue_folder. unfold reachedBy in Hout.
  destruct (collapsibleState item) eqn:Hkind.
  - rewrite bool_decide_eq_true_2 by reflexivity.
    pose proof (proj1 (toggleCascade_post cfg view confirm newState) ds
                  (filePath item) st1 K1) as Hpost.
    pose proof (checkedAt_cascade_frame _ _ _ _ _ _ _ p Hpost K1 Hout) as H2.
    destruct (toggleDirectoryChildren cfg view confirm ds (filePath item) newState st1)
      as [st2 cc].
    simpl in H2. rewrite checkedAt_debounced, checkedAt_insert_other by exact Hne.
    congruence.
  - rewrite bool_decide_eq_false_2 by discriminate.
    rewrite checkedAt_debounced, checkedAt_insert_other by exact Hne.
    exact H1.
Qed.

Lemma toggle_stays_in_subtree_witness :
  checkedAt (toggleCheck roundTripConfig folderView alwaysCancel folderOnDisk 0%nat
               folderKnown) "/ws/d/a.ts"
  <> checkedAt folderKnown "/ws/d/a.ts"
  /\ ("/ws/d/a.ts" = filePath (mkFileItem "d" CollapsedState "/ws/d" false)
      \/ (In "/ws/d/a.ts"
            (List.map fst (reachedBy roundTripConfig folderOnDisk
                             (mkFileItem "d" CollapsedState "/ws/d" false)))
          /\ exists t, "/ws/d/a.ts"
                       = filePath (mkFileItem "d" CollapsedState "/ws/d" false)
                         +:+ "/" +:+ t)).
Proof.
  assert (H : checkedAt (toggleCheck roundTripConfig folderView alwaysCancel
                           folderOnDisk 0%nat folderKnown) "/ws/d/a.ts"
              <> checkedAt folderKnown "/ws/d/a.ts")
    by (vm_compute; discriminate).
  split; [exact H|].
  apply (toggle_stays_in_subtree roundTripConfig folderView alwaysCancel folderOnDisk
           0%nat (mkFileItem "d" CollapsedState "/ws/d" false) folderKnown
           "/ws/d/a.ts");
    [apply itemsKeyedb_sound; vm_compute; reflexivity|reflexivity|exact H].
Defined.

(** X16: unchecking is never blocked. Toggling a node that is checked
    unchecks it, whatever its size and whatever the user would answer; for
    a folder every entry the cascade reaches ends unchecked as well; and the
    recompute is invalidated. *)
Theorem unchecking_always_succeeds
    (cfg : Config) (view : FsView) (confirm : string -> bool) (ds : DirState)
    (r : ref) (item : FileItem) (st : Provider) :
  itemsKeyed st ->
  heap st !! r = Some item ->
  isChecked item = true ->
  let st' := toggleCheck cfg view confirm ds r st in
  checkedAt st' (filePath item) = Some false
  /\ (forall p, In p (List.map fst (reachedBy cfg ds item)) ->
        checkedAt st' p = Some false)
  /\ ver st' = (ver st + 1)%N
  /\ pendingTimers st' <> [].
Proof.
  intros K Hitem Hchecked st'. subst st'.
  unfold toggleCheck. rewrite Hitem, Hchecked. simpl.
  set (st1 := set_heap (alter (updateCheckState false) r (heap st)) st).
  assert (K1 : itemsKeyed st1) by now apply itemsKeyed_alter.
  assert (Hr1 : heap st1 !! r = Some (updateCheckState false item)).
  { subst st1. simpl. now rewrite list_lookup_alter_eq, Hitem. }
  rewrite contextValue_folder. unfold reachedBy.
  destruct (collapsibleState item) eqn:Hkind.
  - rewrite bool_decide_eq_true_2 by reflexivity.
    destruct (proj1 (toggleCascade_post cfg view confirm false) ds (filePath item)
                st1 K1) as (K2 & A & B & C).
    pose proof (proj1 (toggleCascade_selectionOnly cfg view confirm) ds
                  (filePath item) false st1) as (Hv & _).
    specialize (A r _ Hr1 (walk_not_self cfg ds (filePath item))).
    destruct (toggleDirectoryChildren cfg view confirm ds (filePath item) false st1)
      as [st2 cc].
    simpl in *. split; [|split; [|split]].
    + unfold checkedAt. simpl. rewrite lookup_insert_eq. simpl. now rewrite A.
    + intros p Hin. destruct (C p Hin) as (k & _ & Hc).
      unfold checkedAt in *. simpl.
      rewrite lookup_insert_ne
        by (intros Heq; rewrite <- Heq in Hin; now apply walk_not_self in Hin).
      exact Hc.
    + rewrite Hv. reflexivity.
    + intros Habs. apply app_eq_nil in Habs. destruct Habs as [_ Habs]. discriminate.
  - rewrite bool_decide_eq_false_2 by discriminate. simpl.
    split; [|split; [|split]].
    + unfold checkedAt. simpl. rewrite lookup_insert_eq. simpl.
      now rewrite list_lookup_alter_eq, Hitem.
    + intros p [].
    + reflexivity.
    + intros Habs. apply app_eq_nil in Habs. destruct Habs as [_ Habs]. discriminate.
Qed.

Lemma unchecking_always_succeeds_witness :
  checkedAt (toggleCheck roundTripConfig folderView alwaysCancel (Listing srcListing)
               0%nat srcKnown) "/ws/src" = Some false
  /\ (forall p,
        In p (List.map fst
                (reachedBy roundTripConfig (Listing srcListing)
                   (mkFileItem "src" CollapsedState "/ws/src" true))) ->
        checkedAt (toggleCheck roundTripConfig folderView alwaysCancel
                     (Listing srcListing) 0%nat srcKnown) p = Some false)
  /\ ver (toggleCheck roundTripConfig folderView alwaysCancel (Listing srcListing)
            0%nat srcKnown) = (ver srcKnown + 1)%N
  /\ pendingTimers (toggleCheck roundTripConfig folderView alwaysCancel
                      (Listing srcListing) 0%nat srcKnown) <> [].
Proof.
  apply (unchecking_always_succeeds roundTripConfig folderView alwaysCancel
           (Listing srcListing) 0%nat
           (mkFileItem "src" CollapsedState "/ws/src" true) srcKnown);
    [apply itemsKeyedb_sound; vm_compute; reflexivity|reflexivity|reflexivity].
Defined.

Lemma alter_same (h : list FileItem) (r : ref) (item : FileItem) b :
  h !! r = Some item -> isChecked item = b ->
  alter (updateCheckState b) r h = h.
Proof.
  intros Hr Hb. apply list_eq. intros i.
  destruct (decide (r = i)) as [<-|Hne].
  - rewrite list_lookup_alter_eq, Hr. simpl. f_equal.
    destruct item. simpl in *. now subst.
  - now rewrite list_lookup_alter_ne.
Qed.

(** X17: a declined size warning changes nothing. When the user does not
    confirm the warning for an unchecked file (the node being the map's
    object for its path), [toggleCheck] leaves the provider exactly as it
    was: nothing is checked, the version is not bumped and no timer is
    armed. *)
Theorem declined_warning_is_a_no_op
    (cfg : Config) (view : FsView) (confirm : string -> bool) (ds : DirState)
    (r : ref) (item : FileItem) (st : Provider) :
  heap st !! r = Some item ->
  items st !! filePath item = Some r ->
  collapsibleState item = NoneState ->
  isChecked item = false ->
  checkFileSize cfg view confirm (filePath item) = true ->
  toggleCheck cfg view confirm ds r st = st.
Proof.
  intros Hitem Hmap Hkind Hunchecked Hgate.
  unfold toggleCheck. rewrite Hitem, Hunchecked, contextValue_file,
    contextValue_folder, Hkind, Hgate. simpl.
  rewrite (alter_same (heap st) r item false Hitem Hunchecked).
  rewrite insert_id by exact Hmap. now destruct st.
Qed.

Lemma declined_warning_is_a_no_op_witness :
  toggleCheck roundTripConfig folderView alwaysCancel Missing 1%nat
    (mkProvider
       [mkFileItem "d" CollapsedState "/ws/d" false;
        mkFileItem "big.bin" NoneState "/ws/d/big.bin" false]
       (<["/ws/d" := 0%nat]> {["/ws/d/big.bin" := 1%nat]})
       0 false 0 None [] 0 [] [])
  = mkProvider
       [mkFileItem "d" CollapsedState "/ws/d" false;
        mkFileItem "big.bin" NoneState "/ws/d/big.bin" false]
       (<["/ws/d" := 0%nat]> {["/ws/d/big.bin" := 1%nat]})
       0 false 0 None [] 0 [] [].
Proof.
  apply (declined_warning_is_a_no_op roundTripConfig folderView alwaysCancel Missing
           1%nat (mkFileItem "big.bin" NoneState "/ws/d/big.bin" false));
    reflexivity.
Defined.

Lemma itemValues_toggleAll b st it :
  In it (itemValues
           (set_heap (foldr (fun (pr : string * ref) h =>
                               alter (updateCheckState b) pr.2 h)
                        (heap st) (map_to_list (items st))) st)) ->
  isChecked it = b.
Proof.
  unfold itemValues. simpl. intros Hin.
  apply list_elem_of_In, list_elem_of_omap in Hin.
  destruct Hin as ([p r] & Hpr & Hr). simpl in Hr.
  assert (Hin : r ∈ (map_to_list (items st)).*2).
  { apply list_elem_of_fmap. exists (p, r). split; [reflexivity|exact Hpr]. }
  rewrite (proj1 (toggleAll_heap_lookup b r (heap st) _) Hin) in Hr.
  destruct (heap st !! r); [|discriminate]. now injection Hr as <-.
Qed.

(** X18: select all. When at least one known node is unchecked,
    [toggleAllFiles] checks every known node (no size warning is shown for
    any of them), keeps the map's entries, fires no event and leaves the
    published total alone, but bumps the version and arms the recompute;
    afterwards every node of the map is checked, so the next
    [toggleAllFiles] clears. *)
Theorem select_all_checks_everything
    (persistState : bool) (view : FsView) (st : Provider) :
  forallb isChecked (itemValues st) = false ->
  let st' := (toggleAllFiles persistState view st).1 in
  items st' = items st
  /\ (forall p b, checkedAt st p = Some b -> checkedAt st' p = Some true)
  /\ fired st' = fired st
  /\ totalTokenCount st' = totalTokenCount st
  /\ isCountingTokens st' = isCountingTokens st
  /\ ver st' = (ver st + 1)%N
  /\ pendingTimers st' <> []
  /\ forallb isChecked (itemValues st') = true.
Proof.
  intros Hsome st'. subst st'. unfold toggleAllFiles. cbn [fst]. rewrite Hsome. simpl.
  split; [reflexivity|]. split; [|split; [reflexivity|]].
  - intros p b Hp. unfold checkedAt in *. simpl.
    destruct (items st !! p) as [r|] eqn:Hr; [|discriminate]. simpl in *.
    assert (Hin : r ∈ (map_to_list (items st)).*2).
    { apply list_elem_of_fmap. exists (p, r). split; [reflexivity|].
      now apply elem_of_map_to_list. }
    rewrite (proj1 (toggleAll_heap_lookup true r (heap st) _) Hin).
    destruct (heap st !! r); [reflexivity|discriminate].
  - split; [reflexivity|]. split; [reflexivity|]. split; [reflexivity|]. split.
    + intros Habs. apply app_eq_nil in Habs. destruct Habs as [_ Habs]. discriminate.
    + apply forallb_forall. intros it Hit.
      apply (itemValues_toggleAll true st it). exact Hit.
Qed.

Lemma select_all_checks_everything_witness :
  forallb isChecked (itemValues mixedFolder) = false
  /\ checkedAt (toggleAllFiles true mixedView mixedFolder).1 "/ws/d/b.ts"
     = Some true.
Proof.
  split; [vm_compute; reflexivity|].
  apply (proj1 (proj2 (select_all_checks_everything true mixedView mixedFolder
                         eq_refl))
           "/ws/d/b.ts" false).
  vm_compute. reflexivity.
Defined.

(** *** Scanning a directory *)

(** X19: what [getChildren] returns. For a directory that can be listed,
    the array holds one new object per listed entry that no pattern
    excludes, in listing order, each labelled with the entry's name and
    carrying the entry's path; for a path that is missing, not a directory
    or unreadable it is empty, the heap is untouched and the map loses at
    most the element's own entry (only when the path is gone). *)
Theorem getChildren_returns_listed_nodes
    (cfg : Config) (element : option ref) (ds : DirState) (st : Provider) :
  let res := getChildren cfg element ds st in
  match ds with
  | Listing entries =>
      Forall2
        (fun r p =>
           heap st !! r = None
           /\ exists o, heap res.1 !! r = Some o
                        /\ filePath o = p
                        /\ p = Path.join (scannedPath cfg element st) (label o)
                        /\ In (label o) (entryNames entries)
                        /\ excluded cfg (label o) = false)
        res.2 (listedPaths cfg (scannedPath cfg element st) entries)
  | ReadFails e =>
      res.2 = [] /\ heap res.1 = heap st
      /\ (code e <> Some "ENOENT" -> res.1 = st)
      /\ forall p, p <> scannedPath cfg element st ->
           items res.1 !! p = items st !! p
  | _ =>
      res.2 = [] /\ heap res.1 = heap st
      /\ (forall p, p <> scannedPath cfg element st ->
            items res.1 !! p = items st !! p)
      /\ (forall r o, element = Some r -> heap st !! r = Some o ->
            items res.1 !! filePath o = None)
  end.
Proof.
  intros res. subst res. unfold getChildren, scannedPath.
  assert (Hprune : forall o : option string,
    let st' := match o with
               | Some p => set_items (delete p (items st)) st
               | None => st
               end in
    heap st' = heap st
    /\ (forall p, p <> default (workspaceRoot cfg) o ->
          items st' !! p = items st !! p)
    /\ (forall q, o = Some q -> items st' !! q = None)).
  { intros [q|]; simpl.
    - split; [reflexivity|]. split.
      + intros p Hp. now rewrite lookup_delete_ne by congruence.
      + intros q' Hq. injection Hq as <-. apply lookup_delete_eq.
    - split; [reflexivity|]. split; [reflexivity|]. discriminate. }
  destruct ds as [| |e|entries]; cbv beta iota zeta.
  - destruct (Hprune (match element with
                      | Some r => filePath <$> heap st !! r
                      | None => None
                      end)) as (Hh & Hi & Hd).
    simpl. split; [reflexivity|]. split; [exact Hh|]. split; [exact Hi|].
    intros r o -> Ho. apply Hd. now rewrite Ho.
  - destruct (Hprune (match element with
                      | Some r => filePath <$> heap st !! r
                      | None => None
                      end)) as (Hh & Hi & Hd).
    simpl. split; [reflexivity|]. split; [exact Hh|]. split; [exact Hi|].
    intros r o -> Ho. apply Hd. now rewrite Ho.
  - destruct (Hprune (match element with
                      | Some r => filePath <$> heap st !! r
                      | None => None
                      end)) as (Hh & Hi & Hd).
    case_bool_decide as Hcode; simpl.
    + split; [reflexivity|]. split; [exact Hh|]. split; [congruence|exact Hi].
    + split; [reflexivity|]. split; [reflexivity|]. split; [reflexivity|].
      reflexivity.
  - match goal with
    | |- context [scanEntries cfg element ?d entries [] st] =>
        destruct (scanEntries_children cfg element d entries [] st)
          as (added & Heq & Hall)
    end.
    rewrite Heq. simpl. eapply Forall2_impl; [exact Hall|].
    intros r p (Hr & o & Ho & Hp & Hj & Hin & He). split.
    + apply lookup_ge_None. lia.
    + exists o. auto 10.
Qed.

Lemma scanEntries_nothing_new cfg element dirPath es : forall children st,
  elementValid element st ->
  parentChecked element st
  && existsb (fun p => bool_decide (items st !! p = None))
       (listedPaths cfg dirPath es) = false ->
  selectionOnly st (scanEntries cfg element dirPath es children st).1.
Proof.
  induction es as [|name kind sub rest IH]; intros children st Hvalid Hnone; simpl.
  - apply selectionOnly_refl.
  - simpl in Hnone. destruct (excluded cfg name); [now apply IH|].
    simpl in Hnone.
    destruct (items st !! Path.join dirPath name) as [old|] eqn:Hknown.
    + rewrite bool_decide_eq_false_2 in Hnone by discriminate. simpl in Hnone.
      match goal with
      | |- context [scanEntries _ _ _ rest ?c ?s] =>
          assert (Hsel : selectionOnly st s) by (repeat split);
          eapply selectionOnly_trans; [exact Hsel|apply IH]
      end.
      * now apply parentChecked_alloc.
      * rewrite (proj1 (parentChecked_alloc element st _ _ Hvalid)).
        destruct (parentChecked element st); [|reflexivity]. simpl in *.
        apply not_true_is_false. intros Hex. apply existsb_exists in Hex
          as (p & Hp & Hpnone).
        assert (Hex' : existsb (fun p => bool_decide (items st !! p = None))
                         (listedPaths cfg dirPath rest) = true).
        { apply existsb_exists. exists p. split; [exact Hp|].
          apply bool_decide_eq_true in Hpnone. apply bool_decide_eq_true.
          simpl in Hpnone.
          destruct (decide (p = Path.join dirPath name)) as [->|Hne].
          - rewrite lookup_insert_eq in Hpnone. discriminate.
          - now rewrite lookup_insert_ne in Hpnone by congruence. }
        congruence.
    + rewrite bool_decide_eq_true_2 in Hnone by reflexivity.
      rewrite orb_true_l, andb_true_r in Hnone. rewrite Hnone.
      match goal with
      | |- context [scanEntries _ _ _ rest ?c ?s] =>
          assert (Hsel : selectionOnly st s) by (repeat split);
          eapply selectionOnly_trans; [exact Hsel|apply IH]
      end.
      * now apply parentChecked_alloc.
      * rewrite (proj1 (parentChecked_alloc element st _ _ Hvalid)).
        now rewrite Hnone.
Qed.

Lemma scanEntries_something_new cfg element dirPath es : forall children st,
  elementValid element st ->
  parentChecked element st = true ->
  existsb (fun p => bool_decide (items st !! p = None))
    (listedPaths cfg dirPath es) = true ->
  (ver st < ver (scanEntries cfg element dirPath es children st).1)%N
  /\ pendingTimers (scanEntries cfg element dirPath es children st).1 <> [].
Proof.
  induction es as [|name kind sub rest IH]; intros children st Hvalid Hpc Hnew; simpl.
  - discriminate.
  - simpl in Hnew. destruct (excluded cfg name); [now apply IH|].
    simpl in Hnew.
    destruct (items st !! Path.join dirPath name) as [old|] eqn:Hknown.
    + rewrite bool_decide_eq_false_2 in Hnew by discriminate. simpl in Hnew.
      match goal with
      | |- context [scanEntries _ _ _ rest ?c ?s] =>
          destruct (IH c s) as (Hv & Hp)
      end.
      * now apply parentChecked_alloc.
      * now rewrite (proj1 (parentChecked_alloc element st _ _ Hvalid)).
      * apply existsb_exists in Hnew as (p & Hp & Hpnone).
        apply existsb_exists. exists p. split; [exact Hp|].
        apply bool_decide_eq_true in Hpnone. apply bool_decide_eq_true. simpl.
        rewrite lookup_insert_ne; [exact Hpnone|]. congruence.
      * split; [exact Hv|exact Hp].
    + rewrite Hpc.
      match goal with
      | |- context [scanEntries _ _ _ rest ?c ?s] =>
          destruct (scanEntries_quiet cfg element dirPath rest c s)
            as (_ & _ & _ & _ & (Hv & _ & _ & Hp))
      end.
      split.
      * eapply N.lt_le_trans; [|exact Hv]. simpl. lia.
      * apply Hp. simpl. intros Habs. apply app_eq_nil in Habs.
        destruct Habs as [_ Habs]. discriminate.
Qed.

(** X20: a scan triggers a recompute only for what it discovers. When
    [getChildren] lists a directory, the version is bumped and a timer armed
    exactly when it finds an entry it has no node for below a checked
    parent; otherwise (the root, an unchecked folder, a folder whose entries
    are all known) it changes nothing but the heap and the map. *)
Theorem scan_recomputes_only_for_discoveries
    (cfg : Config) (element : option ref) (entries : Dirents) (st : Provider) :
  elementValid element st ->
  let st' := (getChildren cfg element (Listing entries) st).1 in
  if discoversChecked cfg element entries st
  then (ver st < ver st')%N /\ pendingTimers st' <> []
  else selectionOnly st st'.
Proof.
  intros Hvalid st'. subst st'. unfold discoversChecked, scannedPath, getChildren.
  cbv beta iota zeta.
  match goal with
  | |- context [listedPaths cfg ?d entries] => set (dirPath := d)
  end.
  destruct (parentChecked element st
            && existsb (fun p => bool_decide (items st !! p = None))
                 (listedPaths cfg dirPath entries)) eqn:Hd.
  - apply andb_true_iff in Hd as [Hpc Hnew].
    now apply scanEntries_something_new.
  - now apply scanEntries_nothing_new.
Qed.

Lemma scan_recomputes_only_for_discoveries_witness :
  (ver srcKnown
   < ver (getChildren roundTripConfig (Some 0%nat) (Listing srcListing) srcKnown).1)%N
  /\ pendingTimers
       (getChildren roundTripConfig (Some 0%nat) (Listing srcListing) srcKnown).1
     <> [].
Proof.
  apply (scan_recomputes_only_for_discoveries roundTripConfig (Some 0%nat)
           srcListing srcKnown).
  vm_compute. eauto.
Defined.

(** *** The final sort of [getChildren] *)

Lemma insertBy_Permutation {A : Type} (cmp : A -> A -> Z) (x : A) (l : list A) :
  Permutation (insertBy cmp x l) (x :: l).
Proof.
  induction l as [|y l IH]; simpl; [reflexivity|].
  destruct (cmp x y <=? 0)%Z; [reflexivity|].
  rewrite IH. apply perm_swap.
Qed.

Lemma sortBy_Permutation {A : Type} (cmp : A -> A -> Z) (l : list A) :
  Permutation (sortBy cmp l) l.
Proof.
  induction l as [|x l IH]; simpl; [reflexivity|].
  unfold sortBy in *. simpl. rewrite insertBy_Permutation. now rewrite IH.
Qed.

Section SortedBy.
Context {A : Type}.
Variable cmp : A -> A -> Z.
Variable P : A -> Prop.
Hypothesis cmp_total : forall x y, P x -> P y -> (cmp x y <= 0 \/ cmp y x <= 0)%Z.
Hypothesis cmp_trans : forall x y z, P x -> P y -> P z ->
  (cmp x y <= 0)%Z -> (cmp y z <= 0)%Z -> (cmp x z <= 0)%Z.

Lemma insertBy_sorted (x : A) (l : list A) :
  P x -> Forall P l ->
  StronglySorted (fun a b => (cmp a b <= 0)%Z) l ->
  StronglySorted (fun a b => (cmp a b <= 0)%Z) (insertBy cmp x l).
Proof.
  intros Hx Hl Hs. induction Hs as [|y l Hs IH Hy]; simpl.
  - repeat constructor.
  - apply Forall_cons in Hl as [HPy Hl].
    destruct (cmp x y <=? 0)%Z eqn:Hxy.
    + apply Z.leb_le in Hxy. constructor; [now constructor|].
      constructor; [exact Hxy|].
      rewrite Forall_forall in Hy, Hl |- *. intros z Hz.
      apply (cmp_trans x y z); auto.
    + apply Z.leb_gt in Hxy. constructor; [now apply IH|].
      assert (Hyx : (cmp y x <= 0)%Z).
      { destruct (cmp_total x y Hx HPy); [lia|assumption]. }
      rewrite Forall_forall in Hy |- *. intros z Hz.
      rewrite insertBy_Permutation in Hz.
      apply elem_of_cons in Hz as [->|Hz]; [exact Hyx|]. now apply Hy.
Qed.

Lemma sortBy_sorted (l : list A) :
  Forall P l -> StronglySorted (fun a b => (cmp a b <= 0)%Z) (sortBy cmp l).
Proof.
  induction l as [|x l IH]; intros Hl; [constructor|].
  apply Forall_cons in Hl as [Hx Hl]. unfold sortBy in *. simpl.
  apply insertBy_sorted; [exact Hx| |now apply IH].
  rewrite Forall_forall in Hl |- *. intros z Hz. apply Hl.
  now rewrite <- (sortBy_Permutation cmp l).
Qed.

End SortedBy.

Lemma StronglySorted_lookup {A : Type} (R : A -> A -> Prop) (l : list A) :
  StronglySorted R l ->
  forall i j x y, (i < j)%nat -> l !! i = Some x -> l !! j = Some y -> R x y.
Proof.
  induction 1 as [|a l Hs IH Ha]; intros i j x y Hij Hi Hj.
  - now rewrite lookup_nil in Hi.
  - destruct j as [|j]; [lia|]. simpl in Hj. destruct i as [|i].
    + simpl in Hi. injection Hi as <-. rewrite Forall_forall in Ha.
      apply Ha. eapply list_elem_of_lookup_2, Hj.
    + simpl in Hi. apply (IH i j); [lia|assumption|assumption].
Qed.

Section SortingFacts.
Variable localeCompare : string -> string -> Z.
Hypothesis localeCompare_sign :
  forall a b, (localeCompare a b < 0 <-> 0 < localeCompare b a)%Z.
Hypothesis localeCompare_trans :
  forall a b c, (localeCompare a b <= 0)%Z -> (localeCompare b c <= 0)%Z ->
                (localeCompare a c <= 0)%Z.

Lemma compareChildren_total a b :
  (compareChildren localeCompare a b <= 0
   \/ compareChildren localeCompare b a <= 0)%Z.
Proof.
  unfold compareChildren.
  destruct (collapsibleState a), (collapsibleState b); simpl; try lia.
  - destruct (Z_le_gt_dec (localeCompare (label a) (label b)) 0); [now left|].
    right. pose proof (localeCompare_sign (label b) (label a)). lia.
  - destruct (Z_le_gt_dec (localeCompare (label a) (label b)) 0); [now left|].
    right. pose proof (localeCompare_sign (label b) (label a)). lia.
Qed.

Lemma compareChildren_trans a b c :
  (compareChildren localeCompare a b <= 0)%Z ->
  (compareChildren localeCompare b c <= 0)%Z ->
  (compareChildren localeCompare a c <= 0)%Z.
Proof.
  unfold compareChildren.
  destruct (collapsibleState a), (collapsibleState b), (collapsibleState c);
    simpl; try lia; apply localeCompare_trans.
Qed.

Lemma compareChildren_folders_first a b :
  (compareChildren localeCompare a b <= 0)%Z ->
  collapsibleState a = NoneState -> collapsibleState b = NoneState.
Proof.
  unfold compareChildren. intros Hle Ha. rewrite Ha in Hle.
  destruct (collapsibleState b); simpl in Hle; [lia|reflexivity].
Qed.

Lemma sortRefs_sorted (h : list FileItem) (l : list ref) :
  Forall (fun r => is_Some (h !! r)) l ->
  StronglySorted (fun r1 r2 => (compareRefs localeCompare h r1 r2 <= 0)%Z)
    (sortBy (compareRefs localeCompare h) l).
Proof.
  apply (sortBy_sorted (compareRefs localeCompare h)
           (fun r => is_Some (h !! r))).
  - intros x y [a Ha] [b Hb]. unfold compareRefs. rewrite Ha, Hb.
    apply compareChildren_total.
  - intros x y z [a Ha] [b Hb] [c Hc]. unfold compareRefs. rewrite Ha, Hb, Hc.
    apply compareChildren_trans.
Qed.

(** X21: the array [getChildren] returns is sorted. For a
    [localeCompare] that is a consistent comparator, the returned array is
    a rearrangement of the nodes built for the listed entries in which every
    node compares lower than or equal to every later one; in particular no
    file comes before a folder. The sort leaves the provider untouched. *)
Theorem children_are_sorted_folders_first
    (cfg : Config) (element : option ref) (ds : DirState) (st : Provider) :
  let res := getChildrenSorted localeCompare cfg element ds st in
  res.1 = (getChildren cfg element ds st).1
  /\ Permutation res.2 (getChildren cfg element ds st).2
  /\ forall i j ri rj a b,
       (i < j)%nat -> res.2 !! i = Some ri -> res.2 !! j = Some rj ->
       heap res.1 !! ri = Some a -> heap res.1 !! rj = Some b ->
       (compareChildren localeCompare a b <= 0)%Z
       /\ (collapsibleState a = NoneState -> collapsibleState b = NoneState).
Proof.
  intros res. subst res. unfold getChildrenSorted.
  assert (Hlive : Forall (fun r => is_Some (heap (getChildren cfg element ds st).1 !! r))
                    (getChildren cfg element ds st).2).
  { unfold getChildren. destruct ds as [| |e|entries]; cbv beta iota zeta;
      try (simpl; constructor).
    { case_bool_decide; simpl; constructor. }
    match goal with
    | |- context [scanEntries cfg element ?d entries [] st] =>
        destruct (scanEntries_children cfg element d entries [] st)
          as (added & Heq & Hall)
    end.
    rewrite Heq. simpl. rewrite Forall_forall. intros r Hr.
    apply list_elem_of_In in Hr.
    destruct (Forall2_In_l _ _ _ _ Hall Hr) as (p & _ & _ & o & Ho & _).
    now exists o. }
  destruct (getChildren cfg element ds st) as [st' children]. simpl in *.
  split; [reflexivity|]. split; [apply sortBy_Permutation|].
  intros i j ri rj a b Hij Hi Hj Ha Hb.
  pose proof (StronglySorted_lookup _ _ (sortRefs_sorted (heap st') children Hlive)
                i j ri rj Hij Hi Hj) as Hle.
  unfold compareRefs in Hle. rewrite Ha, Hb in Hle.
  split; [exact Hle|]. now apply compareChildren_folders_first.
Qed.

End SortingFacts.

Lemma children_are_sorted_folders_first_witness :
  Permutation
    (getChildrenSorted byLength roundTripConfig (Some 0%nat) (Listing srcListing)
       srcKnown).2
    (getChildren roundTripConfig (Some 0%nat) (Listing srcListing) srcKnown).2.
Proof.
  apply (children_are_sorted_folders_first byLength).
  - intros a b. unfold byLength. lia.
  - intros a b c. unfold byLength. lia.
Defined.

(** *** What a run reads *)

Section RunReads.
Variable encodeLength : string -> Result N.

Local Abbreviation step := (step encodeLength).
Local Abbreviation exec := (exec encodeLength).

Lemma loopFrom_reads view id run rest : forall st,
  stale run st = false ->
  reads (loopFrom view id run rest st).1
  ++ pendingReads view (loopFrom view id run rest st).2
  = reads st ++ List.filter (existsSync view) rest.
Proof.
  induction rest as [|f rest IH]; intros st Hst; simpl.
  - rewrite Hst. unfold finallyBlock, stale in *. simpl. rewrite Hst. reflexivity.
  - rewrite Hst. destruct (existsSync view f) eqn:Hf; simpl.
    + unfold pendingReads. simpl. now rewrite <- app_assoc.
    + apply (IH (set_items (delete f (items st)) st)). exact Hst.
Qed.

Lemma resume_reads view id run st :
  stale run st = false ->
  reads (resume encodeLength view id run st).1
  ++ pendingReads view (resume encodeLength view id run st).2
  = reads st ++ pendingReads view run.
Proof.
  intros Hst. unfold resume, pendingReads at 2.
  destruct (suspended run) as [f rest|rest|] eqn:Hsus.
  - assert (Hcatch : forall e,
      reads (loopFrom view id run rest (catchFileError e f st)).1
      ++ pendingReads view (loopFrom view id run rest (catchFileError e f st)).2
      = reads st ++ List.filter (existsSync view) rest).
    { intros e. rewrite loopFrom_reads.
      - unfold catchFileError. now case_bool_decide.
      - now rewrite (stale_frame run st _ (catchFileError_ver e f st)). }
    destruct (readFile view f) as [content|e]; [|apply Hcatch].
    destruct (encodeLength content) as [tokens|e]; [|apply Hcatch].
    simpl. destruct (_ =? 0)%N; simpl.
    + reflexivity.
    + apply loopFrom_reads. exact Hst.
  - rewrite Hst. apply loopFrom_reads. exact Hst.
  - simpl. unfold pendingReads. now rewrite Hsus.
Qed.

Lemma step_uncontested_reads c F view R s e :
  currentRun c F s ->
  pendingTimers (prov s) = [] ->
  readsInv c view R s ->
  resumeWith c view e ->
  ver (prov (step s e)) = ver (prov s) ->
  readsInv c view R (step s e).
Proof.
  intros Hcur Hpend (rc & Hc & HR) Hwith Hver.
  destruct e as [delay|h v|j v|persist pview|cfg v confirm ds r|cfg element ds].
  - simpl in Hver. lia.
  - simpl. rewrite Hpend. rewrite bool_decide_eq_false_2 by apply not_elem_of_nil.
    exists rc. auto.
  - destruct Hcur as (Hothers & rc' & Hc' & Hv & _).
    assert (rc' = rc) as -> by congruence.
    unfold readsInv. simpl in *.
    destruct (runs s !! j) as [run|] eqn:Hrun; [|exists rc; auto].
    destruct (decide (j = c)) as [->|Hne].
    + assert (run = rc) as -> by congruence. rewrite (Hwith eq_refl) in *.
      pose proof (resume_reads view c rc (prov s) (stale_eq _ _ Hv)) as Hr.
      destruct (resume encodeLength view c rc (prov s)) as [st' rc'].
      simpl in *. exists rc'. split; [|congruence].
      apply list_lookup_insert_eq. eapply lookup_lt_Some, Hc.
    + pose proof (resume_stale encodeLength v j run (prov s)
                    (stale_lt _ _ (Hothers j run Hrun Hne)))
        as (_ & _ & _ & _ & Hr & _).
      destruct (resume encodeLength v j run (prov s)) as [st' run'].
      simpl in *. exists rc. split; [|congruence].
      now rewrite list_lookup_insert_ne by congruence.
  - destruct (toggleAllFiles_sched persist pview (prov s)) as (_ & Hlt & _).
    with_strategy opaque [toggleAllFiles] simpl in Hver. lia.
  - destruct (toggleCheck_quiet cfg v confirm ds r (prov s))
      as (_ & _ & _ & Hr & _).
    exists rc. split; [exact Hc|].
    change (reads (toggleCheck cfg v confirm ds r (prov s))
            ++ pendingReads view rc = R).
    now rewrite Hr.
  - destruct (getChildren_quiet cfg element ds (prov s))
      as (_ & _ & _ & Hr & _).
    exists rc. split; [exact Hc|].
    change (reads (getChildren cfg element ds (prov s)).1
            ++ pendingReads view rc = R).
    now rewrite Hr.
Qed.

Lemma exec_uncontested_reads c F view T R evs : forall s,
  currentRun c F s ->
  pendingTimers (prov s) = [] ->
  sumInv encodeLength c view T s ->
  readsInv c view R s ->
  Forall (resumeWith c view) evs ->
  ver (prov (exec evs s)) = ver (prov s) ->
  readsInv c view R (exec evs s).
Proof.
  induction evs as [|e evs IH]; intros s Hcur Hpend Hsum Hreads Hall Hver; [auto|].
  rewrite exec_cons in *. inversion Hall as [|e' evs' He Hall']; subst.
  assert (Hv1 : ver (prov (step s e)) = ver (prov s)).
  { pose proof (exec_ver_mono encodeLength evs (step s e)).
    destruct (step_keeps encodeLength s e) as (Hle & _). lia. }
  destruct (step_uncontested encodeLength c F view T s e Hcur Hpend Hsum He Hv1)
    as (H1 & H2 & H3).
  apply IH; try assumption.
  - now apply (step_uncontested_reads c F view R s e).
  - congruence.
Qed.

(** X22: a run reads each checked file once, in order. When the timer
    starts a run and the run is resumed until it returns without being
    superseded, the [readFile] calls it has issued are: the first file of
    the list [getCheckedFiles] gave it, then those of the others that still
    existed when their turn came, in the order of the list; nothing is read
    twice, and no other file is read. *)
Theorem run_reads_each_checked_file_once
    (s : System) (h : nat) (view0 view : FsView) :
  schedInv s ->
  h ∈ pendingTimers (prov s) ->
  let c := length (runs s) in
  forall evs rc,
    Forall (resumeWith c view) evs ->
    ver (prov (exec (ETimer h view0 :: evs) s)) = ver (prov s) ->
    runs (exec (ETimer h view0 :: evs) s) !! c = Some rc ->
    suspended rc = Returned ->
    reads (prov (exec (ETimer h view0 :: evs) s))
    = reads (prov s)
      ++ match getCheckedFiles view0 (prov s) with
         | [] => []
         | f :: rest => f :: List.filter (existsSync view) rest
         end.
Proof.
  intros Hinv Hin c evs rc Hall Hv Hc Hret.
  destruct (timer_step_spec encodeLength s h view0 Hinv Hin)
    as (Hcur & Hpend & Hver & _).
  fold c in Hcur.
  set (s1 := step s (ETimer h view0)) in *.
  assert (Hreads1 : readsInv c view
            (reads (prov s)
             ++ match getCheckedFiles view0 (prov s) with
                | [] => []
                | f :: rest => f :: List.filter (existsSync view) rest
                end) s1).
  { subst s1 c. unfold readsInv. simpl.
    rewrite bool_decide_eq_true_2 by exact Hin.
    unfold updateTokenCount.
    change (getCheckedFiles view0 (set_timers _ _ _ (prov s)))
      with (getCheckedFiles view0 (prov s)).
    destruct (getCheckedFiles view0 (prov s)) as [|f rest] eqn:Hfiles.
    - unfold stale. simpl. rewrite N.eqb_refl. simpl.
      eexists. split; [apply list_lookup_middle; reflexivity|].
      unfold pendingReads. simpl. reflexivity.
    - cbn [loopFrom]. unfold stale. simpl. rewrite N.eqb_refl. simpl.
      assert (Hf : existsSync view0 f = true).
      { apply (getCheckedFiles_exist view0 (prov s)). rewrite Hfiles. now left. }
      rewrite Hf. simpl.
      eexists. split; [apply list_lookup_middle; reflexivity|].
      unfold pendingReads. simpl. now rewrite <- app_assoc. }
  assert (Hsum1 : exists T, sumInv encodeLength c view T s1).
  { destruct Hcur as (_ & rc1 & Hc1 & _). eexists. exists rc1. eauto. }
  destruct Hsum1 as (T & Hsum1).
  rewrite exec_cons in *. fold s1 in Hv, Hc |- *.
  destruct (exec_uncontested_reads c _ view T _ evs s1 Hcur Hpend Hsum1 Hreads1 Hall)
    as (rc' & Hc' & HR); [congruence|].
  assert (rc' = rc) as -> by congruence.
  unfold pendingReads in HR. rewrite Hret, app_nil_r in HR. exact HR.
Qed.

End RunReads.

Lemma run_reads_each_checked_file_once_witness :
  reads (prov twoFilesCounted)
  = reads (prov twoFilesArmed)
    ++ match getCheckedFiles twoFilesView (prov twoFilesArmed) with
       | [] => []
       | f :: rest => f :: List.filter (existsSync twoFilesView) rest
       end.
Proof.
  apply (run_reads_each_checked_file_once charTokenizer twoFilesArmed 0%nat
           twoFilesView twoFilesView twoFilesArmed_schedInv)
    with (evs := [EResume 0 twoFilesView; EResume 0 twoFilesView])
         (rc := mkRun 1 ["/ws/a.ts"; "/ws/b.ts"] 8 2 Returned).
  - vm_compute. apply list_elem_of_here.
  - repeat constructor.
  - vm_compute. reflexivity.
  - vm_compute. reflexivity.
  - reflexivity.
Defined.

(** ** Prompt history *)

Section PromptHistoryFacts.
Import PromptHistory.

Lemma sameEntry_key trimmed path entry :
  sameEntry trimmed path entry = true <-> entryKey entry = (trimmed, path).
Proof.
  unfold sameEntry, entryKey. rewrite andb_true_iff, !String.eqb_eq.
  split; [intros [-> ->]; reflexivity|intros H; now injection H].
Qed.

Lemma filter_all {A : Type} (f : A -> bool) (l : list A) :
  (forall x, In x l -> f x = true) -> List.filter f l = l.
Proof.
  induction l as [|x l IH]; intros Hall; simpl; [reflexivity|].
  rewrite (Hall x) by now left. f_equal. apply IH. intros y Hy. apply Hall. now right.
Qed.

Lemma remove_first_is_filter trimmed path (history : list PromptHistoryEntry) :
  NoDup (List.map entryKey history) ->
  match findIndex (sameEntry trimmed path) history with
  | Some existingIndex => delete existingIndex history
  | None => history
  end
  = List.filter (fun e => negb (sameEntry trimmed path e)) history.
Proof.
  induction history as [|x l IH]; intros Hnd; simpl; [reflexivity|].
  simpl in Hnd. apply NoDup_cons in Hnd as [Hx Hnd].
  destruct (sameEntry trimmed path x) eqn:Hsame; simpl; rewrite ?Hsame; simpl.
  - symmetry. apply filter_all. intros y Hy. apply negb_true_iff.
    apply not_true_is_false. intros Hy'.
    apply sameEntry_key in Hsame, Hy'. apply Hx.
    apply list_elem_of_In, in_map_iff. exists y. split; [congruence|exact Hy].
  - specialize (IH Hnd).
    destruct (findIndex (sameEntry trimmed path) l) as [i|]; simpl.
    + change (delete (S i) (x :: l)) with (x :: delete i l). f_equal. exact IH.
    + f_equal. exact IH.
Qed.

Lemma keys_filter (f : PromptHistoryEntry -> bool) (l : list PromptHistoryEntry) :
  NoDup (List.map entryKey l) ->
  NoDup (List.map entryKey (List.filter f l))
  /\ forall k, In k (List.map entryKey (List.filter f l)) -> In k (List.map entryKey l).
Proof.
  induction l as [|x l IH]; intros Hnd; simpl.
  - split; [constructor|auto].
  - simpl in Hnd. apply NoDup_cons in Hnd as [Hx Hnd].
    destruct (IH Hnd) as (Hnd' & Hsub).
    destruct (f x); simpl.
    + split.
      * apply NoDup_cons. split; [|exact Hnd'].
        intros Hin. apply Hx. apply list_elem_of_In, Hsub.
        now apply list_elem_of_In.
      * intros k [<-|Hk]; auto.
    + split; [exact Hnd'|]. intros k Hk. right. auto.
Qed.

Lemma addToHistory_shape now type text0 name path store :
  NoDup (List.map entryKey (getHistory type store)) ->
  addToHistory now type text0 name path store
  = if String.eqb (JsText.trim text0) "" then (store, false)
    else (saveHistory type
            (mkEntry (JsText.trim text0) name path now
             :: List.filter (fun e => negb (sameEntry (JsText.trim text0) path e))
                  (getHistory type store))
            store, true).
Proof.
  intros Hnd. unfold addToHistory.
  destruct (String.eqb (JsText.trim text0) ""); [reflexivity|].
  now rewrite (remove_first_is_filter _ _ _ Hnd).
Qed.

Lemma getHistory_saveHistory type type' history store :
  getHistory type' (saveHistory type history store)
  = if bool_decide (type' = type) then history else getHistory type' store.
Proof. now destruct type, type', store. Qed.

Lemma addToHistory_wellKept now type text0 name path store type' :
  wellKept (getHistory Prefix store) -> wellKept (getHistory Suffix store) ->
  wellKept (getHistory type' (addToHistory now type text0 name path store).1).
Proof.
  intros Hp Hs.
  assert (Hall : forall t, wellKept (getHistory t store)) by (intros []; assumption).
  rewrite (addToHistory_shape now type text0 name path store (proj1 (Hall type))).
  destruct (String.eqb (JsText.trim text0) "") eqn:Hempty; [apply Hall|].
  apply String.eqb_neq in Hempty. simpl.
  rewrite getHistory_saveHistory. case_bool_decide; [|apply Hall].
  destruct (Hall type) as (Hnd & Htexts).
  destruct (keys_filter (fun e => negb (sameEntry (JsText.trim text0) path e))
              (getHistory type store) Hnd) as (Hnd' & Hsub).
  split.
  - simpl. apply NoDup_cons. split; [|exact Hnd'].
    intros Hin. apply list_elem_of_In, in_map_iff in Hin as (e & Hkey & He).
    apply filter_In in He as [_ He]. apply negb_true_iff in He.
    assert (sameEntry (JsText.trim text0) path e = true)
      by (apply sameEntry_key; exact Hkey).
    congruence.
  - intros e [<-|He]; simpl.
    + split; [exact Hempty|apply trim_idem].
    + apply filter_In in He as [He _]. now apply Htexts.
Qed.

Lemma call_wellKept store c :
  wellKept (getHistory Prefix store) -> wellKept (getHistory Suffix store) ->
  wellKept (getHistory Prefix (call store c))
  /\ wellKept (getHistory Suffix (call store c)).
Proof.
  intros Hp Hs. destruct c as [now type text0 name path|now1 now2 p s name path];
    unfold call.
  - split; now apply addToHistory_wellKept.
  - unfold savePrompts.
    pose proof (addToHistory_wellKept now1 Prefix p name path store Prefix Hp Hs) as H1.
    pose proof (addToHistory_wellKept now1 Prefix p name path store Suffix Hp Hs) as H2.
    destruct (addToHistory now1 Prefix p name path store) as [store1 b1]. simpl in *.
    pose proof (addToHistory_wellKept now2 Suffix s name path store1 Prefix H1 H2) as H3.
    pose proof (addToHistory_wellKept now2 Suffix s name path store1 Suffix H1 H2) as H4.
    destruct (addToHistory now2 Suffix s name path store1) as [store2 b2]. simpl in *.
    auto.
Qed.

(** X23: the history never holds a duplicate. After any sequence of
    [addToHistory] and [savePrompts] calls on an empty store, no two
    entries of a history share both text and workspace path, and every
    stored text is trimmed and not empty. *)
Theorem history_never_holds_duplicates (calls : list Call) (type : PromptType) :
  let history := getHistory type (foldl call emptyStore calls) in
  NoDup (List.map entryKey history)
  /\ forall e, In e history -> text e <> "" /\ JsText.trim (text e) = text e.
Proof.
  assert (H : forall store,
    wellKept (getHistory Prefix store) -> wellKept (getHistory Suffix store) ->
    wellKept (getHistory Prefix (foldl call store calls))
    /\ wellKept (getHistory Suffix (foldl call store calls))).
  { induction calls as [|c calls IH]; intros store Hp Hs; [auto|].
    simpl. destruct (call_wellKept store c Hp Hs). now apply IH. }
  assert (Hempty : wellKept []) by (split; [constructor|intros e []]).
  destruct (H emptyStore Hempty Hempty) as (Hp & Hs).
  now destruct type.
Qed.

(** X24: [addToHistory] moves to the front. On a history without
    duplicates, a text with content is stored trimmed as the first entry,
    with the time of the call; an older entry with the same text and
    workspace path is dropped, every other entry keeps its place behind it,
    and the other history is untouched. A text that is empty after trimming
    changes nothing and is reported as not saved. *)
Theorem addToHistory_moves_to_front
    (now : Z) (type : PromptType) (text0 name path : string) (store : Store) :
  NoDup (List.map entryKey (getHistory type store)) ->
  let res := addToHistory now type text0 name path store in
  res.2 = negb (String.eqb (JsText.trim text0) "")
  /\ (JsText.trim text0 = "" -> res.1 = store)
  /\ (JsText.trim text0 <> "" ->
      getHistory type res.1
      = mkEntry (JsText.trim text0) name path now
        :: List.filter (fun e => negb (sameEntry (JsText.trim text0) path e))
             (getHistory type store))
  /\ forall type', type' <> type -> getHistory type' res.1 = getHistory type' store.
Proof.
  intros Hnd res. subst res.
  rewrite (addToHistory_shape now type text0 name path store Hnd).
  destruct (String.eqb (JsText.trim text0) "") eqn:Hempty; simpl.
  - apply String.eqb_eq in Hempty. repeat split; congruence.
  - apply String.eqb_neq in Hempty. split; [reflexivity|].
    split; [congruence|]. split.
    + intros _. rewrite getHistory_saveHistory.
      now rewrite bool_decide_eq_true_2.
    + intros type' Hne. rewrite getHistory_saveHistory.
      now rewrite bool_decide_eq_false_2.
Qed.

Lemma addToHistory_moves_to_front_witness :
  getHistory Prefix
    (addToHistory 200 Prefix " fix the bug " "ws" "/ws"
       (mkStore [mkEntry "explain" "ws" "/ws" 150;
                 mkEntry "fix the bug" "ws" "/ws" 100;
                 mkEntry "fix the bug" "other" "/other" 50] [])).1
  = [mkEntry "fix the bug" "ws" "/ws" 200;
     mkEntry "explain" "ws" "/ws" 150;
     mkEntry "fix the bug" "other" "/other" 50].
Proof.
  apply (addToHistory_moves_to_front 200 Prefix " fix the bug " "ws" "/ws"
           (mkStore [mkEntry "explain" "ws" "/ws" 150;
                     mkEntry "fix the bug" "ws" "/ws" 100;
                     mkEntry "fix the bug" "other" "/other" 50] [])).
  - apply NoDup_ListNoDup. repeat constructor; simpl; intuition discriminate.
  - discriminate.
Defined.

Lemma ofWorkspace_app w l1 l2 :
  ofWorkspace w (l1 ++ l2) = ofWorkspace w l1 ++ ofWorkspace w l2.
Proof. unfold ofWorkspace. apply List.filter_app. Qed.

Lemma ofWorkspace_foreign w (es : list PromptHistoryEntry) :
  Forall (fun e => workspacePath e <> w) es -> ofWorkspace w es = [].
Proof.
  induction 1 as [|e es He _ IH]; [reflexivity|].
  unfold ofWorkspace in *. simpl. apply String.eqb_neq in He. now rewrite He.
Qed.

Lemma ofWorkspace_groups_foreign w (by0 : list (string * list PromptHistoryEntry)) :
  (forall k es, In (k, es) by0 ->
     k <> w /\ Forall (fun e => workspacePath e = k) es) ->
  ofWorkspace w (concat (List.map snd by0)) = [].
Proof.
  induction by0 as [|[k es] rest IH]; intros Hall; [reflexivity|].
  simpl. rewrite ofWorkspace_app, IH.
  - rewrite app_nil_r. destruct (Hall k es) as (Hk & Hes); [now left|].
    apply ofWorkspace_foreign. eapply Forall_impl; [exact Hes|].
    simpl. intros e He. congruence.
  - intros k' es' Hin. apply Hall. now right.
Qed.

Lemma groupPush_spec (e : PromptHistoryEntry)
    (by0 : list (string * list PromptHistoryEntry)) :
  grouped by0 ->
  grouped (groupPush (workspacePath e) e by0)
  /\ (forall k, In k (List.map fst (groupPush (workspacePath e) e by0)) ->
        k = workspacePath e \/ In k (List.map fst by0))
  /\ Permutation (concat (List.map snd (groupPush (workspacePath e) e by0)))
       (concat (List.map snd by0) ++ [e])
  /\ forall w,
       ofWorkspace w (concat (List.map snd (groupPush (workspacePath e) e by0)))
       = ofWorkspace w (concat (List.map snd by0)) ++ ofWorkspace w [e].
Proof.
  induction by0 as [|[k es] rest IH]; intros (Hnd & Hmem).
  - simpl. split; [|split; [|split]].
    + split; [repeat constructor; apply not_elem_of_nil|].
      intros k es [Heq|[]]. injection Heq as <- <-. now repeat constructor.
    + intros k [<-|[]]. now left.
    + reflexivity.
    + reflexivity.
  - simpl in Hnd. apply NoDup_cons in Hnd as [Hk Hnd].
    assert (Hrest : grouped rest).
    { split; [exact Hnd|]. intros k' es' Hin. apply (Hmem k' es'). now right. }
    simpl. destruct (String.eqb k (workspacePath e)) eqn:Heq.
    + apply String.eqb_eq in Heq. subst k. simpl.
      split; [|split; [|split]].
      * split; [simpl; apply NoDup_cons; auto|].
        intros k' es' [Hh|Hin].
        -- injection Hh as <- <-. apply Forall_app. split.
           ++ apply (Hmem (workspacePath e) es). now left.
           ++ now repeat constructor.
        -- apply (Hmem k' es'). now right.
      * intros k' [<-|Hin]; [now left|]. right. now right.
      * rewrite <- !app_assoc. apply Permutation_app_head, Permutation_app_comm.
      * intros w. rewrite !ofWorkspace_app.
        destruct (String.eqb (workspacePath e) w) eqn:Hw.
        -- apply String.eqb_eq in Hw. subst w.
           rewrite (ofWorkspace_groups_foreign (workspacePath e) rest).
           ++ rewrite !app_nil_r. f_equal. unfold ofWorkspace. simpl.
              now rewrite String.eqb_refl.
           ++ intros k' es' Hin. split; [|apply (Hmem k' es'); now right].
              intros ->. apply Hk. apply list_elem_of_In, in_map_iff.
              exists (workspacePath e, es'). auto.
        -- assert (Hnone : ofWorkspace w [e] = []).
           { unfold ofWorkspace. simpl. now rewrite Hw. }
           rewrite Hnone, !app_nil_r. reflexivity.
    + apply String.eqb_neq in Heq.
      destruct (IH Hrest) as ((Hnd' & Hmem') & Hkeys & Hperm & Hof). simpl.
      split; [|split; [|split]].
      * split.
        -- simpl. apply NoDup_cons. split; [|exact Hnd'].
           intros Hin. apply list_elem_of_In, Hkeys in Hin as [Hin|Hin];
             [congruence|]. apply Hk. now apply list_elem_of_In.
        -- intros k' es' [Hh|Hin].
           ++ injection Hh as <- <-. apply (Hmem k es). now left.
           ++ now apply Hmem'.
      * intros k' [<-|Hin]; [right; now left|].
        destruct (Hkeys k' Hin) as [->|Hin']; [now left|]. right. now right.
      * rewrite Hperm. now rewrite app_assoc.
      * intros w. rewrite !ofWorkspace_app, Hof. now rewrite app_assoc.
Qed.

Lemma groupByWorkspace_spec (entries : list PromptHistoryEntry) :
  Permutation (concat (List.map snd (groupByWorkspace entries))) entries
  /\ forall w, ofWorkspace w (concat (List.map snd (groupByWorkspace entries)))
             = ofWorkspace w entries.
Proof.
  unfold groupByWorkspace.
  assert (H : forall l by0 done,
    grouped by0 ->
    Permutation (concat (List.map snd by0)) done ->
    (forall w, ofWorkspace w (concat (List.map snd by0)) = ofWorkspace w done) ->
    let by1 := foldl (fun byWorkspace entry =>
                        groupPush (workspacePath entry) entry byWorkspace) by0 l in
    Permutation (concat (List.map snd by1)) (done ++ l)
    /\ forall w, ofWorkspace w (concat (List.map snd by1)) = ofWorkspace w (done ++ l)).
  { induction l as [|e l IH]; intros by0 done Hg Hperm Hof; simpl.
    - rewrite app_nil_r. auto.
    - destruct (groupPush_spec e by0 Hg) as (Hg' & _ & Hperm' & Hof').
      destruct (IH (groupPush (workspacePath e) e by0) (done ++ [e]) Hg') as (H1 & H2).
      + rewrite Hperm'. now rewrite Hperm.
      + intros w. rewrite Hof', Hof, ofWorkspace_app. reflexivity.
      + rewrite <- app_assoc in H1. split; [exact H1|].
        intros w. rewrite H2, <- app_assoc. reflexivity. }
  apply (H entries [] []).
  - split; [constructor|intros k es []].
  - reflexivity.
  - reflexivity.
Qed.

Lemma shownEntries_map toLocale now (b : bool) (l : list PromptHistoryEntry) :
  shownEntries (List.map (fun e => entryToQuickPickItem toLocale now e b) l) = l.
Proof.
  unfold shownEntries. induction l as [|e l IH]; [reflexivity|].
  simpl. f_equal. exact IH.
Qed.

Lemma shownEntries_app l1 l2 :
  shownEntries (l1 ++ l2) = shownEntries l1 ++ shownEntries l2.
Proof. unfold shownEntries. apply omap_app. Qed.

Lemma getQuickPickItems_shown toLocale now type cur store :
  shownEntries (getQuickPickItems toLocale now type cur store)
  = ofWorkspace cur (getHistory type store)
    ++ concat (List.map snd
         (groupByWorkspace
            (List.filter (fun e => negb (String.eqb (workspacePath e) cur))
               (getHistory type store)))).
Proof.
  unfold getQuickPickItems, ofWorkspace. rewrite shownEntries_app. f_equal.
  - destruct (List.filter _ (getHistory type store)) as [|e l] eqn:Hl;
      [reflexivity|].
    change (shownEntries (Separator "Current Workspace" :: ?l)) with (shownEntries l).
    apply shownEntries_map.
  - destruct (List.filter (fun e => negb _) (getHistory type store)) as [|e l] eqn:Hl;
      [reflexivity|].
    change (shownEntries (Separator "Other Workspaces" :: ?l)) with (shownEntries l).
    apply shownEntries_map.
Qed.

Lemma filter_partition_Permutation (f : PromptHistoryEntry -> bool) l :
  Permutation (List.filter f l ++ List.filter (fun e => negb (f e)) l) l.
Proof.
  induction l as [|x l IH]; [reflexivity|]. simpl.
  destruct (f x); simpl.
  - now constructor.
  - rewrite <- Permutation_middle. now constructor.
Qed.

Lemma ofWorkspace_filter_other w cur l :
  ofWorkspace w (List.filter (fun e => negb (String.eqb (workspacePath e) cur)) l)
  = if String.eqb cur w then [] else ofWorkspace w l.
Proof.
  unfold ofWorkspace. induction l as [|x l IH]; simpl.
  - now destruct (String.eqb cur w).
  - destruct (String.eqb_spec (workspacePath x) cur) as [Hc|Hc]; simpl;
      rewrite ?IH;
      destruct (String.eqb_spec cur w) as [Hw|Hw];
      destruct (String.eqb_spec (workspacePath x) w) as [Hxw|Hxw];
      simpl; congruence.
Qed.

Lemma ofWorkspace_idem w cur l :
  ofWorkspace w (ofWorkspace cur l) = if String.eqb cur w then ofWorkspace w l else [].
Proof.
  unfold ofWorkspace. induction l as [|x l IH]; simpl.
  - now destruct (String.eqb cur w).
  - destruct (String.eqb_spec (workspacePath x) cur) as [Hc|Hc]; simpl;
      rewrite ?IH;
      destruct (String.eqb_spec cur w) as [Hw|Hw];
      destruct (String.eqb_spec (workspacePath x) w) as [Hxw|Hxw];
      simpl; congruence.
Qed.

Lemma newlinesToSpaces_length s :
  String.length (newlinesToSpaces s) = String.length s.
Proof. induction s as [|c s IH]; simpl; [reflexivity|]. now rewrite IH. Qed.

Lemma newlinesToSpaces_no_line_feed s :
  lacks (ascii_of_nat 10) (newlinesToSpaces s) = true.
Proof.
  induction s as [|c s IH]; simpl; [reflexivity|]. rewrite IH, andb_true_r.
  destruct (Ascii.eqb c (ascii_of_nat 10)) eqn:Hc; [reflexivity|].
  now rewrite Hc.
Qed.

Lemma newlinesToSpaces_plain s :
  lacks (ascii_of_nat 10) s = true -> newlinesToSpaces s = s.
Proof.
  induction s as [|c s IH]; simpl; [reflexivity|].
  rewrite andb_true_iff, negb_true_iff. intros [Hc Hs].
  now rewrite Hc, IH.
Qed.

Lemma take_length_le n s : (String.length (Js.take n s) <= n)%nat.
Proof.
  revert s. induction n as [|n IH]; intros [|c s]; simpl; try lia.
  specialize (IH s). lia.
Qed.

Lemma entryToQuickPickItem_label toLocale now e b :
  (String.length (itemLabel (entryToQuickPickItem toLocale now e b)) <= 63)%nat
  /\ lacks (ascii_of_nat 10) (itemLabel (entryToQuickPickItem toLocale now e b)) = true.
Proof.
  unfold entryToQuickPickItem. cbv zeta. cbn [itemLabel].
  rewrite newlinesToSpaces_length. split; [|apply newlinesToSpaces_no_line_feed].
  destruct (60 <? String.length (text e))%nat eqn:Hlong.
  - rewrite string_length_append. pose proof (take_length_le 60 (text e)) as Hle.
    change (String.length "...") with 3%nat. lia.
  - apply Nat.ltb_ge in Hlong. lia.
Qed.

Lemma entryToQuickPickItem_plain toLocale now e b e' :
  itemEntry (entryToQuickPickItem toLocale now e b) = Some e' ->
  (String.length (text e') <= 60)%nat ->
  lacks (ascii_of_nat 10) (text e') = true ->
  itemLabel (entryToQuickPickItem toLocale now e b) = text e'.
Proof.
  unfold entryToQuickPickItem. cbv zeta. cbn [itemLabel itemEntry].
  intros [= <-] Hlen Hlf.
  apply Nat.ltb_ge in Hlen. rewrite Hlen. now apply newlinesToSpaces_plain.
Qed.

(** X25: the quick pick shows every entry once. The items of
    [getQuickPickItems] show exactly the entries of the history, each once:
    first those of the current workspace, then the others; within every
    workspace the entries keep the order of the history (most recent
    first). Every label holds at most 63 characters and no line feed; a
    text of at most 60 characters without a line feed is its own label,
    whatever else it holds (a carriage return is not replaced). *)
Theorem quick_pick_shows_every_entry_once
    (toLocaleDateString : Z -> string) (now : Z) (type : PromptType)
    (currentWorkspacePath : string) (store : Store) :
  let history := getHistory type store in
  let items := getQuickPickItems toLocaleDateString now type currentWorkspacePath store in
  Permutation (shownEntries items) history
  /\ (forall w, ofWorkspace w (shownEntries items) = ofWorkspace w history)
  /\ (exists others,
        shownEntries items = ofWorkspace currentWorkspacePath history ++ others
        /\ Forall (fun e => workspacePath e <> currentWorkspacePath) others)
  /\ (forall item, In item items ->
        (String.length (itemLabel item) <= 63)%nat
        /\ lacks (ascii_of_nat 10) (itemLabel item) = true)
  /\ (forall item e, In item items -> itemEntry item = Some e ->
        (String.length (text e) <= 60)%nat ->
        lacks (ascii_of_nat 10) (text e) = true ->
        itemLabel item = text e).
Proof.
  intros history items. subst items.
  rewrite getQuickPickItems_shown. fold history.
  set (others := List.filter (fun e => negb (String.eqb (workspacePath e)
                                              currentWorkspacePath)) history).
  destruct (groupByWorkspace_spec others) as (Hperm & Hof).
  split; [|split; [|split; [|split]]].
  - rewrite Hperm. apply filter_partition_Permutation.
  - intros w. rewrite ofWorkspace_app, Hof. subst others.
    rewrite ofWorkspace_idem, ofWorkspace_filter_other.
    destruct (String.eqb currentWorkspacePath w); [apply app_nil_r|reflexivity].
  - eexists. split; [reflexivity|].
    rewrite Forall_forall. intros e He.
    rewrite Hperm in He. subst others. apply list_elem_of_In in He.
    apply List.filter_In in He. destruct He as [_ He].
    apply negb_true_iff, String.eqb_neq in He. exact He.
  - intros item Hin. unfold getQuickPickItems in Hin. fold history in Hin.
    clearbody others. clear Hperm Hof.
    apply in_app_or in Hin as [Hin|Hin];
      match type of Hin with
      | In _ (match ?l with _ => _ end) => destruct l; [destruct Hin|]
      end;
      (destruct Hin as [<-|Hin]; [split; [simpl; lia|reflexivity]|]);
      apply in_map_iff in Hin as (e' & <- & _); apply entryToQuickPickItem_label.
  - intros item e Hin He Hlen Hlf. unfold getQuickPickItems in Hin.
    fold history in Hin. clearbody others. clear Hperm Hof.
    apply in_app_or in Hin as [Hin|Hin];
      match type of Hin with
      | In _ (match ?l with _ => _ end) => destruct l; [destruct Hin|]
      end;
      (destruct Hin as [<-|Hin]; [discriminate He|]);
      apply in_map_iff in Hin as (e' & <- & _);
      now apply entryToQuickPickItem_plain.
Qed.

(** X26: the quick pick is empty exactly when [isEmpty] says so. For a
    history without entries [getQuickPickItems] returns no item, not even a
    separator; for any other history the list starts with a separator,
    which carries no entry, and holds at least one item that does. *)
Theorem quick_pick_empty_iff_isEmpty
    (toLocaleDateString : Z -> string) (now : Z) (type : PromptType)
    (currentWorkspacePath : string) (store : Store) :
  let items := getQuickPickItems toLocaleDateString now type currentWorkspacePath store in
  (items = [] <-> isEmpty type store = true)
  /\ (forall item rest, items = item :: rest ->
        itemEntry item = None /\ shownEntries rest <> []).
Proof.
  intros items.
  assert (Hperm : Permutation (shownEntries items) (getHistory type store)).
  { subst items. rewrite getQuickPickItems_shown.
    destruct (groupByWorkspace_spec
                (List.filter (fun e => negb (String.eqb (workspacePath e)
                                               currentWorkspacePath))
                   (getHistory type store))) as (-> & _).
    apply filter_partition_Permutation. }
  assert (Hnil : getHistory type store = [] -> items = []).
  { intros Hh. subst items. unfold getQuickPickItems. now rewrite Hh. }
  assert (Hhead : items = [] \/ exists label rest, items = Separator label :: rest).
  { subst items. unfold getQuickPickItems.
    destruct (List.filter (fun e => String.eqb (workspacePath e) currentWorkspacePath)
                (getHistory type store)).
    - destruct (List.filter _ (getHistory type store)); [now left|].
      right. eexists _, _. reflexivity.
    - right. eexists _, _. reflexivity. }
  unfold isEmpty. rewrite bool_decide_eq_true, length_zero_iff_nil.
  split.
  - split; [|exact Hnil].
    intros Hi. rewrite Hi in Hperm. symmetry in Hperm.
    now apply Permutation_nil_r in Hperm.
  - intros item rest Hi. destruct Hhead as [Hn|(label & rest' & Hc)];
      [rewrite Hn in Hi; discriminate|].
    rewrite Hi in Hc. injection Hc as -> ->. split; [reflexivity|].
    intros Hrest. rewrite Hi in Hperm.
    change (shownEntries (Separator label :: rest')) with (shownEntries rest') in Hperm.
    rewrite Hrest in Hperm. symmetry in Hperm. apply Permutation_nil_r in Hperm.
    rewrite (Hnil Hperm) in Hi. discriminate.
Qed.

End PromptHistoryFacts.
